(* ===== verification/_CoqProject ===== *)
-Q . S2P
Prelude.v
Bytes.v
Crates.v
Channel.v
DtpPacket.v
Text.v
Net.v
Addr.v
Udp.v
Cmsg.v
Unix.v
UnixExamples.v
Dtp.v
DtpSpec.v
DtpProps.v
DtpClients.v
DtpExamples.v
Threads.v
Tasks.v
Tickets.v
DtpConcurrent.v
DtpRaces.v
DtpLedger.v
DtpLink.v
DtcpPacket.v
Dtcp.v
DtcpProps.v
DtcpExamples.v
Secure.v
SecureProps.v
SecureExamples.v
Negotiation.v
NegotiationProps.v
HandshakePacket.v
HandshakeExamples.v
TestChannel.v
ChannelTests.v
Efcp.v
EfcpReliable.v
Unreliable.v
Stack.v
StackExamples.v
EfcpProps.v
EfcpSocketProps.v
EfcpSocketExamples.v
Dialogue.v
EfcpAgreement.v
EfcpExamples.v
EfcpTasks.v
Shared.v
SharedExamples.v
Cancel.v
CancelExamples.v
Parties.v
Rounds.v
Conversation.v
Connect.v
DtpDuplex.v
EfcpConnect.v
Tests.v
SocketTests.v
EfcpTests.v
Notes.v
Debug.v
NotesProps.v
NotesExamples.v
