(* ===== verification/Prelude.v ===== *)
(** * Verification of rust-p2p/efcp

    The repository implements an error and flow control protocol over UDP as a
    stack of channels, each wrapping the one below:

    - crate addr: socket addresses with a multiaddr-like text form;
    - crate channel: the traits of packets and channels, a macro that derives
      what packet layers share, a loopback channel;
    - crate dtp: one UDP socket multiplexed into channels, named by the peer's
      address and a channel id, with explicit congestion notification;
    - crate dtcp: data runs, sequence numbers and timers over any channel;
    - crate efcp: an encrypted channel, a handshake that negotiates a protocol,
      and the socket that puts the layers together;
    - crate test-channel: a lossy channel for tests;
    - src/notes: an earlier draft of the protocol, with a packet format, flow
      control and reassembly of its own.

    ** Method

    The code is translated to functions that run in the monad [M] below: a
    call takes the state it can reach (for a method with [&self], the cells of
    the object, those behind mutexes and atomics included) and returns, fails
    with an error, waits, panics or runs out of fuel, with the state it leaves
    behind in the first three cases.  An option-valued function is one that
    may panic and touches no state.  Machine integers are [Z] with their
    wrap-around or overflow check written out; the bytes are the standard
    library's; [usize] lengths of buffers are not bounded, since no list of
    2^64 bytes exists.  Calls are atomic: what the code does under several
    locks one after the other is one step, and so is what an async function
    does from one end to the other.  Three parts of the model take calls apart.
    For the socket, whose calls run on several threads, DtpConcurrent.v has
    each call a second time, as the sequence of its critical sections, and
    runs the sections of any number of threads interleaved.  For the async
    functions of the layers above it, EfcpTasks.v has each function a second
    time, as the sequence of its sections between awaits; a task that awaits
    what is not there keeps its place and goes on from there when it is polled
    again, and a schedule polls two tasks in any order.  For one channel that
    many tasks use, Shared.v has [send] and [recv] a third time, cut at every
    lock and every atomic operation.  That the sections make up the call is a
    theorem for each ([sections_compose], [tasks_compose],
    [Efcp_SharedLaws]).

    What is not under src/ is a class of operations and a class of documented
    laws (Crates.v: bytes, byteorder, crossbeam, slab, disco; Cmsg.v, Unix.v:
    libc and its system calls; Udp.v: async-std's socket; Dtcp.v: the clock;
    TestChannel.v: the random number generator), each with an executable reference instance; the theorems hold
    for every instance with the laws, and the files named [...Examples.v], and
    the [...Example] modules, apply them to the reference instances.

    ** Files

    - Prelude.v: results, the monad, the build profile, shared tactics.
    - Bytes.v: bytes, big-endian integers, slices, mutable borrows.
    - Crates.v: the third-party crates.
    - Channel.v (src/channel/src/lib.rs): the traits as classes, the macro
      [derive_packet!], the [BytesMut] packet, the loopback channel.  The
      interfaces between layers: [PacketLaws], what a packet layer promises to
      the one above, discharged for every header layer at once by
      [header_packet_laws]; [ReliableChannel], what a channel that loses
      nothing promises to its client for payloads of admissible lengths,
      against which [reliable_run] is proved; [ends], the two ends of a layer
      over one medium.
    - DtpPacket.v (src/dtp/src/packet.rs).
    - Text.v, Net.v: the standard library's strings, integer parsing and
      printing, and IP addresses, as far as the code uses them.
    - Addr.v (src/addr/src/lib.rs): parsing, printing, conversions.
    - Udp.v (src/dtp/src/udp.rs, src/dtp/src/platform/mod.rs).
    - Cmsg.v, Unix.v (src/dtp/src/platform/cmsg.rs, unix.rs): control messages
      in a buffer of bytes, and the Unix implementation of the interface
      [UdpExt] of Udp.v over system calls; its laws are those the socket is
      verified against.  The sizes that [init_ext] asserts are not among the
      laws of the system: everything after it is proved from its having
      returned.  UnixExamples.v: a reference kernel.
    - Threads.v: computations that give up the state between sections, pools of
      them, and a rule of the rely-guarantee kind ([safe], [pool_step_ok]).
    - Tasks.v: such computations as tasks: polls, schedules, fairness
      ([fair n]: [n] times, the first is polled and later the second), and
      simulation of one task by another.  Tickets.v: any number of tasks on
      one state, started and dropped at any time, and a rule for what each of
      them has reserved ([holds], [shared_run_holds]).
    - Dtp.v (src/dtp/src/dtp.rs, src/dtp/src/lib.rs): the multiplexing socket.
      DtpSpec.v: its abstract specification, the invariant of its tables, the
      abstraction function, and a refinement lemma for each operation.
      DtpProps.v: refinement and safety of the whole interface, termination
      and liveness.  DtpClients.v: order of delivery over sequences of calls,
      ownership of channels, the wire format.  DtpExamples.v: a scenario.
    - DtpConcurrent.v (src/dtp/src/dtp.rs again): the calls by critical
      sections.  They make up the atomic calls ([sections_compose]); between
      threads they keep the tables in order as long as no channel is closed.
      DtpRaces.v: two races, evaluated.  DtpLedger.v: where every datagram
      is, with a log below the socket and a rule for what each thread has in
      its hands ([carries]).
    - DtpLink.v: the interface [Network], what two hosts see of a network that
      carries datagrams in order and without loss; over it a channel between
      two sockets is a [ReliableChannel].  A reference network.  DtpDuplex.v:
      the same channel in both directions, how the two sockets take it and
      give it back.
    - DtcpPacket.v, Dtcp.v (src/dtcp/src/packet.rs, src/dtcp/src/lib.rs): the
      packet; timers, builder and channel.  DtcpProps.v, DtcpExamples.v.
    - Secure.v (src/efcp/src/secure.rs): the encrypted channel.
      SecureProps.v, SecureExamples.v.
    - Negotiation.v (src/efcp/src/negotiation.rs, src/efcp/src/error.rs).
      NegotiationProps.v: agreement of two parties, robustness of one.
    - HandshakePacket.v (src/efcp/src/packet.rs): encoding and decoding.
      HandshakeExamples.v: both on concrete inputs.
    - Efcp.v (src/efcp/src/lib.rs): the initiator and the responder, the
      channel, the socket on top of Dtp.v.  The channel before and after the
      session has keys are DTCP over the inner channel, and DTCP over the
      encrypted channel over it.  EfcpProps.v: one party with an arbitrary
      peer.  EfcpReliable.v: the channel after the handshake is a
      [ReliableChannel].  Unreliable.v: it over a channel that loses, repeats
      and reorders.  Stack.v, StackExamples.v: it runs over DtpLink.v,
      the whole stack composed.  EfcpSocketProps.v, EfcpSocketExamples.v:
      what [dial] and [incoming] leave of the multiplexing socket.
      Dialogue.v: both layers on a scripted channel, and two parties run on
      what the other sends.  EfcpAgreement.v: two honest parties.
      EfcpExamples.v: an exchange, evaluated.
    - EfcpTasks.v (src/efcp/src/lib.rs, and the layers it uses): the async
      functions from the inner channel up to [dial] and [incoming], as tasks.
      Parties.v: a task makes the same steps on an end of a link as on a
      script of what the link delivers.  Rounds.v: the interface [Duplex] of a
      link with two ends; two tasks on it, under any fair schedule, go through
      the dialogue their runs on scripts make up.  Conversation.v: the two
      channels of a session used at both ends in any order refine a pair of
      queues.  Connect.v: the tasks of the handshake on any link.
      EfcpConnect.v: the tasks of [dial] and [incoming] on two multiplexing
      sockets; it puts EfcpAgreement.v, Rounds.v, DtpDuplex.v and
      Conversation.v together.
    - Shared.v (the [send] and [recv] of dtcp, secure.rs and EfcpChannel): one
      channel used by many tasks.  SharedExamples.v: channels that may be below
      it, the lossy one and one of the multiplexing socket, whose calls are
      atomic or cut at their locks as in DtpConcurrent.v; a run.
    - Cancel.v (src/efcp/src/lib.rs): the futures of [dial] and [incoming],
      polled and dropped.  CancelExamples.v.
    - TestChannel.v (src/test-channel/src/lib.rs): the lossy channel, with
      [f64] as IEEE 754 binary64.
    - ChannelTests.v (src/channel/src/lib.rs): the layers that the test module
      of the crate defines, and its test on any reliable channel.  Tests.v,
      SocketTests.v: the tests of the other crates as programs, run on
      concrete inputs, on a lossy channel with any random numbers, and on two
      sockets over the reference network.  EfcpTests.v: the test of the EFCP
      socket, with its two tasks under any fair schedule.
    - Debug.v (the [debug] of each layer's packet and the notes): what [{:?}]
      prints, and when it panics.
    - Notes.v (src/notes/packet.rs, dtcp.rs, dtp.rs): the draft.  NotesProps.v:
      its packet, receiving, sending, one flow with another.  NotesExamples.v.

    ** What the theorems show

    The socket implements the abstract socket and never panics from [bind] on;
    datagrams are delivered on their channel in order of arrival, none lost or
    duplicated; the receive loops end and hand out what arrives; a channel has
    one owner unless it comes from the backlog of announced channels. Calls of
    any number of threads keep the socket's invariant and never panic while no
    channel is closed, and every datagram is then delivered on its channel,
    queued on it, or in the hands of one thread ([datagrams_conserved]); a
    close can make a receive of another thread panic, and two receives can
    swap datagrams. Packet headers round-trip at every layer, control messages
    and the codepoint in them round-trip, and parsing of addresses and
    handshake packets is total and round-trips. DTCP, the encrypted channel,
    and the EFCP channel made of both are reliable over a reliable channel; a
    channel between two sockets is reliable over a network that delivers; so
    the stack of all four hands over the payloads sent, in order
    ([stack_delivers]); over a medium that loses, repeats and reorders they
    never panic and hand over nothing that was not sent ([efcp_integrity]);
    sequence numbers count modulo 2^16, nonces never repeat before 2^64; what
    the layers do not promise (duplicates and gaps in DTCP, replay in the
    encrypted channel, packets too short for their tag) is proved as well.
    Negotiation ends, and agrees on a common protocol exactly when there is
    one. Two honest parties complete the handshake over a link that delivers,
    with the same protocol, each other's keys and paired ciphers; with an
    arbitrary peer it ends, and only ever on a protocol of the own list; a
    peer that does not negotiate makes it panic. [dial] and [incoming] keep
    the multiplexing socket's invariant, and a handshake that fails gives its
    channel back. Composed over the whole stack ([sockets_connect]): two EFCP
    sockets, of which one dials and the other takes its next channel, as
    concurrent tasks under any fair schedule, get channels that agree and are
    a pair of queues from then on, or both the negotiation error when they
    have no protocol in common. Tasks that share one channel never use a nonce
    twice, and each packet on the wire belongs to a call of its own
    ([shared_nonces]). A future of [dial] or [incoming] that is dropped
    between two polls gives back the channel it has taken, and that only
    ([dial_cancel], [incoming_cancel]). The lossy channel of the tests
    delivers every packet never, once or twice, as its one random number says
    ([lossy_conserves]). The draft queues packets for reassembly in strictly
    increasing order and none twice, but panics on short datagrams, does not
    bound the queue of the closed window, and loses the first packet of a flow
    without flow control.

    ** Fuel

    The loops of [poll_incoming] and [poll_channel] receive datagrams until
    one is for them: their fuel bounds the iterations, and
    [poll_loops_terminate] shows that any fuel above the number of datagrams
    the system holds is enough and that more does not matter.  The loops that
    retry an interrupted system call are by well-founded recursion on how
    often calls will be interrupted.  The exchange of
    [negotiation_agrees] takes at most the number of protocols of both
    parties plus two messages.  The handshake takes three packets of the key
    exchange and then at most one answer per protocol of the party
    ([handshake_safe]).  The polls of Incoming_ready and DtpChannel_ready
    (DtpDuplex.v) have fuel for what is on its way to the socket.  How many
    rounds of a schedule two tasks need depends on their protocols only
    ([sockets_connect] gives the number before the schedule and the sockets).

    ** Not modelled

    - src/dtp/src/platform/fallback.rs, which does not compile: it does not
      have the types of the trait.
    - The layout of socket addresses that unix.rs casts between: reading the
      system's address as one of the standard library is a parameter.
    - The functions of src/notes whose bodies are comments (timers, control
      packets), and the sending it leaves out.
    - Wakers; [Display] of the builder of lossy channels and the other derived
      [Debug]s; a lock that a panic has poisoned.
    - The bytes of buffers that no write has reached. *)

From stdpp Require Export base option list numbers strings gmap sets.
From Stdlib Require Export ZArith Lia.

#[global] Open Scope Z_scope.

(** ** Results, io errors *)

(** Rust's [Result] and [Poll] (without the task context). *)
Inductive result (A E : Type) : Type :=
| Ok (a : A)
| Err (e : E).
Arguments Ok {A E} a.
Arguments Err {A E} e.

Inductive poll (A : Type) : Type :=
| Ready (a : A)
| Pending.
Arguments Ready {A} a.
Arguments Pending {A}.

(** The [std::io::ErrorKind]s the code names; every other kind is [Listed n]. *)
Inductive ErrorKind : Type :=
| Other
| WouldBlock
| Interrupted
| Listed (n : Z).

#[export] Instance ErrorKind_eq_dec : EqDecision ErrorKind.
Proof. solve_decision. Defined.

(** [std::io::Error]: a kind and, for [Error::new], its message. *)
Record io_error : Type := IoError { io_kind : ErrorKind; io_msg : string }.

#[export] Instance io_error_eq_dec : EqDecision io_error.
Proof. solve_decision. Defined.

(** ** The effect monad

    A call of the modelled code on a state [s] ends in one of five ways:
    - [Return a s']  it returns [a] (for a fallible function: [Ok a]);
    - [Throw e s']   it returns [Err e], by [?] or by [return Err];
    - [Suspend s']   it is [Poll::Pending], or an [.await] that the events
                     available do not complete;
    - [Panic]        it panics (a failed assertion, an index out of range,
                     an [unwrap] of [None], [unreachable!]);
    - [Diverge]      a loop has not ended within the fuel given.
    The state reached is kept in the first three cases, since the code mutates
    shared state in place and an early return does not undo it. *)
Inductive outcome (E S A : Type) : Type :=
| Return (a : A) (s : S)
| Throw (e : E) (s : S)
| Suspend (s : S)
| Panic
| Diverge.
Arguments Return {E S A} a s.
Arguments Throw {E S A} e s.
Arguments Suspend {E S A} s.
Arguments Panic {E S A}.
Arguments Diverge {E S A}.

Definition M (E S A : Type) : Type := S → outcome E S A.

#[export] Instance M_ret E S : MRet (M E S) := λ A a s, Return a s.

#[export] Instance M_bind E S : MBind (M E S) := λ A B f m s,
  match m s with
  | Return a s' => f a s'
  | Throw e s' => Throw e s'
  | Suspend s' => Suspend s'
  | Panic => Panic
  | Diverge => Diverge
  end.

Section primitives.
Context {E S : Type}.

Definition get_state : M E S S := λ s, Return s s.
Definition gets {A} (f : S → A) : M E S A := λ s, Return (f s) s.
Definition set_state (s' : S) : M E S () := λ _, Return () s'.
Definition modify (f : S → S) : M E S () := λ s, Return () (f s).
Definition throw {A} (e : E) : M E S A := λ s, Throw e s.
Definition suspend {A} : M E S A := λ s, Suspend s.
Definition panic {A} : M E S A := λ _, Panic.
Definition diverge {A} : M E S A := λ _, Diverge.

(** [unwrap] of an option; a slice operation that may be out of range. *)
Definition unwrap {A} (o : option A) : M E S A :=
  match o with Some a => mret a | None => panic end.

(** The [?] operator on a [Result]. *)
Definition try {A} (r : result A E) : M E S A :=
  match r with Ok a => mret a | Err e => throw e end.

(** [assert!]. *)
Definition assert (b : bool) : M E S () := if b then mret () else panic.

(** A computation on a component of the state. *)
Definition zoom {T A} (g : S → T) (p : T → S → S) (m : M E T A) : M E S A :=
  λ s, match m (g s) with
       | Return a t => Return a (p t s)
       | Throw e t => Throw e (p t s)
       | Suspend t => Suspend (p t s)
       | Panic => Panic
       | Diverge => Diverge
       end.
End primitives.

(** Run a computation symbolically: with the monad's operations unfolded, what
    remains is a case analysis on the outcomes of the calls. *)
Ltac run_monad := unfold get_state, gets, set_state, modify, mbind, M_bind.
Ltac run_monad_in H := unfold get_state, gets, set_state, modify, mbind, M_bind in H.

Tactic Notation "run" := run_monad.
Tactic Notation "run" "in" "*" := unfold get_state, gets, set_state, modify, mbind, M_bind in *.
Tactic Notation "run" "in" hyp(H) := run_monad_in H.

(** [map_err]: the error type changes, nothing else does. *)
Definition map_err {E E' S A} (f : E → E') (m : M E S A) : M E' S A :=
  λ s, match m s with
       | Return a s' => Return a s'
       | Throw e s' => Throw (f e) s'
       | Suspend s' => Suspend s'
       | Panic => Panic
       | Diverge => Diverge
       end.

(** Outcomes in which nothing panicked. *)
Definition no_panic {E S A} (o : outcome E S A) : Prop :=
  match o with Panic => False | _ => True end.

(** Outcomes that end: the fuel was enough. *)
Definition terminates {E S A} (o : outcome E S A) : Prop :=
  match o with Diverge => False | _ => True end.

(** The state an outcome leaves behind, where it leaves one. *)
Definition final {E S A} (o : outcome E S A) : option S :=
  match o with
  | Return _ s | Throw _ s | Suspend s => Some s
  | _ => None
  end.

(** [yields I D Q m]: from every state with the invariant [I], [m] ends in one
    with [I], what it returns has [Q], and it runs out of fuel only if [D]. *)
Definition yields {E S A} (I : S → Prop) (D : Prop) (Q : A → Prop) (m : M E S A) : Prop :=
  ∀ s, I s →
  match m s with
  | Return a s' => Q a ∧ I s'
  | Throw _ s' | Suspend s' => I s'
  | Panic => True
  | Diverge => D
  end.

Section yields.
Context {E S : Type} (I : S → Prop) (D : Prop).

Lemma yields_mono {A} (Q R : A → Prop) (m : M E S A) :
  yields I D Q m → (∀ a, Q a → R a) → yields I D R m.
Proof. intros Hm HQ s Hs. specialize (Hm s Hs). destruct (m s); naive_solver. Qed.

Lemma yields_ret {A} (Q : A → Prop) (a : A) : Q a → yields (E:=E) I D Q (mret a).
Proof. by intros ? s. Qed.

Lemma yields_bind {A B} (Q : A → Prop) (R : B → Prop) (m : M E S A) (f : A → M E S B) :
  yields I D Q m → (∀ a, Q a → yields I D R (f a)) → yields I D R (m ≫= f).
Proof.
  intros Hm Hf s Hs. specialize (Hm s Hs). unfold mbind, M_bind.
  destruct (m s) as [a s'| | | |]; [|done..]. destruct Hm. by apply Hf.
Qed.

Lemma yields_throw {A} (Q : A → Prop) (e : E) : yields I D Q (throw e).
Proof. by intros s. Qed.

Lemma yields_suspend {A} (Q : A → Prop) : yields (E:=E) I D Q suspend.
Proof. by intros s. Qed.

Lemma yields_panic {A} (Q : A → Prop) : yields (E:=E) I D Q panic.
Proof. by intros s. Qed.

Lemma yields_unwrap {A} (Q : A → Prop) (o : option A) :
  (∀ a, o = Some a → Q a) → yields (E:=E) I D Q (unwrap o).
Proof. destruct o; intros Ho s Hs; [split; [by apply Ho|done]|done]. Qed.

Lemma yields_try {A} (Q : A → Prop) (r : result A E) :
  (∀ a, r = Ok a → Q a) → yields I D Q (try r).
Proof. destruct r; intros Hr s Hs; [split; [by apply Hr|done]|done]. Qed.

Lemma yields_get (Q : S → Prop) : (∀ s, I s → Q s) → yields (E:=E) I D Q get_state.
Proof. intros HQ s Hs. split; [by apply HQ|done]. Qed.

Lemma yields_gets {A} (f : S → A) : yields (E:=E) I D (λ _, True) (gets f).
Proof. by intros s. Qed.

Lemma yields_zoom {T A} (J : T → Prop) (Q : A → Prop) (g : S → T) p (m : M E T A) :
  (∀ s, I s → J (g s)) → (∀ s t, I s → J t → I (p t s)) →
  yields J D Q m → yields I D Q (zoom g p m).
Proof.
  intros Hg Hp Hm s Hs. specialize (Hm (g s) (Hg s Hs)). unfold zoom.
  destruct (m (g s)); naive_solver.
Qed.

Lemma yields_map_err {E' A} (Q : A → Prop) (f : E' → E) (m : M E' S A) :
  yields I D Q m → yields I D Q (map_err f m).
Proof. intros Hm s Hs. specialize (Hm s Hs). unfold map_err. by destruct (m s). Qed.
End yields.

(** One step of a computation, and the steps that yield anything. *)
Ltac yields_then tac :=
  lazymatch goal with |- yields _ _ _ (_ ≫= _) => idtac end;
  eapply (yields_bind _ _ (λ _, True)); [solve [tac]|intros ? _];
  repeat match goal with |- yields _ _ _ (match ?x with pair _ _ => _ end) => is_var x; destruct x end.

Ltac yields_steps :=
  repeat yields_then ltac:(first [by apply yields_gets | by apply yields_unwrap | by apply yields_try
    | by apply yields_get]).

(** ** The build

    [debug_assert!] and the overflow checks of integer arithmetic are compiled
    in or out together, as in Cargo's dev and release profiles. *)
Class Profile : Type := { debug_assertions : bool }.

Definition dev : Profile := {| debug_assertions := true |}.
Definition release : Profile := {| debug_assertions := false |}.

(** ** Shared automation

    [lens]: the lengths of lists, by rewriting and linear arithmetic. *)
Create HintDb lens.
#[export] Hint Rewrite @length_app @length_take @length_drop @length_replicate
  @length_insert @length_fmap : lens.

Ltac solve_length := cbn [length]; autorewrite with lens; cbn [length]; autorewrite with lens; lia.
