(* ===== verification/Bytes.v ===== *)
(** * Bytes, machine integers and slices

    Bytes are the standard library's 256-element type, with a view as integers;
    wider machine integers are [Z] with their wrap-around written out.  Big-endian
    encoding, immutable slices and mutable borrows of byte strings, which the
    packet layers share. *)

From Stdlib Require Strings.Byte.
From S2P Require Export Prelude.

(** ** Bytes and machine integers *)

Abbreviation byte := Byte.byte.

#[export] Instance byte_eq_dec : EqDecision byte := Byte.byte_eq_dec.

(** A [u8] read as an integer, and an integer cast with [as u8]. *)
Definition b2z (b : byte) : Z := Z.of_N (Byte.to_N b).
Definition z2b (z : Z) : byte := default Byte.x00 (Byte.of_N (Z.to_N (z mod 256))).

(** Wrap-around of a [w]-bit unsigned integer, and its range. *)
Definition wrap (w z : Z) : Z := z mod 2 ^ w.
Definition fits (w z : Z) : Prop := 0 ≤ z < 2 ^ w.

(** [a + b] in [w] bits: checked in a dev build, wrapping in a release. *)
Definition int_add `{Profile} (w a b : Z) : option Z :=
  if debug_assertions && (2 ^ w <=? a + b) then None else Some (wrap w (a + b)).

Lemma b2z_bound b : 0 ≤ b2z b < 256.
Proof. unfold b2z. pose proof (Byte.to_N_bounded b). lia. Qed.

Lemma b2z_z2b z : b2z (z2b z) = z mod 256.
Proof.
  unfold z2b, b2z. pose proof (Z.mod_pos_bound z 256 ltac:(lia)) as Hz.
  destruct (Byte.of_N (Z.to_N (z mod 256))) as [b|] eqn:Eb; cbn [from_option id].
  - apply Byte.to_of_N in Eb. rewrite Eb. lia.
  - apply Byte.of_N_None_iff in Eb. lia.
Qed.

Lemma z2b_b2z b : z2b (b2z b) = b.
Proof.
  unfold z2b. rewrite Z.mod_small by apply b2z_bound.
  unfold b2z. by rewrite N2Z.id; destruct b.
Qed.

#[export] Instance b2z_inj : Inj (=) (=) b2z.
Proof. intros a b H. by rewrite <-(z2b_b2z a), H, z2b_b2z. Qed.

Lemma b2z_small z : 0 ≤ z < 256 → b2z (z2b z) = z.
Proof. intros. by rewrite b2z_z2b, Z.mod_small. Qed.

#[export] Instance byte_countable : Countable byte.
Proof.
  refine (inj_countable' b2z z2b _). apply z2b_b2z.
Defined.

(** The big-endian value of a byte string, and the [n] low bytes of an
    integer in big-endian order. *)
Definition be_value (l : list byte) : Z := foldl (λ acc b, acc * 256 + b2z b) 0 l.

Fixpoint be_bytes (n : nat) (z : Z) : list byte :=
  match n with
  | O => []
  | S m => z2b (z / 2 ^ (8 * Z.of_nat m)) :: be_bytes m z
  end.

Lemma length_be_bytes n z : length (be_bytes n z) = n.
Proof. induction n; cbn; congruence. Qed.

#[export] Hint Rewrite length_be_bytes : lens.

Lemma be_value_acc l acc :
  foldl (λ acc b, acc * 256 + b2z b) acc l = acc * 2 ^ (8 * Z.of_nat (length l)) + be_value l.
Proof.
  unfold be_value. revert acc. induction l as [|b l IH]; intros acc; cbn [foldl length].
  - cbn. lia.
  - rewrite IH, (IH (0 * 256 + b2z b)).
    replace (8 * Z.of_nat (S (length l))) with (8 + 8 * Z.of_nat (length l)) by lia.
    rewrite Z.pow_add_r by lia. change (2 ^ 8) with 256. lia.
Qed.

Lemma be_value_cons b l :
  be_value (b :: l) = b2z b * 2 ^ (8 * Z.of_nat (length l)) + be_value l.
Proof. unfold be_value at 1. cbn [foldl]. rewrite be_value_acc. lia. Qed.

Lemma be_value_bound l : 0 ≤ be_value l < 2 ^ (8 * Z.of_nat (length l)).
Proof.
  induction l as [|b l IH]; [cbn; lia|].
  rewrite be_value_cons. cbn [length]. pose proof (b2z_bound b).
  replace (8 * Z.of_nat (S (length l))) with (8 + 8 * Z.of_nat (length l)) by lia.
  rewrite Z.pow_add_r by lia. change (2 ^ 8) with 256.
  pose proof (Z.pow_pos_nonneg 2 (8 * Z.of_nat (length l)) ltac:(lia) ltac:(lia)). nia.
Qed.

(** Encoding then decoding reduces the integer to its width. *)
Lemma be_value_bytes n z : be_value (be_bytes n z) = wrap (8 * Z.of_nat n) z.
Proof.
  unfold wrap. induction n as [|n IH]; [cbn; by rewrite Z.mod_1_r|].
  cbn [be_bytes]. rewrite be_value_cons, length_be_bytes, IH, b2z_z2b.
  set (p := 2 ^ (8 * Z.of_nat n)).
  replace (8 * Z.of_nat (S n)) with (8 * Z.of_nat n + 8) by lia.
  rewrite Z.pow_add_r by lia. fold p. change (2 ^ 8) with 256.
  assert (0 < p) by (apply Z.pow_pos_nonneg; lia).
  rewrite Z.rem_mul_r by lia. lia.
Qed.

Lemma be_value_bytes_small n z :
  fits (8 * Z.of_nat n) z → be_value (be_bytes n z) = z.
Proof. intros. rewrite be_value_bytes. by apply Z.mod_small. Qed.

(** Decoding then encoding is the identity on strings of the length. *)
Lemma be_bytes_mod n z : be_bytes n (z mod 2 ^ (8 * Z.of_nat n)) = be_bytes n z.
Proof.
  assert (∀ m k, (m ≤ k)%nat →
    be_bytes m (z mod 2 ^ (8 * Z.of_nat k)) = be_bytes m z) as H; [|by apply H].
  induction m as [|m IH]; intros k Hk; cbn [be_bytes]; [done|].
  rewrite IH by lia. f_equal. apply (inj b2z). rewrite !b2z_z2b.
  replace (8 * Z.of_nat k) with (8 * Z.of_nat m + 8 * (Z.of_nat k - Z.of_nat m)) by lia.
  set (p := 2 ^ (8 * Z.of_nat m)).
  assert (0 < p) by (apply Z.pow_pos_nonneg; lia).
  rewrite Z.pow_add_r by lia. fold p.
  replace (8 * (Z.of_nat k - Z.of_nat m)) with (8 + 8 * (Z.of_nat k - Z.of_nat m - 1)) by lia.
  rewrite Z.pow_add_r by lia. change (2 ^ 8) with 256.
  set (q := 2 ^ (8 * (Z.of_nat k - Z.of_nat m - 1))).
  assert (0 < q) by (apply Z.pow_pos_nonneg; lia).
  rewrite Z.rem_mul_r by nia.
  replace (z mod p + p * ((z / p) mod (256 * q))) with (((z / p) mod (256 * q)) * p + z mod p) by lia.
  rewrite Z.div_add_l by lia. rewrite (Z.div_small (z mod p)) by (apply Z.mod_pos_bound; lia).
  rewrite Z.add_0_r. rewrite (Z.rem_mul_r (z / p) 256 q) by lia.
  by rewrite (Z.mul_comm 256 (_ mod q)), Z.mod_add, Z.mod_mod by lia.
Qed.

Lemma be_bytes_value l : be_bytes (length l) (be_value l) = l.
Proof.
  induction l as [|b l IH]; [done|]. cbn [length be_bytes].
  rewrite be_value_cons. set (p := 2 ^ (8 * Z.of_nat (length l))).
  assert (0 < p) by (apply Z.pow_pos_nonneg; lia).
  pose proof (be_value_bound l) as Hl. fold p in Hl. f_equal.
  - rewrite Z.div_add_l, Z.div_small by lia. rewrite Z.add_0_r. apply z2b_b2z.
  - rewrite <-be_bytes_mod. fold p. rewrite Z.add_comm, Z.mod_add by lia.
    by rewrite Z.mod_small.
Qed.

(** ** Slices

    An immutable slice is the list of its bytes; a slicing expression that is
    out of range panics, so it is an option here.  A mutable slice is a
    borrow: the bytes it shows and the write-back that gives the owner once
    the borrow ends. *)
Definition slice_from {A} (i : nat) (l : list A) : option (list A) :=
  if bool_decide (i ≤ length l)%nat then Some (drop i l) else None.

Definition slice_to {A} (j : nat) (l : list A) : option (list A) :=
  if bool_decide (j ≤ length l)%nat then Some (take j l) else None.

Definition slice {A} (i j : nat) (l : list A) : option (list A) :=
  if bool_decide (i ≤ j ≤ length l)%nat then Some (take (j - i) (drop i l)) else None.

(** [l[i] = x]: out of range it panics. *)
Definition set_index {A} (i : nat) (x : A) (l : list A) : option (list A) :=
  if bool_decide (i < length l)%nat then Some (<[i := x]> l) else None.

(** Overwrite [l[i .. i + length s]] with [s]. *)
Definition splice {A} (i : nat) (s l : list A) : list A :=
  take i l ++ s ++ drop (i + length s) l.

(** [l[i..j].copy_from_slice(s)]: panics out of range or on a length mismatch. *)
Definition copy_from_slice {A} (i j : nat) (s l : list A) : option (list A) :=
  if bool_decide ((i ≤ j ≤ length l)%nat ∧ length s = (j - i)%nat)
  then Some (splice i s l) else None.

Record borrow (P : Type) : Type := Borrow { view : list byte; give_back : list byte → P }.
Arguments Borrow {P} view give_back.
Arguments view {P} _.
Arguments give_back {P} _ _.

(** [&mut s[i..]] of a mutable slice [s]. *)
Definition borrow_from {P} (i : nat) (b : borrow P) : option (borrow P) :=
  if bool_decide (i ≤ length (view b))%nat
  then Some (Borrow (drop i (view b)) (λ s, give_back b (take i (view b) ++ s)))
  else None.

(** A fallible update through the borrow, which then ends. *)
Definition update_borrow {P} (f : list byte → option (list byte)) (b : borrow P) : option P :=
  s ← f (view b); Some (give_back b s).

Lemma slice_from_Some {A} i (l r : list A) :
  slice_from i l = Some r ↔ (i ≤ length l)%nat ∧ r = drop i l.
Proof. unfold slice_from. case_bool_decide; naive_solver. Qed.

Lemma slice_from_None {A} i (l : list A) : slice_from i l = None ↔ (length l < i)%nat.
Proof. unfold slice_from. case_bool_decide; split; intros; try done; lia. Qed.

Lemma length_splice {A} i (s l : list A) :
  (i + length s ≤ length l)%nat → length (splice i s l) = length l.
Proof. intros. unfold splice. solve_length. Qed.

Lemma drop_splice_ge {A} i j (s l : list A) :
  (i + length s ≤ j)%nat → (i + length s ≤ length l)%nat → drop j (splice i s l) = drop j l.
Proof.
  intros. unfold splice. rewrite app_assoc, drop_app_ge.
  - rewrite drop_drop. f_equal. solve_length.
  - solve_length.
Qed.

Lemma take_splice_le {A} i j (s l : list A) : (j ≤ i)%nat → (i ≤ length l)%nat →
  take j (splice i s l) = take j l.
Proof.
  intros. unfold splice. rewrite take_app_le by solve_length.
  rewrite take_take. f_equal. lia.
Qed.

Lemma slice_splice {A} i (s l : list A) :
  (i + length s ≤ length l)%nat → slice i (i + length s) (splice i s l) = Some s.
Proof.
  intros. unfold slice. rewrite bool_decide_true by (rewrite length_splice by lia; lia).
  f_equal. unfold splice. rewrite drop_app_ge by solve_length.
  rewrite length_take, Nat.min_l, Nat.sub_diag, drop_0 by lia.
  by rewrite take_app_le, take_ge by lia.
Qed.

(** The owner of a borrow seen through a function, as when a wrapper lends
    what it wraps. *)
Definition borrow_map {P Q} (f : P → Q) (b : borrow P) : borrow Q :=
  Borrow (view b) (λ s, f (give_back b s)).

Lemma borrow_from_Some {P} i (b b' : borrow P) :
  borrow_from i b = Some b' ↔
    (i ≤ length (view b))%nat ∧
    b' = Borrow (drop i (view b)) (λ s, give_back b (take i (view b) ++ s)).
Proof. unfold borrow_from. case_bool_decide; naive_solver. Qed.

Lemma slice_from_app {A} i (l s r : list A) :
  slice_from i l = Some r → slice_from i (l ++ s) = Some (r ++ s).
Proof.
  rewrite !slice_from_Some, length_app. intros [? ->]. split; [lia|].
  by rewrite drop_app_le.
Qed.

Lemma slice_from_take_app {A} i (l s : list A) :
  (i ≤ length l)%nat → slice_from i (take i l ++ s) = Some s.
Proof.
  intros. apply slice_from_Some. rewrite length_app, length_take. split; [lia|].
  by rewrite drop_app_ge, length_take, Nat.min_l, Nat.sub_diag by solve_length.
Qed.
