(* ===== verification/Crates.v ===== *)
(** * The third-party crates the repository builds on

    Nothing of these crates is under src/, so each is a class of operations, a
    parameter of every definition that calls them, and a class of laws: the
    documented behaviour the repository relies on.  Each law class has an
    executable reference instance at the end of the file; the witnesses of the
    development compute with those instances.

    - [BufMut], [BytesCrate]: crate bytes 0.4 ([BufMut], [BytesMut]);
    - [ByteOrderCrate]: crate byteorder ([BigEndian]);
    - [SegQueueCrate]: crate crossbeam ([queue::SegQueue]);
    - [SlabCrate]: crate slab;
    - [DiscoCrate]: crate disco ([StatelessTransportState]). *)

From S2P Require Export Bytes.

(** ** bytes *)

(** The three required methods of the trait [BufMut]; [bytes_mut_write s p] is
    [p] after [s] was stored at the start of the slice [p.bytes_mut()]. *)
Class BufMut (P : Type) : Type := {
  remaining_mut : P → Z;
  advance_mut : Z → P → P;
  bytes_mut_write : list byte → P → P
}.

(** [BytesMut], and the provided methods of [BufMut], generic in the
    implementation of the required ones.  An option is a panic. *)
Class BytesCrate : Type := {
  BytesMut : Type;
  BytesMut_BufMut :: BufMut BytesMut;
  with_capacity : Z → BytesMut;
  deref : BytesMut → list byte;
  deref_mut : BytesMut → borrow BytesMut;
  set_len : Z → BytesMut → BytesMut;
  put_slice : ∀ {P} {B : BufMut P}, list byte → P → option P;
  put : ∀ {P} {B : BufMut P}, list byte → P → option P;
  put_u8 : ∀ {P} {B : BufMut P}, byte → P → option P;
  put_u16_be : ∀ {P} {B : BufMut P}, Z → P → option P;
  put_u64_be : ∀ {P} {B : BufMut P}, Z → P → option P
}.

(** What appending [s] does to the required methods of a [BufMut]. *)
Definition append `{BufMut P} (s : list byte) (p : P) : P :=
  advance_mut (Z.of_nat (length s)) (bytes_mut_write s p).

Class BytesLaws (BC : BytesCrate) : Prop := {
  deref_with_capacity n : 0 ≤ n → deref (with_capacity n) = [];
  remaining_with_capacity n : 0 ≤ n → n ≤ remaining_mut (with_capacity n);
  deref_append s (b : BytesMut) : Z.of_nat (length s) ≤ remaining_mut b →
    deref (append s b) = deref b ++ s;
  remaining_append s (b : BytesMut) : Z.of_nat (length s) ≤ remaining_mut b →
    remaining_mut (append s b) = remaining_mut b - Z.of_nat (length s);
  view_deref_mut b : view (deref_mut b) = deref b;
  deref_give_back s b : length s = length (deref b) →
    deref (give_back (deref_mut b) s) = s;
  remaining_give_back s b : length s = length (deref b) →
    remaining_mut (give_back (deref_mut b) s) = remaining_mut b;
  deref_set_len s n (b : BytesMut) : deref b = [] →
    Z.of_nat (length s) ≤ remaining_mut b → 0 ≤ n ≤ Z.of_nat (length s) →
    deref (set_len n (bytes_mut_write s b)) = take (Z.to_nat n) s;
  put_slice_spec `{BufMut P} s (p : P) :
    put_slice s p = if bool_decide (Z.of_nat (length s) ≤ remaining_mut p)
                    then Some (append s p) else None;
  put_spec `{BufMut P} s (p : P) : put s p = put_slice s p;
  put_u8_spec `{BufMut P} b (p : P) : put_u8 b p = put_slice [b] p;
  put_u16_be_spec `{BufMut P} n (p : P) : put_u16_be n p = put_slice (be_bytes 2 n) p;
  put_u64_be_spec `{BufMut P} n (p : P) : put_u64_be n p = put_slice (be_bytes 8 n) p
}.

(** Two more operations of [BytesMut]: [BytesMut::from] of a slice, and
    [split_to n], which splits the first [n] bytes off and panics if there are
    fewer. *)
Class BytesSplit (BC : BytesCrate) : Type := {
  bytes_from : list byte → BytesMut;
  split_to : nat → BytesMut → option (BytesMut * BytesMut)
}.

Class BytesSplitLaws {BC : BytesCrate} (BS : BytesSplit BC) : Prop := {
  deref_from s : deref (bytes_from s) = s;
  split_to_short n b : (length (deref b) < n)%nat → split_to n b = None;
  split_to_spec n b : (n ≤ length (deref b))%nat →
    ∃ b1 b2, split_to n b = Some (b1, b2) ∧
      deref b1 = take n (deref b) ∧ deref b2 = drop n (deref b)
}.

(** ** byteorder: [BigEndian::{read,write}_{u16,u64}], which panic on a slice
    that is too short. *)
Class ByteOrderCrate : Type := {
  read_u16 : list byte → option Z;
  write_u16 : Z → list byte → option (list byte);
  read_u64 : list byte → option Z;
  write_u64 : Z → list byte → option (list byte)
}.

Definition be_read (n : nat) (l : list byte) : option Z :=
  if bool_decide (n ≤ length l)%nat then Some (be_value (take n l)) else None.

Definition be_write (n : nat) (z : Z) (l : list byte) : option (list byte) :=
  if bool_decide (n ≤ length l)%nat then Some (be_bytes n z ++ drop n l) else None.

Class ByteOrderLaws (BO : ByteOrderCrate) : Prop := {
  read_u16_spec l : read_u16 l = be_read 2 l;
  write_u16_spec z l : write_u16 z l = be_write 2 z l;
  read_u64_spec l : read_u64 l = be_read 8 l;
  write_u64_spec z l : write_u64 z l = be_write 8 z l
}.

(** ** crossbeam: the unbounded lock-free queue.  [sq_items] is the queue's
    contents, front first; no modelled code uses it. *)
Class SegQueueCrate : Type := {
  SegQueue : Type → Type;
  sq_new : ∀ {A}, SegQueue A;
  sq_push : ∀ {A}, A → SegQueue A → SegQueue A;
  sq_pop : ∀ {A}, SegQueue A → option (A * SegQueue A);
  sq_items : ∀ {A}, SegQueue A → list A
}.

Class SegQueueLaws (SQ : SegQueueCrate) : Prop := {
  sq_items_new A : sq_items (A:=A) sq_new = [];
  sq_items_push A (x : A) q : sq_items (sq_push x q) = sq_items q ++ [x];
  sq_pop_empty A (q : SegQueue A) : sq_items q = [] → sq_pop q = None;
  sq_pop_cons A (q : SegQueue A) x l : sq_items q = x :: l →
    ∃ q', sq_pop q = Some (x, q') ∧ sq_items q' = l
}.

(** ** slab: pre-allocated storage with integer keys.  [slab_insert] returns
    the key it chose, [slab_set] is a write through [get_mut], and
    [slab_remove] panics on a vacant key.  [slab_entries] is the set of
    occupied entries; no modelled code uses it. *)
Class SlabCrate : Type := {
  Slab : Type → Type;
  slab_new : ∀ {A}, Slab A;
  slab_insert : ∀ {A}, A → Slab A → nat * Slab A;
  slab_get : ∀ {A}, nat → Slab A → option A;
  slab_set : ∀ {A}, nat → A → Slab A → Slab A;
  slab_remove : ∀ {A}, nat → Slab A → option (A * Slab A);
  slab_entries : ∀ {A}, Slab A → gmap nat A
}.

Class SlabLaws (SL : SlabCrate) : Prop := {
  slab_entries_new A : slab_entries (A:=A) slab_new = ∅;
  slab_insert_fresh A (x : A) s :
    slab_entries s !! (slab_insert x s).1 = None;
  slab_entries_insert A (x : A) s :
    slab_entries (slab_insert x s).2 = <[(slab_insert x s).1 := x]> (slab_entries s);
  slab_get_spec A k (s : Slab A) : slab_get k s = slab_entries s !! k;
  slab_entries_set A k (x : A) s : is_Some (slab_entries s !! k) →
    slab_entries (slab_set k x s) = <[k := x]> (slab_entries s);
  slab_remove_vacant A k (s : Slab A) : slab_entries s !! k = None → slab_remove k s = None;
  slab_remove_spec A k (s : Slab A) x : slab_entries s !! k = Some x →
    ∃ s', slab_remove k s = Some (x, s') ∧ slab_entries s' = delete k (slab_entries s)
}.

(** ** disco: encryption of messages with explicit nonces.

    [transport_write t n m] encrypts the slice [m] in place under the nonce
    [n]: the slice afterwards, and the tag.  [transport_read t n c tag] is the
    slice after decryption, and whether the tag was right. *)
Class DiscoCrate : Type := {
  TAG_LEN : nat;
  ReadError : Type;
  read_error_debug : ReadError → string;
  StatelessTransportState : Type;
  transport_write : StatelessTransportState → Z → list byte → list byte * list byte;
  transport_read : StatelessTransportState → Z → list byte → list byte →
    list byte * result () ReadError
}.

(** The slices are encrypted and decrypted in place, so lengths do not change;
    [paired t t']: the two ends of a session, where [t'] reads what [t]
    writes. *)
Class DiscoLaws (DC : DiscoCrate) : Type := {
  paired : StatelessTransportState → StatelessTransportState → Prop;
  transport_write_length t n m : length (transport_write t n m).1 = length m;
  transport_tag_length t n m : length (transport_write t n m).2 = TAG_LEN;
  transport_read_length t n c tag : length (transport_read t n c tag).1 = length c;
  transport_read_write t t' n m c tag : paired t t' → fits 64 n →
    transport_write t n m = (c, tag) → transport_read t' n c tag = (m, Ok ())
}.

(** Handshakes of the pattern XK1sig: the session of an initiator, who knows
    the responder's key, and of a responder.  [session_write] encrypts a
    payload into the next handshake message, [session_read] is its inverse on
    the other side; [remote_static] is [get_remote_static] with [ed25519]. *)
Class DiscoSession (DC : DiscoCrate) : Type := {
  Keypair : Type;
  PublicKey : Type;
  public : Keypair → PublicKey;
  Session : Type;
  build_initiator : Keypair → PublicKey → Session;
  build_responder : Keypair → Session;
  session_write : list byte → Session → list byte * Session;
  session_read : list byte → Session → result (list byte) ReadError * Session;
  is_handshake_finished : Session → bool;
  remote_static : Session → option PublicKey;
  into_stateless_transport_mode : Session → StatelessTransportState
}.

(** An honest handshake: [in_step kp kp' n i r], the sessions [i] and [r] of an
    initiator with the keys [kp] and a responder with [kp'] after [n] messages.
    The parties take turns; what one writes the other reads; after the third
    message both are finished, each knows the other's key, and their transports
    are paired both ways.  [OVERHEAD] bounds what a message adds to its
    payload.  [messages_left] of the three are to come, whatever the peer does:
    a session that has written or read one counts it. *)
Class DiscoSessionLaws {DC : DiscoCrate} (DS : DiscoSession DC) `{!DiscoLaws DC} : Type := {
  in_step : Keypair → Keypair → nat → Session → Session → Prop;
  OVERHEAD : nat;
  session_write_length m s : (length (session_write m s).1 ≤ length m + OVERHEAD)%nat;
  messages_left : Session → nat;
  left_initiator k pk : messages_left (build_initiator k pk) = 3%nat;
  left_responder k : messages_left (build_responder k) = 3%nat;
  left_write m s : messages_left (session_write m s).2 = pred (messages_left s);
  left_read m c s s' : session_read c s = (Ok m, s') → messages_left s' = pred (messages_left s);
  left_finished s : is_handshake_finished s = bool_decide (messages_left s = 0%nat);
  in_step_start kp kp' : in_step kp kp' 0 (build_initiator kp (public kp')) (build_responder kp');
  in_step_initiator kp kp' n i r m c i' : in_step kp kp' n i r → n = 0%nat ∨ n = 2%nat →
    session_write m i = (c, i') →
    ∃ r', session_read c r = (Ok m, r') ∧ in_step kp kp' (S n) i' r';
  in_step_responder kp kp' i r m c r' : in_step kp kp' 1 i r → session_write m r = (c, r') →
    ∃ i', session_read c i = (Ok m, i') ∧ in_step kp kp' 2 i' r';
  in_step_left kp kp' n i r : in_step kp kp' n i r →
    messages_left i = (3 - n)%nat ∧ messages_left r = (3 - n)%nat;
  in_step_done kp kp' i r : in_step kp kp' 3 i r →
    remote_static i = Some (public kp') ∧ remote_static r = Some (public kp) ∧
    paired (into_stateless_transport_mode i) (into_stateless_transport_mode r) ∧
    paired (into_stateless_transport_mode r) (into_stateless_transport_mode i)
}.

(** ** Reference instances *)

Module Reference.

(** A buffer of fixed capacity: the written part and what lies behind it. *)
Record raw_buf : Type := RawBuf { rb_cap : Z; rb_data : list byte; rb_tail : list byte }.

#[export] Instance raw_buf_BufMut : BufMut raw_buf := {|
  remaining_mut b := rb_cap b - Z.of_nat (length (rb_data b));
  advance_mut n b :=
    RawBuf (rb_cap b) (rb_data b ++ take (Z.to_nat n) (rb_tail b)) (drop (Z.to_nat n) (rb_tail b));
  bytes_mut_write s b := RawBuf (rb_cap b) (rb_data b) (s ++ drop (length s) (rb_tail b))
|}.

Definition ref_put_slice {P} `{BufMut P} (s : list byte) (p : P) : option P :=
  if bool_decide (Z.of_nat (length s) ≤ remaining_mut p) then Some (append s p) else None.

#[export] Instance bytes_ref : BytesCrate := {|
  BytesMut := raw_buf;
  with_capacity n := RawBuf n [] [];
  deref := rb_data;
  deref_mut b := Borrow (rb_data b) (λ s, RawBuf (rb_cap b) s (rb_tail b));
  set_len n b :=
    RawBuf (rb_cap b) (take (Z.to_nat n) (rb_data b ++ rb_tail b))
           (drop (Z.to_nat n) (rb_data b ++ rb_tail b));
  put_slice P _ := ref_put_slice;
  put P _ := ref_put_slice;
  put_u8 P _ b := ref_put_slice [b];
  put_u16_be P _ n := ref_put_slice (be_bytes 2 n);
  put_u64_be P _ n := ref_put_slice (be_bytes 8 n)
|}.

#[export] Instance bytes_ref_laws : BytesLaws bytes_ref.
Proof.
  split; intros; cbn in *; unfold append in *; cbn in *; try done; try lia;
    rewrite ?Nat2Z.id in *.
  - by rewrite take_app_length.
  - rewrite take_app_length, length_app. lia.
  - match goal with H : rb_data _ = [] |- _ => rewrite H; cbn end.
    by rewrite take_app_le by lia.
Qed.

#[export] Instance split_ref : BytesSplit bytes_ref := {|
  bytes_from s := RawBuf (Z.of_nat (length s)) s [];
  split_to n b :=
    if bool_decide (n ≤ length (rb_data b))%nat
    then Some (RawBuf (Z.of_nat n) (take n (rb_data b)) [],
               RawBuf (rb_cap b - Z.of_nat n) (drop n (rb_data b)) (rb_tail b))
    else None
|}.

#[export] Instance split_ref_laws : BytesSplitLaws split_ref.
Proof.
  split; cbn; intros.
  - done.
  - by rewrite bool_decide_false by lia.
  - rewrite bool_decide_true by lia. eauto.
Qed.

#[export] Instance byteorder_ref : ByteOrderCrate := {|
  read_u16 := be_read 2; write_u16 := be_write 2;
  read_u64 := be_read 8; write_u64 := be_write 8
|}.

#[export] Instance byteorder_ref_laws : ByteOrderLaws byteorder_ref.
Proof. by split. Qed.

#[export] Instance segqueue_ref : SegQueueCrate := {|
  SegQueue := list;
  sq_new A := [];
  sq_push A x q := q ++ [x];
  sq_pop A q := match q with [] => None | x :: q' => Some (x, q') end;
  sq_items A q := q
|}.

#[export] Instance segqueue_ref_laws : SegQueueLaws segqueue_ref.
Proof. split; intros; cbn in *; subst; eauto. Qed.

#[export] Instance slab_ref : SlabCrate := {|
  Slab A := gmap nat A;
  slab_new A := ∅;
  slab_insert A x s := let k := fresh (dom s) in (k, <[k := x]> s);
  slab_get A k s := s !! k;
  slab_set A k x s := <[k := x]> s;
  slab_remove A k s := x ← s !! k; Some (x, delete k s);
  slab_entries A s := s
|}.

#[export] Instance slab_ref_laws : SlabLaws slab_ref.
Proof.
  split; intros; cbn in *; try done.
  - apply not_elem_of_dom, is_fresh.
  - by simplify_option_eq.
  - simplify_option_eq. eauto.
Qed.

(** A cipher that only authenticates: the tag depends on the key, the nonce
    and the message. *)
Definition ref_tag (key n : Z) (m : list byte) : list byte :=
  be_bytes 16 (key + n * 2 ^ 64 + be_value m).

#[export] Instance disco_ref : DiscoCrate := {|
  TAG_LEN := 16;
  ReadError := ();
  read_error_debug _ := "DecryptionFailed";
  StatelessTransportState := Z;
  transport_write key n m := (m, ref_tag key n m);
  transport_read key n c tag :=
    (c, if bool_decide (tag = ref_tag key n c) then Ok () else Err ())
|}.

#[export] Instance disco_ref_laws : DiscoLaws disco_ref.
Proof.
  refine {| paired (t t' : @StatelessTransportState disco_ref) := t = t' |};
    try done.
  intros t t' n m c tag Ht Hn Hw. cbn in *. subst. injection Hw as <- <-. by rewrite bool_decide_true.
Defined.

(** A session that shows its key at the start of each message: the keys of
    this end and of the other, once known, and how many messages have been
    written and read. *)
Record ref_session : Type := RefSession { own_key : byte; other_key : option byte; steps : nat }.

#[export] Instance disco_session_ref : DiscoSession disco_ref.
Proof.
  refine {|
    Keypair := byte;
    PublicKey := byte;
    public k := k;
    Session := ref_session;
    build_initiator k pk := RefSession k (Some pk) 0;
    build_responder k := RefSession k None 0;
    session_write m s := (own_key s :: m, RefSession (own_key s) (other_key s) (S (steps s)));
    session_read c s :=
      match c with
      | [] => (Err () : result (list byte) (@ReadError disco_ref), s)
      | k :: m => (Ok m, RefSession (own_key s) (Some k) (S (steps s)))
      end;
    is_handshake_finished s := bool_decide (3 - steps s = 0)%nat;
    remote_static := other_key;
    into_stateless_transport_mode s := 0 : @StatelessTransportState disco_ref
  |}.
Defined.

#[export] Instance disco_session_ref_laws : DiscoSessionLaws disco_session_ref.
Proof.
  refine {|
    in_step (kp kp' : @Keypair _ disco_session_ref) n (i r : @Session _ disco_session_ref) :=
      i = RefSession kp (Some kp') n ∧
      r = RefSession kp' (match n with O => None | _ => Some kp end) n;
    OVERHEAD := 1;
    messages_left (s : @Session _ disco_session_ref) := (3 - steps s)%nat
  |}; try done.
  - intros m s. cbn. lia.
  - intros m s. cbn -[Nat.sub]. lia.
  - intros m [|k c] s s'; [done|]. intros [= _ <-]. cbn -[Nat.sub]. lia.
  - intros kp kp' n i r m c i' [-> ->] _ [= <- <-]. by eexists.
  - intros kp kp' i r m c r' [-> ->] [= <- <-]. by eexists.
  - by intros kp kp' n i r [-> ->].
  - by intros kp kp' i r [-> ->].
Defined.
End Reference.
