(* ===== verification/Channel.v ===== *)
(** * Crate channel: the traits [BasePacket], [Packet] and [Channel], the
    macro [derive_packet!], the [BytesMut] packet and the loopback channel
    (src/channel/src/lib.rs).

    The traits are classes.  [PacketLaws] is what a packet layer promises to
    the layer above it; [header_packet_laws] discharges it once for all the
    layers that put a fixed-size header before the payload of an inner
    packet, which is how DiscoPacket and DtcpPacket are built. *)

From S2P Require Export Crates.

(** ** The traits *)

(** An option is a panic: the slicing expressions of an implementation may be
    out of range.  [payload_mut] is a borrow. *)
Class BasePacket (P : Type) : Type := {
  BasePacket_BufMut :: BufMut P;
  new : Z → option P;
  check : P → option (result () io_error);
  payload : P → option (list byte);
  payload_mut : P → option (borrow P)
}.

Class Packet (Q P : Type) : Type := {
  parse : P → option (result Q io_error);
  into_packet : Q → P
}.

(** [send] and [recv] take [&self]: they run on the state [S] the channel
    value reaches, its own cells and the ones it shares. *)
Class Channel (S P : Type) : Type := {
  send : P → M io_error S ();
  recv : M io_error S P
}.

(** ** [derive_packet!]

    [$packet] is a tuple struct around an inner packet. *)
Class Newtype (Q P : Type) : Type := {
  Self : P → Q;
  inner : Q → P;
  inner_Self p : inner (Self p) = p;
  Self_inner q : Self (inner q) = q
}.

Section derive_packet.
Context {BC : BytesCrate} {Q P : Type} `{!Newtype Q P}.

Definition derive_BufMut `{BufMut P} : BufMut Q := {|
  remaining_mut q := remaining_mut (inner q);
  advance_mut by_ q := Self (advance_mut by_ (inner q));
  bytes_mut_write s q := Self (bytes_mut_write s (inner q))
|}.

Definition derive_parse `{BasePacket Q} (packet : P) : option (result Q io_error) :=
  let packet := Self packet in
  r ← check packet;
  match r with
  | Ok _ => Some (Ok packet)
  | Err e => Some (Err e)
  end.

Definition derive_into_packet (packet : Q) : P := inner packet.

Definition derive_Packet `{BasePacket Q} : Packet Q P := {|
  parse := derive_parse;
  into_packet := derive_into_packet
|}.
End derive_packet.

(** [From<&[u8]>], the same text in the macro and for DtpPacket. *)
Definition from_slice `{BytesCrate} `{BasePacket Q} (s : list byte) : option Q :=
  packet ← new (Z.of_nat (length s));
  put s packet.

(** ** What a packet layer promises

    [max] bounds the payload lengths [new] accepts. *)
Class PacketLaws (P : Type) `{BytesCrate} `{!BasePacket P} (max : Z) : Prop := {
  view_payload_mut (p : P) : view <$> payload_mut p = payload p;
  payload_give_back (p : P) b s : payload_mut p = Some b →
    length s = length (view b) → payload (give_back b s) = Some s;
  remaining_payload_give_back (p : P) b s : payload_mut p = Some b →
    length s = length (view b) → remaining_mut (give_back b s) = remaining_mut p;
  check_give_back (p : P) b s : payload_mut p = Some b →
    length s = length (view b) → check (give_back b s) = check p;
  payload_append (p : P) q s : payload p = Some q →
    Z.of_nat (length s) ≤ remaining_mut p → payload (append s p) = Some (q ++ s);
  remaining_payload_append (p : P) q s : payload p = Some q →
    Z.of_nat (length s) ≤ remaining_mut p →
    remaining_mut (append s p) = remaining_mut p - Z.of_nat (length s);
  check_append (p : P) q s : payload p = Some q →
    Z.of_nat (length s) ≤ remaining_mut p → check (append s p) = check p;
  new_spec n : 0 ≤ n ≤ max →
    ∃ p : P, new n = Some p ∧ payload p = Some [] ∧
             n ≤ remaining_mut p ∧ check p = Some (Ok ())
}.

Section packet_laws.
Context {BC : BytesCrate} {BL : BytesLaws BC} {P : Type} `{!BasePacket P} {max : Z} `{!PacketLaws P max}.

Lemma put_slice_append (p : P) q s : payload p = Some q →
  Z.of_nat (length s) ≤ remaining_mut p →
  put_slice s p = Some (append s p) ∧
  payload (append s p) = Some (q ++ s) ∧
  remaining_mut (append s p) = remaining_mut p - Z.of_nat (length s) ∧
  check (append s p) = check p.
Proof.
  intros Hq Hs. rewrite put_slice_spec, bool_decide_true by done.
  split_and!; [done|by apply payload_append|by eapply remaining_payload_append
    |by eapply check_append].
Qed.

Lemma payload_mut_Some (p : P) s : payload p = Some s →
  ∃ k, payload_mut p = Some (Borrow s k) ∧
    ∀ s', length s' = length s →
      payload (k s') = Some s' ∧ remaining_mut (k s') = remaining_mut p ∧
      check (k s') = check p.
Proof.
  intros Hs. pose proof (view_payload_mut p) as Hv. rewrite Hs in Hv.
  destruct (payload_mut p) as [[v k]|] eqn:Hb; cbn in Hv; [|done].
  injection Hv as ->. exists k. split; [done|]. intros s' Hs'.
  split; [|split]; [eapply (payload_give_back p (Borrow s k))
    |eapply (remaining_payload_give_back p (Borrow s k))
    |eapply (check_give_back p (Borrow s k))]; eauto.
Qed.
End packet_laws.

(** ** Header layers

    A layer whose packet is an inner packet with [h] header bytes before the
    payload; a fresh packet has the header [hdr], and [check] decides on the
    header bytes. *)
Class Layer (Q P : Type) : Type := {
  lower : Q → P;
  with_lower : Q → P → Q;
  lower_with_lower q p : lower (with_lower q p) = p
}.

#[export] Instance Newtype_Layer `{Newtype Q P} : Layer Q P := {|
  lower := inner;
  with_lower _ := Self;
  lower_with_lower _ := inner_Self
|}.

Class HeaderPacket (Q P : Type) `{BytesCrate} `{!Layer Q P} `{!BasePacket Q} `{!BasePacket P}
    (max : Z) (h : nat) (hdr : list byte) (chk : list byte → result () io_error) : Prop := {
  hp_remaining_mut (q : Q) : remaining_mut q = remaining_mut (lower q);
  hp_append s (q : Q) : append s q = with_lower q (append s (lower q));
  hp_payload (q : Q) : payload q = payload (lower q) ≫= slice_from h;
  hp_payload_mut (q : Q) :
    payload_mut q = b ← payload_mut (lower q); borrow_map (with_lower q) <$> borrow_from h b;
  hp_check (q : Q) s : payload (lower q) = Some s → (h ≤ length s)%nat →
    check q = Some (chk (take h s));
  hp_length : length hdr = h;
  hp_valid : chk hdr = Ok ();
  hp_new n : 0 ≤ n ≤ max - Z.of_nat h → ∃ q : Q, new n = Some q ∧
    payload (lower q) = Some hdr ∧ n ≤ remaining_mut (lower q)
}.

Section header_packet.
Context {BC : BytesCrate} {BL : BytesLaws BC} {Q P : Type} `{!Layer Q P}.
Context `{!BasePacket Q} `{!BasePacket P} {max : Z} `{!PacketLaws P max}.
Context {h : nat} {hdr : list byte} {chk : list byte → result () io_error}.
Context `{!HeaderPacket Q P max h hdr chk}.

Lemma hp_payload_mut_inv (q : Q) b : payload_mut q = Some b →
  ∃ v k, payload_mut (lower q) = Some (Borrow v k) ∧ (h ≤ length v)%nat ∧
    view b = drop h v ∧ ∀ s, give_back b s = with_lower q (k (take h v ++ s)).
Proof.
  rewrite hp_payload_mut. destruct (payload_mut (lower q)) as [[v k]|]; cbn; [|done].
  unfold borrow_from; cbn. case_bool_decide; cbn; [|done].
  intros [= <-]. naive_solver.
Qed.

(** What writing through the borrow of the payload does to the inner packet. *)
Lemma hp_give_back (q : Q) b s : payload_mut q = Some b → length s = length (view b) →
  ∃ v, payload (lower q) = Some v ∧ (h ≤ length v)%nat ∧
    payload (lower (give_back b s)) = Some (take h v ++ s) ∧
    remaining_mut (give_back b s) = remaining_mut q ∧
    check (lower (give_back b s)) = check (lower q).
Proof.
  intros Hb Hs. destruct (hp_payload_mut_inv q b Hb) as (v & k & Hk & Hh & Hv & Hg).
  assert (length (take h v ++ s) = length v) as Hl.
  { rewrite length_app, length_take, Hs, Hv, length_drop. lia. }
  exists v. rewrite Hg, (hp_remaining_mut q), (hp_remaining_mut (with_lower _ _)), lower_with_lower.
  split_and!.
  - by rewrite <-view_payload_mut, Hk.
  - done.
  - by apply (payload_give_back _ _ _ Hk).
  - by apply (remaining_payload_give_back _ _ _ Hk).
  - by apply (check_give_back _ _ _ Hk).
Qed.

Lemma hp_payload_Some (q : Q) s : payload q = Some s →
  ∃ v, payload (lower q) = Some v ∧ (h ≤ length v)%nat ∧ s = drop h v.
Proof.
  rewrite hp_payload. destruct (payload (lower q)); cbn; [|done].
  rewrite slice_from_Some. naive_solver.
Qed.

Lemma header_packet_laws : PacketLaws Q (max - Z.of_nat h).
Proof.
  split.
  - intros q. rewrite hp_payload, hp_payload_mut, <-view_payload_mut.
    destruct (payload_mut (lower q)) as [[v k]|]; [cbn|done].
    unfold borrow_from, slice_from; cbn. by case_bool_decide.
  - intros q b s Hb Hs. destruct (hp_give_back q b s Hb Hs) as (v & _ & ? & Hp & _).
    rewrite hp_payload, Hp. by apply slice_from_take_app.
  - intros q b s Hb Hs. by destruct (hp_give_back q b s Hb Hs) as (v & _ & _ & _ & ? & _).
  - intros q b s Hb Hs. destruct (hp_give_back q b s Hb Hs) as (v & Hv & Hh & Hp & _).
    rewrite (hp_check _ _ Hp), (hp_check _ _ Hv)
      by solve_length.
    by rewrite take_app_le, take_take, Nat.min_id by solve_length.
  - intros q r s (v & Hv & Hh & ->)%hp_payload_Some Hs.
    rewrite hp_remaining_mut in Hs. rewrite hp_payload, hp_append, lower_with_lower.
    erewrite payload_append by done. apply slice_from_app. by apply slice_from_Some.
  - intros q r s (v & Hv & Hh & ->)%hp_payload_Some Hs.
    rewrite hp_remaining_mut in Hs.
    rewrite (hp_remaining_mut (append s q)), hp_append, lower_with_lower, (hp_remaining_mut q).
    by eapply remaining_payload_append.
  - intros q r s (v & Hv & Hh & ->)%hp_payload_Some Hs. rewrite hp_remaining_mut in Hs.
    assert (payload (lower (append s q)) = Some (v ++ s)) as Hp.
    { rewrite hp_append, lower_with_lower. by apply payload_append. }
    rewrite (hp_check _ _ Hp), (hp_check _ _ Hv) by solve_length.
    by rewrite take_app_le.
  - intros n Hn. destruct (hp_new n Hn) as (q & Hq & Hp & Hr). exists q. split_and!.
    + done.
    + rewrite hp_payload, Hp. cbn. apply slice_from_Some.
      rewrite drop_ge by (rewrite hp_length; lia). rewrite hp_length. split; [lia|done].
    + by rewrite hp_remaining_mut.
    + rewrite (hp_check _ _ Hp) by (rewrite hp_length; lia).
      by rewrite take_ge, hp_valid by (rewrite hp_length; lia).
Qed.
End header_packet.

(** ** Building packets *)

Lemma from_slice_Some {BC : BytesCrate} {BL : BytesLaws BC} {Q : Type}
    `{!BasePacket Q} {max : Z} `{!PacketLaws Q max} (s : list byte) :
  Z.of_nat (length s) ≤ max →
  ∃ q : Q, from_slice s = Some q ∧ payload q = Some s ∧ check q = Some (Ok ()).
Proof.
  intros Hs. destruct (new_spec (P:=Q) (Z.of_nat (length s))) as (p & Hn & Hp & Hr & Hc);
    [lia|].
  destruct (put_slice_append p [] s Hp Hr) as (Hput & Hpay & _ & Hchk).
  exists (append s p). unfold from_slice. rewrite Hn. cbn.
  rewrite put_spec, Hput. split_and!; [done|done|congruence].
Qed.

(** [From<&[u8]>] succeeds on every slice the layer has room for, and the
    packet it builds passes [check] and carries exactly the slice.  It holds
    at every depth of the packet stack, since every layer has [PacketLaws]. *)
Theorem from_slice_correct {BC : BytesCrate} {BL : BytesLaws BC} {Q : Type}
    `{!BasePacket Q} {max : Z} `{!PacketLaws Q max} (s : list byte) :
  Z.of_nat (length s) ≤ max →
  ∃ q : Q, from_slice s = Some q ∧ payload q = Some s ∧ check q = Some (Ok ()).
Proof. apply from_slice_Some. Qed.

(** [parse] accepts a packet exactly when [check] does, never alters the
    bytes it wraps, and [into_packet] gives the inner packet back. *)
Theorem parse_into_packet {Q P : Type} `{!Newtype Q P} `{!BasePacket Q} (p : P) :
  (∀ q, derive_parse p = Some (Ok q) →
     check q = Some (Ok ()) ∧ derive_into_packet q = p) ∧
  (∀ q, check q = Some (Ok ()) → derive_parse (derive_into_packet q) = Some (Ok q)) ∧
  (∀ e, derive_parse p = Some (Err e) ↔ check (Self p) = Some (Err e)).
Proof.
  unfold derive_parse, derive_into_packet. split_and!.
  - intros q. destruct (check (Self p)) as [[[]|e]|] eqn:Hc; cbn; try done.
    intros [= <-]. by rewrite inner_Self.
  - intros q Hq. by rewrite Self_inner, Hq.
  - intros e. destruct (check (Self p)) as [[[]|e']|]; cbn; naive_solver.
Qed.

(** ** The [BytesMut] packet *)

Section BytesMut_packet.
Context {BC : BytesCrate}.

#[export] Instance BytesMut_BasePacket : BasePacket BytesMut := {|
  new payload_len := Some (with_capacity payload_len);
  check _ := Some (Ok ());
  payload b := Some (deref b);
  payload_mut b := Some (deref_mut b)
|}.

#[export] Instance BytesMut_laws {BL : BytesLaws BC} max : PacketLaws BytesMut max.
Proof.
  split; cbn.
  - intros p. by rewrite view_deref_mut.
  - intros p b s [= <-]. rewrite view_deref_mut. intros. by rewrite deref_give_back.
  - intros p b s [= <-]. rewrite view_deref_mut. apply remaining_give_back.
  - done.
  - intros p q s [= <-] Hs. by rewrite deref_append.
  - intros p q s [= <-] Hs. by apply remaining_append.
  - done.
  - intros n Hn. exists (with_capacity n). rewrite deref_with_capacity by lia.
    split_and!; try done. apply remaining_with_capacity. lia.
Qed.
End BytesMut_packet.

(** ** The loopback channel *)

Module LoopbackChannel.
Section loopback.
Context {BC : BytesCrate}.

(** The shared [VecDeque], front first. *)
Record Loopback : Type := MkLoopback { packets : list BytesMut }.

Definition Loopback_default : Loopback := MkLoopback [].

Definition RecvFuture_poll : M io_error Loopback BytesMut :=
  q ← gets packets;
  match q with
  | packet :: rest => set_state (MkLoopback rest);; mret packet
  | [] => suspend
  end.

#[global] Instance Loopback_Channel : Channel Loopback BytesMut := {|
  send packet := modify (λ l, MkLoopback (packets l ++ [packet]));
  recv := RecvFuture_poll
|}.
End loopback.
End LoopbackChannel.

(** A client's calls on a channel, in the order it makes them, and the packets
    its receives deliver. *)
Inductive channel_call (P : Type) : Type :=
| CallSend (p : P)
| CallRecv.
Arguments CallSend {P} p.
Arguments CallRecv {P}.

Fixpoint run_calls {S P : Type} `{!Channel S P} (cs : list (channel_call P)) : M io_error S (list P) :=
  match cs with
  | [] => mret []
  | CallSend p :: cs => send p;; run_calls cs
  | CallRecv :: cs => p ← recv; ps ← run_calls cs; mret (p :: ps)
  end.

Definition sent {P} (cs : list (channel_call P)) : list P :=
  omap (λ c, match c with CallSend p => Some p | CallRecv => None end) cs.

(** the loopback channel is a FIFO queue: whatever the interleaving of
    sends and receives, the packets delivered followed by the packets still
    queued are the packets that were queued followed by those sent, none
    lost, duplicated or reordered; a receive waits only when the queue is
    empty; and no call fails or panics. *)
Theorem loopback_fifo {BC : BytesCrate} (cs : list (channel_call BytesMut)) q :
  match run_calls cs (LoopbackChannel.MkLoopback q) with
  | Return rs l => q ++ sent cs = rs ++ LoopbackChannel.packets l
  | Suspend l => LoopbackChannel.packets l = []
  | _ => False
  end.
Proof.
  revert q. induction cs as [|[p|] cs IH]; intros q; cbn.
  - by rewrite app_nil_r.
  - specialize (IH (q ++ [p])). run. cbn.
    destruct (run_calls cs _); try done. by rewrite <-(assoc_L (++)) in IH.
  - unfold LoopbackChannel.RecvFuture_poll; run. cbn.
    destruct q as [|p q]; cbn; [done|].
    specialize (IH q). destruct (run_calls cs _); cbn; try done. by f_equal.
Qed.

(** ** Reliable channels

    What a channel that loses nothing promises to its client: a send of a
    payload of an admissible length succeeds and queues the payload, a receive gives the oldest payload queued, and
    waits when there is none.  [rc_inv] is an invariant of the channel's state,
    [rc_pending] the payloads queued. *)
Class ReliableChannel (S P : Type) `{!BasePacket P} `{!Channel S P} : Type := {
  rc_inv : S → Prop;
  rc_pending : S → list (list byte);
  rc_ok : nat → Prop;
  rc_send (p : P) s st : rc_inv st → payload p = Some s → rc_ok (length s) →
    ∃ st', send p st = Return () st' ∧ rc_inv st' ∧ rc_pending st' = rc_pending st ++ [s];
  rc_recv st s l : rc_inv st → rc_pending st = s :: l →
    ∃ p st', recv st = Return p st' ∧ payload p = Some s ∧ rc_inv st' ∧ rc_pending st' = l;
  rc_wait st : rc_inv st → rc_pending st = [] →
    ∃ st', recv (P:=P) st = Suspend st' ∧ rc_inv st' ∧ rc_pending st' = []
}.

(** The loopback channel is one. *)
#[export] Instance Loopback_Reliable {BC : BytesCrate} :
  ReliableChannel LoopbackChannel.Loopback BytesMut.
Proof.
  refine {| rc_inv _ := True; rc_pending l := deref <$> LoopbackChannel.packets l; rc_ok _ := True |}.
  - intros p s st _ [= <-] _. eexists. split_and!; [done|done|]. cbn. by rewrite fmap_app.
  - intros [q] s l _ Hq. destruct q as [|p q]; [done|]. injection Hq as <- <-.
    by eexists _, _.
  - intros [q] _ Hq. destruct q; [|done]. by eexists.
Defined.

(** The two ends of a layer over one medium: the near end sends, the far end
    receives.  Each end is a whole channel value of the layer; the state of
    the medium they share is the one in [medium], which is put into the end
    that runs and taken from it after. *)
Class Wraps (L S : Type) : Type := {
  get_inner : L → S;
  put_inner : S → L → L;
  get_put_inner s l : get_inner (put_inner s l) = s
}.

Record ends (L S : Type) : Type := MkEnds { medium : S; near : L; far : L }.
Arguments MkEnds {L S} _ _ _.
Arguments medium {L S} _.
Arguments near {L S} _.
Arguments far {L S} _.

(** A call at one of the two values of a layer over one medium. *)
Definition at_near {L S} `{!Wraps L S} {E A} (m : M E L A) : M E (ends L S) A :=
  zoom (λ e, put_inner (medium e) (near e)) (λ c e, MkEnds (get_inner c) c (far e)) m.
Definition at_far {L S} `{!Wraps L S} {E A} (m : M E L A) : M E (ends L S) A :=
  zoom (λ e, put_inner (medium e) (far e)) (λ c e, MkEnds (get_inner c) (near e) c) m.

#[export] Instance ends_Channel {L S P} `{!Wraps L S} `{!Channel L P} : Channel (ends L S) P := {|
  send p := at_near (send p);
  recv := at_far recv
|}.

Section reliable_client.
Context {S P : Type} `{!BasePacket P} `{!Channel S P} `{!ReliableChannel S P}.

Definition valid_call (c : channel_call P) : Prop :=
  match c with CallSend p => ∃ s, payload p = Some s ∧ rc_ok (length s) | CallRecv => True end.

Definition payloads (ps : list P) : list (list byte) := omap payload ps.

(** A client's calls on a reliable channel, against the interface. *)
Lemma reliable_run cs st : Forall valid_call cs → rc_inv st →
  match run_calls cs st with
  | Return rs st' => rc_inv st' ∧
      rc_pending st ++ payloads (sent cs) = payloads rs ++ rc_pending st'
  | Suspend st' => rc_inv st' ∧ rc_pending st' = []
  | _ => False
  end.
Proof.
  intros Hcs. revert st. induction Hcs as [|[p|] cs Hc Hcs IH]; intros st Hi; cbn.
  - by rewrite app_nil_r.
  - destruct Hc as (s & Hs & Hok). run.
    destruct (rc_send p s st Hi Hs Hok) as (st1 & -> & Hi1 & Hp1). specialize (IH st1 Hi1).
    destruct (run_calls cs st1); try done. destruct IH as [? IH]. split; [done|].
    unfold payloads in *. cbn. rewrite Hs, Hp1, <-(assoc_L (++)) in *. exact IH.
  - run. destruct (rc_pending st) as [|s l] eqn:El.
    + by destruct (rc_wait st Hi El) as (st1 & -> & ? & ?).
    + destruct (rc_recv st s l Hi El) as (p & st1 & -> & Hp & Hi1 & Hl).
      specialize (IH st1 Hi1). destruct (run_calls cs st1); try done. cbn.
      destruct IH as [? IH]. split; [done|]. unfold payloads in *. cbn. rewrite Hp. cbn.
      f_equal. by rewrite <-Hl.
Qed.
End reliable_client.
Arguments valid_call S {P} {_ _ _} c.
