(* ===== verification/DtpPacket.v ===== *)
(** * Crate dtp: the packet (src/dtp/src/packet.rs)

    A DTP packet is one channel-id byte before the payload, and an explicit
    congestion flag that travels in the IP header, not in the bytes. *)

From S2P Require Export Channel.

Definition MAX_PACKET_LEN : Z := 65535.
Definition IP6_HEADER_LEN : Z := 40.
Definition UDP_HEADER_LEN : Z := 8.
Definition MAX_HEADER_LEN : Z := IP6_HEADER_LEN + UDP_HEADER_LEN + 1.
Definition MAX_PAYLOAD_LEN : Z := MAX_PACKET_LEN - MAX_HEADER_LEN.

Section DtpPacket.
Context {BC : BytesCrate} {PR : Profile}.

Record DtpPacket : Type := MkDtpPacket { ecn : bool; packet_bytes : BytesMut }.

#[export] Instance DtpPacket_BufMut : BufMut DtpPacket := {|
  remaining_mut p := remaining_mut (packet_bytes p);
  advance_mut by_ p := MkDtpPacket (ecn p) (advance_mut by_ (packet_bytes p));
  bytes_mut_write s p := MkDtpPacket (ecn p) (bytes_mut_write s (packet_bytes p))
|}.

Definition DtpPacket_new (payload_len : Z) : option DtpPacket :=
  if debug_assertions && negb (payload_len <=? MAX_PAYLOAD_LEN) then None
  else
    bytes ← put_u8 Byte.x00 (with_capacity (payload_len + 1));
    Some (MkDtpPacket false bytes).

Definition DtpPacket_check (p : DtpPacket) : result () io_error :=
  if bool_decide (length (deref (packet_bytes p)) < 1)%nat
  then Err (IoError Other "invalid packet")
  else Ok ().

#[export] Instance DtpPacket_BasePacket : BasePacket DtpPacket := {|
  new := DtpPacket_new;
  check p := Some (DtpPacket_check p);
  payload p := slice_from 1 (deref (packet_bytes p));
  payload_mut p :=
    borrow_map (MkDtpPacket (ecn p)) <$> borrow_from 1 (deref_mut (packet_bytes p))
|}.

Definition uninitialized : DtpPacket := MkDtpPacket false (with_capacity MAX_PACKET_LEN).

Definition packet_set_len (len : Z) (p : DtpPacket) : DtpPacket :=
  MkDtpPacket (ecn p) (set_len len (packet_bytes p)).

Definition set_ecn (e : bool) (p : DtpPacket) : DtpPacket := MkDtpPacket e (packet_bytes p).

(** [self.bytes[0]]: panics on an empty packet. *)
Definition channel (p : DtpPacket) : option byte := deref (packet_bytes p) !! O.

Definition set_channel (c : byte) (p : DtpPacket) : option DtpPacket :=
  MkDtpPacket (ecn p) <$> update_borrow (set_index O c) (deref_mut (packet_bytes p)).

Definition bytes (p : DtpPacket) : list byte := deref (packet_bytes p).

#[export] Instance DtpPacket_Layer : Layer DtpPacket BytesMut.
Proof.
  refine {| lower := packet_bytes; with_lower p b := MkDtpPacket (ecn p) b |}. done.
Defined.
End DtpPacket.

Section laws.
Context {BC : BytesCrate} {BL : BytesLaws BC} {PR : Profile}.

#[export] Instance DtpPacket_HeaderPacket :
  HeaderPacket DtpPacket BytesMut (MAX_PAYLOAD_LEN + 1) 1 [Byte.x00] (λ _, Ok ()).
Proof.
  split; try done.
  - intros q s [= <-] Hs. cbn. unfold DtpPacket_check. by rewrite bool_decide_false by lia.
  - intros n Hn. cbn. unfold DtpPacket_new.
    replace (negb (n <=? MAX_PAYLOAD_LEN)) with false by lia. rewrite andb_false_r.
    pose proof (remaining_with_capacity (n + 1) ltac:(lia)) as Hr.
    rewrite put_u8_spec, put_slice_spec, bool_decide_true by (cbn [length]; lia). cbn.
    eexists. split; [done|]. cbn.
    rewrite deref_append, remaining_append, deref_with_capacity by (cbn [length]; lia).
    split; [done|]. cbn [length]. lia.
Qed.

#[export] Instance DtpPacket_laws : PacketLaws DtpPacket MAX_PAYLOAD_LEN.
Proof. exact (header_packet_laws (Q:=DtpPacket) (max:=MAX_PAYLOAD_LEN + 1)). Qed.

Lemma payload_bytes (p : DtpPacket) s : payload p = Some s →
  ∃ c, bytes p = c :: s ∧ channel p = Some c.
Proof.
  cbn. rewrite slice_from_Some. unfold bytes, channel.
  destruct (deref (packet_bytes p)) as [|c l]; cbn; [lia|].
  rewrite drop_0. intros [_ ->]. eauto.
Qed.

(** [set_channel] on a packet with a payload writes the channel byte and
    nothing else: the wire image is the channel id followed by the payload,
    [channel] reads the id back, and the congestion flag, the payload and
    the room for more data are as before. *)
Lemma set_channel_wire (p : DtpPacket) s c : payload p = Some s →
  ∃ p', set_channel c p = Some p' ∧ bytes p' = c :: s ∧ channel p' = Some c ∧
        payload p' = Some s ∧ ecn p' = ecn p ∧ remaining_mut p' = remaining_mut p.
Proof.
  intros (c0 & Hb & _)%payload_bytes. unfold bytes in Hb.
  unfold set_channel, update_borrow, set_index. rewrite view_deref_mut, Hb.
  rewrite bool_decide_true by (cbn; lia). cbn. eexists. split; [done|].
  unfold bytes, channel. cbn.
  rewrite deref_give_back, remaining_give_back by (by rewrite Hb).
  split_and!; done.
Qed.

(** A packet is valid for [check] exactly when none of its accessors panics. *)
Lemma check_no_panic (p : DtpPacket) :
  check p = Some (Ok ()) ↔ is_Some (payload p) ∧ is_Some (channel p).
Proof.
  cbn. unfold DtpPacket_check, slice_from, channel.
  destruct (deref (packet_bytes p)) as [|c l]; cbn; split; intros H; try done.
  by destruct H as [[? ?] _].
Qed.
End laws.
