(* ===== verification/Text.v ===== *)
(** * Strings of the standard library: UTF-8, splitting, integers as text

    A [&str] is its bytes.  What the code uses of [core::str], of the slice
    methods and of [u16]'s [FromStr] and [Display] is modelled executably. *)

From S2P Require Export Bytes.

Abbreviation str := (list byte).

(** A string literal of the source. *)
Definition lit (s : string) : str := String.list_byte_of_string s.

(** ** [core::str::from_utf8]: well-formed UTF-8 (Unicode, table 3-7) *)

Definition in_range (lo hi : Z) (b : byte) : bool := (lo <=? b2z b) && (b2z b <=? hi).

Definition continuation : byte → bool := in_range 0x80 0xBF.

Definition second_of_three (b c : byte) : bool :=
  if b2z b =? 0xE0 then in_range 0xA0 0xBF c
  else if b2z b =? 0xED then in_range 0x80 0x9F c
  else continuation c.

Definition second_of_four (b c : byte) : bool :=
  if b2z b =? 0xF0 then in_range 0x90 0xBF c
  else if b2z b =? 0xF4 then in_range 0x80 0x8F c
  else continuation c.

Fixpoint utf8 (l : list byte) : bool :=
  match l with
  | [] => true
  | b :: l1 =>
    if b2z b <? 0x80 then utf8 l1 else
    match l1 with
    | [] => false
    | c1 :: l2 =>
      if in_range 0xC2 0xDF b then continuation c1 && utf8 l2 else
      match l2 with
      | [] => false
      | c2 :: l3 =>
        if in_range 0xE0 0xEF b then second_of_three b c1 && continuation c2 && utf8 l3 else
        match l3 with
        | [] => false
        | c3 :: l4 =>
          if in_range 0xF0 0xF4 b
          then second_of_four b c1 && continuation c2 && continuation c3 && utf8 l4
          else false
        end
      end
    end
  end.

Definition from_utf8 (l : list byte) : option str := if utf8 l then Some l else None.

Definition ascii (l : list byte) : Prop := Forall (λ b, b2z b < 0x80) l.

Lemma utf8_ascii l : ascii l → utf8 l = true.
Proof.
  induction 1 as [|b l Hb _ IH]; [done|]. cbn [utf8].
  by rewrite (proj2 (Z.ltb_lt _ _) Hb).
Qed.

Lemma ascii_app l k : ascii l → ascii k → ascii (l ++ k).
Proof. apply Forall_app_2. Qed.

(** ** [str::split] by one character, [slice::chunks(2)] *)

Fixpoint split (sep : byte) (l : str) : list str :=
  match l with
  | [] => [[]]
  | b :: l' =>
    if decide (b = sep) then [] :: split sep l'
    else match split sep l' with
         | p :: ps => (b :: p) :: ps
         | [] => [[b]]
         end
  end.

Fixpoint chunks2 {A} (l : list A) : list (list A) :=
  match l with
  | a :: b :: l' => [a; b] :: chunks2 l'
  | [a] => [[a]]
  | [] => []
  end.

Lemma split_nonempty sep l : split sep l ≠ [].
Proof. destruct l; cbn; [done|]. case_decide; [done|]. by destruct (split sep l). Qed.

Lemma split_no_sep sep p : sep ∉ p → split sep p = [p].
Proof.
  induction p as [|b p IH]; intros Hp; cbn; [done|].
  apply not_elem_of_cons in Hp as [? ?]. rewrite decide_False by done. by rewrite IH.
Qed.

Lemma split_app sep p l : sep ∉ p → split sep (p ++ sep :: l) = p :: split sep l.
Proof.
  induction p as [|b p IH]; intros Hp; cbn.
  - by rewrite decide_True.
  - apply not_elem_of_cons in Hp as [? ?]. rewrite decide_False by done. by rewrite IH.
Qed.

(** ** Digits *)

Definition to_digit (radix : Z) (b : byte) : option Z :=
  let z := b2z b in
  let d := if (48 <=? z) && (z <=? 57) then z - 48
           else if (97 <=? z) && (z <=? 122) then z - 87
           else if (65 <=? z) && (z <=? 90) then z - 55
           else radix in
  if d <? radix then Some d else None.

Definition digit_char (d : Z) : byte := z2b (if d <? 10 then 48 + d else 87 + d).

Definition digits_ok (radix : Z) (ds : list Z) : Prop := Forall (λ d, 0 ≤ d < radix) ds.

Definition digits_value (radix acc : Z) (ds : list Z) : Z :=
  foldl (λ acc d, acc * radix + d) acc ds.

(** [Display] of an unsigned integer, and [{:x}]: most significant digit
    first, no leading zero. *)
Fixpoint digits_of (fuel : nat) (radix n : Z) : list Z :=
  match fuel with
  | O => []
  | S fuel => if n <? radix then [n] else digits_of fuel radix (n / radix) ++ [n mod radix]
  end.

Definition display_uint (radix n : Z) : str := digit_char <$> digits_of 16 radix n.

Lemma b2z_digit_char d : 0 ≤ d < 36 → b2z (digit_char d) = if d <? 10 then 48 + d else 87 + d.
Proof. intros. unfold digit_char. apply b2z_small. destruct (d <? 10) eqn:?; lia. Qed.

Lemma to_digit_char radix d : 0 ≤ d < radix → radix ≤ 36 → to_digit radix (digit_char d) = Some d.
Proof.
  intros. unfold to_digit. rewrite b2z_digit_char by lia.
  destruct (d <? 10) eqn:?; repeat case_match; f_equal; lia.
Qed.

Lemma digits_value_app radix acc ds d :
  digits_value radix acc (ds ++ [d]) = digits_value radix acc ds * radix + d.
Proof. unfold digits_value. by rewrite foldl_snoc. Qed.

Lemma digits_value_ge radix ds acc : 1 ≤ radix → 0 ≤ acc → digits_ok radix ds →
  acc ≤ digits_value radix acc ds.
Proof.
  intros Hr. unfold digits_value. revert acc.
  induction ds as [|d ds IH]; intros acc Hacc Hds; cbn; [lia|].
  apply Forall_cons in Hds as [? ?]. etrans; [|apply IH]; [nia|nia|done].
Qed.

(** What [digits_of] computes: the digits of [n], and how many there are. *)
Lemma digits_of_spec fuel radix n : 2 ≤ radix → 0 ≤ n < 2 ^ Z.of_nat fuel → (0 < fuel)%nat →
  let ds := digits_of fuel radix n in
  digits_ok radix ds ∧ digits_value radix 0 ds = n ∧
  ∃ d ds', ds = d :: ds' ∧ (ds' ≠ [] → 0 < d) ∧
    (ds' ≠ [] → radix ^ Z.of_nat (length ds') ≤ n).
Proof.
  intros Hr. revert n. induction fuel as [|fuel IH]; intros n Hn Hf; [lia|]. cbn [digits_of].
  destruct (n <? radix) eqn:Hlt.
  { split_and!; [apply Forall_singleton; lia|cbn; lia|]. by exists n, []. }
  assert (2 ^ Z.of_nat (S fuel) = 2 * 2 ^ Z.of_nat fuel) as E
    by (rewrite Nat2Z.inj_succ, Z.pow_succ_r; lia).
  assert (0 < n / radix) by (apply Z.div_str_pos; lia).
  assert (n / radix < 2 ^ Z.of_nat fuel) by (apply Z.div_lt_upper_bound; nia).
  assert (0 < fuel)%nat by (destruct fuel; [cbn in *|]; lia).
  destruct (IH (n / radix)) as (Hok & Hval & d & ds' & Hds & Hd & Hlen); [lia|done|].
  pose proof (Z.mod_pos_bound n radix ltac:(lia)).
  pose proof (Z.div_mod n radix ltac:(lia)).
  split_and!.
  - apply Forall_app. split; [done|]. by apply Forall_singleton.
  - rewrite digits_value_app, Hval. lia.
  - rewrite Hds in *. exists d, (ds' ++ [n mod radix]). split; [done|].
    assert (0 < d ∧ radix ^ Z.of_nat (length ds') ≤ n / radix) as [? Hp].
    { destruct ds' as [|d2 ds']; [cbn in *; lia|]. split; [by apply Hd|by apply Hlen]. }
    split; [done|]. intros _. rewrite length_app. cbn [length].
    rewrite Nat2Z.inj_add, Z.pow_add_r, Z.pow_1_r by lia. nia.
Qed.

(** ** [u16::from_str]: an optional plus sign, then decimal digits. *)

Inductive IntErrorKind : Type := Empty | InvalidDigit | PosOverflow.

Fixpoint parse_digits (radix bound acc : Z) (l : str) : result Z IntErrorKind :=
  match l with
  | [] => Ok acc
  | b :: l' =>
    match to_digit radix b with
    | None => Err InvalidDigit
    | Some d =>
      if bound <? acc * radix + d then Err PosOverflow
      else parse_digits radix bound (acc * radix + d) l'
    end
  end.

Definition parse_uint (bound : Z) (l : str) : result Z IntErrorKind :=
  match l with
  | [] => Err Empty
  | b :: l' =>
    if decide (b = Byte.x2b) then
      match l' with
      | [] => Err InvalidDigit
      | _ => parse_digits 10 bound 0 l'
      end
    else parse_digits 10 bound 0 l
  end.

Definition u16_from_str : str → result Z IntErrorKind := parse_uint 65535.

Lemma parse_digits_chars radix bound ds acc :
  1 ≤ radix ≤ 36 → 0 ≤ acc → digits_ok radix ds → digits_value radix acc ds ≤ bound →
  parse_digits radix bound acc (digit_char <$> ds) = Ok (digits_value radix acc ds).
Proof.
  intros Hr. revert acc. induction ds as [|d ds IH]; intros acc Hacc Hds Hb; cbn; [done|].
  apply Forall_cons in Hds as [Hd Hds]. rewrite to_digit_char by lia.
  change (digits_value radix acc (d :: ds)) with (digits_value radix (acc * radix + d) ds) in *.
  pose proof (digits_value_ge radix ds (acc * radix + d) ltac:(lia) ltac:(nia) Hds).
  rewrite (proj2 (Z.ltb_ge _ _)) by lia. apply IH; try done. nia.
Qed.

Lemma parse_digits_range radix bound acc l n : 0 ≤ radix → 0 ≤ acc ≤ bound →
  parse_digits radix bound acc l = Ok n → 0 ≤ n ≤ bound.
Proof.
  intros Hr. revert acc. induction l as [|b l IH]; intros acc Hacc; cbn; [naive_solver|].
  destruct (to_digit radix b) as [d|] eqn:Hd; [|done].
  destruct (bound <? acc * radix + d) eqn:Hb; [done|]. apply IH.
  assert (0 ≤ d); [|nia]. unfold to_digit in Hd. repeat case_match; simplify_eq; lia.
Qed.

Lemma u16_from_str_range l n : u16_from_str l = Ok n → fits 16 n.
Proof.
  unfold u16_from_str, parse_uint, fits. repeat (case_match; try done);
    intros H'%parse_digits_range; lia.
Qed.

Lemma display_uint_cons radix n : 2 ≤ radix ≤ 36 → 0 ≤ n < 2 ^ 16 →
  ∃ d ds, display_uint radix n = digit_char <$> (d :: ds) ∧ digits_ok radix (d :: ds) ∧
    digits_value radix 0 (d :: ds) = n ∧ (ds ≠ [] → 0 < d) ∧
    (ds ≠ [] → radix ^ Z.of_nat (length ds) ≤ n).
Proof.
  intros. unfold display_uint.
  destruct (digits_of_spec 16 radix n) as (Hok & Hv & d & ds & Hds & Hd & Hl); [lia..|].
  rewrite Hds in *. eauto 10.
Qed.

Lemma digit_char_range d : 0 ≤ d < 36 →
  48 ≤ b2z (digit_char d) ≤ 57 ∨ 97 ≤ b2z (digit_char d) ≤ 122.
Proof. intros. rewrite b2z_digit_char by done. destruct (d <? 10) eqn:?; lia. Qed.

Lemma display_uint_chars radix n : 2 ≤ radix ≤ 36 → 0 ≤ n < 2 ^ 16 →
  Forall (λ b, 48 ≤ b2z b ≤ 57 ∨ 97 ≤ b2z b ≤ 122) (display_uint radix n).
Proof.
  intros Hr Hn. destruct (display_uint_cons radix n) as (d & ds & -> & Hok & _); [done..|].
  apply Forall_fmap. eapply Forall_impl; [done|]. cbn. intros. apply digit_char_range. lia.
Qed.

(** Printing a port and parsing it back. *)
Lemma u16_roundtrip n : fits 16 n → u16_from_str (display_uint 10 n) = Ok n.
Proof.
  intros Hn. destruct (display_uint_cons 10 n) as (d & ds & Hp & Hok & Hv & _); [lia|done|].
  pose proof (proj1 (proj1 (Forall_cons _ _ _) Hok)) as Hd.
  unfold u16_from_str, parse_uint. rewrite Hp. cbn [fmap list_fmap].
  rewrite decide_False.
  - etrans; [apply (parse_digits_chars 10 65535 (d :: ds) 0)|by f_equal];
      unfold fits in *; (done || lia).
  - intros E%(f_equal b2z). pose proof (digit_char_range d ltac:(lia)).
    change (b2z Byte.x2b) with 43 in E. lia.
Qed.
