(* ===== verification/Net.v ===== *)
(** * [std::net]: IP and socket addresses, their parser and their [Display]

    The parser is the recursive-descent [Parser] of the standard library: each
    reader is atomic, that is, a reader that fails consumes nothing. *)

From S2P Require Export Text.

(** ** Addresses *)

Record Ipv4Addr : Type := MkV4 { oct0 : byte; oct1 : byte; oct2 : byte; oct3 : byte }.

(** The eight 16-bit segments. *)
Record Ipv6Addr : Type := MkV6 { segments : list Z }.

Inductive IpAddr : Type :=
| V4 (ip : Ipv4Addr)
| V6 (ip : Ipv6Addr).

Record SocketAddrV4 : Type := MkSockV4 { v4_ip : Ipv4Addr; v4_port : Z }.
Record SocketAddrV6 : Type := MkSockV6 {
  v6_ip : Ipv6Addr; v6_port : Z; flowinfo : Z; scope_id : Z }.

Inductive SocketAddr : Type :=
| SockV4 (a : SocketAddrV4)
| SockV6 (a : SocketAddrV6).

Definition v6_wf (ip : Ipv6Addr) : Prop :=
  length (segments ip) = 8%nat ∧ Forall (fits 16) (segments ip).

Definition ip_wf (ip : IpAddr) : Prop :=
  match ip with V4 _ => True | V6 ip => v6_wf ip end.

#[export] Instance Ipv4Addr_eq_dec : EqDecision Ipv4Addr.
Proof. solve_decision. Defined.
#[export] Instance Ipv6Addr_eq_dec : EqDecision Ipv6Addr.
Proof. solve_decision. Defined.
#[export] Instance IpAddr_eq_dec : EqDecision IpAddr.
Proof. solve_decision. Defined.
#[export] Instance SocketAddrV4_eq_dec : EqDecision SocketAddrV4.
Proof. solve_decision. Defined.
#[export] Instance SocketAddrV6_eq_dec : EqDecision SocketAddrV6.
Proof. solve_decision. Defined.
#[export] Instance SocketAddr_eq_dec : EqDecision SocketAddr.
Proof. solve_decision. Defined.

#[export] Instance IpAddr_countable : Countable IpAddr.
Proof.
  refine (inj_countable'
    (λ ip, match ip with
           | V4 ip => inl (oct0 ip, oct1 ip, oct2 ip, oct3 ip)
           | V6 ip => inr (segments ip)
           end)
    (λ x, match x with
          | inl (a, b, c, d) => V4 (MkV4 a b c d)
          | inr s => V6 (MkV6 s)
          end) _).
  by intros [[]|[]].
Defined.

(** [SocketAddr::new], [ip], [port]. *)
Definition SocketAddr_new (ip : IpAddr) (port : Z) : SocketAddr :=
  match ip with
  | V4 ip => SockV4 (MkSockV4 ip port)
  | V6 ip => SockV6 (MkSockV6 ip port 0 0)
  end.

Definition sock_ip (a : SocketAddr) : IpAddr :=
  match a with SockV4 a => V4 (v4_ip a) | SockV6 a => V6 (v6_ip a) end.

Definition sock_port (a : SocketAddr) : Z :=
  match a with SockV4 a => v4_port a | SockV6 a => v6_port a end.

(** ** [Display] *)

Definition colon : byte := Byte.x3a.
Definition dot : byte := Byte.x2e.

Definition display_octet (b : byte) : str := display_uint 10 (b2z b).

Definition display_v4 (ip : Ipv4Addr) : str :=
  display_octet (oct0 ip) ++ dot :: display_octet (oct1 ip) ++ dot ::
  display_octet (oct2 ip) ++ dot :: display_octet (oct3 ip).

Definition to_ipv4_mapped (segs : list Z) : option Ipv4Addr :=
  match segs with
  | [0; 0; 0; 0; 0; 65535; g; h] => Some (MkV4 (z2b (g / 256)) (z2b g) (z2b (h / 256)) (z2b h))
  | _ => None
  end.

Record span : Type := Span { span_start : nat; span_len : nat }.

Record span_scan : Type := SpanScan { longest : span; current : span }.

Definition span_step (i : nat) (segment : Z) (s : span_scan) : span_scan :=
  if segment =? 0 then
    let start := if bool_decide (span_len (current s) = O) then i else span_start (current s) in
    let current := Span start (S (span_len (current s))) in
    SpanScan (if bool_decide (span_len (longest s) < span_len current)%nat then current else longest s) current
  else SpanScan (longest s) (Span 0 0).

Fixpoint span_loop (i : nat) (segs : list Z) (s : span_scan) : span_scan :=
  match segs with
  | [] => s
  | segment :: segs => span_loop (S i) segs (span_step i segment s)
  end.

(** The first longest run of zero segments. *)
Definition zeroes (segs : list Z) : span :=
  longest (span_loop 0 segs (SpanScan (Span 0 0) (Span 0 0))).

Definition fmt_group (g : Z) : str := display_uint 16 g.

Definition fmt_tail (gs : list Z) : str := gs ≫= λ g, colon :: fmt_group g.

Definition fmt_subslice (gs : list Z) : str :=
  match gs with [] => [] | g :: gs => fmt_group g ++ fmt_tail gs end.

Definition display_v6 (ip : Ipv6Addr) : str :=
  let segs := segments ip in
  match to_ipv4_mapped segs with
  | Some ip4 => lit "::ffff:" ++ display_v4 ip4
  | None =>
    let z := zeroes segs in
    if bool_decide (1 < span_len z)%nat then
      fmt_subslice (take (span_start z) segs) ++ lit "::" ++ fmt_subslice (drop (span_start z + span_len z) segs)
    else fmt_subslice segs
  end.

Definition display_ip (ip : IpAddr) : str :=
  match ip with V4 ip => display_v4 ip | V6 ip => display_v6 ip end.

(** ** The parser *)

Definition parser (A : Type) : Type := str → option (A * str).

Definition read_given_char (c : byte) : parser () := λ l,
  match l with
  | b :: l' => if decide (b = c) then Some ((), l') else None
  | [] => None
  end.

Fixpoint digit_loop (radix bound : Z) (max count : nat) (acc : Z) (l : str)
    : option (Z * nat * str) :=
  match l with
  | [] => Some (acc, count, [])
  | b :: l' =>
    match to_digit radix b with
    | None => Some (acc, count, l)
    | Some d =>
      if bound <? acc * radix + d then None
      else if bool_decide (max < S count)%nat then None
      else digit_loop radix bound max (S count) (acc * radix + d) l'
    end
  end.

Definition read_number (radix bound : Z) (max : nat) (allow_zero_prefix : bool) : parser Z := λ l,
  let has_leading_zero := match l with b :: _ => bool_decide (b = Byte.x30) | [] => false end in
  '(n, count, l') ← digit_loop radix bound max 0 0 l;
  if bool_decide (count = O) then None
  else if negb allow_zero_prefix && has_leading_zero && bool_decide (1 < count)%nat then None
  else Some (n, l').

Definition read_separator {A} (sep : byte) (index : nat) (p : parser A) : parser A := λ l,
  match index with
  | O => p l
  | S _ => '(_, l) ← read_given_char sep l; p l
  end.

Definition read_octet (index : nat) : parser Z :=
  read_separator dot index (read_number 10 255 3 false).

Definition read_ipv4_addr : parser Ipv4Addr := λ l,
  '(a, l) ← read_octet 0 l;
  '(b, l) ← read_octet 1 l;
  '(c, l) ← read_octet 2 l;
  '(d, l) ← read_octet 3 l;
  Some (MkV4 (z2b a) (z2b b) (z2b c) (z2b d), l).

Definition be16 (a b : byte) : Z := be_value [a; b].

(** [read_groups] from slot [i] of [limit] slots, [slots] of them left. *)
Fixpoint read_groups (slots i limit : nat) (groups : list Z) (l : str) : list Z * bool * str :=
  match slots with
  | O => (groups, false, l)
  | S slots =>
    let ipv4 := if bool_decide (i < limit - 1)%nat
                then read_separator colon i read_ipv4_addr l else None in
    match ipv4 with
    | Some (ip, l) =>
      (groups ++ [be16 (oct0 ip) (oct1 ip); be16 (oct2 ip) (oct3 ip)], true, l)
    | None =>
      match read_separator colon i (read_number 16 65535 4 true) l with
      | Some (g, l) => read_groups slots (S i) limit (groups ++ [g]) l
      | None => (groups, false, l)
      end
    end
  end.

Definition read_ipv6_addr : parser Ipv6Addr := λ l,
  let '(head, head_ipv4, l) := read_groups 8 0 8 [] l in
  if bool_decide (length head = 8%nat) then Some (MkV6 head, l)
  else if head_ipv4 : bool then None
  else
    '(_, l) ← read_given_char colon l;
    '(_, l) ← read_given_char colon l;
    let limit := (8 - (length head + 1))%nat in
    let '(tail, _, l) := read_groups limit 0 limit [] l in
    Some (MkV6 (head ++ replicate (8 - length head - length tail) 0 ++ tail), l).

(** [Ipv4Addr::from_str] and [Ipv6Addr::from_str]: the whole string must be
    read; an IPv4 address has at most 15 characters. *)
Inductive AddrParseError : Type := AddrParseErrorV4 | AddrParseErrorV6.

Definition parse_v4 (s : str) : result Ipv4Addr AddrParseError :=
  if bool_decide (15 < length s)%nat then Err AddrParseErrorV4
  else match read_ipv4_addr s with
       | Some (ip, []) => Ok ip
       | _ => Err AddrParseErrorV4
       end.

Definition parse_v6 (s : str) : result Ipv6Addr AddrParseError :=
  match read_ipv6_addr s with
  | Some (ip, []) => Ok ip
  | _ => Err AddrParseErrorV6
  end.

Example v6_examples :
  parse_v6 (lit "::1") = Ok (MkV6 [0; 0; 0; 0; 0; 0; 0; 1]) ∧
  parse_v6 (lit "fe80::1:0:0:2") = Ok (MkV6 [65152; 0; 0; 0; 1; 0; 0; 2]) ∧
  display_v6 (MkV6 [65152; 0; 0; 0; 1; 0; 0; 2]) = lit "fe80::1:0:0:2" ∧
  parse_v6 (lit "::ffff:1.2.3.4") = Ok (MkV6 [0; 0; 0; 0; 0; 65535; 258; 772]) ∧
  display_v6 (MkV6 [0; 0; 0; 0; 0; 65535; 258; 772]) = lit "::ffff:1.2.3.4" ∧
  parse_v6 (lit "1:2:3:4:5:6:7") = Err AddrParseErrorV6 ∧
  parse_v6 (lit "1::2::3") = Err AddrParseErrorV6 ∧
  parse_v4 (lit "127.0.0.1") = Ok (MkV4 Byte.x7f Byte.x00 Byte.x00 Byte.x01) ∧
  parse_v4 (lit "256.0.0.1") = Err AddrParseErrorV4 ∧
  parse_v4 (lit "01.0.0.1") = Err AddrParseErrorV4.
Proof. vm_compute. repeat split. Qed.

#[local] Arguments display_uint : simpl never.
#[local] Arguments read_number : simpl never.
#[local] Arguments read_octet : simpl never.
#[local] Arguments read_ipv4_addr : simpl never.
#[local] Arguments fmt_group : simpl never.
#[local] Arguments display_octet : simpl never.

(** ** Round trips *)

(** What may follow a run of digits: nothing, or a separator. *)
Definition stops (l : str) : Prop :=
  match l with [] => True | b :: _ => b = colon ∨ b = dot end.

Lemma to_digit_stop radix b : radix ≤ 36 → b = colon ∨ b = dot → to_digit radix b = None.
Proof.
  intros Hr [-> | ->]; unfold to_digit; cbn;
    change (b2z colon) with 58; change (b2z dot) with 46; cbn;
    by rewrite (proj2 (Z.ltb_ge _ _)).
Qed.

Lemma digit_loop_stops radix bound max count acc l : radix ≤ 36 → stops l →
  digit_loop radix bound max count acc l = Some (acc, count, l).
Proof. intros Hr Hl. destruct l as [|b l]; cbn; [done|]. by rewrite to_digit_stop. Qed.

Lemma digit_loop_chars radix bound max ds count acc l :
  1 ≤ radix ≤ 36 → 0 ≤ acc → digits_ok radix ds → digits_value radix acc ds ≤ bound →
  (count + length ds ≤ max)%nat → stops l →
  digit_loop radix bound max count acc ((digit_char <$> ds) ++ l) =
    Some (digits_value radix acc ds, (count + length ds)%nat, l).
Proof.
  intros Hr. revert count acc. induction ds as [|d ds IH]; intros count acc Hacc Hds Hb Hm Hl; cbn.
  - rewrite digit_loop_stops by (done || lia). by rewrite Nat.add_0_r.
  - apply Forall_cons in Hds as [Hd Hds]. rewrite to_digit_char by lia.
    change (digits_value radix acc (d :: ds)) with (digits_value radix (acc * radix + d) ds) in *.
    pose proof (digits_value_ge radix ds (acc * radix + d) ltac:(lia) ltac:(nia) Hds).
    cbn [length] in Hm. rewrite (proj2 (Z.ltb_ge _ _)), bool_decide_false by lia.
    rewrite IH by (done || lia). by rewrite Nat.add_succ_r.
Qed.

Lemma digit_char_0 d : 0 ≤ d < 36 → digit_char d = Byte.x30 → d = 0.
Proof.
  intros Hd E%(f_equal b2z). rewrite b2z_digit_char in E by done.
  change (b2z Byte.x30) with 48 in E. destruct (d <? 10) eqn:?; lia.
Qed.

Lemma read_number_display radix bound max z n l : 2 ≤ radix ≤ 36 →
  0 ≤ n ≤ bound → bound < 2 ^ 16 → bound < radix ^ Z.of_nat max → (0 < max)%nat → stops l →
  read_number radix bound max z (display_uint radix n ++ l) = Some (n, l).
Proof.
  intros Hr Hn Hb Hmax Hpos Hl.
  destruct (display_uint_cons radix n) as (d & ds & -> & Hok & Hv & Hd & Hlen); [lia..|].
  pose proof (proj1 (proj1 (Forall_cons _ _ _) Hok)) as Hd0.
  assert (length (d :: ds) ≤ max)%nat as Hm.
  { destruct ds as [|d2 ds].
    - cbn [length]. lia.
    - assert (radix ^ Z.of_nat (length (d2 :: ds)) < radix ^ Z.of_nat max) as Hp
        by (specialize (Hlen ltac:(done)); lia).
      apply Z.pow_lt_mono_r_iff in Hp; cbn [length] in *; lia. }
  unfold read_number. rewrite (digit_loop_chars radix bound max (d :: ds)) by (done || lia).
  rewrite Hv. cbn. destruct z; cbn; [by rewrite bool_decide_false by lia|].
  rewrite bool_decide_false by lia.
  destruct (bool_decide (digit_char d = Byte.x30)) eqn:Hz; cbn; [|done].
  apply bool_decide_eq_true, digit_char_0 in Hz; [|lia].
  rewrite bool_decide_false; [done|].
  destruct ds; cbn; [lia|]. specialize (Hd ltac:(done)). lia.
Qed.

Lemma read_octet_first b l : stops l → read_octet 0 (display_octet b ++ l) = Some (b2z b, l).
Proof.
  intros. pose proof (b2z_bound b). unfold read_octet, display_octet. cbn.
  by rewrite read_number_display by (done || lia).
Qed.

Lemma read_octet_next i b l : stops l →
  read_octet (S i) (dot :: display_octet b ++ l) = Some (b2z b, l).
Proof.
  intros. pose proof (b2z_bound b). unfold read_octet, display_octet. cbn.
  rewrite decide_True by done. cbn. by rewrite read_number_display by (done || lia).
Qed.

Lemma read_ipv4_display ip l : stops l → read_ipv4_addr (display_v4 ip ++ l) = Some (ip, l).
Proof.
  intros Hl. destruct ip as [a b c d]. unfold read_ipv4_addr, display_v4. cbn [oct0 oct1 oct2 oct3].
  repeat (rewrite <-(assoc_L (++)); cbn [app]).
  rewrite read_octet_first by (by right). cbn.
  rewrite read_octet_next by (by right). cbn.
  rewrite read_octet_next by (by right). cbn.
  rewrite read_octet_next by done. cbn. by rewrite !z2b_b2z.
Qed.

Lemma length_display_octet b : (length (display_octet b) ≤ 3)%nat.
Proof.
  pose proof (b2z_bound b). unfold display_octet.
  destruct (display_uint_cons 10 (b2z b)) as (d & ds & -> & _ & _ & _ & Hlen); [lia..|].
  rewrite length_fmap. destruct ds as [|d2 ds]; [cbn; lia|].
  specialize (Hlen ltac:(done)). cbn [length] in *.
  destruct (decide (length ds ≤ 1)%nat); [lia|].
  assert (10 ^ 3 ≤ 10 ^ Z.of_nat (S (length ds))) by (apply Z.pow_le_mono_r; lia). lia.
Qed.

Lemma length_display_v4 ip : (length (display_v4 ip) ≤ 15)%nat.
Proof.
  destruct ip as [a b c d]. unfold display_v4. cbn [oct0 oct1 oct2 oct3].
  repeat (rewrite length_app; cbn [length]).
  pose proof (length_display_octet a). pose proof (length_display_octet b).
  pose proof (length_display_octet c). pose proof (length_display_octet d). lia.
Qed.

Lemma v4_roundtrip ip : parse_v4 (display_v4 ip) = Ok ip.
Proof.
  unfold parse_v4. pose proof (length_display_v4 ip). rewrite bool_decide_false by lia.
  pose proof (read_ipv4_display ip [] I) as E. rewrite app_nil_r in E. by rewrite E.
Qed.

(** A hexadecimal group before a colon or the end never reads as IPv4. *)
Definition group_end (l : str) : Prop :=
  match l with [] => True | b :: _ => b = colon end.

Lemma group_end_stops l : group_end l → stops l.
Proof. destruct l; cbn; auto. Qed.

Definition not_dot (l : str) : Prop :=
  match l with [] => True | b :: _ => b ≠ dot end.

Lemma digit_loop_group bound max ds count acc l n k r :
  Forall (λ d, 0 ≤ d < 36) ds → group_end l →
  digit_loop 10 bound max count acc ((digit_char <$> ds) ++ l) = Some (n, k, r) → not_dot r.
Proof.
  intros Hds Hl. revert count acc. induction Hds as [|d ds Hd Hds IH]; intros count acc; cbn.
  - rewrite digit_loop_stops by (lia || by apply group_end_stops). intros [= _ _ <-].
    destruct l as [|b l]; cbn in *; [done|]. by subst.
  - destruct (to_digit 10 (digit_char d)); [repeat case_match; naive_solver|].
    intros [= _ _ <-] E%(f_equal b2z). pose proof (digit_char_range d Hd).
    change (b2z dot) with 46 in E. lia.
Qed.

Lemma read_octet_not_dot i l : not_dot l → read_octet (S i) l = None.
Proof.
  unfold read_octet. destruct l; cbn; intros; [done|]. by rewrite decide_False.
Qed.

Lemma read_ipv4_group ds l : Forall (λ d, 0 ≤ d < 36) ds → group_end l →
  read_ipv4_addr ((digit_char <$> ds) ++ l) = None.
Proof.
  intros Hds Hl. unfold read_ipv4_addr.
  destruct (read_octet 0 _) as [[n r]|] eqn:E0; cbn; [|done].
  unfold read_octet, read_separator, read_number in E0.
  destruct (digit_loop 10 255 3 0 0 _) as [[[n' k] r']|] eqn:Eloop; cbn in E0; [|done].
  apply digit_loop_group in Eloop; [|done..].
  repeat case_match; simplify_eq; by rewrite read_octet_not_dot.
Qed.

(** Nothing reads as a group before [::] or at the end. *)
Definition groups_end (l : str) : Prop := l = [] ∨ ∃ l', l = colon :: colon :: l'.

Lemma read_number_stops radix bound max z l : radix ≤ 36 → stops l →
  read_number radix bound max z l = None.
Proof. intros. unfold read_number. by rewrite digit_loop_stops. Qed.

Lemma read_ipv4_stops l : stops l → read_ipv4_addr l = None.
Proof.
  intros. unfold read_ipv4_addr, read_octet, read_separator.
  by rewrite read_number_stops.
Qed.

Lemma read_groups_end slots i limit gs l : groups_end l →
  read_groups slots i limit gs l = (gs, false, l).
Proof.
  intros Hl. assert (∀ A (p : parser A),
    (∀ k, stops k → p k = None) → read_separator colon i p l = None) as Hsep.
  { intros A p Hp. unfold read_separator.
    destruct Hl as [-> | [l' ->]], i; cbn;
      rewrite ?decide_True by done; cbn; try done; apply Hp; cbn; auto. }
  destruct slots; cbn; [done|].
  rewrite (Hsep _ (read_number 16 65535 4 true)) by (intros; by apply read_number_stops).
  rewrite (Hsep _ read_ipv4_addr) by apply read_ipv4_stops. by case_bool_decide.
Qed.

Lemma fmt_group_digits g : fits 16 g →
  ∃ ds, fmt_group g = digit_char <$> ds ∧ Forall (λ d, 0 ≤ d < 36) ds.
Proof.
  intros Hg. destruct (display_uint_cons 16 g) as (d & ds & Hp & Hok & _); [lia|done|].
  exists (d :: ds). split; [done|]. eapply Forall_impl; [done|]. cbn. lia.
Qed.

Lemma read_group_display g l : fits 16 g → group_end l →
  read_ipv4_addr (fmt_group g ++ l) = None ∧
  read_number 16 65535 4 true (fmt_group g ++ l) = Some (g, l).
Proof.
  intros Hg Hl. split.
  - destruct (fmt_group_digits g Hg) as (ds & -> & ?). by apply read_ipv4_group.
  - unfold fits, fmt_group in *. apply read_number_display; try lia.
    by apply group_end_stops.
Qed.

Lemma fmt_tail_group_end gs l : groups_end l → group_end (fmt_tail gs ++ l).
Proof. intros Hl. destruct gs; cbn; [|done]. by destruct Hl as [-> | [l' ->]]. Qed.

Lemma read_groups_tail gs slots i limit acc l : (0 < i)%nat → (length gs ≤ slots)%nat →
  Forall (fits 16) gs → groups_end l →
  read_groups slots i limit acc (fmt_tail gs ++ l) = (acc ++ gs, false, l).
Proof.
  intros Hi Hlen Hgs Hl. revert slots i acc Hi Hlen.
  induction Hgs as [|g gs Hg Hgs IH]; intros slots i acc Hi Hlen.
  - rewrite app_nil_r. by apply read_groups_end.
  - destruct slots as [|slots]; [cbn in Hlen; lia|]. destruct i as [|i]; [lia|].
    destruct (read_group_display g (fmt_tail gs ++ l) Hg) as [H4 Hn];
      [by apply fmt_tail_group_end|].
    change (fmt_tail (g :: gs)) with ((colon :: fmt_group g) ++ fmt_tail gs).
    rewrite <-(assoc_L (++)). cbn. rewrite decide_True by done. cbn. rewrite H4, Hn.
    rewrite IH by (cbn in Hlen; lia). rewrite <-(assoc_L (++)). by case_bool_decide.
Qed.

Lemma read_groups_subslice gs slots limit l : (length gs ≤ slots)%nat →
  Forall (fits 16) gs → groups_end l →
  read_groups slots 0 limit [] (fmt_subslice gs ++ l) = (gs, false, l).
Proof.
  intros Hlen Hgs Hl. destruct gs as [|g gs]; [by apply read_groups_end|].
  apply Forall_cons in Hgs as [Hg Hgs].
  destruct slots as [|slots]; [cbn in Hlen; lia|]. cbn in Hlen.
  destruct (read_group_display g (fmt_tail gs ++ l) Hg) as [H4 Hn];
    [by apply fmt_tail_group_end|].
  cbn [fmt_subslice read_groups read_separator]. rewrite <-(assoc_L (++)), H4, Hn.
  rewrite read_groups_tail by (done || lia). by case_bool_decide.
Qed.

(** The span [zeroes] finds is a run of zero segments. *)
Definition span_ok (p : list Z) (s : span) : Prop :=
  (span_start s + span_len s ≤ length p)%nat ∧
  ∀ k, (span_start s ≤ k < span_start s + span_len s)%nat → p !! k = Some 0.

Definition scan_ok (p : list Z) (s : span_scan) : Prop :=
  span_ok p (longest s) ∧ span_ok p (current s) ∧
  (span_len (current s) = O ∨ span_start (current s) + span_len (current s) = length p)%nat.

Lemma span_ok_snoc p x s : span_ok p s → span_ok (p ++ [x]) s.
Proof.
  intros [Hl Hz]. split; [solve_length|].
  intros k Hk. apply lookup_app_l_Some. by apply Hz.
Qed.

Lemma span_step_ok p x s : scan_ok p s → scan_ok (p ++ [x]) (span_step (length p) x s).
Proof.
  intros (Hlong & Hcur & Hend). unfold span_step. destruct (x =? 0) eqn:Hx.
  - apply Z.eqb_eq in Hx as ->.
    set (c := Span (if bool_decide (span_len (current s) = O) then length p
                    else span_start (current s)) (S (span_len (current s)))).
    assert (span_start c + span_len (current s) = length p)%nat as Hstart.
    { subst c. cbn. case_bool_decide; lia. }
    assert (span_ok (p ++ [0]) c) as Hc.
    { split; [rewrite length_app; subst c; cbn in *; lia|]. intros k Hk.
      destruct (decide (k = length p)) as [->|]; [by rewrite list_lookup_middle|].
      apply lookup_app_l_Some, Hcur. subst c. cbn in *. case_bool_decide; lia. }
    split_and!; cbn [longest current]; [|done|].
    + fold c. case_bool_decide; [done|]. by apply span_ok_snoc.
    + right. rewrite length_app. subst c. cbn in *. lia.
  - split_and!; [by apply span_ok_snoc| |by left]. split; cbn; [lia|]. intros; lia.
Qed.

Lemma span_loop_ok segs p s : scan_ok p s → scan_ok (p ++ segs) (span_loop (length p) segs s).
Proof.
  revert p s. induction segs as [|x segs IH]; intros p s Hs; cbn.
  - by rewrite app_nil_r.
  - rewrite cons_middle, (assoc_L (++)).
    replace (S (length p)) with (length (p ++ [x])) by solve_length.
    apply IH. by apply span_step_ok.
Qed.

Lemma zeroes_ok segs : span_ok segs (zeroes segs).
Proof.
  apply (span_loop_ok segs [] (SpanScan (Span 0 0) (Span 0 0))).
  split_and!; [..|by left]; (split; cbn; [lia|intros; lia]).
Qed.

Lemma span_ok_split segs s : span_ok segs s →
  segs = take (span_start s) segs ++ replicate (span_len s) 0 ++
         drop (span_start s + span_len s) segs.
Proof.
  intros [Hl Hz]. rewrite <-(take_drop (span_start s) segs) at 1. f_equal.
  rewrite <-(take_drop (span_len s) (drop _ segs)) at 1. rewrite drop_drop. f_equal.
  apply list_eq_same_length with (span_len s).
  - by rewrite length_replicate.
  - solve_length.
  - intros k x y Hk. rewrite lookup_take_lt, lookup_drop, Hz, lookup_replicate_2 by lia.
    congruence.
Qed.

Lemma z2b_div g : fits 16 g → b2z (z2b (g / 256)) * 256 + b2z (z2b g) = g.
Proof.
  intros Hg. unfold fits in Hg. rewrite b2z_small, b2z_z2b.
  - pose proof (Z.div_mod g 256). lia.
  - split; [apply Z.div_pos; lia|apply Z.div_lt_upper_bound; lia].
Qed.

Lemma to_ipv4_mapped_Some segs ip : Forall (fits 16) segs → to_ipv4_mapped segs = Some ip →
  segs = [0; 0; 0; 0; 0; 65535; be16 (oct0 ip) (oct1 ip); be16 (oct2 ip) (oct3 ip)].
Proof.
  intros Hs. unfold to_ipv4_mapped. repeat case_match; try done. intros [= <-].
  repeat match goal with H : Forall _ (_ :: _) |- _ => apply Forall_cons in H as [? ?] end.
  unfold be16, be_value. cbn [foldl oct0 oct1 oct2 oct3].
  by rewrite !Z.mul_0_l, !Z.add_0_l, !z2b_div.
Qed.

Lemma read_groups_embedded n limit g ip : (1 < limit - 1)%nat → fits 16 g →
  read_groups (S (S n)) 0 limit [] (fmt_group g ++ colon :: display_v4 ip) =
    ([g; be16 (oct0 ip) (oct1 ip); be16 (oct2 ip) (oct3 ip)], true, []).
Proof.
  intros Hlim Hg. destruct (read_group_display g (colon :: display_v4 ip) Hg) as [H4 Hn]; [done|].
  pose proof (read_ipv4_display ip [] I) as E. rewrite app_nil_r in E.
  cbn [read_groups read_separator]. rewrite H4, Hn.
  rewrite (bool_decide_true (1 < _)%nat) by lia. cbn [read_given_char].
  rewrite decide_True by done. cbn [mbind option_bind]. rewrite E. by case_bool_decide.
Qed.

Lemma parse_v6_mapped ip :
  parse_v6 (lit "::ffff:" ++ display_v4 ip) =
    Ok (MkV6 [0; 0; 0; 0; 0; 65535; be16 (oct0 ip) (oct1 ip); be16 (oct2 ip) (oct3 ip)]).
Proof.
  unfold parse_v6, read_ipv6_addr.
  change (lit "::ffff:" ++ display_v4 ip)
    with (colon :: colon :: fmt_group 65535 ++ colon :: display_v4 ip).
  rewrite read_groups_end by (right; eauto). cbn [length].
  rewrite bool_decide_false by done. cbn [read_given_char].
  rewrite decide_True by done. cbn [mbind option_bind read_given_char].
  rewrite decide_True by done. cbn [mbind option_bind].
  change (8 - (0 + 1))%nat with 7%nat. by rewrite read_groups_embedded by (done || lia).
Qed.

Lemma v6_roundtrip ip : v6_wf ip → parse_v6 (display_v6 ip) = Ok ip.
Proof.
  destruct ip as [segs]. intros [Hlen Hs]. cbn in Hlen, Hs. unfold display_v6. cbn [segments].
  destruct (to_ipv4_mapped segs) as [ip4|] eqn:Hm.
  { apply to_ipv4_mapped_Some in Hm; [|done]. by rewrite parse_v6_mapped, <-Hm. }
  case_bool_decide as Hz; unfold parse_v6, read_ipv6_addr.
  - pose proof (zeroes_ok segs) as Hok. pose proof (span_ok_split _ _ Hok) as Hsplit.
    destruct Hok as [Hle _]. set (z := zeroes segs) in *.
    change (lit "::" ++ ?l) with (colon :: colon :: l).
    rewrite read_groups_subslice;
      [|rewrite length_take; lia|by apply Forall_take|right; eauto].
    rewrite length_take, Nat.min_l, bool_decide_false by lia. cbn [read_given_char].
    rewrite decide_True by done. cbn [mbind option_bind read_given_char].
    rewrite decide_True by done. cbn [mbind option_bind].
    rewrite <-(app_nil_r (fmt_subslice (drop _ _))), read_groups_subslice;
      [|rewrite length_drop; lia|by apply Forall_drop|by left].
    rewrite length_drop.
    replace (8 - span_start z - (length segs - (span_start z + span_len z)))%nat
      with (span_len z) by lia. by rewrite <-Hsplit.
  - rewrite <-(app_nil_r (fmt_subslice segs)), read_groups_subslice by (done || lia || by left).
    by rewrite bool_decide_true.
Qed.

(** ** What the parser returns is well formed *)

Lemma digit_loop_range radix bound max l count acc n k r : 0 ≤ radix → 0 ≤ acc ≤ bound →
  digit_loop radix bound max count acc l = Some (n, k, r) → 0 ≤ n ≤ bound.
Proof.
  intros Hr. revert count acc. induction l as [|b l IH]; intros count acc Hacc; cbn; [naive_solver|].
  destruct (to_digit radix b) as [d|] eqn:Hd; [|naive_solver].
  destruct (bound <? acc * radix + d) eqn:Hb; [done|]. case_bool_decide; [done|]. apply IH.
  assert (0 ≤ d); [|nia]. unfold to_digit in Hd. repeat case_match; simplify_eq; lia.
Qed.

Lemma read_number_range radix bound max z l n r : 0 ≤ radix → 0 ≤ bound →
  read_number radix bound max z l = Some (n, r) → 0 ≤ n ≤ bound.
Proof.
  intros Hr Hb. unfold read_number.
  destruct (digit_loop radix bound max 0 0 l) as [[[n' k] r']|] eqn:E; cbn; [|done].
  apply digit_loop_range in E; [|lia..]. repeat case_match; naive_solver.
Qed.

Lemma read_separator_Some {A} sep i (p : parser A) l x :
  read_separator sep i p l = Some x → ∃ l', p l' = Some x.
Proof.
  unfold read_separator. destruct i; [eauto|].
  destruct (read_given_char sep l) as [[? ?]|]; cbn; [eauto|done].
Qed.

Lemma be16_fits a b : fits 16 (be16 a b).
Proof. pose proof (be_value_bound [a; b]). unfold fits, be16. cbn [length] in *. lia. Qed.

Lemma read_groups_wf slots i limit gs l gs' v4 l' : Forall (fits 16) gs →
  (i + slots = limit)%nat → read_groups slots i limit gs l = (gs', v4, l') →
  Forall (fits 16) gs' ∧ (length gs ≤ length gs' ≤ length gs + slots)%nat.
Proof.
  revert i gs l. induction slots as [|slots IH]; intros i gs l Hgs Hi; cbn.
  { intros [= <- _ _]. split; [done|lia]. }
  destruct (if bool_decide (i < limit - 1)%nat then _ else None) as [[ip r]|] eqn:H4.
  - intros [= <- _ _]. case_bool_decide; [|done].
    rewrite length_app. cbn [length]. split; [|lia].
    apply Forall_app. split; [done|]. by repeat constructor; try apply be16_fits.
  - destruct (read_separator colon i (read_number 16 65535 4 true) l) as [[g r]|] eqn:Hg.
    + intros Hr. apply read_separator_Some in Hg as [l0 Hg].
      apply read_number_range in Hg; [|lia..].
      destruct (IH (S i) (gs ++ [g]) r) as [? Hl]; [|lia|done|].
      * apply Forall_app. split; [done|]. apply Forall_singleton. unfold fits. lia.
      * rewrite length_app in Hl. cbn [length] in Hl. split; [done|lia].
    + intros [= <- _ _]. split; [done|lia].
Qed.

Lemma parse_v6_wf s ip : parse_v6 s = Ok ip → v6_wf ip.
Proof.
  unfold parse_v6, read_ipv6_addr.
  destruct (read_groups 8 0 8 [] s) as [[head h4] l1] eqn:Hhead.
  apply read_groups_wf in Hhead as [Hh Hlh]; [|done..]. cbn [length] in Hlh.
  case_bool_decide as H8; [destruct l1; [intros [= <-]; by split|done]|]. destruct h4; [done|].
  destruct (read_given_char colon l1) as [[? l2]|]; cbn [mbind option_bind]; [|done].
  destruct (read_given_char colon l2) as [[? l3]|]; cbn [mbind option_bind]; [|done].
  destruct (read_groups _ 0 _ [] l3) as [[tail t4] l4] eqn:Htail.
  apply read_groups_wf in Htail as [Ht Hlt]; [|done..]. cbn [length] in Hlt.
  destruct l4; [|done]. intros [= <-]. split; cbn.
  - solve_length.
  - apply Forall_app. split; [done|]. apply Forall_app. split; [|done].
    apply Forall_replicate. unfold fits. lia.
Qed.

(** ** The characters and the length of a displayed address *)

Definition ip_char (b : byte) : Prop :=
  48 ≤ b2z b ≤ 58 ∨ 97 ≤ b2z b ≤ 122 ∨ b2z b = 46.

#[export] Instance ip_char_dec b : Decision (ip_char b).
Proof. unfold ip_char. apply _. Defined.

Lemma display_uint_ip_chars radix n : 2 ≤ radix ≤ 36 → 0 ≤ n < 2 ^ 16 →
  Forall ip_char (display_uint radix n).
Proof.
  intros Hr Hn. eapply Forall_impl; [by apply display_uint_chars|].
  cbn. unfold ip_char. intros. lia.
Qed.

Lemma ip_char_colon : ip_char colon.
Proof. left. cbv. done. Qed.
Lemma ip_char_dot : ip_char dot.
Proof. right. right. done. Qed.

Lemma display_octet_chars b : Forall ip_char (display_octet b).
Proof. pose proof (b2z_bound b). apply display_uint_ip_chars; lia. Qed.

Lemma display_v4_chars ip : Forall ip_char (display_v4 ip).
Proof.
  unfold display_v4. repeat first [apply Forall_app; split | apply Forall_cons; split];
    auto using display_octet_chars, ip_char_dot.
Qed.

Lemma fmt_group_chars g : fits 16 g → Forall ip_char (fmt_group g) ∧ (length (fmt_group g) ≤ 4)%nat.
Proof.
  intros Hg. split; [by apply display_uint_ip_chars|]. unfold fmt_group.
  destruct (display_uint_cons 16 g) as (d & ds & -> & _ & _ & _ & Hlen); [lia|done|].
  rewrite length_fmap. destruct ds as [|d2 ds]; [cbn; lia|]. specialize (Hlen ltac:(done)).
  cbn [length] in *. destruct (decide (length ds ≤ 2)%nat); [lia|].
  assert (16 ^ 4 ≤ 16 ^ Z.of_nat (S (length ds))) by (apply Z.pow_le_mono_r; lia).
  unfold fits in Hg. lia.
Qed.

Lemma fmt_subslice_chars gs : Forall (fits 16) gs →
  Forall ip_char (fmt_subslice gs) ∧ (length (fmt_subslice gs) ≤ 5 * length gs)%nat.
Proof.
  intros Hgs. assert (∀ gs, Forall (fits 16) gs →
    Forall ip_char (fmt_tail gs) ∧ (length (fmt_tail gs) ≤ 5 * length gs)%nat) as Htail.
  { clear. induction 1 as [|g gs Hg _ [IHc IHl]]; [split; [constructor|cbn; lia]|].
    destruct (fmt_group_chars g Hg). change (fmt_tail (g :: gs)) with (colon :: fmt_group g ++ fmt_tail gs).
    cbn [length]. rewrite length_app. split; [|lia].
    apply Forall_cons; split; [apply ip_char_colon|]. by apply Forall_app. }
  destruct Hgs as [|g gs Hg Hgs]; [split; [constructor|cbn; lia]|].
  destruct (fmt_group_chars g Hg), (Htail gs Hgs).
  cbn [fmt_subslice length]. rewrite length_app. split; [by apply Forall_app|lia].
Qed.

Lemma display_ip_chars ip : ip_wf ip → Forall ip_char (display_ip ip) ∧ (length (display_ip ip) ≤ 42)%nat.
Proof.
  destruct ip as [ip|[segs]]; cbn [display_ip].
  { intros _. split; [apply display_v4_chars|]. pose proof (length_display_v4 ip). lia. }
  intros [Hlen Hs]. cbn in Hlen, Hs. unfold display_v6. cbn [segments].
  assert (Forall ip_char (lit "::")) by (by apply Forall_cons; split; [apply ip_char_colon|apply Forall_singleton, ip_char_colon]).
  destruct (to_ipv4_mapped segs) as [ip4|].
  { pose proof (length_display_v4 ip4). pose proof (display_v4_chars ip4).
    rewrite length_app. split; [|change (length (lit "::ffff:")) with 7%nat; lia].
    apply Forall_app; split; [|done].
    apply (bool_decide_unpack _). by vm_compute. }
  case_bool_decide.
  - destruct (fmt_subslice_chars (take (span_start (zeroes segs)) segs)) as [? Hl1]; [by apply Forall_take|].
    destruct (fmt_subslice_chars (drop (span_start (zeroes segs) + span_len (zeroes segs)) segs))
      as [? Hl2]; [by apply Forall_drop|].
    rewrite length_take in Hl1. rewrite length_drop in Hl2. split; [by rewrite !Forall_app|].
    rewrite !length_app. change (length (lit "::")) with 2%nat.
    destruct (zeroes_ok segs). lia.
  - destruct (fmt_subslice_chars segs); [done|]. split; [done|lia].
Qed.
