(* ===== verification/Addr.v ===== *)
(** * Crate addr: multiaddr-like socket addresses (src/addr/src/lib.rs) *)

From S2P Require Export Net.

Record Addr : Type := MkAddr { ip : IpAddr; port : Z }.

#[export] Instance Addr_eq_dec : EqDecision Addr.
Proof. solve_decision. Defined.

#[export] Instance Addr_countable : Countable Addr.
Proof.
  refine (inj_countable' (λ a, (ip a, port a)) (λ '(i, p), MkAddr i p) _). by intros [].
Defined.

Definition addr_wf (a : Addr) : Prop := ip_wf (ip a) ∧ fits 16 (port a).

Inductive AddrParseError : Type :=
| UnknownProtocol
| Ip (e : Net.AddrParseError)
| Port (e : IntErrorKind).

(** [From] for the two error types, applied by the [?] operator. *)
Definition from_ip_error {A} (r : result A Net.AddrParseError) : result A AddrParseError :=
  match r with Ok a => Ok a | Err e => Err (Ip e) end.

Definition from_port_error {A} (r : result A IntErrorKind) : result A AddrParseError :=
  match r with Ok a => Ok a | Err e => Err (Port e) end.

Definition socket_addr (a : Addr) : SocketAddr := SocketAddr_new (ip a) (port a).

Definition from_socket_addr (a : SocketAddr) : Addr := MkAddr (sock_ip a) (sock_port a).

Definition slash : byte := Byte.x2f.

(** The first arm of the loop: the network protocol and its address. *)
Definition parse_ip (k v : str) : result IpAddr AddrParseError :=
  if decide (k = lit "ip4") then
    match from_ip_error (parse_v4 v) with Ok a => Ok (V4 a) | Err e => Err e end
  else if decide (k = lit "ip6") then
    match from_ip_error (parse_v6 v) with Ok a => Ok (V6 a) | Err e => Err e end
  else Err UnknownProtocol.

(** The second arm: the transport protocol and the port. *)
Definition parse_port (k v : str) : result Z AddrParseError :=
  if decide (k = lit "udp") then from_port_error (u16_from_str v)
  else Err UnknownProtocol.

Fixpoint from_str_loop (i : nat) (chunks : list (list str)) (ip : option IpAddr)
    (port : option Z) : result (option IpAddr * option Z) AddrParseError :=
  match chunks with
  | [] => Ok (ip, port)
  | p :: chunks =>
    match i, p with
    | O, [k; v] =>
      match parse_ip k v with
      | Ok a => from_str_loop (S i) chunks (Some a) port
      | Err e => Err e
      end
    | S O, [k; v] =>
      match parse_port k v with
      | Ok n => from_str_loop (S i) chunks ip (Some n)
      | Err e => Err e
      end
    | _, _ => Err UnknownProtocol
    end
  end.

(** The option is the panic of [parts[1..]]. *)
Definition from_str (addr : str) : option (result Addr AddrParseError) :=
  parts ← slice_from 1 (split slash addr);
  Some match from_str_loop 0 (chunks2 parts) None None with
       | Err e => Err e
       | Ok (None, _) => Err UnknownProtocol
       | Ok (Some ip, port) => Ok (MkAddr ip (default 0 port))
       end.

(** [ToAddr] for [Addr] and for [&str]. *)
Class ToAddr (T : Type) : Type := { to_addr : T → option (result Addr AddrParseError) }.

#[export] Instance Addr_ToAddr : ToAddr Addr := {| to_addr a := Some (Ok a) |}.

#[export] Instance str_ToAddr : ToAddr str := {|
  to_addr s :=
    r ← from_str s;
    match r with Ok a => to_addr a | Err e => Some (Err e) end
|}.

Definition display_addr (a : Addr) : str :=
  (match ip a with V4 _ => lit "/ip4/" | V6 _ => lit "/ip6/" end) ++
  display_ip (ip a) ++ lit "/udp/" ++ display_uint 10 (port a).

(** ** Properties *)

Lemma from_str_parts addr : ∃ x parts, split slash addr = x :: parts ∧
  slice_from 1 (split slash addr) = Some parts.
Proof.
  pose proof (split_nonempty slash addr). destruct (split slash addr) as [|x parts]; [done|].
  exists x, parts. split; [done|]. apply slice_from_Some. cbn [length drop]. by split; [lia|].
Qed.

(** Parsing never panics, and returns well-formed addresses. *)
Lemma from_str_total_wf (s : str) :
  ∃ r, from_str s = Some r ∧ match r with Ok a => addr_wf a | Err _ => True end.
Proof.
  destruct (from_str_parts s) as (x & parts & _ & Hp). unfold from_str. rewrite Hp. cbn.
  eexists. split; [done|].
  assert (∀ k v a, parse_ip k v = Ok a → ip_wf a) as Hip.
  { intros k v a. unfold parse_ip. repeat case_decide; [| |done].
    - destruct (parse_v4 v); [|done]. by intros [= <-].
    - destruct (parse_v6 v) eqn:E; [|done]. intros [= <-]. by eapply parse_v6_wf. }
  assert (∀ cs i o q, (∀ a, o = Some a → ip_wf a) → (∀ n, q = Some n → fits 16 n) →
    ∀ o' q', from_str_loop i cs o q = Ok (o', q') →
    (∀ a, o' = Some a → ip_wf a) ∧ (∀ n, q' = Some n → fits 16 n)) as Hloop.
  { induction cs as [|p cs IH]; intros i o q Ho Hq o' q'; cbn [from_str_loop].
    - intros [= <- <-]. by split.
    - destruct i as [|[|i]], p as [|k [|v [|]]]; try done.
      + destruct (parse_ip k v) eqn:E; [|done]. apply IH; [|done]. intros ? [= <-]. eauto.
      + destruct (parse_port k v) eqn:E; [|done]. apply IH; [done|]. intros ? [= <-].
        unfold parse_port in E. case_decide; [|done].
        destruct (u16_from_str v) eqn:Eu; [|done]. injection E as ->.
        by eapply u16_from_str_range. }
  destruct (from_str_loop 0 (chunks2 parts) None None) as [[[a|] q]|e] eqn:E; [|done..].
  apply Hloop in E as [Ha Hq]; [|done..]. split; cbn; [by apply Ha|].
  destruct q; cbn; [by apply Hq|done].
Qed.

(** The two shapes of an accepted address. *)
Lemma from_str_loop_Ok cs a q : from_str_loop 0 cs None None = Ok (Some a, q) ↔
  ∃ k v, parse_ip k v = Ok a ∧
    ((cs = [[k; v]] ∧ q = None) ∨
     ∃ k' v' n, cs = [[k; v]; [k'; v']] ∧ parse_port k' v' = Ok n ∧ q = Some n).
Proof.
  split.
  - destruct cs as [|[|k [|v [|]]] cs]; try done. cbn [from_str_loop].
    destruct (parse_ip k v) as [a'|] eqn:Hip; [|done].
    destruct cs as [|[|k' [|v' [|]]] cs]; cbn [from_str_loop]; try done.
    + intros [= -> <-]. exists k, v. eauto.
    + destruct (parse_port k' v') as [n|] eqn:Hport; [|done].
      destruct cs as [|p cs]; cbn [from_str_loop]; [|done]. intros [= -> <-].
      exists k, v. split; [done|]. right. by exists k', v', n.
  - intros (k & v & Hip & [[-> ->] | (k' & v' & n & -> & Hport & ->)]); cbn; rewrite Hip; [done|].
    by rewrite Hport.
Qed.

Lemma chunks2_pair {A} (l : list A) a b : chunks2 l = [[a; b]] ↔ l = [a; b].
Proof. split; [|by intros ->]. destruct l as [|x [|y [|z [|w l]]]]; cbn; naive_solver. Qed.

Lemma chunks2_two_pairs {A} (l : list A) a b c d :
  chunks2 l = [[a; b]; [c; d]] ↔ l = [a; b; c; d].
Proof.
  split; [|by intros ->].
  destruct l as [|x [|y [|z [|w [|u [|t l]]]]]]; cbn; naive_solver.
Qed.

(** The accepted language. *)
Lemma from_str_accepts (s : str) (a : Addr) :
  from_str s = Some (Ok a) ↔
  ∃ x k v, parse_ip k v = Ok (ip a) ∧
    ((split slash s = [x; k; v] ∧ port a = 0) ∨
     ∃ p, split slash s = [x; k; v; lit "udp"; p] ∧ u16_from_str p = Ok (port a)).
Proof.
  destruct (from_str_parts s) as (x & parts & Hs & Hp). unfold from_str. rewrite Hp, Hs. cbn.
  split.
  - destruct (from_str_loop 0 (chunks2 parts) None None) as [[[i|] q]|e] eqn:E; [|done..].
    intros [= <-]. cbn.
    apply from_str_loop_Ok in E as (k & v & Hip & [[Hc ->] | (k' & v' & n & Hc & Hport & ->)]).
    + apply chunks2_pair in Hc as ->. exists x, k, v. eauto.
    + apply chunks2_two_pairs in Hc as ->. exists x, k, v. split; [done|]. right. exists v'.
      unfold parse_port in Hport. case_decide; [subst|done]. split; [done|].
      destruct (u16_from_str v'); [|done]. by injection Hport as ->.
  - intros (x' & k & v & Hip & Hcase). destruct a as [i n]. cbn in *.
    assert (∃ q, from_str_loop 0 (chunks2 parts) None None = Ok (Some i, q) ∧ default 0 q = n)
      as (q & -> & <-); [|done].
    destruct Hcase as [[[= -> ->] ->] | (p & [= -> ->] & Hn)].
    + exists None. split; [|done]. apply from_str_loop_Ok. eauto 10.
    + exists (Some n). split; [|done]. apply from_str_loop_Ok. exists k, v. split; [done|].
      right. exists (lit "udp"), p, n. split_and!; [done| |done].
      unfold parse_port. by rewrite decide_True, Hn.
Qed.

Lemma ip_chars_no_slash l : Forall ip_char l → slash ∉ l.
Proof.
  intros Hl Hin. apply (proj1 (Forall_forall _ _) Hl) in Hin.
  unfold ip_char in Hin. change (b2z slash) with 47 in Hin. lia.
Qed.

Lemma display_addr_ascii a : addr_wf a → ascii (display_addr a) ∧ (length (display_addr a) ≤ 57)%nat.
Proof.
  intros [Hip Hport]. destruct (display_ip_chars (ip a) Hip) as [Hc Hl].
  assert (Forall ip_char (display_uint 10 (port a)) ∧ (length (display_uint 10 (port a)) ≤ 5)%nat)
    as [Hc' Hl'].
  { split; [by apply display_uint_ip_chars|].
    destruct (display_uint_cons 10 (port a)) as (d & ds & -> & _ & _ & _ & Hlen); [lia|done|].
    rewrite length_fmap. destruct ds as [|d2 ds]; [cbn; lia|]. specialize (Hlen ltac:(done)).
    cbn [length] in *. destruct (decide (length ds ≤ 3)%nat); [lia|].
    assert (10 ^ 5 ≤ 10 ^ Z.of_nat (S (length ds))) by (apply Z.pow_le_mono_r; lia).
    unfold fits in Hport. lia. }
  assert (∀ l, Forall ip_char l → ascii l) as Hascii.
  { intros l Hall. eapply Forall_impl; [exact Hall|]. unfold ip_char. intros. lia. }
  unfold display_addr. rewrite !length_app.
  change (length (lit "/udp/")) with 5%nat. split.
  - apply ascii_app; [destruct (ip a); by apply (bool_decide_unpack _)|].
    apply ascii_app; [auto|]. apply ascii_app; [by apply (bool_decide_unpack _)|auto].
  - destruct (ip a); [change (length (lit "/ip4/")) with 5%nat
                     |change (length (lit "/ip6/")) with 5%nat]; lia.
Qed.

Lemma split_addr proto d w : slash ∉ proto → slash ∉ d → slash ∉ w →
  split slash (slash :: proto ++ slash :: d ++ slash :: lit "udp" ++ slash :: w) =
    [[]; proto; d; lit "udp"; w].
Proof.
  intros. etrans; [apply (split_app slash []), not_elem_of_nil|].
  rewrite !split_app, split_no_sep; try done. by apply (bool_decide_unpack _).
Qed.

(** Printing, then parsing. *)
Lemma from_str_display (a : Addr) : addr_wf a → from_str (display_addr a) = Some (Ok a).
Proof.
  intros [Hip Hport]. apply from_str_accepts. destruct (display_ip_chars (ip a) Hip) as [Hc _].
  set (k := match ip a with V4 _ => lit "ip4" | V6 _ => lit "ip6" end).
  exists [], k, (display_ip (ip a)). split.
  - unfold parse_ip, k. destruct (ip a) as [i|i]; cbn [display_ip].
    + rewrite decide_True by done. by rewrite v4_roundtrip.
    + rewrite decide_False, decide_True by done. by rewrite v6_roundtrip.
  - right. exists (display_uint 10 (port a)). split; [|by apply u16_roundtrip].
    rewrite <-(split_addr k (display_ip (ip a))).
    + unfold display_addr, k. by destruct (ip a).
    + unfold k. destruct (ip a); by apply (bool_decide_unpack _).
    + by apply ip_chars_no_slash.
    + by apply ip_chars_no_slash, display_uint_ip_chars.
Qed.

(** The first of the components, written out. *)
Lemma parse_ip_Ok k v a : parse_ip k v = Ok a ↔
  (k = lit "ip4" ∧ ∃ i, parse_v4 v = Ok i ∧ a = V4 i) ∨
  (k = lit "ip6" ∧ ∃ i, parse_v6 v = Ok i ∧ a = V6 i).
Proof.
  unfold parse_ip. split.
  - repeat case_decide; subst; [| |done].
    + destruct (parse_v4 v); [|done]. intros [= <-]. eauto.
    + destruct (parse_v6 v); [|done]. intros [= <-]. eauto.
  - by intros [(-> & i & Hv & ->) | (-> & i & Hv & ->)]; cbn; rewrite Hv.
Qed.

Lemma parse_ip_Err k v e : parse_ip k v = Err (Ip e) ↔
  (k = lit "ip4" ∧ parse_v4 v = Err e) ∨ (k = lit "ip6" ∧ parse_v6 v = Err e).
Proof.
  unfold parse_ip. split.
  - repeat case_decide; subst; [| |done].
    + destruct (parse_v4 v); [done|]. intros [= <-]. eauto.
    + destruct (parse_v6 v); [done|]. intros [= <-]. eauto.
  - by intros [[-> Hv] | [-> Hv]]; cbn; rewrite Hv.
Qed.

Lemma parse_ip_not_port k v e : parse_ip k v ≠ Err (Port e).
Proof. unfold parse_ip. repeat case_decide; [destruct (parse_v4 v)|destruct (parse_v6 v)|]; done. Qed.

Lemma parse_port_Err k v e : parse_port k v = Err e ↔
  (k ≠ lit "udp" ∧ e = UnknownProtocol) ∨
  (k = lit "udp" ∧ ∃ n, u16_from_str v = Err n ∧ e = Port n).
Proof.
  unfold parse_port. case_decide; subst.
  - destruct (u16_from_str v) as [n|n]; cbn; naive_solver.
  - naive_solver.
Qed.

(** After the address and the port every component is refused. *)
Lemma from_str_loop_late i cs a q e : (2 ≤ i)%nat →
  from_str_loop i cs a q = Err e → e = UnknownProtocol.
Proof. destruct i as [|[|i]]; [lia..|]. destruct cs; cbn; [done|]. by intros _ [= <-]. Qed.

(** The errors of the two parsers, and where they come from. *)
Lemma from_str_loop_Ip cs e : from_str_loop 0 cs None None = Err (Ip e) ↔
  ∃ k v rest, cs = [k; v] :: rest ∧ parse_ip k v = Err (Ip e).
Proof.
  split.
  - destruct cs as [|[|k [|v [|]]] cs]; try done. cbn [from_str_loop].
    destruct (parse_ip k v) as [a|e'] eqn:Hip; [|intros [= ->]; eauto 6].
    destruct cs as [|[|k' [|v' [|]]] cs]; cbn [from_str_loop]; try done.
    destruct (parse_port k' v') as [n|e'] eqn:Hport.
    + intros H. by apply from_str_loop_late in H; [|lia].
    + intros [= ->]. apply parse_port_Err in Hport. naive_solver.
  - intros (k & v & rest & -> & Hip). cbn [from_str_loop]. by rewrite Hip.
Qed.

Lemma from_str_loop_Port cs e : from_str_loop 0 cs None None = Err (Port e) ↔
  ∃ k v a v' rest, cs = [k; v] :: [lit "udp"; v'] :: rest ∧ parse_ip k v = Ok a ∧
    u16_from_str v' = Err e.
Proof.
  split.
  - destruct cs as [|[|k [|v [|]]] cs]; try done. cbn [from_str_loop].
    destruct (parse_ip k v) as [a|e'] eqn:Hip; [|intros [= ->]; by apply parse_ip_not_port in Hip].
    destruct cs as [|[|k' [|v' [|]]] cs]; cbn [from_str_loop]; try done.
    destruct (parse_port k' v') as [n|e'] eqn:Hport.
    + intros H. by apply from_str_loop_late in H; [|lia].
    + intros [= ->]. apply parse_port_Err in Hport as [[_ ?]|(-> & n & Hn & [= ->])]; [done|].
      by exists k, v, a, v', cs.
  - intros (k & v & a & v' & rest & -> & Hip & Hport). cbn [from_str_loop]. rewrite Hip.
    cbn [from_str_loop]. unfold parse_port. by rewrite decide_True, Hport.
Qed.

Lemma chunks2_cons {A} (l : list A) a b cs : chunks2 l = [a; b] :: cs ↔ ∃ r, l = a :: b :: r ∧ chunks2 r = cs.
Proof.
  split; [|by intros (r & -> & <-)]. destruct l as [|x [|y l]]; cbn; [done..|].
  intros [= -> -> <-]. eauto.
Qed.

(** C34: Parsing of addresses, completely.  [from_str] never panics.  It accepts
    exactly: one ignored component before the first slash; then [ip4] and an
    IPv4 address, or [ip6] and an IPv6 address; then nothing, which means
    port 0, or [udp] and a port.  What it returns is a well-formed address
    (four bytes or eight 16-bit segments, a 16-bit port).  It passes on the
    error of the address parser when the second component names a family and
    the third is not an address of it, whatever follows, and the error of the
    integer parser when there is an address and then [udp] and no port,
    whatever follows; every other string is an unknown protocol. *)
Theorem from_str_spec (s : str) :
  let is_ip k v a :=
    (k = lit "ip4" ∧ ∃ i, parse_v4 v = Ok i ∧ a = V4 i) ∨
    (k = lit "ip6" ∧ ∃ i, parse_v6 v = Ok i ∧ a = V6 i) in
  ∃ r, from_str s = Some r ∧
    (∀ a, r = Ok a → addr_wf a) ∧
    (∀ a, r = Ok a ↔
       ∃ x k v, is_ip k v (ip a) ∧
         ((split slash s = [x; k; v] ∧ port a = 0) ∨
          ∃ p, split slash s = [x; k; v; lit "udp"; p] ∧ u16_from_str p = Ok (port a))) ∧
    (∀ e, r = Err (Ip e) ↔
       ∃ x k v rest, split slash s = x :: k :: v :: rest ∧
         ((k = lit "ip4" ∧ parse_v4 v = Err e) ∨ (k = lit "ip6" ∧ parse_v6 v = Err e))) ∧
    (∀ e, r = Err (Port e) ↔
       ∃ x k v a p rest, split slash s = x :: k :: v :: lit "udp" :: p :: rest ∧
         is_ip k v a ∧ u16_from_str p = Err e).
Proof.
  cbv zeta. destruct (from_str_total_wf s) as (r & Hr & Hwf). exists r.
  destruct (from_str_parts s) as (x & parts & Hs & Hp).
  assert (∀ e, e ≠ UnknownProtocol → r = Err e ↔ from_str_loop 0 (chunks2 parts) None None = Err e) as Herr.
  { intros e He. unfold from_str in Hr. rewrite Hp in Hr. cbn in Hr. injection Hr as <-.
    destruct (from_str_loop 0 (chunks2 parts) None None) as [[[a|] q]|e'];
      split; intros [= Heq]; try done; congruence. }
  split_and!; [done|by intros a ->| | |].
  - intros a. setoid_rewrite <-parse_ip_Ok. rewrite <-from_str_accepts, Hr.
    split; [by intros ->|by intros [= ->]].
  - intros e. rewrite Herr, from_str_loop_Ip, Hs by done. setoid_rewrite parse_ip_Err.
    setoid_rewrite chunks2_cons. naive_solver.
  - intros e. rewrite Herr, from_str_loop_Port, Hs by done. setoid_rewrite <-parse_ip_Ok.
    setoid_rewrite chunks2_cons. setoid_rewrite chunks2_cons. naive_solver.
Qed.

(** C35: The printed form of every well-formed address, IPv4 or IPv6 (zero
    compression and mapped addresses included), parses back to it, by
    [from_str] and by [to_addr]; it is ASCII and at most 57 bytes long, so its
    length fits the length byte of a handshake packet. *)
Theorem addr_roundtrip (a : Addr) : addr_wf a →
  from_str (display_addr a) = Some (Ok a) ∧ to_addr (display_addr a : str) = Some (Ok a) ∧
  ascii (display_addr a) ∧ (length (display_addr a) ≤ 57)%nat.
Proof.
  intros Ha. pose proof (from_str_display a Ha) as Hf.
  destruct (display_addr_ascii a Ha) as [Hasc Hlen].
  split_and!; [done| |done|done]. cbn. by rewrite Hf.
Qed.

Lemma addr_roundtrip_witness :
  addr_wf (MkAddr (V6 (MkV6 [65152; 0; 0; 0; 1; 0; 0; 2])) 8000) ∧
  from_str (lit "/ip6/fe80::1:0:0:2/udp/8000") =
    Some (Ok (MkAddr (V6 (MkV6 [65152; 0; 0; 0; 1; 0; 0; 2])) 8000)).
Proof.
  assert (addr_wf (MkAddr (V6 (MkV6 [65152; 0; 0; 0; 1; 0; 0; 2])) 8000)) as Hwf.
  { unfold addr_wf, ip_wf, v6_wf, fits. cbn. split_and!; [done| |lia|lia].
    repeat constructor; lia. }
  split; [exact Hwf|]. exact (proj1 (addr_roundtrip _ Hwf)).
Defined.

(** an [Addr] survives the trip through [SocketAddr]; a [SocketAddr]
    survives the trip through [Addr] exactly when it is IPv4 or its flow info
    and scope id are zero: the conversion of a peer's address drops the scope
    of a link-local IPv6 peer. *)
Theorem socket_addr_roundtrip (a : Addr) (s : SocketAddr) :
  from_socket_addr (socket_addr a) = a ∧
  (socket_addr (from_socket_addr s) = s ↔
   match s with SockV4 _ => True | SockV6 v6 => flowinfo v6 = 0 ∧ scope_id v6 = 0 end).
Proof.
  split.
  - by destruct a as [[|] ?].
  - destruct s as [[]|[i p f sc]]; cbn; [done|]. split; [by intros [= <- <-]|by intros [-> ->]].
Qed.
