(* ===== verification/Udp.v ===== *)
(** * Crate dtp: UDP with explicit congestion notification
    (src/dtp/src/platform/mod.rs, src/dtp/src/udp.rs)

    The trait [UdpExt] is the interface between the socket and the platform
    code; the state [K] is the operating system's side of the socket. *)

From S2P Require Export Addr Crates.

Inductive EcnCodepoint : Type := ECT0 | ECT1 | CE.

#[export] Instance EcnCodepoint_eq_dec : EqDecision EcnCodepoint.
Proof. solve_decision. Defined.

(** [#[repr(u8)]] discriminants and [from_bits]. *)
Definition ecn_bits (c : EcnCodepoint) : Z :=
  match c with ECT0 => 2 | ECT1 => 1 | CE => 3 end.

Definition from_bits (x : byte) : option EcnCodepoint :=
  match Z.land (b2z x) 3 with
  | 2 => Some ECT0
  | 1 => Some ECT1
  | 3 => Some CE
  | _ => None
  end.

(** [recv_ext] on a buffer of [n] bytes gives the bytes stored at its start. *)
Class UdpExt (K : Type) : Type := {
  init_ext : K → K * result () io_error;
  send_ext : SocketAddr → option EcnCodepoint → list byte → K → K * result Z io_error;
  recv_ext : Z → K → K * result (list byte * SocketAddr * option EcnCodepoint) io_error
}.

(** What the operating system promises: no more bytes than the buffer holds,
    and, with [backlog k] datagrams to come, each receive that succeeds
    consumes one. *)
Class UdpExtLaws (K : Type) `{!UdpExt K} : Type := {
  backlog : K → nat;
  recv_ext_fits n k k' data peer ecn : 0 ≤ n → recv_ext n k = (k', Ok (data, peer, ecn)) →
    Z.of_nat (length data) ≤ n;
  recv_ext_consumes n k k' r : recv_ext n k = (k', Ok r) → (backlog k' < backlog k)%nat
}.

(** The methods of async-std's [UdpSocket] the code calls directly. *)
Class UdpSocket (K : Type) : Type := {
  os_bind : SocketAddr → result K io_error;
  os_local_addr : K → result SocketAddr io_error;
  os_ttl : K → result Z io_error;
  os_set_ttl : Z → K → K * result () io_error
}.

Section UdpEcnSocket.
Context {K : Type} `{!UdpExt K} `{!UdpSocket K}.

Definition udp_bind (addr : SocketAddr) : result K io_error :=
  match os_bind addr with
  | Err e => Err e
  | Ok k => match init_ext k with
            | (k', Ok _) => Ok k'
            | (_, Err e) => Err e
            end
  end.

Definition udp_local_addr : M io_error K SocketAddr :=
  k ← get_state; try (os_local_addr k).

(** [ttl as u8]. *)
Definition udp_ttl : M io_error K byte :=
  k ← get_state; ttl ← try (os_ttl k); mret (z2b ttl).

Definition udp_set_ttl (ttl : byte) : M io_error K () := λ k,
  match os_set_ttl (b2z ttl) k with
  | (k', Ok _) => Return () k'
  | (k', Err e) => Throw e k'
  end.

(** [WouldBlock] becomes [Poll::Pending] (the waker is woken at once, so the
    task is polled again; waking is not modelled). *)
Definition udp_poll_send (peer_addr : SocketAddr) (ecn : bool) (payload : list byte)
    : M io_error K () := λ k,
  let ecn := if ecn then Some ECT0 else None in
  match send_ext peer_addr ecn payload k with
  | (k', Ok _len) => Return () k'
  | (k', Err e) => if decide (io_kind e = WouldBlock) then Suspend k' else Throw e k'
  end.

(** The bytes stored in the buffer, the peer, how many bytes, and whether the
    network marked the datagram as having met congestion. *)
Definition udp_poll_recv (buffer_len : Z)
    : M io_error K (list byte * SocketAddr * Z * bool) := λ k,
  match recv_ext buffer_len k with
  | (k', Ok (data, peer_addr, ecn)) =>
    let ecn := match ecn with Some CE => true | _ => false end in
    Return (data, peer_addr, Z.of_nat (length data), ecn) k'
  | (k', Err e) => if decide (io_kind e = WouldBlock) then Suspend k' else Throw e k'
  end.
End UdpEcnSocket.

(** [from_bits] inverts the codepoint encoding whatever the six DSCP bits
    above it, and gives no codepoint exactly for the not-ECT bits 00. *)
Theorem from_bits_spec (x : byte) :
  (∀ c, from_bits x = Some c ↔ b2z x mod 4 = ecn_bits c) ∧
  (from_bits x = None ↔ b2z x mod 4 = 0).
Proof.
  unfold from_bits. change 3 with (Z.ones 2). rewrite Z.land_ones by lia. change (2 ^ 2) with 4.
  pose proof (Z.mod_pos_bound (b2z x) 4 ltac:(lia)) as Hb.
  assert (b2z x mod 4 = 0 ∨ b2z x mod 4 = 1 ∨ b2z x mod 4 = 2 ∨ b2z x mod 4 = 3)
    as [E|[E|[E|E]]] by lia;
    rewrite E; split; try (intros []); cbn; split; intros; try done; try lia; try congruence.
Qed.

(** ** A reference operating system: the datagrams to come, and those sent *)

Module UdpReference.
Record os : Type := MkOs {
  os_in : list (result (list byte * SocketAddr * option EcnCodepoint) io_error);
  os_out : list (SocketAddr * option EcnCodepoint * list byte);
  os_addr : SocketAddr;
  os_ttl_opt : Z
}.

#[export] Instance os_UdpExt : UdpExt os := {|
  init_ext k := (k, Ok ());
  send_ext peer ecn msg k :=
    (MkOs (os_in k) (os_out k ++ [(peer, ecn, msg)]) (os_addr k) (os_ttl_opt k),
     Ok (Z.of_nat (length msg)));
  recv_ext n k :=
    match os_in k with
    | [] => (k, Err (IoError WouldBlock "would block"))
    | r :: rs =>
      (MkOs rs (os_out k) (os_addr k) (os_ttl_opt k),
       match r with
       | Ok (data, peer, ecn) => Ok (take (Z.to_nat n) data, peer, ecn)
       | Err e => Err e
       end)
    end
|}.

#[export] Instance os_UdpExtLaws : UdpExtLaws os.
Proof.
  refine {| backlog k := length (os_in k) |}.
  - intros n k k' data peer ecn Hn. cbn. destruct (os_in k) as [|[[[d p] c]|e] rs]; try done.
    intros [= _ <- _ _]. solve_length.
  - intros n k k' r. cbn. destruct (os_in k) as [|[[[d p] c]|e] rs]; try done.
    intros [= <- _]. cbn. lia.
Defined.

(** Binding succeeds on an address the system has; every test gives the
    system it starts with as a value. *)
#[export] Instance os_UdpSocket : UdpSocket os := {|
  os_bind addr := Ok (MkOs [] [] addr 64);
  os_local_addr k := Ok (os_addr k);
  os_ttl k := Ok (os_ttl_opt k);
  os_set_ttl ttl k := (MkOs (os_in k) (os_out k) (os_addr k) ttl, Ok ())
|}.
End UdpReference.
