(* ===== verification/Cmsg.v ===== *)
(** * Crate dtp: control messages (src/dtp/src/platform/cmsg.rs)

    A control buffer is the memory [msg_control] points to, as a list of
    bytes; a pointer into it is an offset.  The layout of its headers and the
    macros that compute offsets are libc's, described in cmsg(3). *)

From S2P Require Export Bytes.

(** ** Values with a memory representation: the [T: Copy] of the code *)

(** What the code is compiled for. *)
Class Target : Type := { big_endian : bool; freebsd : bool; macos : bool }.

Class Repr (T : Type) : Type := {
  size_of : nat;
  align_of : nat;
  to_ne : T → list byte;
  of_ne : list byte → T;
  to_ne_length v : length (to_ne v) = size_of;
  of_to_ne v : of_ne (to_ne v) = v
}.
Arguments size_of T {_}.
Arguments align_of T {_}.

Record c_int : Type := CInt { c_int_byte3 : byte; c_int_byte2 : byte; c_int_byte1 : byte; c_int_byte0 : byte }.

(** [x as c_int] and [x as u8]. *)
Definition c_int_of (z : Z) : c_int :=
  CInt (z2b (z / 2 ^ 24)) (z2b (z / 2 ^ 16)) (z2b (z / 2 ^ 8)) (z2b z).

Definition c_int_as_u8 (i : c_int) : byte := c_int_byte0 i.

Section Repr.
Context {TG : Target}.

#[export] Instance u8_Repr : Repr byte.
Proof.
  by refine {| size_of := 1; align_of := 1; to_ne b := [b]; of_ne l := default Byte.x00 (head l) |}.
Defined.

#[export] Instance c_int_Repr : Repr c_int.
Proof.
  refine {| size_of := 4; align_of := 4;
    to_ne '(CInt b3 b2 b1 b0) := if big_endian then [b3; b2; b1; b0] else [b0; b1; b2; b3];
    of_ne l := match l with
               | [a; b; c; d] => if big_endian then CInt a b c d else CInt d c b a
               | _ => c_int_of 0
               end |}.
  - intros []. by destruct big_endian.
  - intros []. by destruct big_endian.
Defined.
End Repr.

(** ** libc *)

Record cmsghdr : Type := MkCmsghdr { cmsg_len : nat; cmsg_level : Z; cmsg_type : Z }.

(** [get_cmsghdr b o] and [set_cmsghdr o h b]: the header at [o]; the memory
    with it written. *)
Class Libc : Type := {
  size_of_cmsghdr : nat;
  align_of_cmsghdr : nat;
  get_cmsghdr : list byte → nat → cmsghdr;
  set_cmsghdr : nat → cmsghdr → list byte → list byte;
  CMSG_SPACE : nat → nat;
  CMSG_LEN : nat → nat;
  CMSG_DATA : nat → nat;
  CMSG_FIRSTHDR : list byte → nat → option nat;
  CMSG_NXTHDR : list byte → nat → nat → option nat
}.

(** cmsg(3).  [header_ok]: values that fit the fields of a header. *)
Class LibcLaws (LC : Libc) : Type := {
  header_ok : cmsghdr → Prop;
  set_cmsghdr_length o h b : length (set_cmsghdr o h b) = length b;
  get_set_cmsghdr o h b : (o + size_of_cmsghdr ≤ length b)%nat → header_ok h →
    get_cmsghdr (set_cmsghdr o h b) o = h;
  take_set_cmsghdr o h b : take o (set_cmsghdr o h b) = take o b;
  get_cmsghdr_local o b b' : length b = length b' →
    take size_of_cmsghdr (drop o b) = take size_of_cmsghdr (drop o b') →
    get_cmsghdr b o = get_cmsghdr b' o;
  CMSG_DATA_spec o : CMSG_DATA o = (o + CMSG_LEN 0)%nat;
  CMSG_LEN_spec n : CMSG_LEN n = (CMSG_LEN 0 + n)%nat;
  CMSG_LEN_header : (0 < size_of_cmsghdr ≤ CMSG_LEN 0)%nat;
  CMSG_SPACE_spec n : (CMSG_LEN n ≤ CMSG_SPACE n)%nat;
  CMSG_SPACE_mono n m : (n ≤ m)%nat → (CMSG_SPACE n ≤ CMSG_SPACE m)%nat;
  CMSG_FIRSTHDR_spec b len : CMSG_FIRSTHDR b len = if bool_decide (size_of_cmsghdr ≤ len)%nat then Some O else None;
  CMSG_NXTHDR_end b len o n : cmsg_len (get_cmsghdr b o) = CMSG_LEN n →
    (len < o + CMSG_SPACE n + size_of_cmsghdr)%nat → CMSG_NXTHDR b len o = None
}.

(** ** The encoder *)

(** The fields of [msghdr] that the encoder uses. *)
Record msghdr : Type := MkMsghdr { msg_control : list byte; msg_controllen : nat }.

Record Encoder : Type := MkEncoder { e_hdr : msghdr; e_cmsg : option nat; e_len : nat }.

Section cmsg.
Context {LC : Libc} {PR : Profile}.

Definition Encoder_new (hdr : msghdr) : Encoder :=
  MkEncoder hdr (CMSG_FIRSTHDR (msg_control hdr) (msg_controllen hdr)) 0.

(** An option is a panic. *)
Definition push `{Repr T} (level ty : Z) (value : T) (self : Encoder) : option Encoder :=
  if bool_decide (align_of T ≤ align_of_cmsghdr)%nat then
    let space := CMSG_SPACE (size_of T) in
    let '(MkMsghdr control controllen) := e_hdr self in
    if bool_decide (e_len self + space ≤ controllen)%nat then
      cmsg ← e_cmsg self;
      let control := set_cmsghdr cmsg (MkCmsghdr (CMSG_LEN (size_of T)) level ty) control in
      let control := splice (CMSG_DATA cmsg) (to_ne value) control in
      Some (MkEncoder (MkMsghdr control controllen) (CMSG_NXTHDR control controllen cmsg)
              (e_len self + space))
    else None
  else None.

(** [finish], and [Drop]. *)
Definition finish (self : Encoder) : msghdr :=
  MkMsghdr (msg_control (e_hdr self)) (e_len self).

(** ** The decoder *)

Definition decode_cmsg T `{Repr T} (control : list byte) (cmsg : nat) : option T :=
  if bool_decide (align_of T ≤ align_of_cmsghdr)%nat then
    if debug_assertions && negb (bool_decide (cmsg_len (get_cmsghdr control cmsg) = CMSG_LEN (size_of T)))
    then None
    else Some (of_ne (take (size_of T) (drop (CMSG_DATA cmsg) control)))
  else None.

Record Iter : Type := MkIter { it_hdr : msghdr; it_cmsg : option nat }.

Definition Iter_new (hdr : msghdr) : Iter :=
  MkIter hdr (CMSG_FIRSTHDR (msg_control hdr) (msg_controllen hdr)).

Definition Iter_next (self : Iter) : option (nat * Iter) :=
  current ← it_cmsg self;
  Some (current,
    MkIter (it_hdr self) (CMSG_NXTHDR (msg_control (it_hdr self)) (msg_controllen (it_hdr self)) current)).
End cmsg.

(** ** What a push does, and one message *)

Section cmsg_props.
Context {LC : Libc} {LL : LibcLaws LC} {PR : Profile}.
Context {T : Type} {RT : Repr T}.
Hypothesis Halign : (align_of T ≤ align_of_cmsghdr)%nat.

(** The encoder is about to write at its length, inside the memory. *)
Definition encoder_at (e : Encoder) (o : nat) : Prop :=
  e_cmsg e = Some o ∧ e_len e = o ∧ (msg_controllen (e_hdr e) ≤ length (msg_control (e_hdr e)))%nat.

Lemma CMSG_SPACE_data n : (CMSG_LEN 0 + n ≤ CMSG_SPACE n)%nat.
Proof. rewrite <-CMSG_LEN_spec. apply CMSG_SPACE_spec. Qed.

Lemma push_Some level ty (v : T) e o : encoder_at e o →
  (o + CMSG_SPACE (size_of T) ≤ msg_controllen (e_hdr e))%nat →
  header_ok (MkCmsghdr (CMSG_LEN (size_of T)) level ty) →
  ∃ e', push level ty v e = Some e' ∧ let b := msg_control (e_hdr e') in
    length b = length (msg_control (e_hdr e)) ∧ take o b = take o (msg_control (e_hdr e)) ∧
    get_cmsghdr b o = MkCmsghdr (CMSG_LEN (size_of T)) level ty ∧ decode_cmsg T b o = Some v ∧
    msg_controllen (e_hdr e') = msg_controllen (e_hdr e) ∧
    e_len e' = (o + CMSG_SPACE (size_of T))%nat ∧
    e_cmsg e' = CMSG_NXTHDR b (msg_controllen (e_hdr e)) o.
Proof.
  intros (Hc & Hl & Hb) Hs Hok. unfold push. destruct e as [[b len] c l]. cbn in *. subst.
  rewrite !bool_decide_true by done. cbn. eexists. split; [done|]. cbn.
  set (h := MkCmsghdr _ level ty). set (b1 := set_cmsghdr o h b).
  pose proof (CMSG_SPACE_data (size_of T)) as Hsp. pose proof CMSG_LEN_header.
  assert (length b1 = length b) as Hlen by apply set_cmsghdr_length.
  assert (CMSG_DATA o + length (to_ne v) ≤ length b1)%nat as Hin
    by (rewrite CMSG_DATA_spec, to_ne_length, Hlen; lia).
  assert (get_cmsghdr (splice (CMSG_DATA o) (to_ne v) b1) o = h) as Hget.
  { rewrite <-(get_set_cmsghdr o h b) by (done || lia). fold b1.
    apply get_cmsghdr_local; [by apply length_splice|].
    rewrite !take_drop_commute. f_equal. apply take_splice_le; rewrite CMSG_DATA_spec in *; lia. }
  split_and!; try done.
  - rewrite length_splice; [done|lia].
  - rewrite take_splice_le by (rewrite CMSG_DATA_spec in *; lia). apply take_set_cmsghdr.
  - unfold decode_cmsg. rewrite Hget, bool_decide_true by done. cbn.
    rewrite bool_decide_true by done. rewrite andb_false_r.
    pose proof (slice_splice _ _ _ Hin) as Hsl. unfold slice in Hsl. case_bool_decide; [|done].
    injection Hsl as Hsl. rewrite <-(to_ne_length v) at 1.
    replace (CMSG_DATA o + length (to_ne v) - CMSG_DATA o)%nat with (length (to_ne v)) in Hsl by lia.
    by rewrite Hsl, of_to_ne.
Qed.

Lemma encoder_at_new b len : (size_of_cmsghdr ≤ len ≤ length b)%nat →
  encoder_at (Encoder_new (MkMsghdr b len)) 0.
Proof.
  intros [H1 H2]. split_and!; [|done|done]. cbn. by rewrite CMSG_FIRSTHDR_spec, bool_decide_true.
Qed.

(** One message in a buffer with room for it. *)
Lemma push_first level ty (v : T) (b : list byte) (len : nat) :
  (CMSG_SPACE (size_of T) ≤ len ≤ length b)%nat →
  header_ok (MkCmsghdr (CMSG_LEN (size_of T)) level ty) →
  ∃ e, push level ty v (Encoder_new (MkMsghdr b len)) = Some e ∧ let h := finish e in
    msg_controllen h = CMSG_SPACE (size_of T) ∧ length (msg_control h) = length b ∧
    CMSG_FIRSTHDR (msg_control h) (msg_controllen h) = Some O ∧
    CMSG_NXTHDR (msg_control h) (msg_controllen h) 0 = None ∧
    get_cmsghdr (msg_control h) 0 = MkCmsghdr (CMSG_LEN (size_of T)) level ty ∧
    decode_cmsg T (msg_control h) 0 = Some v.
Proof.
  intros Hlen Hok. pose proof (CMSG_SPACE_data (size_of T)). pose proof CMSG_LEN_header.
  destruct (push_Some level ty v (Encoder_new (MkMsghdr b len)) 0)
    as (e & He & Hl & _ & Hget & Hdec & _ & He_len & _); [apply encoder_at_new; lia|cbn; lia|done|].
  exists e. cbn in He_len. split; [done|]. cbn. rewrite CMSG_FIRSTHDR_spec, bool_decide_true by lia.
  split_and!; try done. apply (CMSG_NXTHDR_end _ _ _ (size_of T)); [by rewrite Hget|lia].
Qed.

(** C33: Control messages round-trip.  Into a buffer with room for the value, one
    message is encoded, whatever the buffer held: the header that is passed on
    covers exactly that message, the iterator finds it and nothing after it,
    and decoding gives level, type and value back.  Without the room, the
    assertion fails. *)
Theorem cmsg_roundtrip level ty (v : T) (b : list byte) (len : nat) : (len ≤ length b)%nat →
  header_ok (MkCmsghdr (CMSG_LEN (size_of T)) level ty) →
  if bool_decide (CMSG_SPACE (size_of T) ≤ len)%nat then
    ∃ e it, push level ty v (Encoder_new (MkMsghdr b len)) = Some e ∧
      let h := finish e in
      msg_controllen h = CMSG_SPACE (size_of T) ∧ length (msg_control h) = length b ∧
      Iter_next (Iter_new h) = Some (O, it) ∧ Iter_next it = None ∧
      get_cmsghdr (msg_control h) 0 = MkCmsghdr (CMSG_LEN (size_of T)) level ty ∧
      decode_cmsg T (msg_control h) 0 = Some v
  else push level ty v (Encoder_new (MkMsghdr b len)) = None.
Proof.
  intros Hlen Hok. case_bool_decide as Hs.
  - destruct (push_first level ty v b len) as (e & He & ? & ? & Hf & Hn & ? & ?); [lia|done|].
    exists e. eexists. split; [done|]. unfold Iter_next, Iter_new. cbn in *. rewrite Hf. cbn.
    rewrite Hn. by split_and!.
  - unfold push. cbn. case_bool_decide; [|done]. by rewrite bool_decide_false by lia.
Qed.
End cmsg_props.

(** ** A reference layout: Linux on 64-bit little-endian machines *)

Module CmsgReference.
Definition align8 (n : nat) : nat := (8 * ((n + 7) / 8))%nat.

Definition le_bytes (n : nat) (z : Z) : list byte := rev (be_bytes n z).
Definition le_value (l : list byte) : Z := be_value (rev l).

Definition header_bytes (h : cmsghdr) : list byte :=
  le_bytes 8 (Z.of_nat (cmsg_len h)) ++ le_bytes 4 (cmsg_level h) ++ le_bytes 4 (cmsg_type h).

Definition read_header (l : list byte) : cmsghdr :=
  MkCmsghdr (Z.to_nat (le_value (take 8 l))) (le_value (take 4 (drop 8 l))) (le_value (take 4 (drop 12 l))).

Lemma le_value_bytes n z : fits (8 * Z.of_nat n) z → le_value (le_bytes n z) = z.
Proof. intros. unfold le_value, le_bytes. rewrite rev_involutive. by apply be_value_bytes_small. Qed.

Lemma length_le_bytes n z : length (le_bytes n z) = n.
Proof. unfold le_bytes. by rewrite length_rev, length_be_bytes. Qed.

Lemma length_header h : length (header_bytes h) = 16%nat.
Proof. unfold header_bytes. by rewrite !length_app, !length_le_bytes. Qed.

#[export] Instance libc_ref : Libc := {|
  size_of_cmsghdr := 16;
  align_of_cmsghdr := 8;
  get_cmsghdr b o := read_header (take 16 (drop o b));
  set_cmsghdr o h b := if bool_decide (o + 16 ≤ length b)%nat then splice o (header_bytes h) b else b;
  CMSG_SPACE n := (16 + align8 n)%nat;
  CMSG_LEN n := (16 + n)%nat;
  CMSG_DATA o := (o + 16)%nat;
  CMSG_FIRSTHDR b len := if bool_decide (16 ≤ len)%nat then Some O else None;
  CMSG_NXTHDR b len o :=
    let next := (o + align8 (cmsg_len (read_header (take 16 (drop o b)))))%nat in
    if bool_decide (next + 16 ≤ len ∧
         next + align8 (cmsg_len (read_header (take 16 (drop next b)))) ≤ len)%nat
    then Some next else None
|}.

Lemma align8_ge n : (n ≤ align8 n)%nat.
Proof. unfold align8. pose proof (Nat.div_mod (n + 7) 8). pose proof (Nat.mod_upper_bound (n + 7) 8). lia. Qed.

#[export] Instance libc_ref_laws : LibcLaws libc_ref.
Proof.
  refine {| header_ok h := fits 64 (Z.of_nat (cmsg_len h)) ∧ fits 32 (cmsg_level h) ∧ fits 32 (cmsg_type h) |};
    cbn -[align8 read_header header_bytes Nat.add]; try done; try lia.
  - intros o h b. case_bool_decide; [|done]. apply length_splice. by rewrite length_header.
  - intros o h b Ho (Hl & Hv & Ht). rewrite bool_decide_true by done.
    unfold splice. rewrite drop_app_length' by solve_length.
    rewrite take_app_length' by by rewrite length_header.
    unfold read_header, header_bytes. destruct h as [l v t]. cbn [cmsg_len cmsg_level cmsg_type] in *.
    rewrite take_app_length' by (by rewrite length_le_bytes).
    rewrite (drop_app_length' _ _ 8) by (by rewrite length_le_bytes).
    rewrite take_app_length' by (by rewrite length_le_bytes).
    rewrite (assoc_L (++)), drop_app_length' by by rewrite length_app, !length_le_bytes.
    rewrite take_ge by by rewrite length_le_bytes.
    rewrite !le_value_bytes by done. by rewrite Nat2Z.id.
  - intros o h b. case_bool_decide; [|done]. apply take_splice_le; lia.
  - intros o b b' _ H. by rewrite H.
  - intros n. pose proof (align8_ge n). lia.
  - intros n m Hn. unfold align8. pose proof (Nat.Div0.div_le_mono (n + 7) (m + 7) 8). lia.
  - intros b len o n -> Hlen. rewrite bool_decide_false; [done|].
    assert (align8 (16 + n) = 16 + align8 n)%nat as ->; [|lia].
    unfold align8. replace (16 + n + 7)%nat with (2 * 8 + (n + 7))%nat by lia.
    rewrite Nat.div_add_l by lia. lia.
Defined.
End CmsgReference.
