(* ===== verification/Unix.v ===== *)
(** * Crate dtp: the Unix implementation of [UdpExt]
    (src/dtp/src/platform/unix.rs)

    The system calls are a class; [errno] is part of their result.  The
    functions may panic, which is [None]; [unix_UdpExt] is the instance of
    the interface, for a system that keeps its promises. *)

From Equations Require Import Equations.
From S2P Require Export Cmsg Udp.

(** A value with the equation that names it. *)
Definition inspect {A} (a : A) : {b : A | a = b} := exist _ a eq_refl.

(** ** The system *)

Class Unix : Type := {
  IPPROTO_IP : Z; IPPROTO_IPV6 : Z;
  IP_TOS : Z; IP_RECVTOS : Z; IPV6_TCLASS : Z; IPV6_RECVTCLASS : Z;
  AF_INET : Z; AF_INET6 : Z;
  size_of_SocketAddrV4 : nat; size_of_sockaddr_in : nat;
  size_of_SocketAddrV6 : nat; size_of_sockaddr_in6 : nat
}.

(** [sockaddr_storage]: its family, and what reading it as an address of the
    standard library gives. *)
Record sockaddr_storage : Type := MkStorage {
  ss_family : Z; read_v4 : SocketAddrV4; read_v6 : SocketAddrV6 }.

(** [recvmsg] gives the bytes it stored, the sender, and the control buffer
    with its length.  [uninit n] is [n] bytes of uninitialised memory.  A call
    is interrupted finitely often: [interrupts] bounds how often. *)
Class Syscalls (K : Type) : Type := {
  setsockopt : Z → Z → c_int → K → K * result () io_error;
  sendmsg : SocketAddr → list byte → msghdr → K → K * result Z io_error;
  recvmsg : Z → msghdr → K → K * result (list byte * sockaddr_storage * msghdr) io_error;
  uninit : nat → list byte;
  uninit_length n : length (uninit n) = n;
  interrupts : K → nat;
  sendmsg_interrupted a m h k k' e : sendmsg a m h k = (k', Err e) → io_kind e = Interrupted →
    (interrupts k' < interrupts k)%nat;
  recvmsg_interrupted n h k k' e : recvmsg n h k = (k', Err e) → io_kind e = Interrupted →
    (interrupts k' < interrupts k)%nat
}.

(** [const CMSG_LEN]. *)
Definition CONTROL_LEN : nat := 24.

Section unix.
Context {TG : Target} {LC : Libc} {PR : Profile} {UX : Unix}.
Context {K : Type} {SC : Syscalls K} `{!UdpSocket K}.

(** ** init_ext *)

Definition unix_init_ext (k : K) : option (K * result () io_error) :=
  if bool_decide (size_of_SocketAddrV4 = size_of_sockaddr_in) &&
     bool_decide (size_of_SocketAddrV6 = size_of_sockaddr_in6) &&
     bool_decide (CMSG_SPACE (size_of c_int) ≤ CONTROL_LEN)%nat &&
     bool_decide (align_of_cmsghdr ≤ 8)%nat
  then
    Some match os_local_addr k with
         | Err e => (k, Err e)
         | Ok (SockV4 _) => setsockopt IPPROTO_IP IP_RECVTOS (c_int_of 1) k
         | Ok (SockV6 _) => setsockopt IPPROTO_IPV6 IPV6_RECVTCLASS (c_int_of 1) k
         end
  else None.

(** ** send_ext *)

(** IPv4, or an IPv4 address mapped into IPv6. *)
Definition is_ipv4 (remote : SocketAddr) : bool :=
  match remote with
  | SockV4 _ => true
  | SockV6 addr => bool_decide (take 6 (segments (v6_ip addr)) = [0; 0; 0; 0; 0; 0xffff])
  end.

(** [IpTosTy] is [c_uchar] on FreeBSD. *)
Definition push_tos (ecn : c_int) (encoder : Encoder) : option Encoder :=
  if freebsd then push IPPROTO_IP IP_TOS (c_int_as_u8 ecn) encoder
  else push IPPROTO_IP IP_TOS ecn encoder.

(** The control buffer handed to [sendmsg]. *)
Definition send_control (remote : SocketAddr) (ecn : option EcnCodepoint) : option msghdr :=
  let ecn := match ecn with Some x => c_int_of (ecn_bits x) | None => c_int_of 0 end in
  let encoder := Encoder_new (MkMsghdr (uninit (K:=K) CONTROL_LEN) CONTROL_LEN) in
  finish <$> (if is_ipv4 remote then push_tos ecn encoder
              else push IPPROTO_IPV6 IPV6_TCLASS ecn encoder).

(** The loop that retries an interrupted call. *)
Equations send_loop (remote : SocketAddr) (msg : list byte) (hdr : msghdr) (k : K) : K * result Z io_error
    by wf (interrupts k) lt :=
  send_loop remote msg hdr k with inspect (sendmsg remote msg hdr k) := {
    | exist _ (k', Ok n) _ => (k', Ok n);
    | exist _ (k', Err e) Heq with decide (io_kind e = Interrupted) := {
      | left _ => send_loop remote msg hdr k';
      | right _ => (k', Err e) } }.
Next Obligation. eauto using sendmsg_interrupted. Qed.

Definition unix_send_ext (remote : SocketAddr) (ecn : option EcnCodepoint) (msg : list byte) (k : K)
    : option (K * result Z io_error) :=
  hdr ← send_control remote ecn;
  Some (send_loop remote msg hdr k).

(** ** recv_ext *)

Equations recv_loop (n : Z) (hdr : msghdr) (k : K)
    : K * result (list byte * sockaddr_storage * msghdr) io_error by wf (interrupts k) lt :=
  recv_loop n hdr k with inspect (recvmsg n hdr k) := {
    | exist _ (k', Ok r) _ => (k', Ok r);
    | exist _ (k', Err e) Heq with decide (io_kind e = Interrupted) := {
      | left _ => recv_loop n hdr k';
      | right _ => (k', Err e) } }.
Next Obligation. eauto using recvmsg_interrupted. Qed.

(** The byte with the codepoint, of the first control message. *)
Definition recv_ecn (hdr : msghdr) : option byte :=
  match Iter_next (Iter_new hdr) with
  | Some (cmsg, _) =>
    let h := get_cmsghdr (msg_control hdr) cmsg in
    if bool_decide (cmsg_level h = IPPROTO_IP ∧ (cmsg_type h = IP_TOS ∨ cmsg_type h = IP_RECVTOS))
    then decode_cmsg byte (msg_control hdr) cmsg
    else if bool_decide (cmsg_level h = IPPROTO_IPV6 ∧ cmsg_type h = IPV6_TCLASS) then
      if macos && bool_decide (cmsg_len h = CMSG_LEN (size_of byte))
      then decode_cmsg byte (msg_control hdr) cmsg
      else c_int_as_u8 <$> decode_cmsg c_int (msg_control hdr) cmsg
    else Some Byte.x00
  | None => Some Byte.x00
  end.

(** Another family is [unreachable!]. *)
Definition recv_addr (name : sockaddr_storage) : option SocketAddr :=
  if bool_decide (ss_family name = AF_INET) then Some (SockV4 (read_v4 name))
  else if bool_decide (ss_family name = AF_INET6) then Some (SockV6 (read_v6 name))
  else None.

Definition unix_recv_ext (n : Z) (k : K)
    : option (K * result (list byte * SocketAddr * option EcnCodepoint) io_error) :=
  match recv_loop n (MkMsghdr (uninit (K:=K) CONTROL_LEN) CONTROL_LEN) k with
  | (k', Ok (data, name, hdr)) =>
    ecn_bits ← recv_ecn hdr;
    addr ← recv_addr name;
    Some (k', Ok (data, addr, from_bits ecn_bits))
  | (k', Err e) => Some (k', Err e)
  end.
End unix.

(** ** What the system promises *)

Section laws.
Context {TG : Target} {LC : Libc} {LL : LibcLaws LC} {PR : Profile} {UX : Unix}.
Context {K : Type} {SC : Syscalls K} `{!UdpSocket K}.

(** Control messages as the system writes them: the type of service of IPv4 as
    one byte, the traffic class of IPv6 as an integer, which macOS may make
    one byte. *)
Definition control_ok (hdr : msghdr) : Prop :=
  ∀ o, CMSG_FIRSTHDR (msg_control hdr) (msg_controllen hdr) = Some o →
  let h := get_cmsghdr (msg_control hdr) o in
  (cmsg_level h = IPPROTO_IP → cmsg_type h = IP_TOS ∨ cmsg_type h = IP_RECVTOS →
     cmsg_len h = CMSG_LEN (size_of byte)) ∧
  (cmsg_level h = IPPROTO_IPV6 → cmsg_type h = IPV6_TCLASS →
     cmsg_len h = CMSG_LEN (size_of c_int) ∨ macos = true ∧ cmsg_len h = CMSG_LEN (size_of byte)).

(** A header of libc has fields of type [c_int], so it is aligned for one.
    [queue]: the datagrams the system has, and will have. *)
Class UnixLaws : Type := {
  ux_align : (align_of c_int ≤ align_of_cmsghdr)%nat;
  ux_protocols : IPPROTO_IP ≠ IPPROTO_IPV6;
  ux_tos n : (n ≤ size_of c_int)%nat → header_ok (MkCmsghdr (CMSG_LEN n) IPPROTO_IP IP_TOS);
  ux_tclass n : (n ≤ size_of c_int)%nat → header_ok (MkCmsghdr (CMSG_LEN n) IPPROTO_IPV6 IPV6_TCLASS);
  queue : K → nat;
  recvmsg_fits n h k k' data name hdr : 0 ≤ n → recvmsg n h k = (k', Ok (data, name, hdr)) →
    Z.of_nat (length data) ≤ n;
  recvmsg_ok n h k k' data name hdr : recvmsg n h k = (k', Ok (data, name, hdr)) →
    (ss_family name = AF_INET ∨ ss_family name = AF_INET6) ∧ control_ok hdr ∧ (queue k' < queue k)%nat;
  recvmsg_interrupted_queue n h k k' e : recvmsg n h k = (k', Err e) → io_kind e = Interrupted →
    (queue k' ≤ queue k)%nat
}.
Context {UL : UnixLaws}.

(** ** [init_ext]: what it checks, and what it then asks of the system *)

(** The sizes and the alignment that [init_ext] asserts: nobody promises them. *)
Record Checked : Prop := {
  ck_v4 : size_of_SocketAddrV4 = size_of_sockaddr_in;
  ck_v6 : size_of_SocketAddrV6 = size_of_sockaddr_in6;
  ck_space : (CMSG_SPACE (size_of c_int) ≤ CONTROL_LEN)%nat;
  ck_align : (align_of_cmsghdr ≤ 8)%nat
}.
Existing Class Checked.

Lemma unix_init_checked k : is_Some (unix_init_ext k) ↔ Checked.
Proof.
  unfold unix_init_ext. repeat case_bool_decide; cbn; split; try (by intros []); try (intros; eauto).
Qed.

(** ** The loops *)

(** The states of the system between [k] and [k']: every call on the way was
    interrupted. *)
Definition retried {A} (call : K → K * result A io_error) : K → K → Prop :=
  rtc (λ k k', ∃ e, call k = (k', Err e) ∧ io_kind e = Interrupted).

(** A call that was not. *)
Definition settled {A} (r : K * result A io_error) : Prop :=
  match r.2 with Ok _ => True | Err e => io_kind e ≠ Interrupted end.

Lemma send_loop_step remote msg hdr k :
  match sendmsg remote msg hdr k with
  | (k', Err e) => if decide (io_kind e = Interrupted) then send_loop remote msg hdr k = send_loop remote msg hdr k'
                   else send_loop remote msg hdr k = (k', Err e)
  | r => send_loop remote msg hdr k = r
  end.
Proof.
  rewrite send_loop_equation_1. destruct (inspect (sendmsg remote msg hdr k)) as [[k' [r|e]] Heq]; cbn; [by rewrite Heq|].
  destruct (decide (io_kind e = Interrupted)) eqn:E; cbn; rewrite Heq; cbn; by rewrite E.
Qed.

Lemma recv_loop_step n hdr k :
  match recvmsg n hdr k with
  | (k', Err e) => if decide (io_kind e = Interrupted) then recv_loop n hdr k = recv_loop n hdr k'
                   else recv_loop n hdr k = (k', Err e)
  | r => recv_loop n hdr k = r
  end.
Proof.
  rewrite recv_loop_equation_1. destruct (inspect (recvmsg n hdr k)) as [[k' [r|e]] Heq]; cbn; [by rewrite Heq|].
  destruct (decide (io_kind e = Interrupted)) eqn:E; cbn; rewrite Heq; cbn; by rewrite E.
Qed.

(** A loop that makes an interrupted call again ends with the first call that
    is not interrupted, if each interruption leaves fewer to come. *)
Section retry.
Context {A : Type} (call loop : K → K * result A io_error).
Hypothesis loop_step : ∀ k,
  match call k with
  | (k', Err e) => if decide (io_kind e = Interrupted) then loop k = loop k' else loop k = (k', Err e)
  | r => loop k = r
  end.

Lemma loop_retried k k1 : retried call k k1 → settled (call k1) → loop k = call k1.
Proof.
  induction 1 as [k|k k' k1 (e & He & Hint) _ IH]; intros Hs.
  - pose proof (loop_step k) as Hk. destruct (call k) as [k' [r|e]]; [done|]. by rewrite decide_False in Hk.
  - pose proof (loop_step k) as Hk. rewrite He, decide_True in Hk by done. rewrite Hk. by apply IH.
Qed.

Lemma loop_ends : (∀ k k' e, call k = (k', Err e) → io_kind e = Interrupted → (interrupts k' < interrupts k)%nat) →
  ∀ k, ∃ k1, retried call k k1 ∧ settled (call k1) ∧ loop k = call k1.
Proof.
  intros Hdec k. assert (∃ k1, retried call k k1 ∧ settled (call k1)) as (k1 & Hr & Hs).
  { induction k as [k IH] using (well_founded_induction (well_founded_ltof _ interrupts)).
    destruct (call k) as [k' [r|e]] eqn:E; [exists k; unfold settled; by rewrite E|].
    destruct (decide (io_kind e = Interrupted)) as [He|He]; [|exists k; unfold settled; by rewrite E].
    destruct (IH k') as (k1 & Hr & Hs); [by eapply Hdec|].
    exists k1. split; [|done]. eapply rtc_l; [|exact Hr]. eauto. }
  exists k1. eauto using loop_retried.
Qed.
End retry.

Lemma send_loop_ends remote msg h k : ∃ k1, retried (sendmsg remote msg h) k k1 ∧
  settled (sendmsg remote msg h k1) ∧ send_loop remote msg h k = sendmsg remote msg h k1.
Proof. apply loop_ends; [apply send_loop_step|]. intros. by eapply sendmsg_interrupted. Qed.

Lemma recv_loop_ends n h k : ∃ k1, retried (recvmsg n h) k k1 ∧
  settled (recvmsg n h k1) ∧ recv_loop n h k = recvmsg n h k1.
Proof. apply loop_ends; [apply recv_loop_step|]. intros. by eapply recvmsg_interrupted. Qed.

Lemma retried_queue n h k k1 : retried (recvmsg n h) k k1 → (queue k1 ≤ queue k)%nat.
Proof.
  induction 1 as [|k k' k1 (e & He & Hint) _ IH]; [done|].
  pose proof (recvmsg_interrupted_queue _ _ _ _ _ He Hint). lia.
Qed.

(** ** Control messages *)

(** The value of the message at [o]. *)
Definition value_at T `{Repr T} (control : list byte) (o : nat) : T :=
  of_ne (take (size_of T) (drop (CMSG_DATA o) control)).

Lemma decode_value {T} {RT : Repr T} control o (v : T) : decode_cmsg T control o = Some v → value_at T control o = v.
Proof. unfold decode_cmsg, value_at. case_bool_decide; [|done]. destruct (_ && _); [done|]. by intros [= ->]. Qed.

Lemma decode_total T {RT : Repr T} control o : (align_of T ≤ align_of c_int)%nat →
  cmsg_len (get_cmsghdr control o) = CMSG_LEN (size_of T) →
  decode_cmsg T control o = Some (value_at T control o).
Proof.
  intros Ha Hl. pose proof ux_align. unfold decode_cmsg. rewrite bool_decide_true by lia.
  by rewrite (bool_decide_true _ Hl), andb_false_r.
Qed.

(** The one message in a buffer. *)
Definition holds T `{Repr T} (level ty : Z) (v : T) (h : msghdr) : Prop :=
  CMSG_FIRSTHDR (msg_control h) (msg_controllen h) = Some O ∧
  CMSG_NXTHDR (msg_control h) (msg_controllen h) 0 = None ∧
  get_cmsghdr (msg_control h) 0 = MkCmsghdr (CMSG_LEN (size_of T)) level ty ∧
  value_at T (msg_control h) 0 = v.

(** The two bits of the type of service that are the codepoint (RFC 3168). *)
Definition ecn_code (ecn : option EcnCodepoint) : Z :=
  match ecn with None => 0 | Some ECT1 => 1 | Some ECT0 => 2 | Some CE => 3 end.

Lemma from_bits_code (x : byte) c : from_bits x = c ↔ ecn_code c = b2z x mod 4.
Proof.
  destruct (from_bits_spec x) as [Hs Hn]. destruct c as [c|]; cbn.
  - rewrite Hs. by destruct c.
  - by rewrite Hn.
Qed.

(** What [sendmsg] gets for IPv4 and for IPv6. *)
Definition tos_message (z : Z) (h : msghdr) : Prop :=
  if freebsd then holds byte IPPROTO_IP IP_TOS (z2b z) h
  else holds c_int IPPROTO_IP IP_TOS (c_int_of z) h.

Definition tclass_message (z : Z) (h : msghdr) : Prop :=
  holds c_int IPPROTO_IPV6 IPV6_TCLASS (c_int_of z) h.

(** The type of service or the traffic class that the system reports with a
    datagram, in its first control message. *)
Inductive reports (hdr : msghdr) : byte → Prop :=
| reports_nothing : CMSG_FIRSTHDR (msg_control hdr) (msg_controllen hdr) = None → reports hdr Byte.x00
| reports_tos o ty : CMSG_FIRSTHDR (msg_control hdr) (msg_controllen hdr) = Some o →
    get_cmsghdr (msg_control hdr) o = MkCmsghdr (CMSG_LEN (size_of byte)) IPPROTO_IP ty →
    ty = IP_TOS ∨ ty = IP_RECVTOS → reports hdr (value_at byte (msg_control hdr) o)
| reports_tclass o : CMSG_FIRSTHDR (msg_control hdr) (msg_controllen hdr) = Some o →
    get_cmsghdr (msg_control hdr) o = MkCmsghdr (CMSG_LEN (size_of c_int)) IPPROTO_IPV6 IPV6_TCLASS →
    reports hdr (c_int_as_u8 (value_at c_int (msg_control hdr) o))
| reports_tclass_byte o : CMSG_FIRSTHDR (msg_control hdr) (msg_controllen hdr) = Some o → macos = true →
    get_cmsghdr (msg_control hdr) o = MkCmsghdr (CMSG_LEN (size_of byte)) IPPROTO_IPV6 IPV6_TCLASS →
    reports hdr (value_at byte (msg_control hdr) o)
| reports_other o h : CMSG_FIRSTHDR (msg_control hdr) (msg_controllen hdr) = Some o →
    get_cmsghdr (msg_control hdr) o = h →
    ¬ (cmsg_level h = IPPROTO_IP ∧ (cmsg_type h = IP_TOS ∨ cmsg_type h = IP_RECVTOS)) →
    ¬ (cmsg_level h = IPPROTO_IPV6 ∧ cmsg_type h = IPV6_TCLASS) → reports hdr Byte.x00.

Lemma CMSG_LEN_int : CMSG_LEN (size_of c_int) ≠ CMSG_LEN (size_of byte).
Proof. rewrite (CMSG_LEN_spec (size_of c_int)), (CMSG_LEN_spec (size_of byte)). cbn. lia. Qed.

Lemma recv_ecn_reports hdr x : reports hdr x → recv_ecn hdr = Some x.
Proof.
  pose proof ux_protocols as Hne. pose proof CMSG_LEN_int as Hlen.
  unfold recv_ecn, Iter_next, Iter_new. cbn [it_cmsg it_hdr].
  destruct 1 as [Hf|o ty Hf Hg Hty|o Hf Hg|o Hf Hmac Hg|o h Hf Hg H4 H6]; rewrite Hf; cbn [mbind option_bind];
    [done| | | |].
  - rewrite Hg. cbn. rewrite bool_decide_true by done. rewrite decode_total; [done|cbn; lia|by rewrite Hg].
  - rewrite Hg. cbn. rewrite bool_decide_false by (by intros [? _]). rewrite bool_decide_true by done.
    rewrite bool_decide_false by exact Hlen. rewrite andb_false_r.
    rewrite decode_total; [done|done|by rewrite Hg].
  - rewrite Hg. cbn. rewrite bool_decide_false by (by intros [? _]). rewrite bool_decide_true by done.
    rewrite Hmac, bool_decide_true by done. cbn. rewrite decode_total; [done|cbn; lia|by rewrite Hg].
  - rewrite Hg. rewrite bool_decide_false by done. by rewrite bool_decide_false.
Qed.

Lemma control_ok_reports hdr : control_ok hdr → ∃ x, reports hdr x.
Proof.
  intros Hc. destruct (CMSG_FIRSTHDR (msg_control hdr) (msg_controllen hdr)) as [o|] eqn:Eo;
    [|eexists; by apply reports_nothing].
  destruct (Hc o Eo) as [H4 H6]. destruct (get_cmsghdr (msg_control hdr) o) as [len level ty] eqn:Eg. cbn in H4, H6.
  destruct (decide (level = IPPROTO_IP ∧ (ty = IP_TOS ∨ ty = IP_RECVTOS))) as [[-> Hty]|Hn4].
  { eexists. eapply reports_tos; [done|rewrite Eg; f_equal; by apply H4|done]. }
  destruct (decide (level = IPPROTO_IPV6 ∧ ty = IPV6_TCLASS)) as [[-> ->]|Hn6].
  - destruct (H6 eq_refl eq_refl) as [->|[Hmac ->]]; eexists;
      [by eapply reports_tclass|by eapply reports_tclass_byte].
  - eexists. by eapply reports_other.
Qed.

(** What is sent to an IPv6 address is what would be reported. *)
Lemma tclass_reports z h : tclass_message z h → reports h (z2b z).
Proof.
  intros (Hf & _ & Hg & Hv). assert (z2b z = c_int_as_u8 (value_at c_int (msg_control h) 0)) as -> by by rewrite Hv.
  by apply reports_tclass.
Qed.

(** IPv4 addresses, mapped into IPv6 or not. *)
Lemma is_ipv4_mapped a : is_ipv4 (SockV6 a) = true ↔ [0; 0; 0; 0; 0; 0xffff] `prefix_of` segments (v6_ip a).
Proof.
  unfold is_ipv4. rewrite bool_decide_eq_true. split.
  - intros <-. apply prefix_take.
  - by intros [l ->].
Qed.

(** ** The functions, on a layout that [init_ext] has checked *)

Definition control_buffer : msghdr := MkMsghdr (uninit (K:=K) CONTROL_LEN) CONTROL_LEN.

Section checked.
Context {CK : Checked}.

(** A value no larger than an integer, pushed into the control buffer. *)
Lemma push_control {T} {RT : Repr T} level ty (v : T) :
  (size_of T ≤ size_of c_int)%nat → (align_of T ≤ align_of c_int)%nat →
  header_ok (MkCmsghdr (CMSG_LEN (size_of T)) level ty) →
  ∃ e, push level ty v (Encoder_new control_buffer) = Some e ∧ holds T level ty v (finish e).
Proof.
  intros Hs Ha Hok. pose proof (ck_space CK). pose proof ux_align.
  pose proof (CMSG_SPACE_mono _ _ Hs).
  destruct (push_first (T:=T) ltac:(lia) level ty v (uninit (K:=K) CONTROL_LEN) CONTROL_LEN)
    as (e & He & _ & _ & Hf & Hn & Hg & Hd); [rewrite uninit_length; lia|done|].
  exists e. split; [done|]. split_and!; try done. by apply decode_value.
Qed.

Lemma send_control_spec remote ecn : ∃ h, send_control (K:=K) remote ecn = Some h ∧
  if is_ipv4 remote then tos_message (ecn_code ecn) h else tclass_message (ecn_code ecn) h.
Proof.
  unfold send_control, push_tos, tos_message. fold control_buffer. set (v := match ecn with Some x => _ | None => _ end).
  assert (v = c_int_of (ecn_code ecn)) as -> by (by destruct ecn as [[]|]).
  destruct (is_ipv4 remote); [destruct freebsd|].
  - destruct (push_control IPPROTO_IP IP_TOS (c_int_as_u8 (c_int_of (ecn_code ecn)))) as (e & -> & He);
      [cbn; lia..|by apply ux_tos; cbn; lia|]. by eexists.
  - destruct (push_control IPPROTO_IP IP_TOS (c_int_of (ecn_code ecn))) as (e & -> & He);
      [done..|by apply ux_tos|]. by eexists.
  - destruct (push_control IPPROTO_IPV6 IPV6_TCLASS (c_int_of (ecn_code ecn))) as (e & -> & He);
      [done..|by apply ux_tclass|]. by eexists.
Qed.

Lemma unix_init_total k : is_Some (unix_init_ext k).
Proof. by apply unix_init_checked. Qed.

Lemma unix_send_spec remote ecn msg k : ∃ h k1,
  (if is_ipv4 remote then tos_message (ecn_code ecn) h else tclass_message (ecn_code ecn) h) ∧
  retried (sendmsg remote msg h) k k1 ∧ settled (sendmsg remote msg h k1) ∧
  unix_send_ext remote ecn msg k = Some (sendmsg remote msg h k1).
Proof.
  destruct (send_control_spec remote ecn) as (h & Hh & Hm).
  destruct (send_loop_ends remote msg h k) as (k1 & Hr & Hs & Heq).
  exists h, k1. split_and!; try done. unfold unix_send_ext. rewrite Hh. cbn. by rewrite Heq.
Qed.

Lemma unix_send_total remote ecn msg k : is_Some (unix_send_ext remote ecn msg k).
Proof. destruct (unix_send_spec remote ecn msg k) as (h & k1 & _ & _ & _ & ->). eauto. Qed.

Definition address_of (name : sockaddr_storage) (a : SocketAddr) : Prop :=
  (ss_family name = AF_INET ∧ a = SockV4 (read_v4 name)) ∨
  (ss_family name = AF_INET6 ∧ a = SockV6 (read_v6 name)).

(** What [recv_ext] makes of the answer of [recvmsg]. *)
Lemma unix_recv_Ok n k k1 k' data name hdr :
  retried (recvmsg n control_buffer) k k1 → recvmsg n control_buffer k1 = (k', Ok (data, name, hdr)) →
  ∃ x a, reports hdr x ∧ address_of name a ∧ unix_recv_ext n k = Some (k', Ok (data, a, from_bits x)).
Proof.
  intros Hr Heq. destruct (recvmsg_ok _ _ _ _ _ _ _ Heq) as (Hfam & Hc & _).
  destruct (control_ok_reports hdr Hc) as [x Hx].
  assert (∃ a, recv_addr name = Some a ∧ address_of name a) as (a & Ha & Haddr).
  { unfold recv_addr, address_of. repeat case_bool_decide; naive_solver. }
  exists x, a. split_and!; try done. unfold unix_recv_ext. fold control_buffer.
  rewrite (loop_retried _ _ (recv_loop_step n control_buffer) k k1 Hr), Heq by (by rewrite Heq).
  by rewrite (recv_ecn_reports _ _ Hx), Ha.
Qed.

Lemma unix_recv_Err n k k1 k' e :
  retried (recvmsg n control_buffer) k k1 → recvmsg n control_buffer k1 = (k', Err e) →
  io_kind e ≠ Interrupted → unix_recv_ext n k = Some (k', Err e).
Proof.
  intros Hr Heq He. unfold unix_recv_ext. fold control_buffer.
  by rewrite (loop_retried _ _ (recv_loop_step n control_buffer) k k1 Hr), Heq by (by rewrite Heq).
Qed.

Lemma unix_recv_spec n k : ∃ k1, retried (recvmsg n control_buffer) k k1 ∧
  match recvmsg n control_buffer k1 with
  | (k', Ok (data, name, hdr)) => ∃ x a, reports hdr x ∧ address_of name a ∧
      unix_recv_ext n k = Some (k', Ok (data, a, from_bits x))
  | (k', Err e) => io_kind e ≠ Interrupted ∧ unix_recv_ext n k = Some (k', Err e)
  end.
Proof.
  destruct (recv_loop_ends n control_buffer k) as (k1 & Hr & Hs & _). exists k1. split; [done|].
  destruct (recvmsg n control_buffer k1) as [k' [[[data name] hdr]|e]] eqn:E.
  - by eapply unix_recv_Ok.
  - split; [done|]. by eapply unix_recv_Err.
Qed.

Lemma unix_recv_total n k : is_Some (unix_recv_ext n k).
Proof.
  destruct (unix_recv_spec n k) as (k1 & _ & H).
  destruct (recvmsg n control_buffer k1) as [k' [[[data name] hdr]|e]];
    [destruct H as (x & a & _ & _ & ->)|destruct H as [_ ->]]; eauto.
Qed.

(** ** The implementation of the interface *)

#[export] Instance unix_UdpExt : UdpExt K := {|
  init_ext k := is_Some_proj (unix_init_total k);
  send_ext remote ecn msg k := is_Some_proj (unix_send_total remote ecn msg k);
  recv_ext n k := is_Some_proj (unix_recv_total n k)
|}.

Lemma is_Some_proj_eq {A} (o : option A) (H : is_Some o) a : o = Some a → is_Some_proj H = a.
Proof. by destruct o as [x|]; [intros [= ->]|]. Qed.

Lemma unix_recv_from n k k' r : recv_ext n k = (k', Ok r) → ∃ k1 name hdr,
  retried (recvmsg n control_buffer) k k1 ∧ recvmsg n control_buffer k1 = (k', Ok (r.1.1, name, hdr)).
Proof.
  intros H. destruct (unix_recv_spec n k) as (k1 & Hr & Hm).
  destruct (recvmsg n control_buffer k1) as [k2 [[[data name] hdr]|e]] eqn:E.
  - destruct Hm as (x & a & _ & _ & Heq). cbn in H. rewrite (is_Some_proj_eq _ _ _ Heq) in H.
    injection H as <- <-. by exists k1, name, hdr.
  - destruct Hm as [_ Heq]. cbn in H. by rewrite (is_Some_proj_eq _ _ _ Heq) in H.
Qed.

#[export] Instance unix_UdpExtLaws : UdpExtLaws K.
Proof.
  refine {| backlog := queue |}.
  - intros n k k' data peer ecn Hn H. destruct (unix_recv_from n k k' _ H) as (k1 & name & hdr & _ & E).
    by eapply recvmsg_fits.
  - intros n k k' r H. destruct (unix_recv_from n k k' r H) as (k1 & name & hdr & Hr & E).
    pose proof (retried_queue _ _ _ _ Hr). pose proof (recvmsg_ok _ _ _ _ _ _ _ E) as (_ & _ & ?). lia.
Defined.
End checked.

(** C31: The Unix implementation.  The assertions of [init_ext] are enough: once
    it has returned on some socket, no call on any socket panics.  [init_ext]
    asks the system for the type of service on an IPv4 socket and for the
    traffic class on an IPv6 socket.  [send_ext] and [recv_ext] make their
    system call, and make it again as long as it is interrupted, which is not
    for ever; the first call that is not interrupted is the outcome: what
    [sendmsg] answers, and the bytes, the sender's address read as its family
    says, or the error, of [recvmsg]. *)
Theorem unix_ext_safe k0 k remote ecn msg n : is_Some (unix_init_ext k0) →
  (∃ r, unix_init_ext k = Some r ∧
     match os_local_addr k with
     | Ok (SockV4 _) => r = setsockopt IPPROTO_IP IP_RECVTOS (c_int_of 1) k
     | Ok (SockV6 _) => r = setsockopt IPPROTO_IPV6 IPV6_RECVTCLASS (c_int_of 1) k
     | Err e => r = (k, Err e)
     end) ∧
  (∃ h k1, retried (sendmsg remote msg h) k k1 ∧ settled (sendmsg remote msg h k1) ∧
     unix_send_ext remote ecn msg k = Some (sendmsg remote msg h k1)) ∧
  (∃ k1, retried (recvmsg n control_buffer) k k1 ∧
     match recvmsg n control_buffer k1 with
     | (k', Ok (data, name, _)) => ∃ a e, unix_recv_ext n k = Some (k', Ok (data, a, e)) ∧
         ((ss_family name = AF_INET ∧ a = SockV4 (read_v4 name)) ∨
          (ss_family name = AF_INET6 ∧ a = SockV6 (read_v6 name)))
     | (k', Err e) => io_kind e ≠ Interrupted ∧ unix_recv_ext n k = Some (k', Err e)
     end).
Proof.
  intros CK%unix_init_checked. split_and!.
  - destruct (unix_init_total k) as [r Hr]. exists r. split; [done|]. unfold unix_init_ext in Hr.
    destruct (_ && _); [|done]. by destruct (os_local_addr k) as [[]|]; injection Hr as <-.
  - destruct (unix_send_spec remote ecn msg k) as (h & k1 & _ & H). by exists h, k1.
  - destruct (unix_recv_spec n k) as (k1 & Hr & H). exists k1. split; [done|].
    destruct (recvmsg n control_buffer k1) as [k' [[[data name] hdr]|e]]; [|done].
    destruct H as (x & a & _ & Ha & H). by exists a, (from_bits x).
Qed.

(** C32: The codepoint in the control messages.  [send_ext] hands the system
    exactly one control message.  To an IPv4 address, and to one mapped into
    IPv6, it is the type of service, one byte on FreeBSD and an integer
    elsewhere; to every other IPv6 address it is the traffic class; its value
    is the codepoint, or zero.  [recv_ext] takes the codepoint from the two low
    bits of what the system reports: the byte of a type-of-service message,
    under either of its two names, the integer of a traffic-class message, or
    on macOS its byte; with another message, or none, there is no codepoint. *)
Theorem ecn_control k0 k remote ecn msg n : is_Some (unix_init_ext k0) →
  (∃ h k1, retried (sendmsg remote msg h) k k1 ∧
     unix_send_ext remote ecn msg k = Some (sendmsg remote msg h k1) ∧
     match remote with
     | SockV4 _ => tos_message (ecn_code ecn) h
     | SockV6 a =>
         ([0; 0; 0; 0; 0; 0xffff] `prefix_of` segments (v6_ip a) → tos_message (ecn_code ecn) h) ∧
         (¬ [0; 0; 0; 0; 0; 0xffff] `prefix_of` segments (v6_ip a) →
            tclass_message (ecn_code ecn) h ∧ reports h (z2b (ecn_code ecn)))
     end) ∧
  (∀ k1 k' data name hdr, retried (recvmsg n control_buffer) k k1 →
     recvmsg n control_buffer k1 = (k', Ok (data, name, hdr)) →
     ∃ x a c, reports hdr x ∧ unix_recv_ext n k = Some (k', Ok (data, a, c)) ∧ ecn_code c = b2z x mod 4) ∧
  (∀ hdr x y, reports hdr x → reports hdr y → x = y).
Proof.
  intros CK%unix_init_checked. split_and!.
  - destruct (unix_send_spec remote ecn msg k) as (h & k1 & Hm & Hr & _ & Hs). exists h, k1.
    split_and!; [done..|]. destruct remote as [a|a]; [done|].
    split; intros Ha; destruct (is_ipv4 (SockV6 a)) eqn:E; try done.
    + apply is_ipv4_mapped in Ha. congruence.
    + by apply is_ipv4_mapped in E.
    + split; [done|]. by apply tclass_reports.
  - intros k1 k' data name hdr Hr Heq. destruct (unix_recv_Ok _ _ _ _ _ _ _ Hr Heq) as (x & a & Hx & _ & H).
    exists x, a, (from_bits x). split_and!; [done..|]. by apply from_bits_code.
  - intros hdr x y Hx%recv_ecn_reports Hy%recv_ecn_reports. congruence.
Qed.
End laws.
