(* ===== verification/UnixExamples.v ===== *)
(** * The Unix implementation on a reference kernel: concrete inputs *)

From S2P Require Export Unix.

Import CmsgReference.

#[local] Instance example_profile : Profile := dev.

Module UnixExample.
#[export] Instance linux : Target := {| big_endian := false; freebsd := false; macos := false |}.

(** The constants of Linux. *)
#[export] Instance linux_unix : Unix := {|
  IPPROTO_IP := 0; IPPROTO_IPV6 := 41;
  IP_TOS := 1; IP_RECVTOS := 13; IPV6_TCLASS := 67; IPV6_RECVTCLASS := 66;
  AF_INET := 2; AF_INET6 := 10;
  size_of_SocketAddrV4 := 16; size_of_sockaddr_in := 16;
  size_of_SocketAddrV6 := 28; size_of_sockaddr_in6 := 28
|}.

(** The datagrams to come, with their type of service; those sent; how many
    calls will be interrupted. *)
Record kernel : Type := MkKernel {
  k_interrupts : nat;
  k_in : list (list byte * SocketAddr * byte);
  k_out : list (SocketAddr * list byte * msghdr)
}.

Definition storage (a : SocketAddr) : sockaddr_storage :=
  match a with
  | SockV4 a => MkStorage 2 a (MkSockV6 (MkV6 []) 0 0 0)
  | SockV6 a => MkStorage 10 (MkSockV4 (MkV4 Byte.x00 Byte.x00 Byte.x00 Byte.x00) 0) a
  end.

Definition k_buffer : list byte := replicate 24 Byte.x00.

(** The control buffer of a received datagram. *)
Definition k_control (a : SocketAddr) (tos : byte) : msghdr :=
  let e := Encoder_new (MkMsghdr k_buffer 24) in
  default (MkMsghdr [] 0) (finish <$> match a with
    | SockV4 _ => push IPPROTO_IP IP_TOS tos e
    | SockV6 _ => push IPPROTO_IPV6 IPV6_TCLASS (c_int_of (b2z tos)) e
    end).

#[export] Instance kernel_Syscalls : Syscalls kernel.
Proof.
  refine {|
    setsockopt level name v k := (k, Ok ());
    sendmsg a m h k :=
      match k_interrupts k with
      | S n => (MkKernel n (k_in k) (k_out k), Err (IoError Interrupted "interrupted"))
      | O => (MkKernel O (k_in k) (k_out k ++ [(a, m, h)]), Ok (Z.of_nat (length m)))
      end;
    recvmsg n h k :=
      match k_interrupts k, k_in k with
      | S m, _ => (MkKernel m (k_in k) (k_out k), Err (IoError Interrupted "interrupted"))
      | O, [] => (k, Err (IoError WouldBlock "would block"))
      | O, (data, a, tos) :: rest =>
        (MkKernel O rest (k_out k), Ok (take (Z.to_nat n) data, storage a, k_control a tos))
      end;
    uninit n := replicate n Byte.xff;
    interrupts := k_interrupts
  |}.
  - intros n. apply length_replicate.
  - intros a m h k k' e. destruct (k_interrupts k) as [|n]; [done|]. intros [= <- <-] _. cbn. lia.
  - intros n h k k' e. destruct (k_interrupts k) as [|m]; [|intros [= <- <-] _; cbn; lia].
    destruct (k_in k) as [|[[? ?] ?] ?]; by intros [= <- <-].
Defined.

Lemma k_control_ok a tos : control_ok (k_control a tos).
Proof.
  unfold k_control. destruct a as [a|a].
  - destruct (push_first (LC:=libc_ref) (T:=byte) (RT:=u8_Repr) ltac:(cbn; lia) IPPROTO_IP IP_TOS tos k_buffer 24)
      as (e & -> & _ & _ & Hf & _ & Hg & _); [by vm_compute; split; repeat constructor|by vm_compute|].
    change (control_ok (finish e)). intros o Ho. rewrite Hf in Ho. injection Ho as <-.
    cbv zeta in *. rewrite Hg. by split.
  - destruct (push_first (LC:=libc_ref) (T:=c_int) (RT:=c_int_Repr) ltac:(cbn; lia) IPPROTO_IPV6 IPV6_TCLASS (c_int_of (b2z tos)) k_buffer 24)
      as (e & -> & _ & _ & Hf & _ & Hg & _); [by vm_compute; split; repeat constructor|by vm_compute|].
    change (control_ok (finish e)). intros o Ho. rewrite Hf in Ho. injection Ho as <-.
    cbv zeta in *. rewrite Hg. split; [done|by left].
Qed.

#[export] Instance kernel_UnixLaws : UnixLaws (K:=kernel).
Proof.
  refine {| queue k := length (k_in k) |}; try done.
  - cbn. lia.
  - intros n Hn. cbn in *. unfold fits. cbn. lia.
  - intros n Hn. cbn in *. unfold fits. cbn. lia.
  - intros n h k k' data name hdr Hn. cbn. destruct (k_interrupts k); [|done].
    destruct (k_in k) as [|[[d a] tos] rest]; [done|]. intros [= _ <- _ _]. solve_length.
  - intros n h k k' data name hdr. cbn. destruct (k_interrupts k); [|done].
    destruct (k_in k) as [|[[d a] tos] rest]; [done|]. intros [= <- _ <- <-].
    split_and!; [destruct a; cbn; auto|apply k_control_ok|cbn; lia].
  - intros n h k k' e. cbn. destruct (k_interrupts k); [|by intros [= <- _] _].
    destruct (k_in k) as [|[[d a] tos] rest]; by intros [= <- <-].
Defined.

Definition peer : SocketAddr := SockV4 (MkSockV4 (MkV4 Byte.x0a Byte.x00 Byte.x00 Byte.x01) 4000).
Definition hello : list byte := [Byte.x68; Byte.x69].

#[export] Instance kernel_UdpSocket : UdpSocket kernel := {|
  os_bind addr := Ok (MkKernel 0 [] []);
  os_local_addr k := Ok peer;
  os_ttl k := Ok 64;
  os_set_ttl ttl k := (k, Ok ())
|}.

(** Two interruptions, and then a datagram marked as having met congestion. *)
Definition busy : kernel := MkKernel 2 [(hello, peer, Byte.x03)] [].

Example busy_recv :
  match recv_loop 100 (MkMsghdr k_buffer 24) busy with
  | (k, Ok (data, name, hdr)) => Some (data, recv_addr name, recv_ecn hdr, k_in k)
  | _ => None
  end = Some (hello, Some peer, Some Byte.x03, []).
Proof. vm_compute. reflexivity. Qed.

Lemma layout_checked : is_Some (unix_init_ext busy).
Proof. by eexists. Qed.

(** Where the standard library's addresses have another size, [init_ext] panics. *)
Example layout_refused :
  unix_init_ext (UX:={|
    IPPROTO_IP := 0; IPPROTO_IPV6 := 41;
    IP_TOS := 1; IP_RECVTOS := 13; IPV6_TCLASS := 67; IPV6_RECVTCLASS := 66;
    AF_INET := 2; AF_INET6 := 10;
    size_of_SocketAddrV4 := 6; size_of_sockaddr_in := 16;
    size_of_SocketAddrV6 := 28; size_of_sockaddr_in6 := 28
  |}) busy = None.
Proof. reflexivity. Qed.

Lemma unix_ext_safe_witness :
  (∃ r, unix_init_ext busy = Some r ∧ r = setsockopt IPPROTO_IP IP_RECVTOS (c_int_of 1) busy) ∧
  (∃ k1, retried (recvmsg 100 control_buffer) busy k1 ∧
     match recvmsg 100 control_buffer k1 with
     | (k', Ok (data, name, _)) => ∃ a e, unix_recv_ext 100 busy = Some (k', Ok (data, a, e)) ∧
         ((ss_family name = 2 ∧ a = SockV4 (read_v4 name)) ∨ (ss_family name = 10 ∧ a = SockV6 (read_v6 name)))
     | (k', Err e) => io_kind e ≠ Interrupted ∧ unix_recv_ext 100 busy = Some (k', Err e)
     end).
Proof.
  destruct (unix_ext_safe busy busy peer None hello 100 layout_checked) as (Hinit & _ & Hrecv).
  split; [exact Hinit|exact Hrecv].
Defined.

(** An IPv6 traffic class of one: ECT(1). *)
Lemma cmsg_roundtrip_witness :
  ∃ e it, push IPPROTO_IPV6 IPV6_TCLASS (c_int_of 1) (Encoder_new (MkMsghdr k_buffer 24)) = Some e ∧
    let h := finish e in
    msg_controllen h = CMSG_SPACE (size_of c_int) ∧ length (msg_control h) = length k_buffer ∧
    Iter_next (Iter_new h) = Some (O, it) ∧ Iter_next it = None ∧
    get_cmsghdr (msg_control h) 0 = MkCmsghdr (CMSG_LEN (size_of c_int)) IPPROTO_IPV6 IPV6_TCLASS ∧
    decode_cmsg c_int (msg_control h) 0 = Some (c_int_of 1).
Proof.
  refine (cmsg_roundtrip (T:=c_int) _ IPPROTO_IPV6 IPV6_TCLASS (c_int_of 1) k_buffer 24 _ _).
  - cbn. lia.
  - cbn. lia.
  - cbn. unfold fits. cbn. lia.
Defined.

(** The IPv4 address 10.0.0.1, mapped into IPv6. *)
Definition mapped : SocketAddr := SockV6 (MkSockV6 (MkV6 [0; 0; 0; 0; 0; 0xffff; 0x0a00; 1]) 4000 0 0).

Definition delivered : kernel := MkKernel 0 [] [].

(** A codepoint on the way out, to that address, and on the way in. *)
Lemma ecn_control_witness :
  (∃ h k1, retried (sendmsg mapped hello h) busy k1 ∧
     unix_send_ext mapped (Some CE) hello busy = Some (sendmsg mapped hello h k1) ∧ tos_message 3 h) ∧
  (∃ x a c, reports (k_control peer Byte.x03) x ∧
     unix_recv_ext 100 busy = Some (delivered, Ok (hello, a, c)) ∧ ecn_code c = b2z x mod 4).
Proof.
  destruct (ecn_control busy busy mapped (Some CE) hello 100 layout_checked) as ((h & k1 & Hr & Hs & Hm & _) & Hrecv & _).
  split.
  - exists h, k1. split; [exact Hr|]. split; [exact Hs|]. apply Hm. by exists [0x0a00; 1].
  - apply (Hrecv (MkKernel 0 [(hello, peer, Byte.x03)] []) delivered hello (storage peer)); [|reflexivity].
    eapply rtc_l; [|apply rtc_once]; eexists; split; reflexivity.
Defined.
End UnixExample.
