(* ===== verification/Dtp.v ===== *)
(** * Crate dtp: the multiplexing socket (src/dtp/src/dtp.rs, src/dtp/src/lib.rs)

    One UDP socket carries many channels, each named by the peer's address and
    a channel id.  A datagram is queued on its channel; a channel that nobody
    has taken is also announced on the [incoming] queue. *)

From S2P Require Export Udp DtpPacket.

Module Dtp.

Record Channel : Type := MkChannel { peer_addr : Addr; channel_id : byte }.

#[export] Instance Channel_eq_dec : EqDecision Channel.
Proof. solve_decision. Defined.

#[export] Instance Channel_countable : Countable Channel.
Proof.
  refine (inj_countable' (λ c, (peer_addr c, channel_id c)) (λ '(a, i), MkChannel a i) _).
  by intros [].
Defined.

Section InnerDtpSocket.
Context {BC : BytesCrate} {SQ : SegQueueCrate} {SL : SlabCrate} {PR : Profile}.
Context {K : Type} `{!UdpExt K} `{!UdpSocket K}.

Record InnerDtpSocket : Type := MkInner {
  socket : K;
  connections : Slab (SegQueue DtpPacket);
  channel_lookup : gmap Channel nat;
  channels : gset Channel;
  incoming : SegQueue Channel
}.

Definition set_socket (k : K) (s : InnerDtpSocket) : InnerDtpSocket :=
  MkInner k (connections s) (channel_lookup s) (channels s) (incoming s).
Definition set_connections c (s : InnerDtpSocket) : InnerDtpSocket :=
  MkInner (socket s) c (channel_lookup s) (channels s) (incoming s).
Definition set_lookup l (s : InnerDtpSocket) : InnerDtpSocket :=
  MkInner (socket s) (connections s) l (channels s) (incoming s).
Definition set_channels c (s : InnerDtpSocket) : InnerDtpSocket :=
  MkInner (socket s) (connections s) (channel_lookup s) c (incoming s).
Definition set_incoming i (s : InnerDtpSocket) : InnerDtpSocket :=
  MkInner (socket s) (connections s) (channel_lookup s) (channels s) i.

Definition bind (addr : Addr) : result InnerDtpSocket io_error :=
  match udp_bind (socket_addr addr) with
  | Ok socket => Ok (MkInner socket slab_new ∅ ∅ sq_new)
  | Err e => Err e
  end.

Definition connection_id (channel : Channel) : M io_error InnerDtpSocket (option nat) :=
  channel_lookup ← gets channel_lookup;
  match channel_lookup !! channel with
  | Some conn_id => mret (Some conn_id)
  | None =>
    conns ← gets connections;
    let '(conn_id, conns) := slab_insert sq_new conns in
    modify (set_connections conns);;
    modify (set_lookup (<[channel := conn_id]> channel_lookup));;
    mret (Some conn_id)
  end.

Definition local_addr : M io_error InnerDtpSocket Addr :=
  a ← zoom socket set_socket udp_local_addr; mret (from_socket_addr a).

Definition ttl : M io_error InnerDtpSocket byte := zoom socket set_socket udp_ttl.

Definition set_ttl (ttl : byte) : M io_error InnerDtpSocket () :=
  zoom socket set_socket (udp_set_ttl ttl).

(** The packet a datagram becomes: its channel and the packet with its
    congestion flag; an empty datagram is an error. *)
Definition recv_datagram (data : list byte) (peer : SocketAddr) (len : Z) (e : bool)
    : M io_error InnerDtpSocket (Channel * DtpPacket) :=
  let packet := packet_set_len len (bytes_mut_write data uninitialized) in
  r ← unwrap (check packet);
  try r;;
  id ← unwrap (DtpPacket.channel packet);
  mret (MkChannel (from_socket_addr peer) id, set_ecn e packet).

(** [self.connections.lock().unwrap().get_mut(conn_id).unwrap().push(payload)] *)
Definition push_packet (conn_id : nat) (payload : DtpPacket) : M io_error InnerDtpSocket () :=
  conns ← gets connections;
  queue ← unwrap (slab_get conn_id conns);
  modify (set_connections (slab_set conn_id (sq_push payload queue) conns)).

Definition poll_recv : M io_error InnerDtpSocket () :=
  '(data, peer, len, e) ←
    zoom socket set_socket (udp_poll_recv (remaining_mut uninitialized));
  '(channel, payload) ← recv_datagram data peer len e;
  conn ← connection_id channel;
  match conn with
  | Some conn_id =>
    push_packet conn_id payload;;
    taken ← gets channels;
    if decide (channel ∈ taken) then mret ()
    else modify (λ s, set_incoming (sq_push channel (incoming s)) s)
  | None => mret ()
  end.

(** [self.incoming.pop().ok()]. *)
Definition pop_incoming : M io_error InnerDtpSocket (option Channel) :=
  q ← gets incoming;
  match sq_pop q with
  | Some (channel, q) => modify (set_incoming q);; mret (Some channel)
  | None => mret None
  end.

Fixpoint incoming_loop (fuel : nat) : M io_error InnerDtpSocket Channel :=
  match fuel with
  | O => diverge
  | S fuel =>
    poll_recv;;
    next ← pop_incoming;
    match next with
    | Some channel =>
      taken ← gets channels;
      if decide (channel ∈ taken) then incoming_loop fuel
      else modify (set_channels ({[channel]} ∪ taken));; mret channel
    | None => incoming_loop fuel
    end
  end.

Definition poll_incoming (fuel : nat) : M io_error InnerDtpSocket Channel :=
  next ← pop_incoming;
  match next with
  | Some stream => mret stream
  | None => incoming_loop fuel
  end.

(** The block that looks the channel's queue up and pops it. *)
Definition pop_packet (channel : Channel) : M io_error InnerDtpSocket (option DtpPacket) :=
  conn ← connection_id channel;
  match conn with
  | Some conn_id =>
    conns ← gets connections;
    queue ← unwrap (slab_get conn_id conns);
    match sq_pop queue with
    | Some (packet, queue) =>
      modify (set_connections (slab_set conn_id queue conns));; mret (Some packet)
    | None => mret None
    end
  | None => mret None
  end.

Fixpoint channel_loop (fuel : nat) (channel : Channel) : M io_error InnerDtpSocket DtpPacket :=
  match fuel with
  | O => diverge
  | S fuel =>
    poll_recv;;
    next ← pop_packet channel;
    match next with
    | Some packet => mret packet
    | None => channel_loop fuel channel
    end
  end.

Definition poll_channel (fuel : nat) (channel : Channel) : M io_error InnerDtpSocket DtpPacket :=
  next ← pop_packet channel;
  match next with
  | Some packet => mret packet
  | None => channel_loop fuel channel
  end.

Definition outgoing (peer_addr : Addr) (channel_id : byte) : M io_error InnerDtpSocket Channel :=
  let channel := MkChannel peer_addr channel_id in
  taken ← gets channels;
  if decide (channel ∈ taken) then throw (IoError Other "channel already taken")
  else modify (set_channels ({[channel]} ∪ taken));; mret channel.

Definition close (channel : Channel) : M io_error InnerDtpSocket () :=
  modify (λ s, set_channels (channels s ∖ {[channel]}) s);;
  conn ← connection_id channel;
  conn_id ← unwrap conn;
  modify (λ s, set_lookup (delete channel (channel_lookup s)) s);;
  conns ← gets connections;
  '(_, conns) ← unwrap (slab_remove conn_id conns);
  modify (set_connections conns).

Definition poll_send (channel : Channel) (packet : DtpPacket) : M io_error InnerDtpSocket () :=
  packet ← unwrap (set_channel (channel_id channel) packet);
  zoom socket set_socket
    (udp_poll_send (socket_addr (peer_addr channel)) (ecn packet) (bytes packet)).

(** ** [DtpChannel]: a handle on the shared socket.  Awaiting
    [RecvFuture] is [poll_channel], awaiting [SendFuture] is [poll_send];
    dropping the handle closes the channel. *)
Record DtpChannel : Type := MkDtpChannel { handle : Channel }.

(** The option is the panic of the address parser. *)
Definition DtpSocket_bind {T} `{!ToAddr T} (addr : T) : option (result InnerDtpSocket io_error) :=
  r ← to_addr addr;
  Some match r with
       | Err _ => Err (IoError Other "failed to parse socket addr")
       | Ok addr => bind addr
       end.

Definition DtpSocket_local_addr : M io_error InnerDtpSocket Addr := local_addr.
Definition DtpSocket_ttl : M io_error InnerDtpSocket byte := ttl.
Definition DtpSocket_set_ttl : byte → M io_error InnerDtpSocket () := set_ttl.

Definition DtpSocket_outgoing {T} `{!ToAddr T} (peer : T) (id : byte)
    : M io_error InnerDtpSocket DtpChannel :=
  r ← unwrap (to_addr peer);
  match r with
  | Err _ => throw (IoError Other "failed to parse socket addr")
  | Ok peer => c ← outgoing peer id; mret (MkDtpChannel c)
  end.

Definition Incoming_poll_next (fuel : nat) : M io_error InnerDtpSocket DtpChannel :=
  c ← poll_incoming fuel; mret (MkDtpChannel c).

Definition DtpChannel_local_addr (ch : DtpChannel) : M io_error InnerDtpSocket Addr := local_addr.
Definition DtpChannel_peer_addr (ch : DtpChannel) : Addr := peer_addr (handle ch).
Definition DtpChannel_channel (ch : DtpChannel) : byte := channel_id (handle ch).

Definition DtpChannel_drop (ch : DtpChannel) : M io_error InnerDtpSocket () :=
  close (handle ch).

Definition DtpChannel_Channel (fuel : nat) (ch : DtpChannel)
    : Channel.Channel InnerDtpSocket DtpPacket := {|
  send := poll_send (handle ch);
  recv := poll_channel fuel (handle ch)
|}.
End InnerDtpSocket.
End Dtp.
