(* ===== verification/DtpSpec.v ===== *)
(** * What the multiplexing socket promises, and that it keeps it

    [ASock] is the abstract socket: a map from channels to the datagrams
    waiting on them, the set of channels that are taken, and the queue of
    channels announced to [incoming].  Each operation of Dtp.v refines the
    operation of the same name here: related states, equal results, equal
    errors, and in particular no panic.  Slab keys, buffers and packet
    headers do not occur in the specification. *)

From S2P Require Export Dtp.

Import Dtp.

(** The refinement lemmas of the operations. *)
Create HintDb refines.

(** A waiting datagram: the congestion mark and the bytes, channel id first. *)
Record datagram : Type := Datagram { d_ecn : bool; d_bytes : list byte }.

Definition datagram_of `{BytesCrate} (p : DtpPacket) : datagram := Datagram (ecn p) (bytes p).

Record ASock (K : Type) : Type := MkASock {
  a_sock : K;
  a_conns : gmap Channel (list datagram);
  a_taken : gset Channel;
  a_incoming : list Channel
}.
Arguments MkASock {K} _ _ _ _.
Arguments a_sock {K} _.
Arguments a_conns {K} _.
Arguments a_taken {K} _.
Arguments a_incoming {K} _.

Section spec.
Context {K : Type} `{!UdpExt K}.

Definition a_set_sock (k : K) (a : ASock K) : ASock K :=
  MkASock k (a_conns a) (a_taken a) (a_incoming a).
Definition a_set_conns c (a : ASock K) : ASock K :=
  MkASock (a_sock a) c (a_taken a) (a_incoming a).
Definition a_set_taken t (a : ASock K) : ASock K :=
  MkASock (a_sock a) (a_conns a) t (a_incoming a).
Definition a_set_incoming i (a : ASock K) : ASock K :=
  MkASock (a_sock a) (a_conns a) (a_taken a) i.

(** The channel has a queue from now on. *)
Definition a_connect (c : Channel) : M io_error (ASock K) () :=
  modify (λ a, match a_conns a !! c with
               | Some _ => a
               | None => a_set_conns (<[c := []]> (a_conns a)) a
               end).

Definition a_push (c : Channel) (d : datagram) : M io_error (ASock K) () :=
  modify (λ a, a_set_conns (alter (λ q, q ++ [d]) c (a_conns a)) a).

Definition a_announce (c : Channel) : M io_error (ASock K) () :=
  modify (λ a, if decide (c ∈ a_taken a) then a
               else a_set_incoming (a_incoming a ++ [c]) a).

(** Demultiplexing: the first byte is the channel id. *)
Definition a_decode (data : list byte) (peer : SocketAddr) (e : bool)
    : M io_error (ASock K) (Channel * datagram) :=
  match data with
  | [] => throw (IoError Other "invalid packet")
  | id :: _ => mret (MkChannel (from_socket_addr peer) id, Datagram e data)
  end.

Definition a_poll_recv (buffer_len : Z) : M io_error (ASock K) () :=
  '(data, peer, _, e) ← zoom a_sock a_set_sock (udp_poll_recv buffer_len);
  '(c, d) ← a_decode data peer e;
  a_connect c;; a_push c d;; a_announce c.

Definition a_pop_incoming : M io_error (ASock K) (option Channel) :=
  q ← gets a_incoming;
  match q with
  | c :: q => modify (a_set_incoming q);; mret (Some c)
  | [] => mret None
  end.

Definition a_take (c : Channel) : M io_error (ASock K) () :=
  modify (λ a, a_set_taken ({[c]} ∪ a_taken a) a).

Fixpoint a_incoming_loop (buffer_len : Z) (fuel : nat) : M io_error (ASock K) Channel :=
  match fuel with
  | O => diverge
  | S fuel =>
    a_poll_recv buffer_len;;
    next ← a_pop_incoming;
    match next with
    | Some c =>
      taken ← gets a_taken;
      if decide (c ∈ taken) then a_incoming_loop buffer_len fuel else a_take c;; mret c
    | None => a_incoming_loop buffer_len fuel
    end
  end.

Definition a_poll_incoming (buffer_len : Z) (fuel : nat) : M io_error (ASock K) Channel :=
  next ← a_pop_incoming;
  match next with Some c => mret c | None => a_incoming_loop buffer_len fuel end.

Definition a_pop_packet (c : Channel) : M io_error (ASock K) (option datagram) :=
  a_connect c;;
  conns ← gets a_conns;
  match conns !! c with
  | Some (d :: q) => modify (a_set_conns (<[c := q]> conns));; mret (Some d)
  | _ => mret None
  end.

Fixpoint a_channel_loop (buffer_len : Z) (fuel : nat) (c : Channel)
    : M io_error (ASock K) datagram :=
  match fuel with
  | O => diverge
  | S fuel =>
    a_poll_recv buffer_len;;
    next ← a_pop_packet c;
    match next with Some d => mret d | None => a_channel_loop buffer_len fuel c end
  end.

Definition a_poll_channel (buffer_len : Z) (fuel : nat) (c : Channel)
    : M io_error (ASock K) datagram :=
  next ← a_pop_packet c;
  match next with Some d => mret d | None => a_channel_loop buffer_len fuel c end.

Definition a_outgoing (peer : Addr) (id : byte) : M io_error (ASock K) Channel :=
  let c := MkChannel peer id in
  taken ← gets a_taken;
  if decide (c ∈ taken) then throw (IoError Other "channel already taken")
  else a_take c;; mret c.

Definition a_close (c : Channel) : M io_error (ASock K) () :=
  modify (λ a, a_set_conns (delete c (a_conns a)) (a_set_taken (a_taken a ∖ {[c]}) a)).

(** Multiplexing: the channel id before the payload. *)
Definition a_poll_send (c : Channel) (e : bool) (payload : list byte) : M io_error (ASock K) () :=
  zoom a_sock a_set_sock
    (udp_poll_send (socket_addr (peer_addr c)) e (channel_id c :: payload)).
End spec.

Lemma alter_lookup `{Countable J} {A} (f : A → A) (m : gmap J A) i x :
  m !! i = Some x → alter f i m = <[i := f x]> m.
Proof.
  intros Hi. apply map_eq. intros j. destruct (decide (i = j)) as [<-|].
  - by rewrite lookup_alter_eq, lookup_insert_eq, Hi.
  - by rewrite lookup_alter_ne, lookup_insert_ne by done.
Qed.

(** ** The invariant and the abstraction function *)

Section refinement.
Context {BC : BytesCrate} {BL : BytesLaws BC}.
Context {SQ : SegQueueCrate} {SQL : SegQueueLaws SQ}.
Context {SL : SlabCrate} {SLL : SlabLaws SL}.
Context {PR : Profile} {K : Type} `{!UdpExt K} `{!UdpExtLaws K} `{!UdpSocket K}.

#[local] Abbreviation isock := (InnerDtpSocket (K:=K)).

(** Every channel's key is occupied, no two channels share one, and every
    occupied key belongs to a channel: no dangling key, no leak. *)
Record Inv (s : isock) : Prop := {
  inv_live c i : channel_lookup s !! c = Some i → is_Some (slab_entries (connections s) !! i);
  inv_inj c c' i : channel_lookup s !! c = Some i → channel_lookup s !! c' = Some i → c = c';
  inv_used i q : slab_entries (connections s) !! i = Some q →
    ∃ c, channel_lookup s !! c = Some i
}.

Definition queue_of (s : isock) (i : nat) : option (list datagram) :=
  (λ q, datagram_of <$> sq_items q) <$> slab_entries (connections s) !! i.

Definition abs (s : isock) : ASock K :=
  MkASock (socket s) (omap (queue_of s) (channel_lookup s)) (channels s) (sq_items (incoming s)).

(** [refines P m m' Q]: from a state with [P], the two computations end the
    same way, in related states, with results related by [Q]; neither
    panics. *)
Definition refines {A B} (P : isock → Prop) (m : M io_error isock A)
    (m' : M io_error (ASock K) B) (Q : A → B → isock → Prop) : Prop :=
  ∀ s, Inv s → P s →
  match m s, m' (abs s) with
  | Return a s1, Return b t => Q a b s1 ∧ Inv s1 ∧ t = abs s1
  | Throw e s1, Throw e' t => e = e' ∧ Inv s1 ∧ t = abs s1
  | Suspend s1, Suspend t => Inv s1 ∧ t = abs s1
  | Diverge, Diverge => True
  | _, _ => False
  end.

Lemma refines_bind {A B A' B'} P (m : M io_error isock A) (m' : M io_error (ASock K) B)
    Q (f : A → M io_error isock A') (f' : B → M io_error (ASock K) B') R :
  refines P m m' Q → (∀ a b, refines (Q a b) (f a) (f' b) R) →
  refines P (m ≫= f) (m' ≫= f') R.
Proof.
  intros Hm Hf s Hi Hp. specialize (Hm s Hi Hp). run.
  destruct (m s), (m' (abs s)); try done.
  destruct Hm as (? & ? & ->). by apply Hf.
Qed.

Lemma refines_weaken {A B} P P' (m : M io_error isock A) (m' : M io_error (ASock K) B)
    (Q Q' : A → B → isock → Prop) :
  refines P m m' Q → (∀ s, P' s → P s) → (∀ a b s, Q a b s → Q' a b s) → refines P' m m' Q'.
Proof.
  intros Hm HP HQ s Hi Hp. specialize (Hm s Hi (HP s Hp)).
  destruct (m s), (m' (abs s)); try done. naive_solver.
Qed.

Lemma refines_ret {A B} (P : isock → Prop) (a : A) (b : B) Q :
  (∀ s, P s → Q a b s) → refines P (mret a) (mret b) Q.
Proof. intros H s Hi Hp. cbn. auto. Qed.

Lemma refines_throw {A B} P e (Q : A → B → isock → Prop) : refines P (throw e) (throw e) Q.
Proof. intros s Hi Hp. cbn. auto. Qed.

Lemma refines_diverge {A B} P (Q : A → B → isock → Prop) : refines P diverge diverge Q.
Proof. intros s Hi Hp. done. Qed.

(** Step over a call that has a refinement lemma. *)
Ltac refine_bind := eapply refines_bind; [solve [eauto with refines]|]; cbn beta.

(** What the postcondition says of the results alone. *)
Lemma refines_pure {A B} (φ : Prop) (m : M io_error isock A) (m' : M io_error (ASock K) B) Q :
  (φ → refines (λ _, True) m m' Q) → refines (λ _, φ) m m' Q.
Proof. intros H s Hi Hp. by apply H. Qed.

(** A system call is the same call on both sides. *)
Lemma refines_zoom {A} P (m : M io_error K A) :
  (∀ k, no_panic (m k)) →
  refines P (zoom socket set_socket m) (zoom a_sock a_set_sock m) (λ a b _, a = b).
Proof.
  intros Hm s Hi _. unfold zoom. cbn. specialize (Hm (socket s)).
  destruct (m (socket s)); cbn in *; try done; split_and!; try done;
    (destruct Hi; by split).
Qed.

(** ** The operations on the connection table *)

Lemma abs_conns (s : isock) c : a_conns (abs s) !! c = channel_lookup s !! c ≫= queue_of s.
Proof. cbn. by rewrite lookup_omap. Qed.

Lemma queue_of_Some (s : isock) c i : Inv s → channel_lookup s !! c = Some i →
  ∃ q, slab_entries (connections s) !! i = Some q ∧
       a_conns (abs s) !! c = Some (datagram_of <$> sq_items q).
Proof.
  intros Hi Hc. destruct (inv_live _ Hi _ _ Hc) as [q Hq]. exists q. split; [done|].
  rewrite abs_conns, Hc. cbn. unfold queue_of. by rewrite Hq.
Qed.
(** Two states with the same connections, up to the channels. *)
Lemma conns_None (s : isock) c : Inv s → channel_lookup s !! c = None ↔ a_conns (abs s) !! c = None.
Proof.
  intros Hi. rewrite abs_conns. destruct (channel_lookup s !! c) as [i|] eqn:E; cbn; [|done].
  destruct (queue_of_Some s c i Hi E) as (q & _ & Hq). rewrite abs_conns, E in Hq. cbn in Hq.
  by rewrite Hq.
Qed.

Lemma connection_id_refines c :
  refines (λ _, True) (connection_id c) (a_connect c)
    (λ o _ s, ∃ i, o = Some i ∧ channel_lookup s !! c = Some i).
Proof.
  intros s Hi _. unfold connection_id, a_connect; run.
  destruct (channel_lookup s !! c) as [i|] eqn:E.
  - destruct (queue_of_Some s c i Hi E) as (q & _ & ->). cbn. eauto.
  - rewrite (proj1 (conns_None s c Hi) E).
    pose proof (slab_insert_fresh _ (sq_new (A:=DtpPacket)) (connections s)) as Hfresh.
    pose proof (slab_entries_insert _ (sq_new (A:=DtpPacket)) (connections s)) as Hent.
    destruct (slab_insert sq_new (connections s)) as [i conns]. cbn in *.
    split_and!.
    + exists i. by rewrite lookup_insert_eq.
    + assert (∀ c' , channel_lookup s !! c' ≠ Some i) as Hno.
      { intros c' Hc'. apply (inv_live _ Hi) in Hc' as [? ?]. congruence. }
      split; cbn.
      * intros c' j. rewrite lookup_insert_Some. intros [[<- <-] | [_ Hj]].
        { rewrite Hent, lookup_insert_eq. eauto. }
        apply (inv_live _ Hi) in Hj as [q Hq]. rewrite Hent.
        rewrite lookup_insert_ne by congruence. eauto.
      * intros c1 c2 j. rewrite !lookup_insert_Some. pose proof (inv_inj _ Hi c1 c2 j).
        naive_solver.
      * intros j q. rewrite Hent, lookup_insert_Some. intros [[<- _] | [? Hj]].
        { exists c. by rewrite lookup_insert_eq. }
        apply (inv_used _ Hi) in Hj as [c' Hc']. exists c'.
        rewrite lookup_insert_ne by congruence. done.
    + unfold abs, a_set_conns. cbn. f_equal. apply map_eq. intros c'.
      rewrite lookup_omap. destruct (decide (c = c')) as [<-|Hne].
      * rewrite !lookup_insert_eq. cbn. unfold queue_of. cbn.
        rewrite Hent, lookup_insert_eq. cbn. by rewrite sq_items_new.
      * rewrite !lookup_insert_ne, lookup_omap by done.
        destruct (channel_lookup s !! c') as [j|] eqn:Ej; cbn; [|done].
        unfold queue_of. cbn. rewrite Hent, lookup_insert_ne; [done|].
        intros <-. apply (inv_live _ Hi) in Ej as [? ?]. congruence.
Qed.
#[local] Hint Resolve connection_id_refines : refines.

(** Overwriting the queue of a channel's key. *)
Lemma set_queue_abs (s : isock) c i q :
  Inv s → channel_lookup s !! c = Some i →
  let s' := set_connections (slab_set i q (connections s)) s in
  Inv s' ∧ abs s' = a_set_conns (<[c := datagram_of <$> sq_items q]> (a_conns (abs s))) (abs s).
Proof.
  intros Hi Hc s'. pose proof (slab_entries_set _ i q (connections s) (inv_live _ Hi _ _ Hc)) as Hent.
  split.
  - split; cbn; rewrite ?Hent.
    + intros c' j Hj. destruct (decide (i = j)) as [<-|]; [rewrite lookup_insert_eq; eauto|].
      rewrite lookup_insert_ne by done. by eapply inv_live.
    + apply (inv_inj _ Hi).
    + intros j q'. rewrite lookup_insert_Some. intros [[<- _] | [? Hj]]; [eauto|].
      by apply (inv_used _ Hi) in Hj.
  - unfold abs, a_set_conns. cbn. f_equal. apply map_eq. intros c'. rewrite lookup_omap.
    destruct (decide (c = c')) as [<-|Hne].
    + rewrite lookup_insert_eq, Hc. cbn. unfold queue_of. cbn. by rewrite Hent, lookup_insert_eq.
    + rewrite lookup_insert_ne, lookup_omap by done.
      destruct (channel_lookup s !! c') as [j|] eqn:Ej; cbn; [|done].
      unfold queue_of. cbn. rewrite Hent, lookup_insert_ne; [done|].
      intros <-. apply Hne. by eapply inv_inj.
Qed.

Lemma push_packet_refines c i p :
  refines (λ s, channel_lookup s !! c = Some i)
    (push_packet i p) (a_push c (datagram_of p)) (λ _ _ _, True).
Proof.
  intros s Hi Hc. destruct (queue_of_Some s c i Hi Hc) as (q & Hq & Ha).
  unfold push_packet, a_push; run.
  rewrite slab_get_spec, Hq. cbn [unwrap].
  unfold mret, M_ret. destruct (set_queue_abs s c i (sq_push p q) Hi Hc) as [? ->].
  split_and!; [done|done|]. f_equal. by rewrite (alter_lookup _ _ _ _ Ha), sq_items_push, fmap_app.
Qed.
#[local] Hint Resolve push_packet_refines : refines.

Lemma pop_packet_refines c :
  refines (λ _, True) (pop_packet c) (a_pop_packet c)
    (λ o d _, datagram_of <$> o = d).
Proof.
  refine_bind.
  intros o [] s Hi (i & -> & Hc). destruct (queue_of_Some s c i Hi Hc) as (q & Hq & Ha).
  run. cbn [option_bind]. rewrite slab_get_spec, Hq, Ha. cbn [unwrap].
  unfold mret, M_ret. destruct (sq_items q) as [|p l] eqn:El.
  - rewrite sq_pop_empty by done. cbn. done.
  - destruct (sq_pop_cons _ _ _ _ El) as (q' & -> & <-).
    cbn. destruct (set_queue_abs s c i q' Hi Hc) as [? ->]. done.
Qed.
#[local] Hint Resolve pop_packet_refines : refines.
(** ** Datagrams *)

Definition buffer_len : Z := remaining_mut uninitialized.

Lemma udp_no_panic n (k : K) : no_panic (udp_poll_recv n k).
Proof. unfold udp_poll_recv. by repeat case_match. Qed.

Lemma udp_send_no_panic peer e bs (k : K) : no_panic (udp_poll_send peer e bs k).
Proof. unfold udp_poll_send. by repeat case_match. Qed.

Definition fits_buffer (r : list byte * SocketAddr * Z * bool) : Prop :=
  let '(data, _, len, _) := r in
  len = Z.of_nat (length data) ∧ Z.of_nat (length data) ≤ buffer_len.

Lemma udp_poll_recv_refines :
  refines (λ _, True) (zoom socket set_socket (udp_poll_recv buffer_len))
    (zoom a_sock a_set_sock (udp_poll_recv buffer_len)) (λ a b _, a = b ∧ fits_buffer a).
Proof.
  intros s Hi _. pose proof (refines_zoom (λ _, True) _ (udp_no_panic buffer_len) s Hi I) as H.
  unfold zoom in *. cbn [a_sock abs] in *. unfold udp_poll_recv in *.
  destruct (recv_ext buffer_len (socket s)) as [k' [[[data peer] c]|e]] eqn:E;
    [|by case_decide].
  destruct H as (_ & ? & ->). split; [|done]. split; [done|].
  split; [done|]. eapply recv_ext_fits; [|done].
  unfold buffer_len. cbn. pose proof (remaining_with_capacity MAX_PACKET_LEN). unfold MAX_PACKET_LEN in *. lia.
Qed.
#[local] Hint Resolve udp_poll_recv_refines : refines.

Lemma recv_datagram_refines data peer len e : fits_buffer (data, peer, len, e) →
  refines (λ _, True) (recv_datagram data peer len e) (a_decode data peer e)
    (λ x y _, x.1 = y.1 ∧ datagram_of x.2 = y.2).
Proof.
  intros [-> Hlen] s Hi _.
  set (p := packet_set_len (Z.of_nat (length data)) (bytes_mut_write data uninitialized)).
  assert (deref (packet_bytes p) = data) as Hp.
  { cbn. rewrite deref_set_len, Nat2Z.id, take_ge; try done; try lia.
    by apply deref_with_capacity. }
  unfold recv_datagram. fold p. clearbody p. change (check p) with (Some (DtpPacket_check p)).
  unfold DtpPacket.channel, DtpPacket_check; run. rewrite Hp. destruct data as [|id data]; [done|].
  rewrite bool_decide_false by (cbn; lia). cbn.
  split_and!; try done. unfold datagram_of, bytes. cbn [ecn set_ecn packet_bytes]. by rewrite Hp.
Qed.
#[local] Hint Resolve recv_datagram_refines : refines.

Lemma poll_recv_refines :
  refines (λ _, True) poll_recv (a_poll_recv buffer_len) (λ _ _ _, True).
Proof.
  refine_bind.
  intros [[[data peer] len] e] b. cbn beta; apply refines_pure; intros [<- Hfit].
  refine_bind.
  intros [c p] [c' d]. apply refines_pure. cbn. intros [<- <-].
  refine_bind. intros o [].
  destruct o as [i|]; [|by intros s Hi (? & ? & ?)].
  eapply refines_bind.
  { eapply refines_weaken; [apply (push_packet_refines c i p)| |done]. cbn. naive_solver. }
  intros [] [] s Hi _. unfold a_announce; run. cbn.
  case_decide; cbn; [done|]. split_and!; [done|destruct Hi; by split|].
  unfold abs, a_set_incoming. cbn. by rewrite sq_items_push.
Qed.
#[local] Hint Resolve poll_recv_refines : refines.

(** ** The operations built on it *)

Lemma pop_incoming_refines :
  refines (λ _, True) pop_incoming a_pop_incoming (λ o o' _, o = o').
Proof.
  intros s Hi _. unfold pop_incoming, a_pop_incoming; run. cbn.
  destruct (sq_items (incoming s)) as [|c q] eqn:E.
  - rewrite sq_pop_empty by done. done.
  - destruct (sq_pop_cons _ _ _ _ E) as (q' & -> & <-). cbn.
    split_and!; [done|destruct Hi; by split|done].
Qed.
#[local] Hint Resolve pop_incoming_refines : refines.

Lemma take_refines c taken (P : isock → Prop) :
  (∀ s, P s → channels s = taken) →
  refines P (modify (set_channels ({[c]} ∪ taken));; mret c) (a_take c;; mret c)
    (λ a b _, a = b).
Proof.
  intros HP s Hi Hs. apply HP in Hs as <-.
  unfold a_take; run. cbn. split_and!; [done|destruct Hi; by split|done].
Qed.
#[local] Hint Resolve take_refines : refines.

Lemma gets_channels_refines (P : isock → Prop) :
  refines P (gets channels) (gets a_taken) (λ a b s, a = b ∧ channels s = a).
Proof. intros s Hi _. by cbn. Qed.
#[local] Hint Resolve gets_channels_refines : refines.

Lemma incoming_loop_refines fuel :
  refines (λ _, True) (incoming_loop fuel) (a_incoming_loop buffer_len fuel) (λ a b _, a = b).
Proof.
  induction fuel as [|fuel IH]; cbn [incoming_loop a_incoming_loop]; [apply refines_diverge|].
  refine_bind. intros [] [].
  refine_bind. intros o ?. cbn beta; apply refines_pure; intros <-.
  destruct o as [c|]; [|apply IH].
  refine_bind. intros taken ? s Hi [<- Hs].
  case_decide; [by apply IH|by apply (take_refines c taken (λ s, channels s = taken))].
Qed.
#[local] Hint Resolve incoming_loop_refines : refines.

Lemma poll_incoming_refines fuel :
  refines (λ _, True) (poll_incoming fuel) (a_poll_incoming buffer_len fuel) (λ a b _, a = b).
Proof.
  refine_bind. intros o ?. cbn beta; apply refines_pure; intros <-.
  destruct o as [c|]; [by apply refines_ret|apply incoming_loop_refines].
Qed.
#[local] Hint Resolve poll_incoming_refines : refines.

Lemma channel_loop_refines fuel c :
  refines (λ _, True) (channel_loop fuel c) (a_channel_loop buffer_len fuel c)
    (λ p d _, datagram_of p = d).
Proof.
  induction fuel as [|fuel IH]; cbn [channel_loop a_channel_loop]; [apply refines_diverge|].
  refine_bind. intros [] [].
  refine_bind. intros o ?. cbn beta; apply refines_pure; intros <-.
  destruct o as [p|]; [by apply refines_ret|apply IH].
Qed.
#[local] Hint Resolve channel_loop_refines : refines.

Lemma poll_channel_refines fuel c :
  refines (λ _, True) (poll_channel fuel c) (a_poll_channel buffer_len fuel c)
    (λ p d _, datagram_of p = d).
Proof.
  refine_bind. intros o ?. cbn beta; apply refines_pure; intros <-.
  destruct o as [p|]; [by apply refines_ret|apply channel_loop_refines].
Qed.
#[local] Hint Resolve poll_channel_refines : refines.

Lemma outgoing_refines peer id :
  refines (λ _, True) (outgoing peer id) (a_outgoing peer id) (λ a b _, a = b).
Proof.
  eapply refines_bind; [apply (gets_channels_refines (λ _, True))|].
  intros taken ? s Hi [<- Hs]. case_decide; [done|].
  by apply (take_refines _ taken (λ s, channels s = taken)).
Qed.
#[local] Hint Resolve outgoing_refines : refines.

(** Removing a channel that is in the table. *)
Lemma remove_refines c i :
  refines (λ s, channel_lookup s !! c = Some i)
    (modify (λ s, set_lookup (delete c (channel_lookup s)) s);;
     conns ← gets connections;
     '(_, conns) ← unwrap (slab_remove i conns);
     modify (set_connections conns))
    (modify (λ a, a_set_conns (delete c (a_conns a)) a)) (λ _ _ _, True).
Proof.
  intros s Hi Hc. destruct (queue_of_Some s c i Hi Hc) as (q & Hq & _).
  destruct (slab_remove_spec _ _ _ _ Hq) as (conns & Hrem & Hent).
  run. cbn. rewrite Hrem. cbn.
  split_and!; [done| |].
  - split; cbn; rewrite ?Hent.
    + intros c' j [Hne Hj]%lookup_delete_Some. rewrite lookup_delete_ne; [by eapply inv_live|].
      intros <-. apply Hne. by eapply inv_inj.
    + intros c1 c2 j [_ H1]%lookup_delete_Some [_ H2]%lookup_delete_Some. by eapply inv_inj.
    + intros j q' [Hne Hj]%lookup_delete_Some. apply (inv_used _ Hi) in Hj as [c' Hc'].
      exists c'. rewrite lookup_delete_ne by congruence. done.
  - unfold abs, a_set_conns. cbn. f_equal. apply map_eq. intros c'. rewrite lookup_omap.
    destruct (decide (c = c')) as [<-|Hne]; [by rewrite !lookup_delete_eq|].
    rewrite !lookup_delete_ne, lookup_omap by done.
    destruct (channel_lookup s !! c') as [j|] eqn:Ej; cbn; [|done].
    unfold queue_of. cbn. rewrite Hent, lookup_delete_ne; [done|].
    intros <-. apply Hne. by eapply inv_inj.
Qed.
#[local] Hint Resolve remove_refines : refines.

Lemma close_refines c : refines (λ _, True) (close c) (a_close c) (λ _ _ _, True).
Proof.
  assert (refines (λ _, True) (close c)
    (modify (λ a : ASock K, a_set_taken (a_taken a ∖ {[c]}) a);; a_connect c;;
     modify (λ a, a_set_conns (delete c (a_conns a)) a)) (λ _ _ _, True)) as H.
  { eapply refines_bind with (Q := λ _ _ _, True).
    { intros s Hi _. cbn. split_and!; [done|destruct Hi; by split|done]. }
    intros [] []. refine_bind.
    intros o [] s Hi (i & -> & Hc). by apply remove_refines. }
  intros s Hi Hp. specialize (H s Hi Hp).
  replace (a_close c (abs s)) with
    ((modify (λ a : ASock K, a_set_taken (a_taken a ∖ {[c]}) a);; a_connect c;;
      modify (λ a, a_set_conns (delete c (a_conns a)) a)) (abs s)); [done|].
  unfold a_close, a_connect, a_set_taken; run. cbn [a_conns].
  set (m := a_conns (abs s)). destruct (m !! c); cbn; [done|].
  unfold a_set_conns. cbn. by rewrite delete_insert_eq.
Qed.
#[local] Hint Resolve close_refines : refines.

Lemma poll_send_refines c (p : DtpPacket) payload_ : payload p = Some payload_ →
  refines (λ _, True) (poll_send c p) (a_poll_send c (ecn p) payload_) (λ _ _ _, True).
Proof.
  intros Hp. destruct (set_channel_wire p payload_ (channel_id c) Hp) as (p' & Hset & Hb & _ & _ & He & _).
  intros s Hi Ht. unfold poll_send; run. rewrite Hset. cbn [unwrap].
  unfold mret, M_ret. rewrite Hb, He.
  pose proof (refines_zoom (λ _, True) _
    (udp_send_no_panic (socket_addr (peer_addr c)) (ecn p) (channel_id c :: payload_)) s Hi I) as H.
  unfold a_poll_send.
  destruct (zoom socket _ _ s); try done; destruct (zoom a_sock _ _ (abs s)); naive_solver.
Qed.
#[local] Hint Resolve poll_send_refines : refines.
End refinement.

#[export] Hint Resolve poll_incoming_refines poll_channel_refines outgoing_refines
  close_refines poll_send_refines : refines.
