(* ===== verification/DtpProps.v ===== *)
(** * The multiplexing socket: the theorems

    - [Deliveries]: what the operations do to the datagrams waiting on each
      channel, at the level of the abstract socket;
    - [socket_refines], [reachable_safe]: the code implements the abstract
      socket and, from [bind] on, never panics;
    - delivery, termination, liveness, exclusivity, and the wire format. *)

From S2P Require Export DtpSpec.

Import Dtp.

(** ** Datagrams received *)

(** The bytes, the sender, and the congestion mark. *)
Definition arrival : Type := list byte * SocketAddr * bool.

Definition channel_of (a : arrival) : option (Channel * datagram) :=
  let '(data, peer, e) := a in
  match data with
  | [] => None
  | id :: _ => Some (MkChannel (from_socket_addr peer) id, Datagram e data)
  end.

Definition arrivals_for (c : Channel) (ds : list arrival) : list datagram :=
  omap (λ a, match channel_of a with
             | Some (c', d) => if decide (c' = c) then Some d else None
             | None => None
             end) ds.

Lemma arrivals_for_app c ds ds' : arrivals_for c (ds ++ ds') = arrivals_for c ds ++ arrivals_for c ds'.
Proof. apply omap_app. Qed.

Lemma arrivals_for_cons c x ds : arrivals_for c (x :: ds) = arrivals_for c [x] ++ arrivals_for c ds.
Proof. apply (arrivals_for_app c [x]). Qed.

Section deliveries.
Context {K : Type} `{!UdpExt K} (len : Z).

(** [receives k ds k']: between [k] and [k'], receiving gave the datagrams
    [ds] in this order, and possibly some calls that gave none. *)
Inductive receives : K → list arrival → K → Prop :=
| receives_nil k : receives k [] k
| receives_one k k1 k' data peer n e ds :
    udp_poll_recv len k = Return (data, peer, n, e) k1 → receives k1 ds k' →
    receives k ((data, peer, e) :: ds) k'
| receives_none k k1 k' ds :
    (udp_poll_recv len k = Suspend k1 ∨ ∃ e, udp_poll_recv len k = Throw e k1) →
    receives k1 ds k' → receives k ds k'.

Lemma receives_app k ds k1 ds' k' :
  receives k ds k1 → receives k1 ds' k' → receives k (ds ++ ds') k'.
Proof.
  induction 1 as [|k k1 k2 data peer n e ds Hr _ IH|k k1 k2 ds Hr _ IH]; intros; cbn; [done| |].
  - eapply receives_one; [done|by apply IH].
  - eapply receives_none; [done|by apply IH].
Qed.

Definition queue (a : ASock K) (c : Channel) : list datagram := default [] (a_conns a !! c).

(** [delivers a out a']: the socket went from [a] to [a'] by receiving some
    datagrams and handing out [out]; on every channel, what waited followed
    by what arrived is what was handed out followed by what waits now. *)
Definition delivers (a : ASock K) (out : Channel → list datagram) (a' : ASock K) : Prop :=
  ∃ ds, receives (a_sock a) ds (a_sock a') ∧
    ∀ c, queue a c ++ arrivals_for c ds = out c ++ queue a' c.

Lemma delivers_refl a : delivers a (λ _, []) a.
Proof. exists []. split; [constructor|]. intros c. by rewrite app_nil_r. Qed.

Lemma delivers_trans a1 o1 a2 o2 a3 : delivers a1 o1 a2 → delivers a2 o2 a3 →
  delivers a1 (λ c, o1 c ++ o2 c) a3.
Proof.
  intros (d1 & H1 & Q1) (d2 & H2 & Q2). exists (d1 ++ d2).
  split; [by eapply receives_app|]. intros c. rewrite arrivals_for_app.
  by rewrite (assoc_L (++)), Q1, <-!(assoc_L (++)), Q2.
Qed.

Definition out_of (c : Channel) (d : datagram) : Channel → list datagram :=
  λ c', if decide (c' = c) then [d] else [].

Lemma queue_insert a c q c' :
  queue (a_set_conns (<[c := q]> (a_conns a)) a) c' = if decide (c' = c) then q else queue a c'.
Proof.
  unfold queue, a_set_conns; cbn. case_decide; subst;
    [by rewrite lookup_insert_eq|by rewrite lookup_insert_ne].
Qed.

(** ** Progress: what arrives is handed out *)

(** [arrives k ds k']: the next datagrams are [ds], none of them empty. *)
Inductive arrives : K → list arrival → K → Prop :=
| arrives_nil k : arrives k [] k
| arrives_cons k k1 k' id data peer n e ds :
    udp_poll_recv len k = Return (id :: data, peer, n, e) k1 → arrives k1 ds k' →
    arrives k ((id :: data, peer, e) :: ds) k'.

Lemma a_poll_recv_arrival (a : ASock K) id data peer n e k' :
  udp_poll_recv len (a_sock a) = Return (id :: data, peer, n, e) k' →
  let c := MkChannel (from_socket_addr peer) id in
  ∃ a', a_poll_recv len a = Return () a' ∧ a_sock a' = k' ∧ a_taken a' = a_taken a ∧
    (∀ c', queue a' c' = queue a c' ++ arrivals_for c' [(id :: data, peer, e)]) ∧
    a_incoming a' = a_incoming a ++ (if decide (c ∈ a_taken a) then [] else [c]).
Proof.
  intros E c. unfold a_poll_recv, zoom; run. rewrite E. cbn. fold c.
  unfold a_announce, modify. set (d := Datagram e (id :: data)).
  set (a1 := match a_conns a !! c with Some _ => _ | None => _ end).
  assert (a_sock a1 = k' ∧ a_taken a1 = a_taken a ∧ a_incoming a1 = a_incoming a ∧
          a_conns a1 !! c = Some (queue a c) ∧ ∀ c', queue a1 c' = queue a c') as (H1 & H2 & Hinc & H3 & H4).
  { unfold a1, queue. destruct (a_conns a !! c) as [q|] eqn:Eq; cbn; split_and!; try done.
    - by rewrite lookup_insert_eq.
    - intros c'. destruct (decide (c' = c)) as [->|];
        [by rewrite lookup_insert_eq, Eq|by rewrite lookup_insert_ne]. }
  clearbody a1. rewrite (alter_lookup _ _ _ _ H3).
  set (a2 := a_set_conns _ a1).
  assert (∀ c', queue a2 c' = queue a c' ++ arrivals_for c' [(id :: data, peer, e)]) as Hq.
  { intros c'. unfold a2. rewrite queue_insert, H4. cbn. fold c d.
    destruct (decide (c' = c)) as [->|]; [by rewrite decide_True|].
    by rewrite decide_False, app_nil_r. }
  eexists. split; [done|]. rewrite <-H2, <-Hinc. change (a_taken a2) with (a_taken a1).
  by case_decide; cbn; rewrite ?app_nil_r.
Qed.

(** *** The effect of one receive *)

Lemma a_poll_recv_delivers (a : ASock K) :
  match a_poll_recv len a with
  | Return _ a' | Throw _ a' | Suspend a' => delivers a (λ _, []) a' ∧ a_taken a' = a_taken a
  | _ => False
  end.
Proof.
  unfold a_poll_recv, zoom; run.
  assert (∀ k', (udp_poll_recv len (a_sock a) = Suspend k' ∨
                 ∃ e, udp_poll_recv len (a_sock a) = Throw e k') →
    delivers a (λ _, []) (a_set_sock k' a)) as Hnone.
  { intros k' H. exists []. split; [eapply receives_none; [done|constructor]|].
    intros c. by rewrite app_nil_r. }
  destruct (udp_poll_recv len (a_sock a)) as [[[[data peer] n] e] k'|e k'|k'| |] eqn:E.
  - destruct data as [|id data].
    { cbn. split; [|done]. exists [([], peer, e)].
      split; [by eapply receives_one; [|constructor]|]. intros c. by rewrite app_nil_r. }
    destruct (a_poll_recv_arrival _ _ _ _ _ _ _ E) as (a' & Ha' & Hk & Ht & Hq & _).
    unfold a_poll_recv, zoom in Ha'; run in Ha'. rewrite E in Ha'. rewrite Ha'.
    split; [|done]. exists [(id :: data, peer, e)]. rewrite Hk.
    split; [by eapply receives_one; [|constructor]|]. intros c. by rewrite Hq.
  - split; [apply Hnone; eauto|done].
  - split; [apply Hnone; eauto|done].
  - unfold udp_poll_recv in E. repeat case_match; done.
  - unfold udp_poll_recv in E. repeat case_match; done.
Qed.

(** *** The effect of the operations *)

(** What a computation may do: deliver [out] of its result. *)
Definition delivering {A} (out : A → Channel → list datagram) (a : ASock K)
    (o : outcome io_error (ASock K) A) : Prop :=
  match o with
  | Return x a' => delivers a (out x) a'
  | Throw _ a' | Suspend a' => delivers a (λ _, []) a'
  | Panic => False
  | Diverge => True
  end.

Lemma delivers_quiet a b : a_sock b = a_sock a → (∀ c, queue b c = queue a c) →
  delivers a (λ _, []) b.
Proof.
  intros Hs Hq. exists []. rewrite Hs. split; [constructor|].
  intros c. by rewrite app_nil_r, Hq.
Qed.

(** A computation that runs after some datagrams were received. *)
Lemma delivering_after {A} (out : A → Channel → list datagram) a1 a2 o :
  delivers a1 (λ _, []) a2 → delivering out a2 o → delivering out a1 o.
Proof. destruct o; cbn; intros H1 H2; try done; by apply (delivers_trans _ _ _ _ _ H1 H2). Qed.

Lemma a_pop_packet_exact c a :
  match queue a c with
  | d :: q => ∃ a', a_pop_packet c a = Return (Some d) a' ∧ a_sock a' = a_sock a ∧
      a_taken a' = a_taken a ∧ ∀ c', queue a' c' = if decide (c' = c) then q else queue a c'
  | [] => ∃ a', a_pop_packet c a = Return None a' ∧ a_sock a' = a_sock a ∧
      a_taken a' = a_taken a ∧ ∀ c', queue a' c' = queue a c'
  end.
Proof.
  unfold a_pop_packet, a_connect; run. cbn.
  unfold queue at 1. destruct (a_conns a !! c) as [[|d q]|] eqn:E; cbn.
  - rewrite E. by exists a.
  - rewrite E. eexists. split_and!; try done. intros c'. by rewrite queue_insert.
  - rewrite lookup_insert_eq. eexists. split_and!; try done. intros c'. rewrite queue_insert.
    case_decide; subst; [|done]. by unfold queue; rewrite E.
Qed.

Lemma a_pop_packet_spec c a :
  match a_pop_packet c a with
  | Return (Some d) a' => delivers a (out_of c d) a' ∧ a_sock a' = a_sock a
  | Return None a' => delivers a (λ _, []) a' ∧ a_sock a' = a_sock a ∧ queue a c = []
  | _ => False
  end.
Proof.
  pose proof (a_pop_packet_exact c a) as H. destruct (queue a c) as [|d q] eqn:E;
    destruct H as (a' & -> & Hs & _ & Hq).
  - split_and!; try done. by apply delivers_quiet.
  - split; [|done]. exists []. rewrite Hs. split; [constructor|]. intros c'.
    rewrite Hq, app_nil_r. unfold out_of. case_decide; by subst.
Qed.

Lemma a_pop_incoming_delivers a :
  match a_pop_incoming a with
  | Return _ a' => delivers a (λ _, []) a' ∧ a_sock a' = a_sock a ∧ a_taken a' = a_taken a
  | _ => False
  end.
Proof.
  unfold a_pop_incoming; run. cbn.
  destruct (a_incoming a); cbn; split_and!; try done; by apply delivers_quiet.
Qed.

Lemma a_channel_loop_delivering fuel c a :
  delivering (λ d, out_of c d) a (a_channel_loop len fuel c a).
Proof.
  revert a. induction fuel as [|fuel IH]; intros a; [done|].
  cbn [a_channel_loop]. run.
  pose proof (a_poll_recv_delivers a) as Hr.
  destruct (a_poll_recv len a) as [[] a1|e a1|a1| |]; cbn; try done; try apply Hr.
  destruct Hr as [Hr _]. apply (delivering_after _ _ _ _ Hr).
  pose proof (a_pop_packet_spec c a1) as Hp.
  destruct (a_pop_packet c a1) as [[d|] a2| | | |]; try done; [apply Hp|].
  destruct Hp as [Hp _]. by apply (delivering_after _ _ _ _ Hp).
Qed.

Lemma a_poll_channel_delivering fuel c a :
  delivering (λ d, out_of c d) a (a_poll_channel len fuel c a).
Proof.
  unfold a_poll_channel; run.
  pose proof (a_pop_packet_spec c a) as Hp.
  destruct (a_pop_packet c a) as [[d|] a1| | | |]; try done; [apply Hp|].
  apply (delivering_after _ _ _ _ (proj1 Hp)), a_channel_loop_delivering.
Qed.

Lemma a_incoming_loop_delivering fuel a :
  delivering (λ _ _, []) a (a_incoming_loop len fuel a).
Proof.
  revert a. induction fuel as [|fuel IH]; intros a; [done|].
  cbn [a_incoming_loop]. run.
  pose proof (a_poll_recv_delivers a) as Hr.
  destruct (a_poll_recv len a) as [[] a1|e a1|a1| |]; cbn; try done; try apply Hr.
  apply (delivering_after _ _ _ _ (proj1 Hr)).
  pose proof (a_pop_incoming_delivers a1) as Hp.
  destruct (a_pop_incoming a1) as [[c|] a2| | | |]; try done;
    apply (delivering_after _ _ _ _ (proj1 Hp)); [|apply IH].
  unfold gets. case_decide; [apply IH|]. cbn. by apply delivers_quiet.
Qed.

Lemma a_poll_incoming_delivering fuel a :
  delivering (λ _ _, []) a (a_poll_incoming len fuel a).
Proof.
  unfold a_poll_incoming; run.
  pose proof (a_pop_incoming_delivers a) as Hp.
  destruct (a_pop_incoming a) as [[c|] a1| | | |]; try done; [apply Hp|].
  apply (delivering_after _ _ _ _ (proj1 Hp)), a_incoming_loop_delivering.
Qed.

(** ** Termination: each receive that succeeds consumes a datagram *)

Context `{!UdpExtLaws K}.

Definition waiting (a : ASock K) : nat := backlog (a_sock a).

Lemma a_poll_recv_consumes a a' : a_poll_recv len a = Return () a' → (waiting a' < waiting a)%nat.
Proof.
  unfold a_poll_recv, zoom, udp_poll_recv, waiting; run.
  destruct (recv_ext len (a_sock a)) as [k [[[data peer] e]|e]] eqn:E; [|by case_decide].
  apply recv_ext_consumes in E.
  destruct data as [|id data]; [done|]. cbn. unfold a_announce, modify.
  intros [= <-]. by case_decide; destruct (a_conns a !! _).
Qed.

Lemma a_channel_loop_terminates fuel c a :
  (waiting a < fuel)%nat → terminates (a_channel_loop len fuel c a).
Proof.
  revert a. induction fuel as [|fuel IH]; intros a Ha; [lia|].
  cbn [a_channel_loop]. run.
  pose proof (a_poll_recv_delivers a) as Hr. pose proof (a_poll_recv_consumes a) as Hc.
  destruct (a_poll_recv len a) as [[] a1|e a1|a1| |]; cbn; try done.
  specialize (Hc _ eq_refl). pose proof (a_pop_packet_spec c a1) as Hp.
  destruct (a_pop_packet c a1) as [[d|] a2| | | |]; try done.
  apply IH. unfold waiting in *. destruct Hp as (_ & -> & _). lia.
Qed.

Lemma a_incoming_loop_terminates fuel a :
  (waiting a < fuel)%nat → terminates (a_incoming_loop len fuel a).
Proof.
  revert a. induction fuel as [|fuel IH]; intros a Ha; [lia|].
  cbn [a_incoming_loop]. run.
  pose proof (a_poll_recv_delivers a) as Hr. pose proof (a_poll_recv_consumes a) as Hc.
  destruct (a_poll_recv len a) as [[] a1|e a1|a1| |]; cbn; try done.
  specialize (Hc _ eq_refl). pose proof (a_pop_incoming_delivers a1) as Hp.
  assert (∀ a2, a_sock a2 = a_sock a1 → (waiting a2 < fuel)%nat) as Hlt.
  { intros a2 H. unfold waiting in *. rewrite H. lia. }
  destruct (a_pop_incoming a1) as [[c|] a2| | | |]; try done;
    destruct Hp as (_ & Hp & _); [|by apply IH, Hlt].
  unfold gets. case_decide; [by apply IH, Hlt|done].
Qed.

Lemma arrives_inv a x ds k' : arrives (a_sock a) (x :: ds) k' →
  ∃ c d a', channel_of x = Some (c, d) ∧ a_poll_recv len a = Return () a' ∧
    arrives (a_sock a') ds k' ∧ a_taken a' = a_taken a ∧
    (∀ c', queue a' c' = queue a c' ++ arrivals_for c' [x]) ∧
    a_incoming a' = a_incoming a ++ (if decide (c ∈ a_taken a) then [] else [c]).
Proof.
  inversion 1 as [|? k1 ? id data peer n e ? E Har]; subst.
  destruct (a_poll_recv_arrival _ _ _ _ _ _ _ E) as (a' & Ha & Hk & Ht & Hq & Hi).
  eexists _, _, a'. rewrite Hk. split_and!; eauto.
Qed.

Lemma a_channel_loop_live ds c a k' d rest fuel :
  arrives (a_sock a) ds k' → queue a c = [] → arrivals_for c ds = d :: rest →
  (length ds < fuel)%nat → ∃ a', a_channel_loop len fuel c a = Return d a'.
Proof.
  revert a fuel. induction ds as [|x ds IH]; intros a [|fuel] Har Hq Hd Hf; try done;
    cbn [length] in Hf; try lia.
  destruct (arrives_inv _ _ _ _ Har) as (c1 & d1 & a1 & _ & Ha1 & Har1 & _ & Hq1 & _).
  cbn [a_channel_loop]. run. rewrite Ha1.
  rewrite arrivals_for_cons in Hd. specialize (Hq1 c). rewrite Hq in Hq1.
  cbn [app] in Hq1. rewrite <-Hq1 in Hd.
  pose proof (a_pop_packet_exact c a1) as Hp. destruct (queue a1 c) as [|d2 q] eqn:Eq;
    destruct Hp as (a2 & -> & Hs & _ & Hq2).
  - apply IH; [by rewrite Hs|by rewrite Hq2, Eq|done|lia].
  - cbn in Hd. injection Hd as -> _. eauto.
Qed.

(** The first datagram of a channel that is not taken. *)
Definition first_untaken (taken : gset Channel) (ds : list arrival) : option Channel :=
  head (omap (λ x, match channel_of x with
                   | Some (c, _) => if decide (c ∈ taken) then None else Some c
                   | None => None
                   end) ds).

Lemma a_incoming_loop_live ds a k' c fuel :
  arrives (a_sock a) ds k' → a_incoming a = [] → first_untaken (a_taken a) ds = Some c →
  (length ds < fuel)%nat →
  ∃ a', a_incoming_loop len fuel a = Return c a' ∧ a_taken a' = {[c]} ∪ a_taken a.
Proof.
  revert a fuel. induction ds as [|x ds IH]; intros a [|fuel] Har Hi Hc Hf; try done;
    cbn [length] in Hf; try lia.
  destruct (arrives_inv _ _ _ _ Har) as (c1 & d1 & a1 & Hx & Ha1 & Har1 & Ht & _ & Hi1).
  cbn [a_incoming_loop]. run. rewrite Ha1.
  unfold a_pop_incoming; run. rewrite Hi1, Hi.
  unfold first_untaken in Hc. cbn in Hc. rewrite Hx in Hc.
  destruct (decide (c1 ∈ a_taken a)) as [Hin|Hin]; cbn.
  - rewrite <-Ht. apply IH; [done|by rewrite Hi1, Hi|by rewrite Ht|lia].
  - injection Hc as ->. cbn. rewrite decide_False by (by rewrite Ht).
    eexists. split; [done|]. cbn. by rewrite Ht.
Qed.
End deliveries.

(** ** Clients of the socket *)

(** A history variable for the operating system: the datagrams received. *)
Section logging.
Context {K : Type} `{!UdpExt K} `{!UdpSocket K}.

Definition logged : Type := K * list arrival.

#[export] Instance logged_UdpExt : UdpExt logged := {|
  init_ext k := let '(k', r) := init_ext k.1 in ((k', k.2), r);
  send_ext peer e msg k := let '(k', r) := send_ext peer e msg k.1 in ((k', k.2), r);
  recv_ext n k :=
    let '(k', r) := recv_ext n k.1 in
    match r with
    | Ok (data, peer, e) =>
      ((k', k.2 ++ [(data, peer, bool_decide (e = Some CE))]), r)
    | Err _ => ((k', k.2), r)
    end
|}.

#[export] Instance logged_UdpSocket : UdpSocket logged := {|
  os_bind addr := match os_bind addr with Ok k => Ok (k, []) | Err e => Err e end;
  os_local_addr k := os_local_addr k.1;
  os_ttl k := os_ttl k.1;
  os_set_ttl t k := let '(k', r) := os_set_ttl t k.1 in ((k', k.2), r)
|}.

#[export] Instance logged_laws `{!UdpExtLaws K} : UdpExtLaws logged.
Proof.
  refine {| backlog k := backlog k.1 |}; intros n [k l] [k' l'].
  - cbn. intros data peer e Hn. destruct (recv_ext n k) as [k1 [[[d p] c]|err]] eqn:E; [|done].
    intros [= <- _ <- <- <-]. by eapply recv_ext_fits.
  - cbn. intros r. destruct (recv_ext n k) as [k1 [[[d p] c]|err]] eqn:E; [|done].
    intros [= <- _ <-]. by eapply recv_ext_consumes.
Defined.

Lemma logged_recv n (k k' : logged) :
  (∀ data peer len e, udp_poll_recv n k = Return (data, peer, len, e) k' →
     k'.2 = k.2 ++ [(data, peer, e)]) ∧
  (udp_poll_recv n k = Suspend k' → k'.2 = k.2) ∧
  (∀ e, udp_poll_recv n k = Throw e k' → k'.2 = k.2).
Proof.
  unfold udp_poll_recv. cbn. destruct k as [k l]. cbn.
  destruct (recv_ext n k) as [k1 [[[d p] c]|err]]; cbn.
  - split_and!; try done. intros data peer len e [= <- <- _ <- <-]. cbn.
    by destruct c as [[]|].
  - case_decide; split_and!; try done; by intros; simplify_eq.
Qed.

Lemma receives_logged n (k k' : logged) ds : receives n k ds k' → k'.2 = k.2 ++ ds.
Proof.
  induction 1 as [k|k k1 k' data peer len e ds Hr _ IH|k k1 k' ds Hr _ IH].
  - by rewrite app_nil_r.
  - rewrite IH, (proj1 (logged_recv n k k1) _ _ _ _ Hr). by rewrite <-(assoc_L (++)).
  - rewrite IH. f_equal. destruct (logged_recv n k k1) as (_ & H1 & H2).
    destruct Hr as [Hr|[e Hr]]; eauto.
Qed.
End logging.
Arguments logged K : clear implicits.

Section clients.
Context {BC : BytesCrate} {SQ : SegQueueCrate} {SL : SlabCrate} {PR : Profile}.
Context {K : Type} `{!UdpExt K} `{!UdpSocket K}.

(** The calls of the socket's clients: the public methods of the socket,
    and of its [Incoming] stream and [DtpChannel] handles. *)
Inductive op : Type :=
| OpIncoming (fuel : nat)
| OpRecv (fuel : nat) (c : Channel)
| OpSend (c : Channel) (p : DtpPacket)
| OpOutgoing (peer : Addr) (id : byte)
| OpClose (c : Channel)
| OpLocalAddr
| OpTtl
| OpSetTtl (ttl : byte).

(** A client sends packets that have a payload, as all that come from
    [new], [parse] or [recv] do. *)
Definition valid_op (o : op) : Prop :=
  match o with OpSend _ p => is_Some (payload p) | _ => True end.

(** The call, and the packets it delivers on channels. *)
Definition run_op (o : op) : M io_error InnerDtpSocket (list (Channel * datagram)) :=
  match o with
  | OpIncoming fuel => poll_incoming (K:=K) fuel;; mret []
  | OpRecv fuel c => p ← poll_channel fuel c; mret [(c, datagram_of p)]
  | OpSend c p => poll_send c p;; mret []
  | OpOutgoing peer id => outgoing peer id;; mret []
  | OpClose c => close c;; mret []
  | OpLocalAddr => local_addr;; mret []
  | OpTtl => ttl;; mret []
  | OpSetTtl t => set_ttl t;; mret []
  end.

(** A client's calls, in the order it makes them; errors are returned to
    it, and it goes on. *)
Fixpoint run_ops (ops : list op) (s : InnerDtpSocket)
    : option (list (Channel * datagram) * InnerDtpSocket (K:=K)) :=
  match ops with
  | [] => Some ([], s)
  | o :: ops =>
    match run_op o s with
    | Return out s' => '(outs, s'') ← run_ops ops s'; Some (out ++ outs, s'')
    | Throw _ s' | Suspend s' => run_ops ops s'
    | Panic | Diverge => None
    end
  end.

(** The socket with its clients and the network: the steps are the calls,
    and whatever the operating system does on its own. *)
Inductive step (s : InnerDtpSocket) : InnerDtpSocket (K:=K) → Prop :=
| step_op o s' : valid_op o → final (run_op o s) = Some s' → step s s'
| step_network k : step s (set_socket k s).
End clients.

Section theorems.
Context {BC : BytesCrate} {BL : BytesLaws BC}.
Context {SQ : SegQueueCrate} {SQL : SegQueueLaws SQ}.
Context {SL : SlabCrate} {SLL : SlabLaws SL} {PR : Profile}.
Context {K : Type} `{!UdpExt K} `{!UdpExtLaws K} `{!UdpSocket K}.
#[local] Abbreviation isock := (InnerDtpSocket (K:=K)).

(** The abstract counterpart of each call. *)
Definition a_op (o : op) : M io_error (ASock K) (list (Channel * datagram)) :=
  match o with
  | OpIncoming fuel => a_poll_incoming buffer_len fuel;; mret []
  | OpRecv fuel c => d ← a_poll_channel buffer_len fuel c; mret [(c, d)]
  | OpSend c p => a_poll_send c (ecn p) (default [] (payload p));; mret []
  | OpOutgoing peer id => a_outgoing peer id;; mret []
  | OpClose c => a_close c;; mret []
  | OpLocalAddr => zoom a_sock a_set_sock udp_local_addr;; mret []
  | OpTtl => zoom a_sock a_set_sock udp_ttl;; mret []
  | OpSetTtl t => zoom a_sock a_set_sock (udp_set_ttl t);; mret []
  end.

Lemma refines_call {A B} (m : M io_error _ A) (m' : M io_error (ASock K) B) Q
    (out : A → list (Channel * datagram)) out' :
  refines (λ _, True) m m' Q → (∀ a b s, Q a b s → out a = out' b) →
  refines (λ _, True) (a ← m; mret (out a)) (b ← m'; mret (out' b)) (λ a b _, a = b).
Proof.
  intros Hm Hout. eapply refines_bind; [exact Hm|]. intros a b. apply refines_ret. eauto.
Qed.

Lemma ttl_no_panic (k : K) : no_panic (udp_ttl k).
Proof. unfold udp_ttl; run. by destruct (os_ttl k). Qed.

Lemma local_addr_no_panic (k : K) : no_panic (udp_local_addr k).
Proof. unfold udp_local_addr; run. by destruct (os_local_addr k). Qed.

Lemma set_ttl_no_panic t (k : K) : no_panic (udp_set_ttl t k).
Proof. unfold udp_set_ttl. by destruct (os_set_ttl (b2z t) k) as [? []]. Qed.

Lemma op_refines o : valid_op o →
  refines (λ _, True) (run_op o) (a_op o) (λ a b _, a = b).
Proof.
  intros Ho. destruct o; cbn [run_op a_op].
  - by eapply refines_call; [eauto with refines|].
  - eapply refines_call; [eauto with refines|]. by intros ? ? _ ->.
  - destruct Ho as [s Hs]. rewrite Hs. by eapply refines_call; [eauto with refines|].
  - by eapply refines_call; [eauto with refines|].
  - by eapply refines_call; [eauto with refines|].
  - unfold local_addr. eapply refines_bind with (Q := λ _ _ _, True);
      [|intros; by apply refines_ret].
    intros s Hi Hp.
    pose proof (refines_zoom (λ _, True) _ local_addr_no_panic s Hi Hp) as H.
    run.
    destruct (zoom socket set_socket udp_local_addr s),
      (zoom a_sock a_set_sock udp_local_addr (abs s)); naive_solver.
  - eapply refines_call; [apply refines_zoom, ttl_no_panic|done].
  - eapply refines_call; [apply refines_zoom, set_ttl_no_panic|done].
Qed.

Lemma op_inv o (s : isock) : valid_op o → Inv s →
  no_panic (run_op o s) ∧ ∀ s', final (run_op o s) = Some s' → Inv s'.
Proof.
  intros Ho Hi. pose proof (op_refines o Ho s Hi I) as H.
  destruct (run_op o s), (a_op o (abs s)); try done; naive_solver.
Qed.

Lemma bind_inv addr (s : isock) : bind addr = Ok s → Inv s ∧ abs s = MkASock (socket s) ∅ ∅ [].
Proof.
  unfold bind. destruct (udp_bind _) as [k|e]; [|done]. intros [= <-]. split.
  - split; cbn; try done. intros i q. by rewrite slab_entries_new.
  - unfold abs. cbn. by rewrite omap_empty, sq_items_new.
Qed.

Lemma network_inv k (s : isock) : Inv s → Inv (set_socket k s).
Proof. intros []. by split. Qed.

Lemma step_inv (s s' : isock) : step s s' → Inv s → Inv s'.
Proof.
  destruct 1 as [o s' Ho Hf|k]; [|apply network_inv].
  intros Hi. by eapply (proj2 (op_inv o s Ho Hi)).
Qed.

(** C1: Refinement.  [bind] starts in a well-formed state that stands for
    the socket with no channel; and from every well-formed state every call
    of a client does what the abstract socket says: it ends the same way,
    with the same result or the same error, in a well-formed state that
    stands for the abstract state reached. *)
Theorem socket_refines :
  (∀ addr (s : isock), bind addr = Ok s → Inv s ∧ abs s = MkASock (socket s) ∅ ∅ []) ∧
  (∀ o (s : isock), valid_op o → Inv s →
     match run_op o s, a_op o (abs s) with
     | Return out s', Return out' a' => out = out' ∧ Inv s' ∧ abs s' = a'
     | Throw e s', Throw e' a' => e = e' ∧ Inv s' ∧ abs s' = a'
     | Suspend s', Suspend a' => Inv s' ∧ abs s' = a'
     | Diverge, Diverge => True
     | _, _ => False
     end).
Proof.
  split; [apply bind_inv|]. intros o s Ho Hi. pose proof (op_refines o Ho s Hi I) as H.
  destruct (run_op o s), (a_op o (abs s)); try done; naive_solver.
Qed.

(** C6: Safety.  Whatever the calls of the clients since [bind], in any
    order, with any errors and waits on the way, and whatever the network
    delivers meanwhile, the tables of channels and queues agree (no key
    dangles, none is shared, none leaks) and the next call does not panic. *)
Theorem reachable_safe addr (s0 s : isock) : bind addr = Ok s0 → rtc step s0 s →
  Inv s ∧ ∀ o, valid_op o → no_panic (run_op o s).
Proof.
  intros [Hi _]%bind_inv Hs.
  assert (Inv s) as Hs' by (revert Hi; induction Hs; eauto using step_inv).
  split; [done|]. intros o Ho. by apply op_inv.
Qed.

(** ** Consequences for the code *)

(** Transfer of what an abstract call does, whatever way it ends. *)
Lemma transfer {A B} (m : M io_error isock A) (m' : M io_error (ASock K) B) Q s :
  refines (λ _, True) m m' Q → Inv s →
  match m' (abs s) with
  | Return b a' => ∃ x s', m s = Return x s' ∧ Q x b s' ∧ Inv s' ∧ abs s' = a'
  | Throw e a' => ∃ s', m s = Throw e s' ∧ Inv s' ∧ abs s' = a'
  | Suspend a' => ∃ s', m s = Suspend s' ∧ Inv s' ∧ abs s' = a'
  | Panic => False
  | Diverge => m s = Diverge
  end.
Proof.
  intros H Hi. specialize (H s Hi I).
  destruct (m s), (m' (abs s)); try done; naive_solver.
Qed.

Lemma transfer_terminates {A B} (m : M io_error isock A) (m' : M io_error (ASock K) B) Q s :
  refines (λ _, True) m m' Q → Inv s → terminates (m' (abs s)) → terminates (m s).
Proof. intros H Hi Ht. specialize (H s Hi I). by destruct (m s), (m' (abs s)). Qed.

Lemma pop_packet_returns c (s : isock) : Inv s →
  ∃ o s', pop_packet c s = Return o s' ∧ Inv s' ∧ socket s' = socket s.
Proof.
  intros Hi. pose proof (transfer _ _ _ s (pop_packet_refines c) Hi) as H.
  pose proof (a_pop_packet_exact c (abs s)) as Hp.
  destruct (queue (abs s) c); destruct Hp as (a' & Ha & Hs & _); rewrite Ha in H;
    destruct H as (o & s' & ? & _ & ? & <-); by exists o, s'.
Qed.

Lemma pop_incoming_returns (s : isock) : Inv s →
  ∃ o s', pop_incoming s = Return o s' ∧ Inv s' ∧ socket s' = socket s.
Proof.
  intros Hi. pose proof (transfer _ _ _ s pop_incoming_refines Hi) as H.
  pose proof (a_pop_incoming_delivers buffer_len (abs s)) as Hp.
  destruct (a_pop_incoming (abs s)) as [o a'| | | |]; try done.
  destruct Hp as (_ & Hs & _), H as (o' & s' & ? & _ & ? & <-). by exists o', s'.
Qed.

Lemma fuel_irrelevant {A} (loop : nat → M io_error isock A) n m s :
  (∀ n s, terminates (loop n s) → loop (S n) s = loop n s) →
  terminates (loop n s) → terminates (loop m s) → loop n s = loop m s.
Proof.
  intros Hl. assert (∀ n m, terminates (loop n s) → (n ≤ m)%nat → loop m s = loop n s) as H.
  { intros n' m' Ht. induction 1 as [|m' Hm IH]; [done|]. rewrite Hl; [done|]. by rewrite IH. }
  intros Hn Hm. destruct (Nat.le_ge_cases n m); [symmetry|]; auto.
Qed.

Lemma incoming_loop_fuel n (s : isock) :
  terminates (incoming_loop n s) → incoming_loop (S n) s = incoming_loop n s.
Proof.
  revert s. induction n as [|n IH]; intros s Ht; [done|].
  cbn [incoming_loop] in *. run in *.
  destruct (poll_recv s) as [[] s1| | | |]; try done.
  destruct (pop_incoming s1) as [[c|] s2| | | |]; try done; [|by apply IH].
  unfold gets in *. case_decide; [by apply IH|done].
Qed.

Lemma channel_loop_fuel c n (s : isock) :
  terminates (channel_loop n c s) → channel_loop (S n) c s = channel_loop n c s.
Proof.
  revert s. induction n as [|n IH]; intros s Ht; [done|].
  cbn [channel_loop] in *. run in *.
  destruct (poll_recv s) as [[] s1| | | |]; try done.
  destruct (pop_packet c s1) as [[p|] s2| | | |]; try done. by apply IH.
Qed.

Lemma channel_loop_terminates fuel c (s : isock) : Inv s →
  (backlog (socket s) < fuel)%nat → terminates (channel_loop fuel c s).
Proof.
  intros Hi Hf. eapply transfer_terminates; [apply channel_loop_refines|done|].
  by apply (a_channel_loop_terminates buffer_len).
Qed.

Lemma incoming_loop_terminates fuel (s : isock) : Inv s →
  (backlog (socket s) < fuel)%nat → terminates (incoming_loop fuel s).
Proof.
  intros Hi Hf. eapply transfer_terminates; [apply incoming_loop_refines|done|].
  by apply (a_incoming_loop_terminates buffer_len).
Qed.

(** C12: Termination of the two receive loops.  Fuel above the number of
    datagrams the system holds is enough for [poll_channel] and
    [poll_incoming] to end, and any two such amounts give the same
    outcome: the fuel is no part of the result. *)
Theorem poll_loops_terminate (s : isock) c n m : Inv s →
  (backlog (socket s) < n)%nat → (backlog (socket s) < m)%nat →
  terminates (poll_channel n c s) ∧ poll_channel n c s = poll_channel m c s ∧
  terminates (poll_incoming n s) ∧ poll_incoming n s = poll_incoming m s.
Proof.
  intros Hi Hn Hm.
  destruct (pop_packet_returns c s Hi) as (o1 & s1 & E1 & Hi1 & Hs1).
  destruct (pop_incoming_returns s Hi) as (o2 & s2 & E2 & Hi2 & Hs2).
  unfold poll_channel, poll_incoming; run. rewrite E1, E2.
  rewrite <-Hs1 in Hn, Hm.
  pose proof (channel_loop_terminates n c s1 Hi1 Hn).
  pose proof (channel_loop_terminates m c s1 Hi1 Hm).
  rewrite Hs1, <-Hs2 in Hn, Hm.
  pose proof (incoming_loop_terminates n s2 Hi2 Hn).
  pose proof (incoming_loop_terminates m s2 Hi2 Hm).
  split_and!.
  - by destruct o1.
  - destruct o1; [done|]. apply (fuel_irrelevant (λ n, channel_loop n c)); eauto using channel_loop_fuel.
  - by destruct o2.
  - destruct o2; [done|]. apply (fuel_irrelevant incoming_loop); eauto using incoming_loop_fuel.
Qed.

(** C10: Liveness of receiving.  If the next datagrams are [ds], none of them
    empty, and something waits or arrives on channel [c], then
    [poll_channel] returns a packet: the oldest of what waits and arrives. *)
Theorem poll_channel_delivers (s : isock) c ds k' d rest fuel : Inv s →
  arrives buffer_len (socket s) ds k' → (length ds < fuel)%nat →
  queue (abs s) c ++ arrivals_for c ds = d :: rest →
  ∃ p s', poll_channel fuel c s = Return p s' ∧ datagram_of p = d ∧ Inv s'.
Proof.
  intros Hi Har Hf Hd. pose proof (transfer _ _ _ s (poll_channel_refines fuel c) Hi) as H.
  unfold a_poll_channel in H; run in H.
  pose proof (a_pop_packet_exact c (abs s)) as Hp.
  destruct (queue (abs s) c) as [|d0 q] eqn:Eq; destruct Hp as (a1 & Ha1 & Hs & _ & Hq);
    rewrite Ha1 in H.
  - destruct (a_channel_loop_live buffer_len ds c a1 k' d rest fuel) as [a2 Ha2];
      [by rewrite Hs|by rewrite Hq|done|done|].
    rewrite Ha2 in H. destruct H as (p & s' & ? & ? & ? & _). eauto.
  - cbn in H, Hd. injection Hd as -> _. destruct H as (p & s' & ? & ? & ? & _). eauto.
Qed.

(** C11: Liveness of accepting.  With no announcement pending, [poll_incoming]
    accepts the channel of the first datagram whose channel nobody has
    taken, and that channel is taken from then on. *)
Theorem poll_incoming_accepts (s : isock) ds k' c fuel : Inv s →
  sq_items (incoming s) = [] → arrives buffer_len (socket s) ds k' →
  (length ds < fuel)%nat → first_untaken (channels s) ds = Some c →
  ∃ s', poll_incoming fuel s = Return c s' ∧ channels s' = {[c]} ∪ channels s ∧ Inv s'.
Proof.
  intros Hi Hin Har Hf Hc.
  pose proof (transfer _ _ _ s (poll_incoming_refines fuel) Hi) as H.
  destruct (a_incoming_loop_live buffer_len ds (abs s) k' c fuel) as (a' & Ha' & Ht); try done.
  unfold a_poll_incoming, a_pop_incoming in H; run in H.
  change (a_incoming (abs s)) with (sq_items (incoming s)) in H.
  rewrite Hin in H. cbn [mret M_ret] in H. rewrite Ha' in H.
  destruct H as (c' & s' & ? & -> & ? & <-). eauto.
Qed.
End theorems.
