(* ===== verification/DtpClients.v ===== *)
(** * The multiplexing socket seen by its clients

    In-order delivery over whole sequences of calls, ownership of channels,
    and the bytes on the wire; then the witnesses of the theorems on the
    socket, computed with the reference operating system. *)

From S2P Require Export DtpProps.

Import Dtp.

(** What a run delivered on a channel. *)
Definition delivered_on (c : Channel) (out : list (Channel * datagram)) : list datagram :=
  omap (λ '(c', d), if decide (c' = c) then Some d else None) out.

Lemma delivered_on_app c l l' : delivered_on c (l ++ l') = delivered_on c l ++ delivered_on c l'.
Proof. apply omap_app. Qed.

Section fifo.
Context {BC : BytesCrate} {BL : BytesLaws BC}.
Context {SQ : SegQueueCrate} {SQL : SegQueueLaws SQ}.
Context {SL : SlabCrate} {SLL : SlabLaws SL} {PR : Profile}.
Context {K : Type} `{!UdpExt K} `{!UdpExtLaws K} `{!UdpSocket K}.
#[local] Abbreviation isock := (InnerDtpSocket (K:=logged K)).
#[local] Abbreviation log := (λ a : ASock (logged K), (a_sock a).2).

(** On channel [c], what waited followed by what arrived is what was
    delivered followed by what waits. *)
Definition in_order (c : Channel) (a : ASock (logged K)) (out : list datagram)
    (a' : ASock (logged K)) : Prop :=
  ∃ ds, log a' = log a ++ ds ∧ queue a c ++ arrivals_for c ds = out ++ queue a' c.

Lemma in_order_quiet c a a' : log a' = log a → queue a' c = queue a c → in_order c a [] a'.
Proof. intros Hl Hq. exists []. by rewrite Hl, Hq, !app_nil_r. Qed.

Lemma in_order_trans c a1 o1 a2 o2 a3 :
  in_order c a1 o1 a2 → in_order c a2 o2 a3 → in_order c a1 (o1 ++ o2) a3.
Proof.
  intros (d1 & L1 & Q1) (d2 & L2 & Q2). exists (d1 ++ d2).
  rewrite L2, L1, arrivals_for_app, (assoc_L (++) (queue a1 c)), Q1.
  by rewrite <-!(assoc_L (++)), Q2.
Qed.

Lemma in_order_delivers c a out a' : delivers buffer_len a out a' → in_order c a (out c) a'.
Proof. intros (ds & Hr & Hq). exists ds. by rewrite (receives_logged _ _ _ _ Hr). Qed.

Definition keeps_order (c : Channel) (a : ASock (logged K))
    (o : outcome io_error (ASock (logged K)) (list (Channel * datagram))) : Prop :=
  match o with
  | Return out a' => in_order c a (delivered_on c out) a'
  | Throw _ a' | Suspend a' => in_order c a [] a'
  | Panic | Diverge => True
  end.

(** A system call that receives nothing. *)
Lemma keeps_order_zoom {A} c a (m : M io_error (logged K) A) :
  (∀ k k', final (m k) = Some k' → k'.2 = k.2) →
  keeps_order c a ((zoom a_sock a_set_sock m;; mret []) a).
Proof.
  intros Hm. unfold zoom; run. specialize (Hm (a_sock a)).
  destruct (m (a_sock a)); cbn in *; try done; apply in_order_quiet; cbn; auto.
Qed.

Lemma send_log peer e (bs : list byte) (k k' : logged K) :
  final (udp_poll_send peer e bs k) = Some k' → k'.2 = k.2.
Proof.
  unfold udp_poll_send. cbn. intros. by repeat (case_match; simplify_eq/=).
Qed.

Lemma keeps_order_delivering {A} c a (out : A → Channel → list datagram) f
    (o : outcome io_error (ASock (logged K)) A) :
  (∀ x, out x c = delivered_on c (f x)) → delivering buffer_len out a o →
  keeps_order c a (match o with
                   | Return x a' => Return (f x) a'
                   | Throw e a' => Throw e a'
                   | Suspend a' => Suspend a'
                   | Panic => Panic
                   | Diverge => Diverge
                   end).
Proof.
  intros Hout. destruct o; cbn; try done.
  - intros H%(in_order_delivers c). by rewrite Hout in H.
  - by intros H%(in_order_delivers c).
  - by intros H%(in_order_delivers c).
Qed.

Lemma a_op_keeps_order o c a : o ≠ OpClose c → keeps_order c a (a_op o a).
Proof.
  intros Hc. destruct o as [fuel|fuel c'|c' p|peer id|c'| | |t]; cbn [a_op].
  - apply (keeps_order_delivering c a (λ _ _, []) (λ _, []));
      [done|apply a_poll_incoming_delivering].
  - apply (keeps_order_delivering c a (λ d, out_of c' d) (λ d, [(c', d)]));
      [|apply a_poll_channel_delivering].
    intros d. unfold out_of. cbn. by repeat case_decide.
  - apply keeps_order_zoom. intros k k'. apply send_log.
  - unfold a_outgoing; run. case_decide; cbn; by apply in_order_quiet.
  - cbn. apply in_order_quiet; [done|]. unfold queue; cbn.
    rewrite lookup_delete_ne; [done|]. intros ->. done.
  - apply keeps_order_zoom. intros k k'. unfold udp_local_addr; run. cbn.
    destruct (os_local_addr k.1); by intros [= <-].
  - apply keeps_order_zoom. intros k k'. unfold udp_ttl; run. cbn.
    destruct (os_ttl k.1); by intros [= <-].
  - apply keeps_order_zoom. intros k k'. unfold udp_set_ttl. cbn.
    destruct (os_set_ttl (b2z t) k.1) as [k1 []]; by intros [= <-].
Qed.

(** C9: In-order delivery.  Over any sequence of calls that does not close
    channel [c] (calls on other channels included, and calls that fail or
    wait), the packets delivered on [c] followed by those still waiting are
    the packets that waited at the start followed by the datagrams that
    arrived for [c] meanwhile, in order of arrival: none is lost,
    duplicated, reordered, altered, or delivered on another channel.  The
    arrivals are what the operating system logged. *)
Theorem channel_fifo c ops (s s' : isock) out :
  Forall valid_op ops → OpClose c ∉ ops → Inv s → run_ops ops s = Some (out, s') →
  ∃ ds, (socket s').2 = (socket s).2 ++ ds ∧
    queue (abs s) c ++ arrivals_for c ds = delivered_on c out ++ queue (abs s') c.
Proof.
  intros Hv Hc Hi Hrun. change (in_order c (abs s) (delivered_on c out) (abs s')).
  revert s out Hc Hi Hrun. induction Hv as [|o ops Ho Hv IH]; intros s out Hc Hi Hrun.
  { cbn in Hrun. injection Hrun as <- <-. by apply in_order_quiet. }
  apply not_elem_of_cons in Hc as [Hne Hc]. cbn in Hrun.
  pose proof (a_op_keeps_order o c (abs s) (not_eq_sym Hne)) as Hk.
  pose proof (op_refines o Ho s Hi I) as Hr.
  destruct (run_op o s) as [out1 s1|e s1|s1| |], (a_op o (abs s)); try done; cbn in Hk.
  - destruct Hr as (<- & Hi1 & ->). destruct (run_ops ops s1) as [[outs s2]|] eqn:E; [|done].
    cbn in Hrun. injection Hrun as <- <-. rewrite delivered_on_app.
    eapply in_order_trans; [exact Hk|]. by apply IH.
  - destruct Hr as (_ & Hi1 & ->). change (delivered_on c out) with ([] ++ delivered_on c out).
    eapply in_order_trans; [exact Hk|]. by apply IH.
  - destruct Hr as (Hi1 & ->). change (delivered_on c out) with ([] ++ delivered_on c out).
    eapply in_order_trans; [exact Hk|]. by apply IH.
Qed.
End fifo.

(** ** Ownership of channels, and the wire *)

Section ownership.
Context {BC : BytesCrate} {BL : BytesLaws BC}.
Context {SQ : SegQueueCrate} {SQL : SegQueueLaws SQ}.
Context {SL : SlabCrate} {SLL : SlabLaws SL} {PR : Profile}.
Context {K : Type} `{!UdpExt K} `{!UdpExtLaws K} `{!UdpSocket K}.
#[local] Abbreviation isock := (InnerDtpSocket (K:=K)).

(** C13: A channel has one owner.  [outgoing] fails, and changes nothing,
    exactly when the channel is taken; otherwise it takes that channel and
    no other.  [close] always succeeds: it frees the channel, its key and
    its queue, and leaves every other channel as it was; after it the
    channel can be taken again, and starts with nothing queued. *)
Theorem channel_ownership (s : isock) c : Inv s →
  (c ∈ channels s →
     outgoing (peer_addr c) (channel_id c) s =
     Throw (IoError Other "channel already taken") s) ∧
  (c ∉ channels s →
     outgoing (peer_addr c) (channel_id c) s = Return c (set_channels ({[c]} ∪ channels s) s)) ∧
  ∃ s', close c s = Return () s' ∧ Inv s' ∧ channels s' = channels s ∖ {[c]} ∧
    channel_lookup s' !! c = None ∧ (∀ c', c' ≠ c → a_conns (abs s') !! c' = a_conns (abs s) !! c') ∧
    ∃ s'', outgoing (peer_addr c) (channel_id c) s' = Return c s'' ∧ queue (abs s'') c = [].
Proof.
  intros Hi. unfold outgoing. replace (MkChannel (peer_addr c) (channel_id c)) with c by by destruct c.
  run. split_and!.
  { intros. by rewrite decide_True. }
  { intros. by rewrite decide_False. }
  pose proof (transfer _ _ _ s (close_refines c) Hi) as H. cbn in H.
  destruct H as ([] & s' & Hc & _ & Hi' & Ha). exists s'.
  assert (channels s' = channels s ∖ {[c]}) as Hch by apply (f_equal a_taken Ha).
  assert (a_conns (abs s') = delete c (a_conns (abs s))) as Hconns by apply (f_equal a_conns Ha).
  split_and!; try done.
  - apply (conns_None _ _ Hi'). by rewrite Hconns, lookup_delete_eq.
  - intros c' Hne. by rewrite Hconns, lookup_delete_ne.
  - rewrite decide_False by (rewrite Hch; set_solver). eexists. split; [done|].
    unfold queue. change (a_conns (abs (set_channels _ s'))) with (a_conns (abs s')).
    by rewrite Hconns, lookup_delete_eq.
Qed.

(** C14: The wire format carries a packet to the channel it was sent on.
    [poll_send] hands the system one datagram, the channel id followed by
    the payload, with the packet's congestion flag; and whoever receives
    these bytes from [peer] finds the packet with that payload, and with the
    mark the network gave it, on the channel of the same id to [peer]. *)
Theorem wire_roundtrip (c : Channel) p s peer e (st st' : isock) :
  payload p = Some s → Z.of_nat (length s) + 1 ≤ MAX_PACKET_LEN →
  poll_send c p st =
    zoom socket set_socket
      (udp_poll_send (socket_addr (peer_addr c)) (ecn p) (channel_id c :: s)) st ∧
  ∃ q, recv_datagram (channel_id c :: s) peer (Z.of_nat (length (channel_id c :: s))) e st' =
         Return (MkChannel (from_socket_addr peer) (channel_id c), q) st' ∧
       payload q = Some s ∧ DtpPacket.channel q = Some (channel_id c) ∧ ecn q = e.
Proof.
  intros Hp Hs. split.
  - destruct (set_channel_wire p s (channel_id c) Hp) as (p' & Hset & Hb & _ & _ & He & _).
    unfold poll_send; run. rewrite Hset. cbn [unwrap]. unfold mret, M_ret.
    by rewrite Hb, He.
  - set (data := channel_id c :: s).
    set (q := packet_set_len (Z.of_nat (length data)) (bytes_mut_write data uninitialized)).
    assert (deref (packet_bytes q) = data) as Hq.
    { cbn. pose proof (remaining_with_capacity MAX_PACKET_LEN).
      unfold MAX_PACKET_LEN in *.
      rewrite deref_set_len, Nat2Z.id, take_ge; try done; try (cbn [length data] in *; lia).
      by apply deref_with_capacity. }
    exists (set_ecn e q). unfold recv_datagram. fold q. clearbody q.
    change (check q) with (Some (DtpPacket_check q)).
    unfold DtpPacket.channel, DtpPacket_check; run. rewrite Hq.
    rewrite bool_decide_false by (cbn; lia). cbn. rewrite Hq. split_and!; try done.
Qed.

(** C19: The backlog branch of [poll_incoming].  A channel announced earlier
    is handed out as it stands: it is not marked as taken, whether or not it
    already was, no datagram is received, and so a client that asks for the
    same channel with [outgoing] gets it as well. *)
Theorem incoming_backlog_unclaimed (s : isock) c q fuel :
  sq_items (incoming s) = c :: q →
  ∃ s', poll_incoming fuel s = Return c s' ∧ channels s' = channels s ∧
    socket s' = socket s ∧ sq_items (incoming s') = q ∧
    (c ∉ channels s →
     ∃ s'', outgoing (peer_addr c) (channel_id c) s' = Return c s'').
Proof.
  intros Hq. destruct (sq_pop_cons _ _ _ _ Hq) as (q' & Hpop & Hq').
  unfold poll_incoming, pop_incoming, outgoing; run.
  rewrite Hpop. eexists. split; [done|]. split_and!; try done.
  intros Hc. replace (MkChannel (peer_addr c) (channel_id c)) with c by by destruct c.
  cbn. rewrite decide_False by done. eauto.
Qed.
End ownership.
