(* ===== verification/DtpExamples.v ===== *)
(** * The multiplexing socket: a scenario

    Three datagrams from one peer on two channels, received over the reference
    operating system; the theorems on the socket at this input, and the two
    owners of a channel that the backlog of [poll_incoming] makes. *)

From S2P Require Export DtpClients.

Import Dtp Reference UdpReference.

#[local] Instance example_profile : Profile := dev.

Module DtpExample.
Definition peer : SocketAddr :=
  SockV4 (MkSockV4 (MkV4 Byte.x7f Byte.x00 Byte.x00 Byte.x01) 8000).

Definition chan (id : byte) : Channel := MkChannel (from_socket_addr peer) id.

(** The network: three datagrams to come. *)
Definition net : os := MkOs
  [Ok ([Byte.x01; Byte.xaa], peer, None);
   Ok ([Byte.x02; Byte.xbb], peer, Some CE);
   Ok ([Byte.x01; Byte.xcc], peer, None)] [] peer 64.

Definition coming : list arrival :=
  [([Byte.x01; Byte.xaa], peer, false);
   ([Byte.x02; Byte.xbb], peer, true);
   ([Byte.x01; Byte.xcc], peer, false)].

Definition bound : InnerDtpSocket (K:=os) :=
  MkInner (MkOs [] [] peer 64) slab_new ∅ ∅ sq_new.

Definition start : InnerDtpSocket (K:=os) := set_socket net bound.

Definition local : Addr := from_socket_addr peer.

Lemma bound_eq : bind local = Ok bound.
Proof. reflexivity. Defined.

Lemma start_inv : Inv start.
Proof. apply network_inv, (proj1 (bind_inv local bound bound_eq)). Qed.

Lemma net_arrives : arrives buffer_len net coming (MkOs [] [] peer 64).
Proof. repeat (eapply arrives_cons; [vm_compute; reflexivity|]). apply arrives_nil. Qed.

Lemma socket_refines_witness :
  Inv bound ∧ abs bound = MkASock (socket bound) ∅ ∅ [].
Proof. exact (proj1 socket_refines local bound bound_eq). Defined.

(** One receive, then the next call is safe. *)
Lemma reachable_safe_witness :
  no_panic (run_op (OpClose (chan Byte.x01)) start).
Proof.
  apply (reachable_safe local bound start bound_eq); [|exact I].
  apply rtc_once, step_network.
Defined.

Lemma poll_loops_terminate_witness :
  terminates (poll_channel 4 (chan Byte.x07) start) ∧
  poll_channel 4 (chan Byte.x07) start = poll_channel 5 (chan Byte.x07) start ∧
  terminates (poll_incoming 4 start) ∧ poll_incoming 4 start = poll_incoming 5 start.
Proof. apply (poll_loops_terminate start); [apply start_inv|cbn; lia|cbn; lia]. Defined.

Lemma poll_channel_delivers_witness :
  ∃ p s', poll_channel 4 (chan Byte.x02) start = Return p s' ∧
    datagram_of p = Datagram true [Byte.x02; Byte.xbb] ∧ Inv s'.
Proof.
  apply (poll_channel_delivers start (chan Byte.x02) coming (MkOs [] [] peer 64) _ []).
  - apply start_inv.
  - apply net_arrives.
  - cbn; lia.
  - vm_compute. reflexivity.
Defined.

Lemma poll_incoming_accepts_witness :
  ∃ s', poll_incoming 4 start = Return (chan Byte.x01) s' ∧
    channels s' = {[chan Byte.x01]} ∪ channels start ∧ Inv s'.
Proof.
  apply (poll_incoming_accepts start coming (MkOs [] [] peer 64)).
  - apply start_inv.
  - reflexivity.
  - apply net_arrives.
  - cbn; lia.
  - vm_compute. reflexivity.
Defined.

Lemma channel_ownership_witness : ∃ s', close (chan Byte.x01) start = Return () s' ∧ Inv s'.
Proof.
  destruct (channel_ownership start (chan Byte.x01) start_inv) as (_ & _ & s' & ? & ? & _).
  by exists s'.
Defined.

(** A packet with two bytes of payload. *)
Definition packet : DtpPacket :=
  MkDtpPacket false (RawBuf 100 [Byte.x00; Byte.xaa; Byte.xbb] []).

Lemma wire_roundtrip_witness :
  ∃ q, recv_datagram [Byte.x05; Byte.xaa; Byte.xbb] peer 3 true start =
    Return (chan Byte.x05, q) start ∧ payload q = Some [Byte.xaa; Byte.xbb].
Proof.
  destruct (wire_roundtrip (chan Byte.x05) packet [Byte.xaa; Byte.xbb] peer true start start)
    as (_ & q & ? & ? & _); [reflexivity|unfold MAX_PACKET_LEN; cbn; lia|].
  by exists q.
Defined.

(** The same socket over the logging system, receiving on channel 1 twice. *)
Definition start_logged : InnerDtpSocket (K:=logged os) :=
  MkInner (net, []) slab_new ∅ ∅ sq_new.

Definition calls : list op := [OpRecv 4 (chan Byte.x01); OpTtl; OpRecv 4 (chan Byte.x01)].

Lemma channel_fifo_witness :
  ∃ ds, ds = coming ∧ arrivals_for (chan Byte.x01) ds =
    [Datagram false [Byte.x01; Byte.xaa]; Datagram false [Byte.x01; Byte.xcc]].
Proof.
  assert (match run_ops calls start_logged with
          | Some (out, s') => (socket s').2 = coming ∧
              delivered_on (chan Byte.x01) out ++ queue (abs s') (chan Byte.x01) =
              [Datagram false [Byte.x01; Byte.xaa]; Datagram false [Byte.x01; Byte.xcc]]
          | None => False
          end) as Hcalls by (vm_compute; split; reflexivity).
  destruct (run_ops calls start_logged) as [[out s']|] eqn:Hrun; [|destruct Hcalls].
  destruct Hcalls as [Hlog Hout].
  destruct (channel_fifo (chan Byte.x01) calls start_logged s' out) as (ds & Hds & Hq).
  - repeat constructor.
  - intros H. repeat (apply elem_of_cons in H as [H|H]; [discriminate|]). inversion H.
  - apply (network_inv (net, []) (MkInner (MkOs [] [] peer 64, []) slab_new ∅ ∅ sq_new)).
    apply (bind_inv local). reflexivity.
  - exact Hrun.
  - exists ds. rewrite Hlog in Hds. cbn in Hds. split; [done|]. by rewrite Hout in Hq.
Defined.

(** Channel 2 is taken; receiving on it announces channel 1. *)
Definition announced : InnerDtpSocket (K:=os) :=
  default start (final ((c ← outgoing local Byte.x02; poll_channel 4 c) start)).

Lemma incoming_backlog_unclaimed_witness :
  ∃ s', poll_incoming 4 announced = Return (chan Byte.x01) s' ∧ channels s' = channels announced ∧
    ∃ s'', outgoing (peer_addr (chan Byte.x01)) Byte.x01 s' = Return (chan Byte.x01) s''.
Proof.
  destruct (incoming_backlog_unclaimed announced (chan Byte.x01) [] 4)
    as (s' & Hs' & Hch & _ & _ & Hout); [vm_compute; reflexivity|].
  assert (chan Byte.x01 ∉ channels announced) as E.
  { apply (bool_decide_unpack (chan Byte.x01 ∉ channels announced)). vm_compute. exact I. }
  exists s'. split_and!; [done|done|]. by apply Hout.
Defined.

(** Two calls of [poll_incoming] that hand out the same channel. *)
Lemma backlog_two_owners :
  match poll_incoming 4 announced with
  | Return c1 s1 =>
    match final (poll_channel 4 (chan Byte.x02) s1) with
    | Some s2 => match poll_incoming 4 s2 with
                 | Return c2 _ => c1 = c2
                 | _ => False
                 end
    | None => False
    end
  | _ => False
  end.
Proof. vm_compute. reflexivity. Qed.
End DtpExample.
