(* ===== verification/Threads.v ===== *)
(** * Threads: computations that give up the state between critical sections

    A thread is a sequence of atomic sections; between two of them other
    threads may run.  [run_thread] runs one without interference, which is the
    view of a computation in [M]. *)

From S2P Require Export Prelude.

Inductive thread (E S A : Type) : Type :=
| Finished (a : A)
| Atomic (m : S → outcome E S (thread E S A)).
Arguments Finished {E S A} a.
Arguments Atomic {E S A} m.

Section threads.
Context {E S : Type}.

Lemma thread_ind_run {A} (P : thread E S A → Prop) :
  (∀ a, P (Finished a)) →
  (∀ m, (∀ s t s', m s = Return t s' → P t) → P (Atomic m)) → ∀ t, P t.
Proof.
  intros HF HA. fix IH 1. intros [a|m]; [apply HF|]. apply HA. intros s t s'.
  destruct (m s) as [t1 s1| | | |]; [|discriminate..]. intros Hm.
  assert (t1 = t) as <- by congruence. apply IH.
Qed.

(** One critical section. *)
Definition atomically {A} (m : M E S A) : thread E S A :=
  Atomic (λ s, match m s with
               | Return a s' => Return (Finished a) s'
               | Throw e s' => Throw e s'
               | Suspend s' => Suspend s'
               | Panic => Panic
               | Diverge => Diverge
               end).
End threads.

#[export] Instance thread_ret E S : MRet (thread E S) := λ A a, Finished a.

#[export] Instance thread_bind E S : MBind (thread E S) := λ A B f,
  fix go (t : thread E S A) :=
    match t with
    | Finished a => f a
    | Atomic m => Atomic (λ s, match m s with
                               | Return t s' => Return (go t) s'
                               | Throw e s' => Throw e s'
                               | Suspend s' => Suspend s'
                               | Panic => Panic
                               | Diverge => Diverge
                               end)
    end.

Fixpoint run_thread {E S A} (t : thread E S A) : M E S A :=
  match t with
  | Finished a => mret a
  | Atomic m => λ s, match m s with
                     | Return t s' => run_thread t s'
                     | Throw e s' => Throw e s'
                     | Suspend s' => Suspend s'
                     | Panic => Panic
                     | Diverge => Diverge
                     end
  end.

Section run.
Context {E S : Type}.

Lemma run_bind {A B} (t : thread E S A) (f : A → thread E S B) s :
  run_thread (t ≫= f) s = (run_thread t ≫= λ a, run_thread (f a)) s.
Proof.
  revert s. induction t as [a|m IH] using thread_ind_run; intros s; [done|].
  cbn. run. destruct (m s) as [t s'| | | |] eqn:Em; try done. by apply (IH s t s').
Qed.

(** The next section of a thread. *)
Definition runs {A} (t : thread E S A) s (t' : thread E S A) s' : Prop :=
  match t with Atomic m => m s = Return t' s' | Finished _ => False end.

Definition panics {A} (t : thread E S A) s : Prop :=
  match t with Atomic m => m s = Panic | Finished _ => False end.

Lemma runs_atomically {A B} (m : M E S A) (f : A → thread E S B) a s s' :
  m s = Return a s' → runs (atomically m ≫= f) s (f a) s'.
Proof. intros Hm. cbn. by rewrite Hm. Qed.

Lemma runs_bind {A B} (t t' : thread E S A) (f : A → thread E S B) s s' :
  runs t s t' s' → runs (t ≫= f) s (t' ≫= f) s'.
Proof. destruct t as [|m]; [done|]. cbn. by intros ->. Qed.

Lemma panics_atomically {A B} (m : M E S A) (f : A → thread E S B) s :
  m s = Panic → panics (atomically m ≫= f) s.
Proof. intros Hm. cbn. by rewrite Hm. Qed.

Lemma panics_bind {A B} (t : thread E S A) (f : A → thread E S B) s :
  panics t s → panics (t ≫= f) s.
Proof. destruct t as [|m]; [done|]. cbn. by intros ->. Qed.

Lemma run_atomically {A} (m : M E S A) s : run_thread (atomically m) s = m s.
Proof. cbn. by destruct (m s). Qed.
End run.

(** The next section is at the head of nested binds. *)
Ltac next_section :=
  lazymatch goal with
  | |- runs (atomically _ ≫= _) _ _ _ => apply runs_atomically
  | |- runs (_ ≫= _) _ _ _ => apply runs_bind; next_section
  | |- panics (atomically _ ≫= _) _ => apply panics_atomically
  | |- panics (_ ≫= _) _ => apply panics_bind; next_section
  end.

(** ** Rely and guarantee

    [inv] holds between sections; [rely] is how the state may change while a
    thread does not run, and each section of a thread guarantees the same to
    the others.  [safe Q s t]: from [s] on, under any interference, no section
    of [t] panics, each keeps [inv], and what [t] returns has [Q]. *)

Section rely_guarantee.
Context {E S : Type} (inv : S → Prop) (rely : relation S) `{!PreOrder rely}.

(** What a section that runs from [s] does, [Q] of its result. *)
Definition section_ok {A} (Q : A → S → Prop) (s : S) (o : outcome E S A) : Prop :=
  match o with
  | Return a s' => inv s' ∧ rely s s' ∧ Q a s'
  | Throw _ s' | Suspend s' => inv s' ∧ rely s s'
  | Panic => False
  | Diverge => True
  end.

Fixpoint safe {A} (Q : A → S → Prop) (s0 : S) (t : thread E S A) : Prop :=
  match t with
  | Finished a => Q a s0
  | Atomic m => ∀ s, rely s0 s → inv s →
    match m s with
    | Return t s' => inv s' ∧ rely s s' ∧ safe Q s' t
    | Throw _ s' | Suspend s' => inv s' ∧ rely s s'
    | Panic => False
    | Diverge => True
    end
  end.

(** A fact that no other thread can undo. *)
Definition stable {A} (Q : A → S → Prop) : Prop := ∀ a s s', Q a s → rely s s' → Q a s'.

Lemma safe_rely {A} (Q : A → S → Prop) s s' t :
  stable Q → safe Q s t → rely s s' → safe Q s' t.
Proof using PreOrder0.
  intros HQ Ht Hs. destruct t as [a|m]; [by eapply HQ|].
  intros s1 H1. apply Ht. by etrans.
Qed.

Lemma safe_atomically {A} (Q : A → S → Prop) s0 m :
  (∀ s, rely s0 s → inv s → section_ok Q s (m s)) → safe Q s0 (atomically m).
Proof using Type.
  intros Hm s Hs Hi. specialize (Hm s Hs Hi). by destruct (m s).
Qed.

Lemma safe_bind {A B} (Q : A → S → Prop) (R : B → S → Prop) s0 t f :
  safe Q s0 t → (∀ a s, Q a s → safe R s (f a)) → safe R s0 (t ≫= f).
Proof using Type.
  intros Ht Hf. revert s0 Ht. induction t as [a|m IH] using thread_ind_run; intros s0 Ht; [by apply Hf|].
  intros s Hs Hi. specialize (Ht s Hs Hi). specialize (IH s).
  destruct (m s) as [t1 s'| | | |]; try done.
  destruct Ht as (? & ? & ?). split_and!; [done|done|]. by apply (IH t1 s').
Qed.

Lemma safe_mono {A} (Q R : A → S → Prop) s0 t :
  safe Q s0 t → (∀ a s, Q a s → R a s) → safe R s0 t.
Proof using Type.
  intros Ht HQ. revert s0 Ht. induction t as [a|m IH] using thread_ind_run; intros s0 Ht; [by apply HQ|].
  intros s Hs Hi. specialize (Ht s Hs Hi). specialize (IH s).
  destruct (m s) as [t1 s'| | | |]; try done.
  destruct Ht as (? & ? & ?). split_and!; [done|done|]. by apply (IH t1 s').
Qed.
End rely_guarantee.

(** ** A pool of threads

    Threads are started, run their sections in any order, and end; the
    environment changes the state between sections.  A thread that fails or
    waits has ended: it returned [Err] or [Pending] to its caller, and a later
    poll is a new thread. *)

Section pool.
Context {E S A : Type} (starts : thread E S A → Prop) (env : relation S).

Definition pool : Type := S * list (thread E S A).

Inductive pool_step : pool → pool → Prop :=
| pool_start s ts t : starts t → pool_step (s, ts) (s, ts ++ [t])
| pool_run s ts i m t s' : ts !! i = Some (Atomic m) → m s = Return t s' →
    pool_step (s, ts) (s', <[i := t]> ts)
| pool_end s ts i m s' : ts !! i = Some (Atomic m) →
    (m s = Suspend s' ∨ ∃ e, m s = Throw e s') →
    pool_step (s, ts) (s', delete i ts)
| pool_env s ts s' : env s s' → pool_step (s, ts) (s', ts).

(** A thread whose next section panics. *)
Definition about_to_panic (p : pool) : Prop :=
  ∃ i m, p.2 !! i = Some (Atomic m) ∧ m p.1 = Panic.

(** A step of the thread at [i], then the rest. *)
Lemma pool_runs i t t' s s' ts p : ts !! i = Some t → runs t s t' s' →
  rtc pool_step (s', <[i := t']> ts) p → rtc pool_step (s, ts) p.
Proof using Type.
  destruct t as [|m]; [done|]. intros Hi Hm Hp. eapply rtc_l; [by eapply pool_run|done].
Qed.

Lemma pool_panics i t s ts : ts !! i = Some t → panics t s → about_to_panic (s, ts).
Proof using Type. destruct t as [|m]; [done|]. intros Hi Hm. by exists i, m. Qed.

Context (inv : S → Prop) (rely : relation S) `{!PreOrder rely}.

Definition pool_ok (p : pool) : Prop :=
  inv p.1 ∧ Forall (safe inv rely (λ _ _, True) p.1) p.2.

Lemma Forall_rely s s' (ts : list (thread E S A)) : rely s s' →
  Forall (safe inv rely (λ _ _, True) s) ts → Forall (safe inv rely (λ _ _, True) s') ts.
Proof using PreOrder0.
  intros Hs Hts. eapply Forall_impl; [exact Hts|]. intros t Ht. by apply (safe_rely _ _ _ s s').
Qed.

Lemma pool_step_ok p p' :
  (∀ t s, starts t → inv s → safe inv rely (λ _ _, True) s t) →
  (∀ s s', env s s' → inv s → inv s' ∧ rely s s') →
  pool_step p p' → pool_ok p → pool_ok p'.
Proof using PreOrder0.
  intros Hst Henv Hp [Hi Hts]. destruct Hp as [s ts t Ht|s ts i m t s' Hm Hr|s ts i m s' Hm Hr|s ts s' He];
    cbn in *.
  - split; [done|]. apply Forall_app_2; [done|]. constructor; [by apply Hst|done].
  - pose proof (Forall_lookup_1 _ _ _ _ Hts Hm s (reflexivity s) Hi) as H. rewrite Hr in H.
    destruct H as (? & ? & ?). split; [done|]. apply Forall_insert; [by eapply Forall_rely|done].
  - pose proof (Forall_lookup_1 _ _ _ _ Hts Hm s (reflexivity s) Hi) as H.
    assert (inv s' ∧ rely s s') as [? ?] by (destruct Hr as [Hr|[e Hr]]; by rewrite Hr in H).
    split; [done|]. apply Forall_delete. by eapply Forall_rely.
  - destruct (Henv s s' He Hi). split; [done|]. by eapply Forall_rely.
Qed.

Lemma pool_ok_no_panic p : pool_ok p → ¬ about_to_panic p.
Proof using PreOrder0.
  intros [Hi Hts] (i & m & Hm & Hr).
  pose proof (Forall_lookup_1 _ _ _ _ Hts Hm p.1 (reflexivity _) Hi) as H. by rewrite Hr in H.
Qed.

(** The pool is well-behaved as long as every thread it starts is, and the
    environment keeps the invariant. *)
Lemma pool_reachable_ok p p' :
  (∀ t s, starts t → inv s → safe inv rely (λ _ _, True) s t) →
  (∀ s s', env s s' → inv s → inv s' ∧ rely s s') →
  rtc pool_step p p' → pool_ok p → pool_ok p' ∧ ¬ about_to_panic p'.
Proof using PreOrder0.
  intros Hst Henv Hs Hp. assert (pool_ok p') by (induction Hs; eauto using pool_step_ok).
  split; [done|by apply pool_ok_no_panic].
Qed.
End pool.
