(* ===== verification/Tasks.v ===== *)
(** * Tasks: computations that wait and are polled again

    An async function is a thread in the sense of Threads.v whose sections end
    where it awaits.  A task that waits keeps the section that had nothing to
    go on with, and makes it again when it is polled next.  [schedule] polls
    two tasks on one state in any order. *)

From S2P Require Export Threads.

(** ** Threads in a larger state *)

(** A component of a state. *)
Class Lens {S T : Type} (g : S → T) (p : T → S → S) : Prop := {
  get_put t s : g (p t s) = t;
  put_get s : p (g s) s = s;
  put_put t t' s : p t (p t' s) = p t s
}.

Section combinators.
Context {E S : Type}.

Fixpoint t_zoom {T A} (g : S → T) (p : T → S → S) (t : thread E T A) : thread E S A :=
  match t with
  | Finished a => Finished a
  | Atomic m => Atomic (λ s,
      match m (g s) with
      | Return t s' => Return (t_zoom g p t) (p s' s)
      | Throw e s' => Throw e (p s' s)
      | Suspend s' => Suspend (p s' s)
      | Panic => Panic
      | Diverge => Diverge
      end)
  end.

Fixpoint t_map_err {E' A} (f : E' → E) (t : thread E' S A) : thread E S A :=
  match t with
  | Finished a => Finished a
  | Atomic m => Atomic (λ s,
      match m s with
      | Return t s' => Return (t_map_err f t) s'
      | Throw e s' => Throw (f e) s'
      | Suspend s' => Suspend s'
      | Panic => Panic
      | Diverge => Diverge
      end)
  end.

(** What is done about an error before it is passed on. *)
Fixpoint t_catch {A} (h : E → M E S A) (t : thread E S A) : thread E S A :=
  match t with
  | Finished a => Finished a
  | Atomic m => Atomic (λ s,
      match m s with
      | Return t s' => Return (t_catch h t) s'
      | Throw e s' =>
        match h e s' with
        | Return a s' => Return (Finished a) s'
        | Throw e s' => Throw e s'
        | Suspend s' => Suspend s'
        | Panic => Panic
        | Diverge => Diverge
        end
      | Suspend s' => Suspend s'
      | Panic => Panic
      | Diverge => Diverge
      end)
  end.

Lemma run_t_catch {A} (h : E → M E S A) (t : thread E S A) s :
  run_thread (t_catch h t) s = match run_thread t s with Throw e s' => h e s' | o => o end.
Proof.
  revert s. induction t as [a|m IH] using thread_ind_run; intros s; [done|].
  cbn. specialize (IH s). destruct (m s) as [t s'|e s'| | |]; try done.
  - by apply (IH t s').
  - by destruct (h e s').
Qed.

Lemma run_t_zoom {T A} (g : S → T) p `{!Lens g p} (t : thread E T A) s :
  run_thread (t_zoom g p t) s = zoom g p (run_thread t) s.
Proof.
  revert s. induction t as [a|m IH] using thread_ind_run; intros s.
  - unfold zoom. cbn. by rewrite put_get.
  - unfold zoom in *. cbn. specialize (IH (g s)). destruct (m (g s)) as [t s'| | | |]; try done.
    rewrite (IH t s' eq_refl), get_put. destruct (run_thread t s'); try done; by rewrite put_put.
Qed.

Lemma run_t_map_err {E' A} (f : E' → E) (t : thread E' S A) s :
  run_thread (t_map_err f t) s = map_err f (run_thread t) s.
Proof.
  revert s. induction t as [a|m IH] using thread_ind_run; intros s; [done|].
  unfold map_err in *. cbn. specialize (IH s). destruct (m s) as [t s'| | | |]; try done.
  by apply (IH t s').
Qed.
End combinators.

(** [run_bind] with the bind unfolded, as symbolic runs leave it. *)
Lemma run_then {E S A B} (t : thread E S A) (f : A → thread E S B) s :
  run_thread (thread_bind E S A B f t) s =
    match run_thread t s with
    | Return a s' => run_thread (f a) s'
    | Throw e s' => Throw e s'
    | Suspend s' => Suspend s'
    | Panic => Panic
    | Diverge => Diverge
    end.
Proof. exact (run_bind t f s). Qed.

(** ** Polling *)

(** A poll ends with the outcome of the task, or the task waits. *)
Inductive polled (E S A : Type) : Type :=
| Done (o : outcome E S A)
| Waits (t : thread E S A) (s : S).
Arguments Done {E S A} o.
Arguments Waits {E S A} t s.

Fixpoint poll_task {E S A} (t : thread E S A) (s : S) : polled E S A :=
  match t with
  | Finished a => Done (Return a s)
  | Atomic m =>
    match m s with
    | Return t s' => poll_task t s'
    | Throw e s' => Done (Throw e s')
    | Suspend s' => Waits t s'
    | Panic => Done Panic
    | Diverge => Done Diverge
    end
  end.

(** One poll is the call. *)
Lemma run_poll {E S A} (t : thread E S A) s :
  run_thread t s = match poll_task t s with Done o => o | Waits _ s' => Suspend s' end.
Proof.
  revert s. induction t as [a|m IH] using thread_ind_run; intros s; [done|].
  cbn. specialize (IH s). destruct (m s) as [t s'| | | |]; try done. by apply (IH t s').
Qed.

Lemma poll_t_zoom {E S T A} (g : S → T) p `{!Lens g p} (t : thread E T A) s :
  poll_task (t_zoom g p t) s =
    match poll_task t (g s) with
    | Done (Return a s') => Done (Return a (p s' s))
    | Done (Throw e s') => Done (Throw e (p s' s))
    | Done (Suspend s') => Done (Suspend (p s' s))
    | Done Panic => Done Panic
    | Done Diverge => Done Diverge
    | Waits t s' => Waits (t_zoom g p t) (p s' s)
    end.
Proof.
  revert s. induction t as [a|m IH] using thread_ind_run; intros s; cbn; [by rewrite put_get|].
  specialize (IH (g s)). destruct (m (g s)) as [t s'| | | |]; try done.
  rewrite (IH t s' eq_refl), get_put. destruct (poll_task t s') as [[]|]; by rewrite ?put_put.
Qed.

Lemma poll_ends {E S A} (t : thread E S A) s s' : poll_task t s ≠ Done (Suspend s').
Proof.
  revert s. induction t as [a|m IH] using thread_ind_run; intros s; [done|].
  cbn. specialize (IH s). destruct (m s) as [t s1| | | |]; try done. by apply (IH t s1).
Qed.

Lemma poll_bind {E S A B} (t : thread E S A) (f : A → thread E S B) s :
  poll_task (t ≫= f) s =
    match poll_task t s with
    | Done (Return a s') => poll_task (f a) s'
    | Done (Throw e s') => Done (Throw e s')
    | Done (Suspend s') => Done (Suspend s')
    | Done Panic => Done Panic
    | Done Diverge => Done Diverge
    | Waits t s' => Waits (t ≫= f) s'
    end.
Proof.
  revert s. induction t as [a|m IH] using thread_ind_run; intros s; [done|].
  cbn. specialize (IH s). destruct (m s) as [t s1| | | |]; try done. by apply (IH t s1).
Qed.

Lemma poll_t_catch {E S A} (h : E → M E S A) (t : thread E S A) s :
  (∀ e s', poll_task t s ≠ Done (Throw e s')) →
  poll_task (t_catch h t) s =
    match poll_task t s with
    | Waits t s' => Waits (t_catch h t) s'
    | o => o
    end.
Proof.
  revert s. induction t as [a|m IH] using thread_ind_run; intros s Hne; [done|].
  cbn in *. specialize (IH s). destruct (m s) as [t s1|e s1| | |]; try done; [by apply (IH t s1)|].
  by destruct (Hne e s1).
Qed.

(** A task: still running, or ended, with [None] if it panicked. *)
Inductive task (E S A : Type) : Type :=
| Running (t : thread E S A)
| Ended (r : option (result A E)).
Arguments Running {E S A} t.
Arguments Ended {E S A} r.

Definition wake {E S A} (x : task E S A) (s : S) : task E S A * S :=
  match x with
  | Ended r => (Ended r, s)
  | Running t =>
    match poll_task t s with
    | Waits t s' => (Running t, s')
    | Done (Return a s') => (Ended (Some (Ok a)), s')
    | Done (Throw e s') => (Ended (Some (Err e)), s')
    | Done (Suspend s') => (Running t, s')
    | Done Panic | Done Diverge => (Ended None, s)
    end
  end.

Lemma poll_t_catch_throw {E S A} (h : E → M E S A) (t : thread E S A) s e s' e' s'' :
  poll_task t s = Done (Throw e s') → h e s' = Throw e' s'' → poll_task (t_catch h t) s = Done (Throw e' s'').
Proof.
  intros Ht Hh. revert s Ht. induction t as [a|m IH] using thread_ind_run; intros s Ht; [done|].
  cbn in *. specialize (IH s). destruct (m s) as [t s1|e1 s1| | |]; try done; [by apply (IH t s1)|].
  injection Ht as -> ->. by rewrite Hh.
Qed.

(** It has not panicked. *)
Definition sound {E S A} (x : task E S A) : Prop := x ≠ Ended None.
Definition failed {E S A} (x : task E S A) : Prop := ∃ e, x = Ended (Some (Err e)).

Lemma wake_same_poll {E S A} (t t' : thread E S A) s s' : poll_task t s = poll_task t' s' →
  sound (wake (Running t') s').1 → wake (Running t) s = wake (Running t') s'.
Proof.
  intros Hp Hun. cbn in *. rewrite Hp. pose proof (poll_ends t' s') as Hne.
  destruct (poll_task t' s') as [[]|]; try done; by destruct (Hne s0).
Qed.

(** A task in a larger state. *)
Definition task_zoom {E S T A} (g : S → T) (p : T → S → S) (x : task E T A) : task E S A :=
  match x with
  | Running t => Running (t_zoom g p t)
  | Ended r => Ended r
  end.

Lemma wake_zoom {E S T A} (g : S → T) p `{!Lens g p} (x : task E T A) s :
  wake (task_zoom g p x) s = (task_zoom g p (wake x (g s)).1, p (wake x (g s)).2 s).
Proof.
  destruct x as [t|r]; cbn; [|by rewrite put_get]. rewrite poll_t_zoom by done.
  destruct (poll_task t (g s)) as [[]|]; cbn; by rewrite ?put_get.
Qed.

(** Two tasks on one state; each entry of the schedule polls one of them. *)
Inductive who : Type := First | Second.

Fixpoint schedule {E S A B} (sch : list who) (a : task E S A) (b : task E S B) (s : S)
    : task E S A * task E S B * S :=
  match sch with
  | [] => (a, b, s)
  | First :: sch => let '(a, s) := wake a s in schedule sch a b s
  | Second :: sch => let '(b, s) := wake b s in schedule sch a b s
  end.

Lemma schedule_app {E S A B} sch1 sch2 (a : task E S A) (b : task E S B) s :
  schedule (sch1 ++ sch2) a b s = let '(a, b, s) := schedule sch1 a b s in schedule sch2 a b s.
Proof.
  revert a b s. induction sch1 as [|[] sch IH]; intros a b s; cbn; [done| |].
  - destruct (wake a s). apply IH.
  - destruct (wake b s). apply IH.
Qed.

Lemma schedule_ended_first {E S A B} sch r (b : task E S B) s :
  (schedule sch (Ended (A:=A) r) b s).1.1 = Ended r.
Proof. revert b s. induction sch as [|[] sch IH]; intros b s; cbn; [done..|]. destruct (wake b s). apply IH. Qed.

Lemma schedule_ended_second {E S A B} sch (a : task E S A) r s :
  (schedule sch a (Ended (A:=B) r) s).1.2 = Ended r.
Proof. revert a s. induction sch as [|[] sch IH]; intros a s; cbn; [done| |done]. destruct (wake a s). apply IH. Qed.

(** [n] times, the first is polled and later the second. *)
Inductive fair : nat → list who → Prop :=
| fair_O sch : fair 0 sch
| fair_S n sch1 sch2 sch3 : fair n sch3 → fair (S n) (sch1 ++ First :: sch2 ++ Second :: sch3).

(** The two by turns. *)
Definition by_turns (n : nat) : list who := mjoin (replicate n [First; Second]).

Lemma fair_by_turns n : fair n (by_turns n).
Proof. induction n as [|n IH]; [constructor|]. exact (fair_S n [] [] (by_turns n) IH). Qed.

(** ** Two threads that make the same steps

    [R i] relates the states of the two; the index [i] is what the steps leave
    alone.  The second may wait, in a state that is [idle], where the first
    goes on, if the index lets the first be [ahead]. *)

Section simulation.
Context {E I T1 T2 : Type} (R : I → T1 → T2 → Prop) (idle : T2 → Prop) (ahead : I → Prop).

(** Outcomes of a section from [s1] and its counterpart. *)
Definition sections_sim {A B} (Q : A → B → Prop) i s1 (o1 : outcome E T1 A) (o2 : outcome E T2 B) : Prop :=
  match o2, o1 with
  | Suspend s2, Suspend s1' => s1' = s1 ∧ R i s1 s2 ∧ idle s2
  | Suspend s2, _ => R i s1 s2 ∧ idle s2 ∧ ahead i
  | Return b s2, Return a s1 => Q a b ∧ R i s1 s2
  | Throw e' s2, Throw e s1 => e = e' ∧ R i s1 s2
  | Panic, Panic | Diverge, Diverge => True
  | _, _ => False
  end.

Definition call_sim {A B} (Q : A → B → Prop) (m1 : M E T1 A) (m2 : M E T2 B) : Prop :=
  ∀ i s1 s2, R i s1 s2 → sections_sim Q i s1 (m1 s1) (m2 s2).

Fixpoint task_sim {A B} (Q : A → B → Prop) (t1 : thread E T1 A) (t2 : thread E T2 B) : Prop :=
  match t1, t2 with
  | Finished a, Finished b => Q a b
  | Atomic m1, Atomic m2 => ∀ i s1 s2, R i s1 s2 → sections_sim (task_sim Q) i s1 (m1 s1) (m2 s2)
  | _, _ => False
  end.

(** Calls that do not wait. *)
Definition step_sim {A B} (Q : A → B → Prop) (m1 : M E T1 A) (m2 : M E T2 B) : Prop :=
  ∀ i s1 s2, R i s1 s2 →
  match m1 s1, m2 s2 with
  | Return a s1', Return b s2' => Q a b ∧ R i s1' s2'
  | Throw e s1', Throw e' s2' => e = e' ∧ R i s1' s2'
  | Panic, Panic | Diverge, Diverge => True
  | _, _ => False
  end.

Lemma call_sim_step {A B} (Q : A → B → Prop) m1 m2 : step_sim Q m1 m2 → call_sim Q m1 m2.
Proof. intros Hm i s1 s2 Hs. specialize (Hm i s1 s2 Hs). by destruct (m1 s1), (m2 s2). Qed.

Lemma step_sim_ret {A B} (Q : A → B → Prop) a b :
  Q a b → step_sim Q (mret a : M E T1 A) (mret b : M E T2 B).
Proof. by intros ? i s1 s2. Qed.

Lemma step_sim_bind {A B A' B'} (Q : A → B → Prop) (Q' : A' → B' → Prop)
    (m1 : M E T1 A) (m2 : M E T2 B) f1 f2 :
  step_sim Q m1 m2 → (∀ a b, Q a b → step_sim Q' (f1 a) (f2 b)) → step_sim Q' (m1 ≫= f1) (m2 ≫= f2).
Proof.
  intros Hm Hf i s1 s2 Hs. specialize (Hm i s1 s2 Hs). unfold mbind, M_bind.
  destruct (m1 s1), (m2 s2); try done. destruct Hm. by apply Hf.
Qed.

Lemma step_sim_unwrap {A} (o : option A) : step_sim eq (unwrap o : M E T1 A) (unwrap o : M E T2 A).
Proof. by destruct o; intros i s1 s2. Qed.

Lemma step_sim_try {A} (r : result A E) : step_sim eq (try r : M E T1 A) (try r : M E T2 A).
Proof. by destruct r; intros i s1 s2. Qed.

Lemma step_sim_throw {A B} (Q : A → B → Prop) e : step_sim Q (throw e : M E T1 A) (throw e : M E T2 B).
Proof. by intros i s1 s2. Qed.

Lemma task_sim_ret {A B} (Q : A → B → Prop) a b :
  Q a b → task_sim Q (mret a : thread E T1 A) (mret b : thread E T2 B).
Proof. done. Qed.

Lemma task_sim_atomically {A B} (Q : A → B → Prop) (m1 : M E T1 A) (m2 : M E T2 B) :
  call_sim Q m1 m2 → task_sim Q (atomically m1) (atomically m2).
Proof. intros Hm i s1 s2 Hs. specialize (Hm i s1 s2 Hs). by destruct (m1 s1), (m2 s2). Qed.

Lemma task_sim_step {A B} (Q : A → B → Prop) (m1 : M E T1 A) (m2 : M E T2 B) :
  step_sim Q m1 m2 → task_sim Q (atomically m1) (atomically m2).
Proof. intros Hm. by apply task_sim_atomically, call_sim_step. Qed.

Lemma task_sim_bind {A B A' B'} (Q : A → B → Prop) (Q' : A' → B' → Prop) t1 t2 f1 f2 :
  task_sim Q t1 t2 → (∀ a b, Q a b → task_sim Q' (f1 a) (f2 b)) →
  task_sim Q' (t1 ≫= f1) (t2 ≫= f2).
Proof.
  intros Ht Hf. revert t2 Ht. induction t1 as [a|m1 IH] using thread_ind_run; intros [b|m2] Ht; try done.
  { by apply Hf. }
  intros i s1 s2 Hs. specialize (Ht i s1 s2 Hs). specialize (IH s1).
  destruct (m1 s1) as [t1 s1'| | | |], (m2 s2) as [t2 s2'| | | |]; try done.
  destruct Ht as [Ht Hs']. split; [|done]. by apply (IH t1 s1').
Qed.

Lemma task_sim_mono {A B} (Q Q' : A → B → Prop) t1 t2 :
  task_sim Q t1 t2 → (∀ a b, Q a b → Q' a b) → task_sim Q' t1 t2.
Proof.
  intros Ht HQ. revert t2 Ht. induction t1 as [a|m1 IH] using thread_ind_run; intros [b|m2] Ht; try done.
  { by apply HQ. }
  intros i s1 s2 Hs. specialize (Ht i s1 s2 Hs). specialize (IH s1).
  destruct (m1 s1) as [t1 s1'| | | |], (m2 s2) as [t2 s2'| | | |]; try done.
  destruct Ht as [Ht Hs']. split; [|done]. by apply (IH t1 s1').
Qed.

(** A poll of the second, and the first run to its end: where the second
    waits, the first goes on from related states. *)
Lemma poll_sim {A B} (Q : A → B → Prop) (t1 : thread E T1 A) (t2 : thread E T2 B) i s1 s2 :
  task_sim Q t1 t2 → R i s1 s2 →
  match poll_task t2 s2 with
  | Waits t2 s2 => idle s2 ∧ ∃ t1' s1', task_sim Q t1' t2 ∧ R i s1' s2 ∧
      run_thread t1 s1 = run_thread t1' s1' ∧ (ahead i ∨ run_thread t1 s1 = Suspend s1')
  | Done (Return b s2) => ∃ a s1', run_thread t1 s1 = Return a s1' ∧ Q a b ∧ R i s1' s2
  | Done (Throw e s2) => ∃ s1', run_thread t1 s1 = Throw e s1' ∧ R i s1' s2
  | Done (Suspend _) => False
  | Done Panic => run_thread t1 s1 = Panic
  | Done Diverge => run_thread t1 s1 = Diverge
  end.
Proof.
  revert t2 s1 s2. induction t1 as [a|m1 IH] using thread_ind_run; intros [b|m2] s1 s2 Ht Hs; try done.
  { by exists a, s1. }
  pose proof (Ht i s1 s2 Hs) as H. specialize (IH s1). cbn [poll_task run_thread].
  destruct (m1 s1) as [t1 s1'|e1 s1'|s1'| |] eqn:Em, (m2 s2) as [t2 s2'|e2 s2'|s2'| |]; try done.
  all: cbn in H; try (by destruct H as (? & ? & ?); split; [done|]; exists (Atomic m1), s1;
    cbn [run_thread]; rewrite Em; auto).
  - destruct H as [H Hs']. exact (IH t1 s1' eq_refl t2 s1' s2' H Hs').
  - destruct H as [-> H]. by exists s1'.
  - destruct H as (-> & ? & ?). split; [done|]. exists (Atomic m1), s1. cbn [run_thread]. rewrite Em. auto.
Qed.
End simulation.

(** What a section does in a part of the state. *)
Section sim_zoom.
Context {E I S1 T1 S2 T2 : Type} (R : I → S1 → S2 → Prop) (idle : S2 → Prop).
Context (R' : I → T1 → T2 → Prop) (idle' : T2 → Prop) (ahead : I → Prop).
Context (g1 : S1 → T1) (p1 : T1 → S1 → S1) (g2 : S2 → T2) (p2 : T2 → S2 → S2).
Hypothesis Hg : ∀ i s1 s2, R i s1 s2 → R' i (g1 s1) (g2 s2).
Hypothesis Hp : ∀ i s1 s2 t1 t2, R i s1 s2 → R' i t1 t2 → R i (p1 t1 s1) (p2 t2 s2).
Hypothesis Hgp : ∀ s1, p1 (g1 s1) s1 = s1.
Hypothesis Hi : ∀ t2 s2, idle' t2 → idle (p2 t2 s2).

Lemma task_sim_zoom {A B} (Q : A → B → Prop) (t1 : thread E T1 A) (t2 : thread E T2 B) :
  task_sim R' idle' ahead Q t1 t2 → task_sim R idle ahead Q (t_zoom g1 p1 t1) (t_zoom g2 p2 t2).
Proof using Hg Hp Hgp Hi.
  intros Ht. revert t2 Ht. induction t1 as [a|m1 IH] using thread_ind_run; intros [b|m2] Ht; try done.
  intros i s1 s2 Hs. specialize (Ht i _ _ (Hg _ _ _ Hs)). specialize (IH (g1 s1)).
  pose proof (λ t1 t2, Hp i s1 s2 t1 t2 Hs) as Hp'. pose proof (Hgp s1) as Hg1.
  clear Hg Hp. cbn [t_zoom].
  destruct (m2 (g2 s2)) as [t2 s2'|e2 s2'|s2'| |], (m1 (g1 s1)) as [t1 s1'|e1 s1'|s1'| |];
    cbn in Ht |- *; try contradiction; try exact Logic.I.
  - destruct Ht as [Ht Hs']. split; [by apply (IH t1 s1')|auto].
  - destruct Ht as [-> Hs']. auto.
  - destruct Ht as (? & ? & ?). rewrite <-Hg1 at 1. auto.
  - destruct Ht as (? & ? & ?). rewrite <-Hg1 at 1. auto.
  - destruct Ht as (-> & ? & ?). rewrite Hg1. split; [done|]. rewrite <-Hg1 at 1. auto.
  - destruct Ht as (? & ? & ?). rewrite <-Hg1 at 1. auto.
  - destruct Ht as (? & ? & ?). rewrite <-Hg1 at 1. auto.
Qed.
End sim_zoom.

Lemma task_sim_map_err {E E' I T1 T2 A B} (R : I → T1 → T2 → Prop) idle ahead (Q : A → B → Prop)
    (f : E' → E) t1 t2 :
  task_sim R idle ahead Q t1 t2 → task_sim R idle ahead Q (t_map_err f t1) (t_map_err f t2).
Proof.
  intros Ht. revert t2 Ht. induction t1 as [a|m1 IH] using thread_ind_run; intros [b|m2] Ht; try done.
  intros i s1 s2 Hs. specialize (Ht i s1 s2 Hs). specialize (IH s1).
  destruct (m1 s1) as [t1 s1'| | | |], (m2 s2) as [t2 s2'| | | |]; cbn in Ht |- *; try done.
  - destruct Ht. split; [|done]. by apply (IH t1 s1').
  - by destruct Ht as [-> ?].
Qed.
