(* ===== verification/Tickets.v ===== *)
(** * Tasks that share a state, and what each of them holds

    Any number of tasks run on one state: they are started at any time, their
    sections interleave in any order, and each may wait, fail, or be dropped
    by its caller between two sections.  To tell what one task has reserved
    from what the others have, an invariant speaks of tickets: every task
    holds some, a section may trade those of its task, and the invariant
    relates the state to the tickets that are held. *)

From S2P Require Export Tasks.

(** ** The pool *)

Section pool.
Context {E S A X : Type} (code : X → thread E S A) (starts : X → Prop) (env : relation S).

(** The state, and the tasks that have been started and not ended. *)
Definition task_pool : Type := S * list (X * thread E S A).

(** A step; a start is labelled with what is started. *)
Inductive shared_step : task_pool → option X → task_pool → Prop :=
| shared_start s ts x : starts x → shared_step (s, ts) (Some x) (s, ts ++ [(x, code x)])
| shared_section s ts i x m t s' : ts !! i = Some (x, Atomic m) → m s = Return t s' →
    shared_step (s, ts) None (s', <[i := (x, t)]> ts)
| shared_wait s ts i x m s' : ts !! i = Some (x, Atomic m) → m s = Suspend s' →
    shared_step (s, ts) None (s', ts)
| shared_fail s ts i x m e s' : ts !! i = Some (x, Atomic m) → m s = Throw e s' →
    shared_step (s, ts) None (s', delete i ts)
| shared_drop s ts i : shared_step (s, ts) None (s, delete i ts)
| shared_env s ts s' : env s s' → shared_step (s, ts) None (s', ts).

(** A run, with all that it starts, in order. *)
Inductive shared_run : list X → task_pool → task_pool → Prop :=
| shared_done p : shared_run [] p p
| shared_more xs p q o r : shared_run xs p q → shared_step q o r → shared_run (xs ++ option_list o) p r.

(** A script of a run. *)
Inductive action : Type :=
| Start (x : X)
| Poll (i : nat)
| Abandon (i : nat).

Definition shared_act (a : action) (p : task_pool) : option task_pool :=
  match a with
  | Start x => Some (p.1, p.2 ++ [(x, code x)])
  | Poll i =>
    match p.2 !! i with
    | Some (x, Atomic m) =>
      match m p.1 with
      | Return t s' => Some (s', <[i := (x, t)]> p.2)
      | Suspend s' => Some (s', p.2)
      | Throw _ s' => Some (s', delete i p.2)
      | _ => None
      end
    | _ => None
    end
  | Abandon i => Some (p.1, delete i p.2)
  end.

Definition begun (a : action) : option X := match a with Start x => Some x | _ => None end.

Definition shared_script (l : list action) (p : task_pool) : option task_pool :=
  foldl (λ p a, p ≫= shared_act a) (Some p) l.

Lemma shared_act_step a p q : (∀ x, a = Start x → starts x) → shared_act a p = Some q →
  shared_step p (begun a) q.
Proof using Type.
  destruct p as [s ts]. intros Ha Hq. destruct a as [x|i|i]; cbn in *.
  - injection Hq as <-. constructor. by apply Ha.
  - destruct (ts !! i) as [[x [|m]]|] eqn:Ei; try done.
    destruct (m s) eqn:Em; simplify_eq; eauto using shared_step.
  - injection Hq as <-. constructor.
Qed.

Lemma shared_script_run l p q : Forall starts (omap begun l) → shared_script l p = Some q →
  shared_run (omap begun l) p q.
Proof using Type.
  revert q. induction l as [|a l IH] using rev_ind; intros q Hl Hq.
  - injection Hq as <-. constructor.
  - unfold shared_script in Hq. rewrite foldl_snoc in Hq. rewrite omap_app in Hl |- *.
    apply Forall_app in Hl as [Hl Ha].
    destruct (foldl _ _ l) as [q1|] eqn:El; [|done]. cbn in Hq.
    replace (omap begun [a]) with (option_list (begun a)) in * by (cbn; by destruct (begun a)).
    apply (shared_more _ _ _ _ _ (IH q1 Hl El)), shared_act_step; [|done].
    intros x ->. by apply Forall_inv in Ha.
Qed.

(** A task whose next section panics. *)
Definition panicking (x : X) (p : task_pool) : Prop :=
  ∃ i m, p.2 !! i = Some (x, Atomic m) ∧ m p.1 = Panic.
End pool.

(** ** Tickets *)

Section tickets.
Context {E S X K : Type}.

(** The invariant: of what has been started, the state, and the tickets that
    the tasks hold. *)
Context (inv : list X → S → list K → Prop).

(** [holds g p may Q own t]: a task that holds the tickets [own] and does [t]
    in the part of the state that [g] reads and [p] writes.  Whatever the
    others hold, each section keeps the invariant, and at the end the task has
    tickets that satisfy [Q]; it may panic only if [may]. *)
Fixpoint holds {T A} (g : S → T) (p : T → S → S) (may : Prop) (Q : A → list K → Prop)
    (own : list K) (t : thread E T A) : Prop :=
  match t with
  | Finished a => Q a own
  | Atomic m => ∀ xs s F, inv xs s (own ++ F) →
    match m (g s) with
    | Return t s' => ∃ own', inv xs (p s' s) (own' ++ F) ∧ holds g p may Q own' t
    | Throw _ s' | Suspend s' => inv xs (p s' s) (own ++ F)
    | Panic | Diverge => may
    end
  end.

Section rules.
Context {T : Type} (g : S → T) (p : T → S → S) (may : Prop).

Lemma holds_mono {A} (Q R : A → list K → Prop) own (t : thread E T A) :
  holds g p may Q own t → (∀ a own, Q a own → R a own) → holds g p may R own t.
Proof using Type.
  intros Ht HQ. revert own Ht. induction t as [a|m IH] using thread_ind_run; intros own Ht; [by apply HQ|].
  intros xs s F Hi. specialize (Ht xs s F Hi). specialize (IH (g s)).
  destruct (m (g s)) as [t1 s'| | | |]; try done.
  destruct Ht as (own' & ? & ?). exists own'. split; [done|]. by apply (IH t1 s').
Qed.

Lemma holds_bind {A B} (Q : A → list K → Prop) (R : B → list K → Prop) own (t : thread E T A) f :
  holds g p may Q own t → (∀ a own, Q a own → holds g p may R own (f a)) →
  holds g p may R own (t ≫= f).
Proof using Type.
  intros Ht Hf. revert own Ht. induction t as [a|m IH] using thread_ind_run; intros own Ht; [by apply Hf|].
  intros xs s F Hi. specialize (Ht xs s F Hi). specialize (IH (g s)).
  destruct (m (g s)) as [t1 s'| | | |]; try done.
  destruct Ht as (own' & ? & ?). exists own'. split; [done|]. by apply (IH t1 s').
Qed.

Lemma holds_atomically {A} (Q : A → list K → Prop) own (m : M E T A) :
  (∀ xs s F, inv xs s (own ++ F) →
    match m (g s) with
    | Return a s' => ∃ own', inv xs (p s' s) (own' ++ F) ∧ Q a own'
    | Throw _ s' | Suspend s' => inv xs (p s' s) (own ++ F)
    | Panic | Diverge => may
    end) → holds g p may Q own (atomically m).
Proof using Type.
  intros Hm xs s F Hi. specialize (Hm xs s F Hi). cbn. by destruct (m (g s)).
Qed.

Lemma holds_zoom {U A} (g' : T → U) (p' : U → T → T) (Q : A → list K → Prop) own (t : thread E U A) :
  holds (λ s, g' (g s)) (λ u s, p (p' u (g s)) s) may Q own t →
  holds g p may Q own (t_zoom g' p' t).
Proof using Type.
  intros Ht. revert own Ht. induction t as [a|m IH] using thread_ind_run; intros own Ht; [done|].
  intros xs s F Hi. specialize (Ht xs s F Hi). specialize (IH (g' (g s))). cbn [t_zoom].
  destruct (m (g' (g s))) as [t1 s'| | | |]; try done.
  destruct Ht as (own' & ? & ?). exists own'. split; [done|]. by apply (IH t1 s').
Qed.
End rules.

(** A task in a part of the state that the invariant does not look at, except
    for a fact about that part. *)
Section private.
Context {T : Type} (ok : T → Prop).

(** Each section keeps the fact, and none panics, unless [may]. *)
Fixpoint calm {A} (may : Prop) (t : thread E T A) : Prop :=
  match t with
  | Finished _ => True
  | Atomic m => ∀ s, ok s →
    match m s with
    | Return t s' => ok s' ∧ calm may t
    | Throw _ s' | Suspend s' => ok s'
    | Panic | Diverge => may
    end
  end.

Lemma holds_calm {A} g p may own (t : thread E T A) :
  (∀ xs s l, inv xs s l → ok (g s)) → (∀ xs s l u, inv xs s l → ok u → inv xs (p u s) l) →
  calm may t → holds g p may (λ _ own', own' = own) own t.
Proof using Type.
  intros Hg Hp. induction t as [a|m IH] using thread_ind_run; intros Ht; [done|].
  intros xs s F Hi. specialize (Ht (g s) (Hg _ _ _ Hi)). specialize (IH (g s)). pose proof (Hp xs s) as Hp'.
  destruct (m (g s)) as [t1 s'| | | |]; [|eauto|eauto|done..].
  destruct Ht as [? Ht]. exists own. split; [by eapply Hp'|]. by apply (IH t1 s').
Qed.
End private.

(** ** The invariant of the pool *)

Context {A : Type} (code : X → thread E S A) (starts : X → Prop) (env : relation S)
  (may : X → Prop).

(** A whole task. *)
Definition holds_all (x : X) (own : list K) (t : thread E S A) : Prop :=
  holds (λ s, s) (λ s' _, s') (may x) (λ _ _, True) own t.

Definition pool_holds (xs : list X) (p : task_pool) : Prop :=
  ∃ owns, inv xs p.1 (mjoin owns) ∧ Forall2 (λ xt own, holds_all xt.1 own xt.2) p.2 owns.

(** The order of tickets does not matter, they can be lost, a task starts
    with some, and the environment keeps the invariant. *)
Hypothesis inv_perm : ∀ xs s l l', l ≡ₚ l' → inv xs s l → inv xs s l'.
Hypothesis inv_lost : ∀ xs s own l, inv xs s (own ++ l) → inv xs s l.
Hypothesis inv_start : ∀ xs s l x, starts x → inv xs s l →
  ∃ own, inv (xs ++ [x]) s (own ++ l) ∧ holds_all x own (code x).
Hypothesis inv_env : ∀ xs s s' l, env s s' → inv xs s l → inv xs s' l.

Lemma mjoin_lookup (owns : list (list K)) i own : owns !! i = Some own →
  mjoin owns ≡ₚ own ++ mjoin (delete i owns).
Proof using Type. intros Hi. by rewrite (delete_Permutation _ _ _ Hi) at 1. Qed.

Lemma mjoin_insert (owns : list (list K)) i own own' : owns !! i = Some own →
  mjoin (<[i := own']> owns) ≡ₚ own' ++ mjoin (delete i owns).
Proof using Type.
  intros (l1 & l2 & -> & ->)%list_elem_of_split_length.
  rewrite insert_app_r_alt, Nat.sub_diag, delete_middle by done. cbn [insert list_insert].
  rewrite !join_app. cbn [mjoin list_join].
  by rewrite !(assoc_L (++)), (comm (++) (mjoin l1) own').
Qed.

Lemma delete_ge {B} (l : list B) i : l !! i = None → delete i l = l.
Proof using Type.
  revert i. induction l as [|x l IH]; intros [|i] Hi; try done. cbn. f_equal. by apply IH.
Qed.

Lemma shared_step_holds xs p o p' :
  shared_step code starts env p o p' → pool_holds xs p → pool_holds (xs ++ option_list o) p'.
Proof using inv_perm inv_lost inv_start inv_env.
  intros Hp (owns & Hi & Hts).
  destruct Hp as [s ts x Hx|s ts i x m t s' Hx Hm|s ts i x m s' Hx Hm|s ts i x m e s' Hx Hm|s ts i|s ts s' He];
    cbn [fst snd option_list] in *; rewrite ?app_nil_r.
  - destruct (inv_start _ _ _ x Hx Hi) as (own & Hi' & Ht). exists (owns ++ [own]). cbn. split.
    + eapply inv_perm, Hi'. rewrite join_app. cbn. rewrite app_nil_r. apply Permutation_app_comm.
    + apply Forall2_app; [done|]. by constructor.
  - destruct (Forall2_lookup_l _ _ _ _ _ Hts Hx) as (own & Ho & H).
    specialize (H xs s _ (inv_perm _ _ _ _ (mjoin_lookup _ _ _ Ho) Hi)). cbn in H. rewrite Hm in H.
    destruct H as (own' & Hi' & Ht). exists (<[i := own']> owns). split.
    + by eapply inv_perm, Hi'; rewrite (mjoin_insert _ _ _ _ Ho).
    + by apply Forall2_insert.
  - destruct (Forall2_lookup_l _ _ _ _ _ Hts Hx) as (own & Ho & H).
    specialize (H xs s _ (inv_perm _ _ _ _ (mjoin_lookup _ _ _ Ho) Hi)). cbn in H. rewrite Hm in H.
    exists owns. split; [|done]. eapply inv_perm, H. by rewrite <-(mjoin_lookup _ _ _ Ho).
  - destruct (Forall2_lookup_l _ _ _ _ _ Hts Hx) as (own & Ho & H).
    specialize (H xs s _ (inv_perm _ _ _ _ (mjoin_lookup _ _ _ Ho) Hi)). cbn in H. rewrite Hm in H.
    exists (delete i owns). split; [by eapply inv_lost|by apply Forall2_delete].
  - exists (delete i owns). split; [|by apply Forall2_delete].
    destruct (owns !! i) as [own|] eqn:Ho.
    + eapply inv_lost, inv_perm, Hi. by apply mjoin_lookup.
    + by rewrite (delete_ge owns).
  - exists owns. split; [by eapply inv_env|done].
Qed.

Lemma pool_holds_panicking xs x p : pool_holds xs p → panicking x p → may x.
Proof using inv_perm.
  intros (owns & Hi & Hts) (i & m & Hx & Hm).
  destruct (Forall2_lookup_l _ _ _ _ _ Hts Hx) as (own & Ho & H).
  specialize (H xs p.1 _ (inv_perm _ _ _ _ (mjoin_lookup _ _ _ Ho) Hi)). cbn in H. by rewrite Hm in H.
Qed.

(** Every run keeps the invariant, for some tickets of its tasks. *)
Lemma shared_run_holds xs s p : inv [] s [] → shared_run code starts env xs (s, []) p →
  pool_holds xs p ∧ ∀ x, panicking x p → may x.
Proof using inv_perm inv_lost inv_start inv_env.
  intros Hi Hr. assert (pool_holds xs p) as H.
  { remember (s, []) as p0 eqn:Hp0. induction Hr as [p|xs p q o r Hr IH Hq]; subst.
    - by exists [].
    - eapply shared_step_holds; [done|by apply IH]. }
  split; [done|]. intros x. by apply (pool_holds_panicking xs).
Qed.
End tickets.
