(* ===== verification/DtpConcurrent.v ===== *)
(** * The multiplexing socket, one critical section at a time
    (src/dtp/src/dtp.rs)

    Each operation of Dtp.v again, as the sequence of sections in which the
    code holds its locks; between two of them other threads run.  Without
    interference the sections make up the operation.  With it, calls of any
    number of threads never panic as long as none closes a channel; a close
    that overlaps a receive can make the receive panic, and two receives that
    overlap can swap two datagrams. *)

From S2P Require Export DtpProps Threads.

Import Dtp.

(** Sections that leave every channel its key. *)
Create HintDb keeps.

Section sections.
Context {BC : BytesCrate} {SQ : SegQueueCrate} {SL : SlabCrate} {PR : Profile}.
Context {K : Type} `{!UdpExt K} `{!UdpSocket K}.

#[local] Abbreviation isock := (InnerDtpSocket (K:=K)).
#[local] Abbreviation T := (thread io_error isock).

(** The lock of [if !self.channels.lock().unwrap().contains(&channel)] is
    released before the block that pushes. *)
Definition t_announce (channel : Channel) : T () :=
  taken ← atomically (gets channels);
  if decide (channel ∈ taken) then mret ()
  else atomically (modify (λ s, set_incoming (sq_push channel (incoming s)) s)).

(** The block of [poll_recv] that receives a datagram. *)
Definition recv_packet : M io_error isock (Channel * DtpPacket) :=
  '(data, peer, len, e) ←
    zoom socket set_socket (udp_poll_recv (remaining_mut uninitialized));
  recv_datagram data peer len e.

Definition t_poll_recv : T () :=
  '(channel, payload) ← atomically recv_packet;
  conn ← atomically (connection_id channel);
  match conn with
  | Some conn_id =>
    atomically (push_packet conn_id payload);;
    t_announce channel
  | None => mret ()
  end.

(** The section of [poll_incoming] that takes the channel. *)
Definition take_channel (channel : Channel) : M io_error isock bool :=
  taken ← gets channels;
  if decide (channel ∈ taken) then mret false
  else modify (set_channels ({[channel]} ∪ taken));; mret true.

Fixpoint t_incoming_loop (fuel : nat) : T Channel :=
  match fuel with
  | O => atomically diverge
  | S fuel =>
    t_poll_recv;;
    next ← atomically pop_incoming;
    match next with
    | Some channel =>
      took ← atomically (take_channel channel);
      if took : bool then mret channel else t_incoming_loop fuel
    | None => t_incoming_loop fuel
    end
  end.

Definition t_poll_incoming (fuel : nat) : T Channel :=
  next ← atomically pop_incoming;
  match next with
  | Some stream => mret stream
  | None => t_incoming_loop fuel
  end.

(** The section that pops the queue under a key. *)
Definition pop_queue (conn_id : nat) : M io_error isock (option DtpPacket) :=
  conns ← gets connections;
  queue ← unwrap (slab_get conn_id conns);
  match sq_pop queue with
  | Some (packet, queue) =>
    modify (set_connections (slab_set conn_id queue conns));; mret (Some packet)
  | None => mret None
  end.

Definition t_pop_packet (channel : Channel) : T (option DtpPacket) :=
  conn ← atomically (connection_id channel);
  match conn with
  | Some conn_id => atomically (pop_queue conn_id)
  | None => mret None
  end.

Fixpoint t_channel_loop (fuel : nat) (channel : Channel) : T DtpPacket :=
  match fuel with
  | O => atomically diverge
  | S fuel =>
    t_poll_recv;;
    next ← t_pop_packet channel;
    match next with
    | Some packet => mret packet
    | None => t_channel_loop fuel channel
    end
  end.

Definition t_poll_channel (fuel : nat) (channel : Channel) : T DtpPacket :=
  next ← t_pop_packet channel;
  match next with
  | Some packet => mret packet
  | None => t_channel_loop fuel channel
  end.

Definition t_outgoing (peer_addr : Addr) (channel_id : byte) : T Channel :=
  atomically (outgoing peer_addr channel_id).

Definition t_close (channel : Channel) : T () :=
  atomically (modify (λ s, set_channels (channels s ∖ {[channel]}) s));;
  conn_id ← atomically (conn ← connection_id channel; unwrap conn);
  atomically (modify (λ s, set_lookup (delete channel (channel_lookup s)) s));;
  atomically (
    conns ← gets connections;
    '(_, conns) ← unwrap (slab_remove conn_id conns);
    modify (set_connections conns)).

Definition t_poll_send (channel : Channel) (packet : DtpPacket) : T () :=
  atomically (poll_send channel packet).

(** ** Without interference *)

Lemma run_both {A B} (t : T A) (f : A → T B) (m : M io_error isock A) (g : A → M io_error isock B) s :
  (∀ s, run_thread t s = m s) → (∀ a s, run_thread (f a) s = g a s) →
  run_thread (t ≫= f) s = (m ≫= g) s.
Proof.
  intros Ht Hf. rewrite run_bind. run. rewrite Ht. by destruct (m s).
Qed.

Lemma run_poll_recv s : run_thread t_poll_recv s = poll_recv s.
Proof.
  unfold t_poll_recv, poll_recv. rewrite run_bind. run. rewrite run_atomically.
  unfold recv_packet. run. destruct (zoom _ _ _ s) as [[[[data peer] n] e] s1| | | |]; try done.
  destruct (recv_datagram data peer n e s1) as [[c p] s2| | | |]; try done.
  apply (run_both (atomically (connection_id c)) _ (connection_id c) _ s2); [apply run_atomically|].
  intros [i|] s3; [|done]. apply run_both; [apply run_atomically|]. intros _ s4.
  unfold t_announce. rewrite run_bind. run. rewrite run_atomically.
  unfold gets. by case_decide; [|rewrite run_atomically].
Qed.

Lemma run_pop_packet c s : run_thread (t_pop_packet c) s = pop_packet c s.
Proof.
  unfold t_pop_packet, pop_packet. apply run_both; [apply run_atomically|].
  intros [i|] s'; [|done]. apply run_atomically.
Qed.

Lemma run_incoming_loop fuel s : run_thread (t_incoming_loop fuel) s = incoming_loop fuel s.
Proof.
  revert s. induction fuel as [|fuel IH]; intros s; [done|]. cbn [t_incoming_loop incoming_loop].
  apply run_both; [apply run_poll_recv|]. intros _ s1.
  apply run_both; [apply run_atomically|]. intros [c|] s2; [|apply IH].
  rewrite run_bind. run. rewrite run_atomically. unfold take_channel; run.
  destruct (decide (c ∈ channels s2)); [apply IH|done].
Qed.

Lemma run_channel_loop fuel c s : run_thread (t_channel_loop fuel c) s = channel_loop fuel c s.
Proof.
  revert s. induction fuel as [|fuel IH]; intros s; [done|]. cbn [t_channel_loop channel_loop].
  apply run_both; [apply run_poll_recv|]. intros _ s1.
  apply run_both; [apply run_pop_packet|]. intros [p|] s2; [done|apply IH].
Qed.

Lemma run_poll_incoming fuel s : run_thread (t_poll_incoming fuel) s = poll_incoming fuel s.
Proof.
  unfold t_poll_incoming, poll_incoming. apply run_both; [apply run_atomically|].
  intros [c|] s'; [done|apply run_incoming_loop].
Qed.

Lemma run_poll_channel fuel c s : run_thread (t_poll_channel fuel c) s = poll_channel fuel c s.
Proof.
  unfold t_poll_channel, poll_channel. apply run_both; [apply run_pop_packet|].
  intros [p|] s'; [done|apply run_channel_loop].
Qed.

Lemma run_close c s : run_thread (t_close c) s = close c s.
Proof.
  unfold t_close, close. apply run_both; [apply run_atomically|]. intros _ s1.
  rewrite run_bind. run. rewrite run_atomically. run.
  destruct (connection_id c s1) as [[i|] s2| | | |]; try done.
  cbn. by destruct (slab_remove i (connections s2)) as [[]|].
Qed.

(** ** The calls of the clients *)

Definition t_op (o : op) : T (list (Channel * datagram)) :=
  match o with
  | OpIncoming fuel => t_poll_incoming fuel;; mret []
  | OpRecv fuel c => p ← t_poll_channel fuel c; mret [(c, datagram_of p)]
  | OpSend c p => t_poll_send c p;; mret []
  | OpOutgoing peer id => t_outgoing peer id;; mret []
  | OpClose c => t_close c;; mret []
  | OpLocalAddr => atomically local_addr;; mret []
  | OpTtl => atomically ttl;; mret []
  | OpSetTtl t => atomically (set_ttl t);; mret []
  end.

(** Equivalence of the two models.  The critical sections of a call, run
    one after the other with nothing in between, are the call as Dtp.v has
    it: the same result or error, the same state, the same waits and panics,
    for every call of the interface and from every state. *)
Theorem sections_compose (o : op) (s : isock) : run_thread (t_op o) s = run_op o s.
Proof.
  destruct o; cbn [t_op run_op]; (apply run_both; [|done]).
  - apply run_poll_incoming.
  - apply run_poll_channel.
  - apply run_atomically.
  - apply run_atomically.
  - apply run_close.
  - apply run_atomically.
  - apply run_atomically.
  - apply run_atomically.
Qed.
End sections.

(** ** With interference *)

Section interference.
Context {BC : BytesCrate} {BL : BytesLaws BC}.
Context {SQ : SegQueueCrate} {SQL : SegQueueLaws SQ}.
Context {SL : SlabCrate} {SLL : SlabLaws SL} {PR : Profile}.
Context {K : Type} `{!UdpExt K} `{!UdpExtLaws K} `{!UdpSocket K}.
#[local] Abbreviation isock := (InnerDtpSocket (K:=K)).
#[local] Abbreviation T := (thread io_error isock).

(** As long as no thread closes a channel, a channel keeps its key. *)
Definition keys_kept (s s' : isock) : Prop := channel_lookup s ⊆ channel_lookup s'.

#[export] Instance keys_kept_preorder : PreOrder keys_kept.
Proof. split; unfold keys_kept; [intros s; reflexivity|intros s1 s2 s3; apply transitivity]. Qed.

#[local] Abbreviation sound := (safe Inv keys_kept).

Definition keeps {A} (m : M io_error isock A) : Prop :=
  ∀ s s', final (m s) = Some s' → keys_kept s s'.

Lemma keeps_bind {A B} (m : M io_error isock A) (f : A → M io_error isock B) :
  keeps m → (∀ a, keeps (f a)) → keeps (m ≫= f).
Proof.
  intros Hm Hf s s'. specialize (Hm s). run. destruct (m s) as [a s1| | | |]; cbn in *; auto.
  intros Hs. etrans; [by apply Hm|by eapply Hf].
Qed.

Lemma keys_same (s s' : isock) : channel_lookup s' = channel_lookup s → keys_kept s s'.
Proof. unfold keys_kept. by intros ->. Qed.

Lemma keeps_zoom {A} (m : M io_error K A) : keeps (zoom socket set_socket m).
Proof.
  intros s s'. unfold zoom. destruct (m (socket s)); cbn; intros; simplify_eq; unfold keys_kept; done.
Qed.

Lemma keeps_gets {A} (f : isock → A) : keeps (gets f).
Proof. intros s s' [= <-]. reflexivity. Qed.

Lemma keeps_modify f : (∀ s : isock, channel_lookup (f s) = channel_lookup s) → keeps (modify f).
Proof. intros Hf s s' [= <-]. unfold keys_kept. by rewrite Hf. Qed.

Lemma keeps_unwrap {A} (o : option A) : keeps (unwrap o).
Proof. destruct o; intros s s'; [|done]. intros [= <-]. reflexivity. Qed.

Lemma keeps_try {A} (r : result A io_error) : keeps (try r).
Proof. destruct r; intros s s' [= <-]; reflexivity. Qed.

Lemma keeps_throw {A} e : keeps (throw (A:=A) e).
Proof. intros s s' [= <-]. reflexivity. Qed.

Lemma keeps_ret {A} (a : A) : keeps (mret a).
Proof. intros s s' [= <-]. reflexivity. Qed.

Lemma keeps_connection_id c : keeps (connection_id c).
Proof.
  intros s s'. unfold connection_id; run. destruct (channel_lookup s !! c) eqn:E.
  - intros [= <-]. reflexivity.
  - destruct (slab_insert _ _). intros [= <-]. by apply insert_subseteq.
Qed.
#[local] Hint Resolve keeps_zoom keeps_gets keeps_unwrap keeps_try keeps_throw keeps_ret
  keeps_connection_id : keeps.
#[local] Hint Extern 0 (keeps (modify _)) => by apply keeps_modify : keeps.

(** A section that refines its specification and keeps the keys. *)
Lemma section_sound {A B} P (m : M io_error isock A) (m' : M io_error (ASock K) B) Q
    (R : A → isock → Prop) s0 :
  refines P m m' Q → keeps m → (∀ s, keys_kept s0 s → P s) → (∀ a b s, Q a b s → R a s) →
  sound R s0 (atomically m).
Proof.
  intros Hr Hk HP HQ. apply safe_atomically. intros s Hs Hi.
  specialize (Hr s Hi (HP s Hs)). specialize (Hk s).
  destruct (m s), (m' (abs s)); cbn in *; try done; naive_solver.
Qed.

Lemma call_sound {A} (m : M io_error isock A) s0 :
  (∃ B (m' : M io_error (ASock K) B) Q, refines (λ _, True) m m' Q) → keeps m →
  sound (λ _ _, True) s0 (atomically m).
Proof. intros (B & m' & Q & Hr) Hk. by eapply section_sound. Qed.

Ltac keeps_steps :=
  repeat first
    [ solve [eauto with keeps]
    | apply keeps_bind; [|intros ?]
    | match goal with |- keeps (match ?x with _ => _ end) => destruct x end ].
(** ** The sections *)

Definition connected (c : Channel) (o : option nat) (s : isock) : Prop :=
  ∃ i, o = Some i ∧ channel_lookup s !! c = Some i.

Lemma connection_id_sound c s0 : sound (connected c) s0 (atomically (connection_id c)).
Proof.
  eapply section_sound; [apply connection_id_refines|apply keeps_connection_id|done|].
  by intros o [] s.
Qed.

(** What is done under a key goes well if the key was the channel's once. *)
Lemma keyed_sound {A B} (m : M io_error isock A) (m' : M io_error (ASock K) B) Q c i s0 :
  refines (λ s, channel_lookup s !! c = Some i) m m' Q → keeps m →
  channel_lookup s0 !! c = Some i → sound (λ _ _, True) s0 (atomically m).
Proof.
  intros Hr Hk Hi. eapply section_sound; [exact Hr|exact Hk| |done].
  intros s Hs. by eapply lookup_weaken.
Qed.

Lemma pop_queue_refines c i :
  refines (λ s : isock, channel_lookup s !! c = Some i) (pop_queue i) (a_pop_packet c)
    (λ o d _, datagram_of <$> o = d).
Proof.
  intros s Hi Hc. pose proof (pop_packet_refines c s Hi I) as H.
  assert (pop_packet c s = pop_queue i s) as <-.
  { unfold pop_packet, connection_id, pop_queue; run. by rewrite Hc. }
  destruct (pop_packet c s), (a_pop_packet c (abs s)); naive_solver.
Qed.

Lemma keeps_pop_queue i : keeps (pop_queue i).
Proof. unfold pop_queue. keeps_steps. Qed.

Lemma t_announce_sound c s0 : sound (λ _ _, True) s0 (t_announce c).
Proof.
  eapply safe_bind; [apply (call_sound (gets channels)); [|keeps_steps]|].
  { eexists _, _, _. apply (gets_channels_refines (λ _, True)). }
  intros taken s _. case_decide; [done|]. apply safe_atomically. intros s1 _ Hi. cbn.
  split_and!; [destruct Hi; by split|by apply keys_same|done].
Qed.

Lemma recv_packet_refines :
  refines (λ _ : isock, True) recv_packet
    (zoom a_sock a_set_sock (udp_poll_recv buffer_len) ≫= λ '(data, peer, _, e),
       a_decode data peer e)
    (λ x y _, x.1 = y.1 ∧ datagram_of x.2 = y.2).
Proof.
  eapply refines_bind; [apply udp_poll_recv_refines|].
  intros [[[data peer] len] e] b. apply refines_pure. intros [<- Hfit].
  by apply recv_datagram_refines.
Qed.

Lemma keeps_recv_packet : keeps recv_packet.
Proof. unfold recv_packet, recv_datagram. keeps_steps. Qed.

Lemma t_poll_recv_sound s0 : sound (λ _ _, True) s0 t_poll_recv.
Proof.
  eapply safe_bind; [apply call_sound|].
  - eexists _, _, _. apply recv_packet_refines.
  - apply keeps_recv_packet.
  - intros [c p] s1 _. eapply safe_bind; [apply connection_id_sound|].
    intros o s2 (i & -> & Hi). eapply safe_bind; [|intros; apply t_announce_sound].
    eapply (keyed_sound _ _ _ c i); [apply push_packet_refines| |done].
    unfold push_packet. keeps_steps.
Qed.

Lemma pop_incoming_sound s0 : sound (λ _ _, True) s0 (atomically pop_incoming).
Proof.
  apply call_sound; [eexists _, _, _; apply pop_incoming_refines|].
  unfold pop_incoming. keeps_steps.
Qed.

Lemma take_channel_sound c s0 : sound (λ _ _, True) s0 (atomically (take_channel c)).
Proof.
  apply safe_atomically. intros s _ Hi. unfold take_channel; run. unfold gets.
  case_decide; cbn; (split_and!; [destruct Hi; by split|by apply keys_same|done]).
Qed.

Lemma t_incoming_loop_sound fuel s0 : sound (λ _ _, True) s0 (t_incoming_loop fuel).
Proof.
  revert s0. induction fuel as [|fuel IH]; intros s0; cbn [t_incoming_loop]; [by intros s|].
  eapply safe_bind; [apply t_poll_recv_sound|]. intros [] s1 _.
  eapply safe_bind; [apply pop_incoming_sound|]. intros [c|] s2 _; [|apply IH].
  eapply safe_bind; [apply take_channel_sound|]. intros [] s3 _; [done|apply IH].
Qed.

Lemma t_pop_packet_sound c s0 : sound (λ _ _, True) s0 (t_pop_packet c).
Proof.
  eapply safe_bind; [apply connection_id_sound|]. intros o s1 (i & -> & Hi).
  by eapply (keyed_sound _ _ _ c i); [apply pop_queue_refines|apply keeps_pop_queue|].
Qed.

Lemma t_channel_loop_sound fuel c s0 : sound (λ _ _, True) s0 (t_channel_loop fuel c).
Proof.
  revert s0. induction fuel as [|fuel IH]; intros s0; cbn [t_channel_loop]; [by intros s|].
  eapply safe_bind; [apply t_poll_recv_sound|]. intros [] s1 _.
  eapply safe_bind; [apply t_pop_packet_sound|]. intros [p|] s2 _; [done|apply IH].
Qed.

(** Every call but a close. *)
Definition closes (o : op) : Prop := match o with OpClose _ => True | _ => False end.

Lemma t_op_sound o s0 : valid_op o → ¬ closes o → sound (λ _ _, True) s0 (t_op (K:=K) o).
Proof.
  intros Ho Hc. destruct o; cbn [t_op]; try done;
    (eapply safe_bind with (Q := λ _ _, True); [|done]).
  - eapply safe_bind; [apply pop_incoming_sound|]. intros [c|] s _; [done|apply t_incoming_loop_sound].
  - eapply safe_bind; [apply t_pop_packet_sound|]. intros [p|] s _; [done|apply t_channel_loop_sound].
  - destruct Ho as [q Hq]. apply call_sound; [eexists _, _, _; by apply poll_send_refines|].
    unfold poll_send. keeps_steps.
  - apply call_sound; [eexists _, _, _; apply outgoing_refines|]. unfold outgoing. keeps_steps.
  - apply call_sound; [|unfold local_addr; keeps_steps].
    eexists _, (zoom a_sock a_set_sock udp_local_addr ≫= λ a, mret (from_socket_addr a)),
      (λ a b _, a = b).
    eapply refines_bind; [apply refines_zoom, local_addr_no_panic|].
    intros a b. apply refines_ret. by intros s ->.
  - apply call_sound; [eexists _, _, _; apply refines_zoom, ttl_no_panic|]. unfold ttl. keeps_steps.
  - apply call_sound; [eexists _, _, _; apply refines_zoom, set_ttl_no_panic|].
    unfold set_ttl. keeps_steps.
Qed.

(** The threads a program may start that closes no channel, and what the
    network does meanwhile. *)
Definition no_close (t : T (list (Channel * datagram))) : Prop :=
  ∃ o, valid_op o ∧ ¬ closes o ∧ t = t_op o.

Definition network (s s' : isock) : Prop := ∃ k, s' = set_socket k s.

(** C7: Invariant under interference.  From [bind] on, let any number of
    threads call the socket in any order, their critical sections interleaved
    in any way, with whatever the network delivers in between: as long as no
    call closes a channel, the tables of channels and queues agree after
    every section, and no thread is about to panic. *)
Theorem concurrent_safe addr (s0 s : isock) ts : bind addr = Ok s0 →
  rtc (pool_step no_close network) (s0, []) (s, ts) → Inv s ∧ ¬ about_to_panic (s, ts).
Proof.
  intros [Hi _]%bind_inv Hs.
  destruct (pool_reachable_ok no_close network Inv keys_kept (s0, []) (s, ts)) as [[? _] ?];
    [| |exact Hs| |done].
  - intros t s1 (o & Ho & Hc & ->) _. by apply t_op_sound.
  - intros s1 s2 [k ->] H. split; [by apply network_inv|by apply keys_same].
  - by split.
Qed.

(** ** A close that overlaps a receive *)

Lemma recv_packet_returns (s : isock) id data peer n e k : Inv s →
  udp_poll_recv buffer_len (socket s) = Return (id :: data, peer, n, e) k →
  ∃ p s', recv_packet s = Return (MkChannel (from_socket_addr peer) id, p) s' ∧ Inv s' ∧
    keys_kept s s' ∧ abs s' = a_set_sock k (abs s) ∧ datagram_of p = Datagram e (id :: data).
Proof.
  intros Hi E. pose proof (transfer _ _ _ s recv_packet_refines Hi) as H.
  unfold zoom in H; run in H. cbn [a_sock abs] in H. rewrite E in H. cbn in H.
  destruct H as ([c p] & s' & Hr & [Hcp Hd] & Hi' & Ha). cbn in Hcp, Hd. subst c.
  exists p, s'. split_and!; try done. apply (keeps_recv_packet s). by rewrite Hr.
Qed.

Lemma connection_id_known (s : isock) c i : channel_lookup s !! c = Some i →
  connection_id c s = Return (Some i) s.
Proof. intros Hc. unfold connection_id; run. unfold gets. by rewrite Hc. Qed.

#[local] Abbreviation interleaves :=
  (rtc (pool_step (λ _ : T (list (Channel * datagram)), False) (λ _ _, False))).

(** The thread at [i] runs its next section and leaves the state [s]. *)
Ltac schedule i s :=
  eapply (pool_runs _ _ i _ _ _ s);
    [reflexivity
    |cbn [t_op]; unfold t_poll_incoming, t_poll_channel, t_close; cbn [t_incoming_loop t_channel_loop];
     unfold t_poll_recv, t_pop_packet, t_announce; cbn beta iota; next_section
    |cbn [insert list_insert]].

(** [close] to its end, while the other thread waits. *)
Lemma close_runs (s : isock) c i : Inv s → channel_lookup s !! c = Some i →
  ∃ s', (∀ t, interleaves (s, [t_op (OpClose c); t]) (s', [Finished []; t])) ∧
    slab_entries (connections s') !! i = None.
Proof.
  intros Hi Hc. destruct (queue_of_Some s c i Hi Hc) as (q & Hq & _).
  destruct (slab_remove_spec _ _ _ _ Hq) as (conns & Hrem & Hent).
  set (s1 := set_channels (channels s ∖ {[c]}) s).
  set (s2 := set_lookup (delete c (channel_lookup s)) s1).
  exists (set_connections conns s2). split; [intros t|cbn; by rewrite Hent, lookup_delete_eq].
  schedule 0%nat s1; [done|].
  schedule 0%nat s1; [run; by rewrite (connection_id_known s1 c i)|].
  schedule 0%nat s2; [done|].
  schedule 0%nat (set_connections conns s2); [|reflexivity].
  run. unfold gets. cbn. by rewrite Hrem.
Qed.

(** C20: A close that overlaps a receive.  If a datagram for channel [c] is the
    next to arrive and [c] has a queue, then a thread that closes [c] while
    another waits for incoming channels can make the second one panic: the
    receive looks the key of [c] up, the close removes the queue, and the
    [unwrap] of the receive finds no queue under the key. *)
Theorem close_race_panics (s : isock) c i id data peer n e k fuel : Inv s →
  udp_poll_recv buffer_len (socket s) = Return (id :: data, peer, n, e) k →
  c = MkChannel (from_socket_addr peer) id → channel_lookup s !! c = Some i →
  sq_items (incoming s) = [] →
  ∃ s' ts, rtc (pool_step (λ _, False) (λ _ _, False))
      (s, [t_op (OpClose c); t_op (OpIncoming (S fuel))]) (s', ts) ∧
    about_to_panic (s', ts).
Proof.
  intros Hi E -> Hc Hin.
  destruct (recv_packet_returns s id data peer n e k Hi E) as (p & s1 & Hr & Hi1 & Hk1 & _).
  set (c := MkChannel (from_socket_addr peer) id) in *.
  pose proof (lookup_weaken _ _ _ _ Hc Hk1) as Hc1.
  assert (pop_incoming s = Return None s) as Hpop.
  { unfold pop_incoming; run. unfold gets. by rewrite sq_pop_empty. }
  destruct (close_runs s1 c i Hi1 Hc1) as (s2 & Hclose & Hnone).
  eexists s2, _. split.
  - schedule 1%nat s; [exact Hpop|].
    schedule 1%nat s1; [exact Hr|].
    schedule 1%nat s1; [by apply connection_id_known|].
    apply Hclose.
  - eapply (pool_panics 1); [done|]. next_section. unfold push_packet; run. unfold gets.
    by rewrite slab_get_spec, Hnone.
Qed.

(** ** Two receives that overlap *)

(** A taken channel [c] with its key, the datagrams waiting on it, and the
    operating system. *)
Record listening (c : Channel) (i : nat) (q : list datagram) (k : K) (s : isock) : Prop := {
  li_inv : Inv s;
  li_key : channel_lookup s !! c = Some i;
  li_taken : c ∈ channels s;
  li_queue : a_conns (abs s) !! c = Some q;
  li_socket : socket s = k
}.

Lemma listening_recv c i q k k' (s : isock) id data peer n e : listening c i q k s →
  udp_poll_recv buffer_len k = Return (id :: data, peer, n, e) k' →
  ∃ p s', recv_packet s = Return (MkChannel (from_socket_addr peer) id, p) s' ∧
    listening c i q k' s' ∧ datagram_of p = Datagram e (id :: data).
Proof.
  intros [Hi Hc Ht Hq Hk] E. rewrite <-Hk in E.
  destruct (recv_packet_returns s id data peer n e k' Hi E) as (p & s' & Hr & Hi' & Hkeep & Ha & Hp).
  exists p, s'. split_and!; [done| |done]. split.
  - done.
  - by eapply lookup_weaken.
  - change (channels s') with (a_taken (abs s')). by rewrite Ha.
  - by rewrite Ha.
  - change (socket s') with (a_sock (abs s')). by rewrite Ha.
Qed.

Lemma listening_push c i q k (s : isock) p : listening c i q k s →
  ∃ s', push_packet i p s = Return () s' ∧ listening c i (q ++ [datagram_of p]) k s'.
Proof.
  intros [Hi Hc Ht Hq Hk]. destruct (queue_of_Some s c i Hi Hc) as (q' & Hq' & Ha).
  eexists. split; [unfold push_packet; run; unfold gets; by rewrite slab_get_spec, Hq'|].
  destruct (set_queue_abs s c i (sq_push p q') Hi Hc) as [Hi' Ha']. split; try done.
  rewrite Ha'. cbn [a_conns a_set_conns]. rewrite lookup_insert_eq, sq_items_push, fmap_app.
  cbn. do 2 f_equal. congruence.
Qed.

Lemma listening_pop c i q k (s : isock) : listening c i q k s →
  match q with
  | [] => pop_queue i s = Return None s
  | d :: q => ∃ p s', pop_queue i s = Return (Some p) s' ∧ datagram_of p = d ∧ listening c i q k s'
  end.
Proof.
  intros [Hi Hc Ht Hq Hk]. destruct (queue_of_Some s c i Hi Hc) as (q' & Hq' & Ha).
  rewrite Hq in Ha. injection Ha as ->. unfold pop_queue; run. unfold gets.
  rewrite slab_get_spec, Hq'. cbn [unwrap]. unfold mret, M_ret.
  destruct (sq_items q') as [|p l] eqn:El; cbn.
  - by rewrite sq_pop_empty.
  - destruct (sq_pop_cons _ _ _ _ El) as (q2 & -> & <-). eexists p, _. split_and!; [done|done|].
    destruct (set_queue_abs s c i q2 Hi Hc) as [Hi' Ha']. split; try done.
    rewrite Ha'. cbn [a_conns a_set_conns]. by rewrite lookup_insert_eq.
Qed.

(** Two receives that overlap can swap datagrams.  A thread waits on a
    channel it has taken, another for incoming channels; two datagrams for the
    channel arrive.  The interleaving in which the first thread takes the
    first datagram from the system, and the second thread takes and queues the
    second before the first is queued, hands the second datagram to the
    client first.  The order of arrival that the atomic calls keep on every
    channel is not kept between threads. *)
Theorem receive_race_reorders (s : isock) c i k0 k1 k2 id data1 data2 peer n1 n2 e1 e2 n m :
  listening c i [] k0 s → sq_items (incoming s) = [] → c = MkChannel (from_socket_addr peer) id →
  udp_poll_recv buffer_len k0 = Return (id :: data1, peer, n1, e1) k1 →
  udp_poll_recv buffer_len k1 = Return (id :: data2, peer, n2, e2) k2 →
  ∃ s' t, rtc (pool_step (λ _, False) (λ _ _, False))
      (s, [t_op (OpRecv (S n) c); t_op (OpIncoming (S m))])
      (s', [Finished [(c, Datagram e2 (id :: data2))]; t]) ∧
    listening c i [Datagram e1 (id :: data1)] k2 s'.
Proof.
  intros Hs Hin -> E1 E2. set (c := MkChannel (from_socket_addr peer) id) in *.
  assert (pop_incoming s = Return None s) as Hinc.
  { unfold pop_incoming; run. unfold gets. by rewrite sq_pop_empty. }
  destruct (listening_recv _ _ _ _ _ _ _ _ _ _ _ Hs E1) as (p1 & s1 & R1 & Hs1 & Hp1).
  destruct (listening_recv _ _ _ _ _ _ _ _ _ _ _ Hs1 E2) as (p2 & s2 & R2 & Hs2 & Hp2).
  destruct (listening_push _ _ _ _ _ p2 Hs2) as (s3 & P3 & Hs3).
  destruct (listening_push _ _ _ _ _ p1 Hs3) as (s4 & P4 & Hs4).
  destruct (listening_pop _ _ _ _ _ Hs4) as (p & s5 & P5 & Hp & Hs5).
  rewrite Hp1 in Hs5. rewrite Hp2 in Hp. fold c in R1, R2.
  eexists s5, _. split; [|exact Hs5].
  pose proof (li_key _ _ _ _ _ Hs) as K0. pose proof (li_key _ _ _ _ _ Hs2) as K2.
  pose proof (li_key _ _ _ _ _ Hs3) as K3. pose proof (li_key _ _ _ _ _ Hs4) as K4.
  schedule 0%nat s; [by apply connection_id_known|].
  schedule 0%nat s; [by apply (listening_pop _ _ _ _ _ Hs)|].
  schedule 1%nat s; [exact Hinc|].
  schedule 0%nat s1; [exact R1|].
  schedule 1%nat s2; [exact R2|].
  schedule 1%nat s2; [by apply connection_id_known|].
  schedule 1%nat s3; [exact P3|].
  schedule 0%nat s3; [by apply connection_id_known|].
  schedule 0%nat s4; [exact P4|].
  schedule 0%nat s4; [done|]. rewrite decide_True by apply (li_taken _ _ _ _ _ Hs4).
  change (mret () ≫= ?f) with (f ()); cbn beta.
  schedule 0%nat s4; [by apply connection_id_known|].
  schedule 0%nat s5; [exact P5|].
  rewrite <-Hp. reflexivity.
Qed.
End interference.
