(* ===== verification/DtpRaces.v ===== *)
(** * The multiplexing socket between threads: runs over the reference system

    The theorems of DtpConcurrent.v at concrete inputs: a socket with one
    channel taken, and the network about to deliver two datagrams for it. *)

From S2P Require Export DtpExamples DtpConcurrent.

Import Dtp Reference UdpReference.

#[local] Instance races_profile : Profile := dev.

Module DtpRaces.
Import DtpExample.

(** Two datagrams for channel 1. *)
Definition two : os := MkOs
  [Ok ([Byte.x01; Byte.xaa], peer, None);
   Ok ([Byte.x01; Byte.xcc], peer, None)] [] peer 64.

(** Channel 1 is taken, and its queue is empty. *)
Definition ready : InnerDtpSocket (K:=os) :=
  MkInner two {[0%nat := sq_new]} {[chan Byte.x01 := 0%nat]} {[chan Byte.x01]} sq_new.

Lemma ready_key : channel_lookup ready !! chan Byte.x01 = Some 0%nat.
Proof. apply lookup_singleton_eq. Defined.

Lemma ready_inv : Inv ready.
Proof.
  split; cbn.
  - intros c i [_ <-]%lookup_singleton_Some. by rewrite lookup_singleton_eq.
  - by intros c c' i [<- _]%lookup_singleton_Some [<- _]%lookup_singleton_Some.
  - intros i q [<- _]%lookup_singleton_Some. exists (chan Byte.x01). apply ready_key.
Defined.

Lemma ready_listening : listening (chan Byte.x01) 0 [] two ready.
Proof.
  split; [apply ready_inv|apply ready_key|cbn; by apply elem_of_singleton| |done].
  rewrite abs_conns, ready_key. cbn. unfold queue_of. cbn. by rewrite lookup_singleton_eq.
Defined.

(** A thread starts a receive while the network delivers. *)
Lemma concurrent_safe_witness :
  Inv start ∧ ¬ about_to_panic (start, [t_op (OpRecv 4 (chan Byte.x01))]).
Proof.
  apply (concurrent_safe local bound start _ bound_eq).
  apply (rtc_l _ _ (start, [])); [apply pool_env; by exists net|].
  apply rtc_once, (pool_start _ _ start []).
  exists (OpRecv 4 (chan Byte.x01)). split_and!; [exact I|by intros []|reflexivity].
Defined.

Lemma close_race_panics_witness : ∃ s' ts,
  rtc (pool_step (λ _, False) (λ _ _, False))
    (ready, [t_op (OpClose (chan Byte.x01)); t_op (OpIncoming 4)]) (s', ts) ∧
  about_to_panic (s', ts).
Proof.
  apply (close_race_panics ready (chan Byte.x01) 0 Byte.x01 [Byte.xaa] peer 2 false
    (MkOs [Ok ([Byte.x01; Byte.xcc], peer, None)] [] peer 64) 3);
    [apply ready_inv|vm_compute; reflexivity|reflexivity|apply ready_key|reflexivity].
Defined.

Lemma receive_race_reorders_witness : ∃ s' t,
  rtc (pool_step (λ _, False) (λ _ _, False))
    (ready, [t_op (OpRecv 4 (chan Byte.x01)); t_op (OpIncoming 4)])
    (s', [Finished [(chan Byte.x01, Datagram false [Byte.x01; Byte.xcc])]; t]) ∧
  listening (chan Byte.x01) 0 [Datagram false [Byte.x01; Byte.xaa]] (MkOs [] [] peer 64) s'.
Proof.
  apply (receive_race_reorders ready (chan Byte.x01) 0 two
    (MkOs [Ok ([Byte.x01; Byte.xcc], peer, None)] [] peer 64) (MkOs [] [] peer 64)
    Byte.x01 [Byte.xaa] [Byte.xcc] peer 2 2 false false 3 3);
    [apply ready_listening|reflexivity|reflexivity|vm_compute; reflexivity|vm_compute; reflexivity].
Defined.
End DtpRaces.
