(* ===== verification/DtpLedger.v ===== *)
(** * The multiplexing socket between threads: where every datagram is

    Threads call the socket, their critical sections interleave, and no
    channel is closed.  A log below the socket says which datagrams have
    arrived; each of them is then waiting on the channel it names, or
    was delivered there, or is in the hands of one thread. *)

From S2P Require Export DtpRaces Tickets.

Import Dtp.

(** ** A system that keeps a log of what it hands to the socket *)

Record logged (K : Type) : Type := MkLogged {
  log : list (list byte * SocketAddr * option EcnCodepoint);
  system : K
}.
Arguments MkLogged {K} _ _.
Arguments log {K} _.
Arguments system {K} _.

Section logged.
Context {K : Type} `{!UdpExt K} `{!UdpSocket K}.

Definition with_log {A} (l : logged K) (r : K * A) : logged K * A := (MkLogged (log l) r.1, r.2).

#[export] Instance logged_UdpExt : UdpExt (logged K) := {|
  init_ext l := with_log l (init_ext (system l));
  send_ext peer ecn msg l := with_log l (send_ext peer ecn msg (system l));
  recv_ext n l :=
    match recv_ext n (system l) with
    | (k, Ok r) => (MkLogged (log l ++ [r]) k, Ok r)
    | (k, Err e) => (MkLogged (log l) k, Err e)
    end
|}.

#[export] Instance logged_UdpExtLaws {UL : UdpExtLaws K} : UdpExtLaws (logged K).
Proof.
  refine {| backlog l := backlog (system l) |}.
  - intros n l l' data peer ecn Hn. cbn. destruct (recv_ext n (system l)) as [k [r|e]] eqn:E; [|done].
    intros [= _ ->]. by eapply recv_ext_fits.
  - intros n l l' r. cbn. destruct (recv_ext n (system l)) as [k [r'|e]] eqn:E; [|done].
    intros [= <- _]. by eapply recv_ext_consumes.
Defined.

#[export] Instance logged_UdpSocket : UdpSocket (logged K) := {|
  os_bind addr := match os_bind addr with Ok k => Ok (MkLogged [] k) | Err e => Err e end;
  os_local_addr l := os_local_addr (system l);
  os_ttl l := os_ttl (system l);
  os_set_ttl ttl l := with_log l (os_set_ttl ttl (system l))
|}.

(** The channel that a datagram names, and what is delivered there. *)
Definition claim (r : list byte * SocketAddr * option EcnCodepoint) : option (Channel * datagram) :=
  match r with
  | ([], _, _) => None
  | (id :: data, peer, ecn) =>
    Some (MkChannel (from_socket_addr peer) id,
          Datagram (match ecn with Some CE => true | _ => false end) (id :: data))
  end.

Definition arrivals (l : logged K) : list (Channel * datagram) := omap claim (log l).
End logged.

(** ** What waits in the tables *)

Definition waiting (m : gmap Channel (list datagram)) : list (Channel * datagram) :=
  '(c, q) ← map_to_list m; pair c <$> q.

Lemma waiting_insert m c q : m !! c = None → waiting (<[c := q]> m) ≡ₚ (pair c <$> q) ++ waiting m.
Proof. intros Hc. unfold waiting. by rewrite map_to_list_insert. Qed.

Lemma waiting_set m c q q' : m !! c = Some q →
  waiting m ≡ₚ (pair c <$> q) ++ waiting (delete c m) ∧
  waiting (<[c := q']> m) ≡ₚ (pair c <$> q') ++ waiting (delete c m).
Proof.
  intros Hc. split.
  - rewrite <-(waiting_insert (delete c m) c q) by apply lookup_delete_eq. by rewrite insert_delete_id.
  - rewrite <-(waiting_insert (delete c m) c q') by apply lookup_delete_eq. by rewrite insert_delete_eq.
Qed.

Lemma waiting_empty : waiting ∅ = [].
Proof. unfold waiting. by rewrite map_to_list_empty. Qed.

(** ** What a thread has in its hands

    [carries Q own s0 t]: from [s0] on, a thread that holds [own] and does
    [t], among others that keep [rely].  It holds at most one thing between
    two of its sections; each section keeps the books, whatever the others
    hold ([F]); a thread that waits or fails has nothing left. *)

Section carries.
Context {E S X : Type} (inv : S → Prop) (rely : relation S) `{!PreOrder rely} (books : S → list X → Prop).

Fixpoint carries {A} (Q : A → list X → S → Prop) (own : list X) (s0 : S) (t : thread E S A) : Prop :=
  match t with
  | Finished a => Q a own s0
  | Atomic m => (length own ≤ 1)%nat ∧ ∀ s F, rely s0 s → inv s → books s (own ++ F) →
    match m s with
    | Return t s' => ∃ own', books s' (own' ++ F) ∧ carries Q own' s' t
    | Throw _ s' | Suspend s' => books s' F
    | Panic | Diverge => True
    end
  end.

Lemma carries_bind {A B} (Q : A → list X → S → Prop) (R : B → list X → S → Prop) own s0
    (t : thread E S A) f :
  carries Q own s0 t → (∀ a own s, Q a own s → carries R own s (f a)) → carries R own s0 (t ≫= f).
Proof using Type.
  intros Ht Hf. revert own s0 Ht.
  induction t as [a|m IH] using thread_ind_run; intros own s0 Ht; [by apply Hf|].
  destruct Ht as [Hl Ht]. split; [done|]. intros s F Hs Hi Hb. specialize (Ht s F Hs Hi Hb).
  specialize (IH s). destruct (m s) as [t1 s'| | | |]; try done.
  destruct Ht as (own' & ? & ?). exists own'. split; [done|]. by apply (IH t1 s').
Qed.

Lemma carries_atomically {A} (Q : A → list X → S → Prop) own s0 (m : M E S A) : (length own ≤ 1)%nat →
  (∀ s F, rely s0 s → inv s → books s (own ++ F) →
    match m s with
    | Return a s' => ∃ own', books s' (own' ++ F) ∧ Q a own' s'
    | Throw _ s' | Suspend s' => books s' F
    | Panic | Diverge => True
    end) → carries Q own s0 (atomically m).
Proof using Type.
  intros Hl Hm. split; [done|]. intros s F Hs Hi Hb. specialize (Hm s F Hs Hi Hb). by destruct (m s).
Qed.

Lemma carries_rely {A} (Q : A → list X → S → Prop) own s s' (t : thread E S A) :
  (∀ a, Q a own s → Q a own s') → carries Q own s t → rely s s' → carries Q own s' t.
Proof using PreOrder0.
  intros HQ Ht Hs. destruct t as [a|m]; [by apply HQ|]. destruct Ht as [Hl Ht]. split; [done|].
  intros s1 F H1. apply Ht. by etrans.
Qed.

(** ** A pool whose threads return what they hold *)

Context (starts : thread E S (list X) → Prop) (env : relation S).
Hypothesis books_perm : ∀ s l l', l ≡ₚ l' → books s l → books s l'.
Hypothesis starts_safe : ∀ t s, starts t → inv s → safe inv rely (λ _ _, True) s t.
Hypothesis starts_carries : ∀ t s, starts t → carries (λ l own _, own = l) [] s t.
Hypothesis env_keeps : ∀ s s', env s s' → inv s → inv s' ∧ rely s s'.
Hypothesis env_books : ∀ s s' l, env s s' → books s l → books s' l.

#[local] Abbreviation carries_all s := (Forall2 (λ t own, carries (λ l own _, own = l) own s t)).

Definition pool_carries (p : pool) : Prop :=
  ∃ owns, books p.1 (mjoin owns) ∧ carries_all p.1 p.2 owns.

Lemma carries_all_rely s s' ts owns : rely s s' → carries_all s ts owns → carries_all s' ts owns.
Proof using PreOrder0.
  intros Hs Hts. eapply Forall2_impl; [exact Hts|]. intros t own Ht.
  by apply (carries_rely _ own s s').
Qed.

Lemma pool_step_carries p p' : pool_step starts env p p' →
  pool_ok inv rely p → pool_carries p → pool_carries p'.
Proof using All.
  intros Hp Hok (owns & Hb & Hts).
  destruct Hp as [s ts t Ht|s ts i m t s' Hm Hr|s ts i m s' Hm Hr|s ts s' He]; cbn in *.
  - exists (owns ++ [[]]). split; [rewrite join_app; cbn; by rewrite app_nil_r|].
    apply Forall2_app; [done|]. constructor; [by apply starts_carries|done].
  - destruct Hok as [Hi Hsafe]. cbn in *.
    pose proof (Forall_lookup_1 _ _ _ _ Hsafe Hm s (reflexivity s) Hi) as Hs. rewrite Hr in Hs.
    destruct (Forall2_lookup_l _ _ _ _ _ Hts Hm) as (own & Ho & _ & H).
    specialize (H s _ (reflexivity s) Hi (books_perm _ _ _ (mjoin_lookup _ _ _ Ho) Hb)). rewrite Hr in H.
    destruct H as (own' & Hb' & Ht). exists (<[i := own']> owns). split.
    + by eapply books_perm, Hb'; rewrite (mjoin_insert _ _ _ _ Ho).
    + apply Forall2_insert; [|done]. eapply carries_all_rely, Hts. by apply Hs.
  - destruct Hok as [Hi Hsafe]. cbn in *.
    pose proof (Forall_lookup_1 _ _ _ _ Hsafe Hm s (reflexivity s) Hi) as Hs.
    destruct (Forall2_lookup_l _ _ _ _ _ Hts Hm) as (own & Ho & _ & H).
    specialize (H s _ (reflexivity s) Hi (books_perm _ _ _ (mjoin_lookup _ _ _ Ho) Hb)).
    exists (delete i owns). assert (rely s s' ∧ books s' (mjoin (delete i owns))) as [Hrely Hb'].
    { destruct Hr as [Hr|[e Hr]]; rewrite Hr in H, Hs; by split; [apply Hs|]. }
    split; [done|]. apply Forall2_delete. by eapply carries_all_rely.
  - exists owns. split; [by eapply env_books|]. eapply carries_all_rely, Hts.
    by apply (env_keeps s s' He), Hok.
Qed.

Lemma pool_reachable_carries s0 p : inv s0 → books s0 [] →
  rtc (pool_step starts env) (s0, []) p → pool_carries p.
Proof using All.
  intros Hi Hb Hp. assert (pool_ok inv rely p ∧ pool_carries p) as [_ ?]; [|done].
  revert p Hp. apply (rtc_ind_r (λ q, pool_ok inv rely q ∧ pool_carries q)).
  - split; [by split|]. exists []. split; [done|constructor].
  - intros q r _ Hqr [Hok Hc]. split; [by eapply pool_step_ok|by eapply pool_step_carries].
Qed.
End carries.

(** ** The sections of the socket *)

Section socket.
Context {BC : BytesCrate} {BL : BytesLaws BC}.
Context {SQ : SegQueueCrate} {SQL : SegQueueLaws SQ}.
Context {SL : SlabCrate} {SLL : SlabLaws SL} {PR : Profile}.
Context {K : Type} `{!UdpExt K} `{!UdpExtLaws K} `{!UdpSocket K}.
#[local] Abbreviation isock := (InnerDtpSocket (K:=logged K)).
#[local] Abbreviation asock := (ASock (logged K)).
#[local] Abbreviation T := (thread io_error isock).
#[local] Abbreviation item := (Channel * datagram)%type.

(** What has arrived is waiting, or it is held: by a thread, or by the client
    it was delivered to. *)
Definition a_books (a : asock) (held : list item) : Prop :=
  arrivals (a_sock a) ≡ₚ waiting (a_conns a) ++ held.

Definition books (s : isock) : list item → Prop := a_books (abs s).

#[local] Abbreviation carries := (carries Inv keys_kept books).

Lemma books_perm s l l' : l ≡ₚ l' → books s l → books s l'.
Proof. unfold books, a_books. by intros ->. Qed.

(** A section, by its specification. *)
Lemma carries_refines {A B} P (Pa : asock → Prop) (m : M io_error isock A) (m' : M io_error asock B) Q
    own (R : A → list item → isock → Prop) s0 :
  (length own ≤ 1)%nat → refines P m m' Q →
  (∀ s, Inv s → keys_kept s0 s → P s ∧ Pa (abs s)) →
  (∀ a F, Pa a → a_books a (own ++ F) →
    match m' a with
    | Return b a' => ∀ x s', Q x b s' → ∃ own', a_books a' (own' ++ F) ∧ R x own' s'
    | Throw _ a' | Suspend a' => a_books a' F
    | Panic | Diverge => True
    end) → carries R own s0 (atomically m).
Proof.
  intros Hl Hr HP Hm. apply carries_atomically; [done|]. intros s F Hs Hi Hb.
  destruct (HP s Hi Hs) as [Hp Hpa]. specialize (Hr s Hi Hp). specialize (Hm (abs s) F Hpa Hb).
  destruct (m s) as [x s'|e s'|s'| |], (m' (abs s)) as [b a'|e' a'|a'| |]; try done.
  - destruct Hr as (Hq & _ & ->). by apply Hm.
  - by destruct Hr as (_ & _ & ->).
  - by destruct Hr as (_ & ->).
Qed.

(** A section that neither receives nor looks at a queue. *)
Definition quiet (s s' : isock) : Prop :=
  log (socket s') = log (socket s) ∧ connections s' = connections s ∧ channel_lookup s' = channel_lookup s.

Lemma quiet_books s s' l : quiet s s' → books s l → books s' l.
Proof.
  destruct s, s'. unfold quiet, books, a_books, abs, arrivals. cbn. by intros (-> & -> & ->).
Qed.

Lemma carries_quiet {A} (m : M io_error isock A) s0 :
  (∀ s, match m s with
        | Return _ s' | Throw _ s' | Suspend s' => quiet s s'
        | Panic | Diverge => True
        end) → carries (λ _ own _, own = []) [] s0 (atomically m).
Proof.
  intros Hm. apply carries_atomically; [cbn; lia|]. intros s F _ _ Hb. specialize (Hm s).
  destruct (m s) as [x s'|e s'|s'| |]; try done; [exists []; split; [|done]|..]; by eapply quiet_books.
Qed.

(** Receiving puts the datagram that was logged into the thread's hands. *)
Lemma carries_recv_packet s0 :
  carries (λ r own _, own = [(r.1, datagram_of r.2)]) [] s0 (atomically recv_packet).
Proof.
  eapply (carries_refines (λ _, True) (λ _, True)); [cbn; lia|apply recv_packet_refines|done|].
  intros a F _ Hb. unfold zoom, udp_poll_recv; run. cbn [recv_ext logged_UdpExt].
  unfold a_books, arrivals in *.
  destruct (recv_ext buffer_len (system (a_sock a))) as [k [[[data peer] ecn]|e]] eqn:E; cbn;
    [|by case_decide].
  destruct data as [|id data]; cbn; rewrite omap_app; cbn; [by rewrite app_nil_r|].
  intros [c p] s' [Hc Hd]. cbn in Hc, Hd. subst c. exists [(MkChannel (from_socket_addr peer) id, datagram_of p)].
  split; [|done]. rewrite Hb, Hd. cbn. solve_Permutation.
Qed.

(** Looking a channel up gives it a queue, and moves nothing. *)
Lemma carries_connection_id c own s0 : (length own ≤ 1)%nat →
  carries (λ o own' s, own' = own ∧ connected c o s) own s0 (atomically (connection_id c)).
Proof.
  intros Hl. eapply (carries_refines (λ _, True) (λ _, True)); [done|apply connection_id_refines|done|].
  intros a F _ Hb. unfold a_connect; run. intros o s' Ho. exists own. split; [|done].
  unfold a_books in *. destruct (a_conns a !! c) eqn:E; [done|]. cbn. by rewrite waiting_insert.
Qed.

Lemma key_queue (s0 s : isock) c i : channel_lookup s0 !! c = Some i → Inv s → keys_kept s0 s →
  channel_lookup s !! c = Some i ∧ is_Some (a_conns (abs s) !! c).
Proof.
  intros Hc Hi Hs. assert (channel_lookup s !! c = Some i) as Hc' by by eapply lookup_weaken.
  split; [done|]. destruct (queue_of_Some s c i Hi Hc') as (q & _ & ->). eauto.
Qed.

(** From the hands of the thread to the queue, and from the queue. *)
Lemma carries_push_packet c i p s0 : channel_lookup s0 !! c = Some i →
  carries (λ _ own _, own = []) [(c, datagram_of p)] s0 (atomically (push_packet i p)).
Proof.
  intros Hc. eapply (carries_refines (λ s, channel_lookup s !! c = Some i) (λ a, is_Some (a_conns a !! c)));
    [done|apply push_packet_refines|intros s; by apply key_queue|].
  intros a F [q Hq] Hb. cbn. intros _ s' _. exists []. split; [|done]. unfold a_books in *. cbn.
  rewrite (alter_lookup _ _ _ _ Hq). destruct (waiting_set _ c q (q ++ [datagram_of p]) Hq) as [H1 H2].
  rewrite H2, Hb, H1, fmap_app. cbn. solve_Permutation.
Qed.

Lemma carries_pop_queue c i s0 : channel_lookup s0 !! c = Some i →
  carries (λ o own _, own = option_list (pair c ∘ datagram_of <$> o)) [] s0 (atomically (pop_queue i)).
Proof.
  intros Hc. eapply (carries_refines (λ s, channel_lookup s !! c = Some i) (λ a, is_Some (a_conns a !! c)));
    [cbn; lia|apply pop_queue_refines|intros s; by apply key_queue|].
  intros a F [q Hq] Hb. unfold a_pop_packet, a_connect; run. rewrite Hq. cbn. rewrite Hq.
  destruct q as [|d q]; cbn.
  - intros [p|] s'; [done|]. intros _. by exists [].
  - intros [p|] s'; [|done]. intros [= <-]. exists [(c, datagram_of p)]. split; [|done].
    unfold a_books in *. cbn. destruct (waiting_set _ c _ q Hq) as [H1 H2].
    rewrite H2, Hb, H1. cbn. solve_Permutation.
Qed.

(** ** The calls *)

#[local] Abbreviation none := (λ _ (own : list item) (_ : isock), own = []).

Lemma carries_announce c s0 : carries none [] s0 (t_announce c).
Proof.
  eapply carries_bind; [by apply carries_quiet|]. intros taken own s ->.
  case_decide; [done|by apply carries_quiet].
Qed.

Lemma carries_poll_recv s0 : carries none [] s0 t_poll_recv.
Proof.
  eapply carries_bind; [apply carries_recv_packet|]. intros [c p] own s ->.
  eapply carries_bind; [by apply carries_connection_id|]. intros o own s1 [-> (i & -> & Hi)].
  eapply carries_bind; [by apply carries_push_packet|]. intros [] own s2 ->. apply carries_announce.
Qed.

Lemma carries_pop_packet c s0 :
  carries (λ o own _, own = option_list (pair c ∘ datagram_of <$> o)) [] s0 (t_pop_packet c).
Proof.
  eapply carries_bind; [apply carries_connection_id; cbn; lia|]. intros o own s [-> (i & -> & Hi)].
  by apply carries_pop_queue.
Qed.

Lemma carries_channel_loop fuel c s0 :
  carries (λ p own _, own = [(c, datagram_of p)]) [] s0 (t_channel_loop fuel c).
Proof.
  revert s0. induction fuel as [|fuel IH]; intros s0; cbn [t_channel_loop]; [by split; [cbn; lia|]|].
  eapply carries_bind; [apply carries_poll_recv|]. intros [] own s ->.
  eapply carries_bind; [apply carries_pop_packet|]. intros [p|] own s1 ->; [done|apply IH].
Qed.

Lemma carries_pop_incoming s0 : carries none [] s0 (atomically pop_incoming).
Proof.
  apply carries_quiet. intros s. unfold pop_incoming; run. by destruct (sq_pop (incoming s)) as [[]|].
Qed.

Lemma carries_incoming_loop fuel s0 : carries none [] s0 (t_incoming_loop fuel).
Proof.
  revert s0. induction fuel as [|fuel IH]; intros s0; cbn [t_incoming_loop]; [by split; [cbn; lia|]|].
  eapply carries_bind; [apply carries_poll_recv|]. intros [] own s ->.
  eapply carries_bind; [apply carries_pop_incoming|]. intros [c|] own s1 ->; [|apply IH].
  eapply carries_bind.
  { apply carries_quiet. intros s2. unfold take_channel; run. by case_decide. }
  intros [] own s2 ->; [done|apply IH].
Qed.

(** A call holds, when it returns, the datagrams it delivers. *)
Lemma carries_op o s0 : ¬ closes o → carries (λ ds own _, own = ds) [] s0 (t_op (K:=logged K) o).
Proof.
  intros Hc.
  assert (∀ A (t : T A), carries none [] s0 t → carries (λ ds own _, own = ds) [] s0 (t;; mret [])) as Hnone.
  { intros A t Ht. eapply carries_bind; [exact Ht|]. by intros a own s ->. }
  destruct o; cbn [t_op]; try (by destruct Hc); try apply Hnone.
  - eapply carries_bind; [apply carries_pop_incoming|]. intros [c|] own s ->; [done|apply carries_incoming_loop].
  - eapply (carries_bind _ _ _ (λ p own _, own = [(c, datagram_of p)])); [|by intros p own s ->].
    eapply carries_bind; [apply carries_pop_packet|]. intros [p|] own s ->; [done|apply carries_channel_loop].
  - apply carries_quiet. intros s. unfold poll_send, zoom, udp_poll_send; run.
    destruct (set_channel (channel_id c) p) as [p'|]; [|done]. cbn.
    destruct (send_ext _ _ _ (system _)) as [k [n|e]]; cbn; [done|by case_decide].
  - apply carries_quiet. intros s. unfold outgoing; run. by case_decide.
  - apply carries_quiet. intros s. unfold local_addr, zoom, udp_local_addr; run. cbn.
    by destruct (os_local_addr _).
  - apply carries_quiet. intros s. unfold ttl, zoom, udp_ttl; run. cbn. by destruct (os_ttl _).
  - apply carries_quiet. intros s. unfold set_ttl, zoom, udp_set_ttl; run. cbn.
    by destruct (os_set_ttl _ (system _)) as [k [|]].
Qed.

(** ** Where every datagram is *)

(** What the threads that have returned have delivered, and how many have not
    returned. *)
Definition delivered (ts : list (T (list item))) : list item :=
  t ← ts; match t with Finished ds => ds | Atomic _ => [] end.

Definition running (ts : list (T (list item))) : nat :=
  length (t ← ts; match t with Finished _ => [] | Atomic _ => [()] end).

Definition queued (s : isock) : list item := waiting (a_conns (abs s)).

Lemma owns_delivered s ts owns :
  Forall2 (λ t own, carries (λ ds own _, own = ds) own s t) ts owns →
  ∃ hands, mjoin owns ≡ₚ delivered ts ++ hands ∧ (length hands ≤ running ts)%nat.
Proof.
  induction 1 as [|[ds|m] own ts owns Ht _ (hands & Hp & Hl)]; [by exists []|..].
  - cbn in Ht. subst own. exists hands. cbn. rewrite Hp. split; [|exact Hl]. cbn. solve_Permutation.
  - destruct Ht as [Hlen _]. exists (own ++ hands). cbn. rewrite Hp. unfold delivered, running in *. cbn.
    split; [solve_Permutation|]. rewrite length_app. lia.
Qed.

(** The network delivers, and the log does not change. *)
Definition network_only (s s' : isock) : Prop := ∃ k, s' = set_socket (MkLogged (log (socket s)) k) s.

(** The first books: nothing has arrived. *)
Lemma bind_books addr (s : isock) : bind addr = Ok s → books s [].
Proof.
  intros Hb. pose proof (proj2 (bind_inv addr s Hb)) as Habs. unfold books, a_books. rewrite Habs. cbn.
  rewrite waiting_empty. unfold bind, udp_bind in Hb. cbn in Hb.
  destruct (os_bind (socket_addr addr)) as [k|]; [|done]. cbn in Hb.
  destruct (init_ext k) as [k' [|]]; cbn in Hb; [|done]. by injection Hb as <-.
Qed.

(** C8: No datagram is lost, duplicated or misdelivered between threads.  From
    [bind] on, let any number of threads call the socket, their critical
    sections interleaved in any way, with whatever the network delivers in
    between; no call closes a channel.  At every moment the datagrams that the
    system has handed to the socket, each with the channel that its peer and
    its first byte name (empty ones are refused), are exactly: those that
    receives have returned, on that channel; those queued on that channel; and
    at most one in the hands of each thread that has not returned. *)
Theorem datagrams_conserved addr (s0 s : isock) ts : bind addr = Ok s0 →
  rtc (pool_step no_close network_only) (s0, []) (s, ts) →
  ∃ hands, arrivals (socket s) ≡ₚ delivered ts ++ queued s ++ hands ∧ (length hands ≤ running ts)%nat.
Proof.
  intros Hb Hs.
  destruct (pool_reachable_carries Inv keys_kept books no_close network_only) with (s0 := s0) (p := (s, ts))
    as (owns & Hbooks & Hts); try done.
  - apply books_perm.
  - intros t s1 (o & Ho & Hc & ->) _. by apply t_op_sound.
  - intros t s1 (o & Ho & Hc & ->). by apply carries_op.
  - intros s1 s2 [k ->] Hi. split; [by apply network_inv|by apply keys_same].
  - intros s1 s2 l [k ->]. by apply quiet_books.
  - by apply (bind_inv addr).
  - by apply (bind_books addr).
  - destruct (owns_delivered s ts owns Hts) as (hands & Hp & Hl). exists hands. split; [|done].
    cbn in Hbooks. unfold books, a_books in Hbooks. rewrite Hp in Hbooks.
    etrans; [exact Hbooks|]. unfold queued. solve_Permutation.
Qed.
End socket.

(** ** Runs by a script *)

Section script.
Context {BC : BytesCrate} {SQ : SegQueueCrate} {SL : SlabCrate} {PR : Profile}.
Context {K : Type} `{!UdpExt K} `{!UdpSocket K}.
#[local] Abbreviation isock := (InnerDtpSocket (K:=logged K)).
#[local] Abbreviation T := (thread io_error isock (list (Channel * datagram))).

(** A call starts, a thread makes a section, the network delivers. *)
Inductive event : Type := Begin (o : op) | Go (i : nat) | Deliver (k : K).

Definition act (p : isock * list T) (e : event) : option (isock * list T) :=
  match e with
  | Begin o => Some (p.1, p.2 ++ [t_op o])
  | Go i =>
    match p.2 !! i with
    | Some (Atomic m) =>
      match m p.1 with
      | Return t s => Some (s, <[i := t]> p.2)
      | Suspend s | Throw _ s => Some (s, delete i p.2)
      | _ => None
      end
    | _ => None
    end
  | Deliver k => Some (set_socket (MkLogged (log (socket p.1)) k) p.1, p.2)
  end.

Definition play (es : list event) (p : isock * list T) : option (isock * list T) :=
  foldl (λ p e, p ≫= λ p, act p e) (Some p) es.

Definition allowed (e : event) : Prop :=
  match e with Begin o => valid_op o ∧ ¬ closes o | _ => True end.

Lemma act_step p e q : allowed e → act p e = Some q → pool_step no_close network_only p q.
Proof.
  destruct p as [s ts]. intros He Hq. destruct e as [o|i|k]; cbn in Hq.
  - injection Hq as <-. apply pool_start. exists o. by destruct He.
  - destruct (ts !! i) as [[|m]|] eqn:Ei; try done.
    destruct (m s) eqn:Em; simplify_eq; eauto using pool_step.
  - injection Hq as <-. apply pool_env. by exists k.
Qed.

Lemma play_steps es p q : Forall allowed es → play es p = Some q →
  rtc (pool_step no_close network_only) p q.
Proof.
  unfold play. revert q. induction es as [|e es IH] using rev_ind; intros q Hes Hq; [by injection Hq as <-|].
  apply Forall_app in Hes as [Hes [He _]%Forall_cons]. rewrite foldl_snoc in Hq.
  destruct (foldl _ _ es) as [p1|] eqn:E; [|done]. eapply rtc_r; [by apply IH|]. by eapply act_step.
Qed.
End script.

Module DtpLedgerExample.
Import Reference UdpReference DtpExample.

#[local] Instance ledger_profile : Profile := dev.

(** A fresh socket; three datagrams arrive on two channels while one thread
    receives on the first channel and another waits for incoming channels;
    then a third thread receives on the first channel. *)
Definition empty : InnerDtpSocket (K:=logged os) :=
  MkInner (MkLogged [] (MkOs [] [] peer 64)) slab_new ∅ ∅ sq_new.

Definition race : list event :=
  [Begin (OpIncoming 4); Begin (OpRecv 4 (chan Byte.x01)); Deliver net] ++
  (Go <$> [0; 1; 1; 1; 0; 0; 0; 1; 1; 1; 0; 1; 1; 1]%nat) ++
  [Begin (OpRecv 4 (chan Byte.x01)); Go 2; Go 2; Go 2].

Lemma race_allowed : Forall allowed race.
Proof. unfold race. cbn. repeat constructor; by intros []. Qed.

Abbreviation played := (play race (empty, [])).

(** The receive has returned the first datagram, the second waits, and the
    third is in the hands of another receive. *)
Example played_books :
  (λ '(s, ts), (arrivals (socket s), delivered ts, queued s, running ts)) <$> played =
  Some ([(chan Byte.x01, Datagram false [Byte.x01; Byte.xaa]);
         (chan Byte.x02, Datagram true [Byte.x02; Byte.xbb]);
         (chan Byte.x01, Datagram false [Byte.x01; Byte.xcc])],
        [(chan Byte.x01, Datagram false [Byte.x01; Byte.xaa])],
        [(chan Byte.x02, Datagram true [Byte.x02; Byte.xbb])], 2%nat).
Proof. vm_compute. reflexivity. Qed.

Lemma datagrams_conserved_witness :
  match played with
  | Some (s, ts) => ∃ hands, arrivals (socket s) ≡ₚ delivered ts ++ queued s ++ hands ∧
                             (length hands ≤ running ts)%nat
  | None => False
  end.
Proof.
  assert (match played with Some _ => True | None => False end) as Hsome by (vm_compute; exact I).
  destruct played as [[s ts]|] eqn:E; [|exact Hsome].
  apply (datagrams_conserved local empty s ts); [reflexivity|].
  exact (play_steps race (empty, []) (s, ts) race_allowed E).
Defined.
End DtpLedgerExample.
