(* ===== verification/DtpLink.v ===== *)
(** * Two sockets over a network that delivers

    The interface [Network]: what two hosts see of a network that carries
    datagrams from one to the other, in order and without loss.  Over such a
    network, a channel between two multiplexing sockets is a reliable channel
    in the sense of Channel.v, for payloads that fit a datagram. *)

From S2P Require Export DtpProps.

Import Dtp.

(** ** The network *)

(** [host k] is the address the others see, [coming k] the datagrams that will
    be received, in order.  [idle k]: everything sent has been carried away.
    [carry k1 k2] carries what the first host sent to the second. *)
Class Network (K : Type) `{!UdpExt K} : Type := {
  host : K → SocketAddr;
  coming : K → list arrival;
  idle : K → Prop;
  carry : K → K → K * K;
  MTU : Z
}.

(** The same host, with nothing more to send. *)
Definition steady {K} `{!UdpExt K} `{!Network K} (k k' : K) : Prop := host k' = host k ∧ (idle k → idle k').

#[export] Instance steady_PreOrder {K} `{!UdpExt K} `{!Network K} : PreOrder (steady (K:=K)).
Proof. split; [by intros k|intros k1 k2 k3 [H12 ?] [H23 ?]; split; [by rewrite H23|auto]]. Qed.

Class NetworkLaws (K : Type) `{!UdpExt K} `{!Network K} : Prop := {
  carry_idle (k1 k2 : K) : idle k1 → carry k1 k2 = (k1, k2);
  carry_send c msg (k k2 : K) : idle k → Z.of_nat (length msg) ≤ MTU →
    ∃ k1 n mark, send_ext (host k2) c msg k = (k1, Ok n) ∧
      idle (carry k1 k2).1 ∧ host (carry k1 k2).1 = host k ∧ coming (carry k1 k2).1 = coming k ∧
      steady k2 (carry k1 k2).2 ∧
      coming (carry k1 k2).2 = coming k2 ++ [(msg, host k, mark)];
  recv_coming n (k : K) msg peer mark l : coming k = (msg, peer, mark) :: l →
    Z.of_nat (length msg) ≤ n →
    ∃ k' c, recv_ext n k = (k', Ok (msg, peer, c)) ∧ mark = bool_decide (c = Some CE) ∧
      coming k' = l ∧ steady k k';
  recv_nothing n (k : K) : coming k = [] →
    ∃ k' e, recv_ext n k = (k', Err e) ∧ io_kind e = WouldBlock ∧ coming k' = [] ∧ steady k k'
}.

Section abstract.
Context {K : Type} `{!UdpExt K} {NW : Network K} {NL : NetworkLaws K} (len : Z).

(** A datagram with a channel id that fits the buffer. *)
Definition receivable (x : arrival) : Prop :=
  x.1.1 ≠ [] ∧ Z.of_nat (length x.1.1) ≤ len.

Lemma poll_recv_coming (k : K) msg peer mark l : coming k = (msg, peer, mark) :: l →
  Z.of_nat (length msg) ≤ len →
  ∃ k', udp_poll_recv len k = Return (msg, peer, Z.of_nat (length msg), mark) k' ∧
    coming k' = l ∧ steady k k'.
Proof.
  intros Hk Hl. destruct (recv_coming len k msg peer mark l Hk Hl) as (k' & c & Hr & -> & ? & ?).
  exists k'. split; [|done]. unfold udp_poll_recv. rewrite Hr. by destruct c as [[]|].
Qed.

Lemma poll_recv_nothing (k : K) : coming k = [] →
  ∃ k', udp_poll_recv len k = Suspend k' ∧ coming k' = [] ∧ steady k k'.
Proof.
  intros Hk. destruct (recv_nothing len k Hk) as (k' & e & Hr & He & ? & ?).
  exists k'. split; [|done]. unfold udp_poll_recv. by rewrite Hr, decide_True.
Qed.

(** What waits on a channel and what is on its way to it. *)
Definition in_flight (c : Channel) (a : ASock K) : list datagram :=
  queue a c ++ arrivals_for c (coming (a_sock a)).

(** The state after a receive that leaves [rest] in flight on [c]. *)
Definition left_with (c : Channel) (a a' : ASock K) (rest : list datagram) : Prop :=
  in_flight c a' = rest ∧ steady (a_sock a) (a_sock a') ∧
  Forall receivable (coming (a_sock a')).

Lemma a_channel_loop_link c ds fuel (a : ASock K) :
  coming (a_sock a) = ds → Forall receivable ds → (length ds < fuel)%nat → queue a c = [] →
  match arrivals_for c ds with
  | [] => ∃ a', a_channel_loop len fuel c a = Suspend a' ∧ left_with c a a' []
  | d :: rest => ∃ a', a_channel_loop len fuel c a = Return d a' ∧ left_with c a a' rest
  end.
Proof.
  revert fuel a. induction ds as [|[[msg peer] mark] ds IH]; intros [|fuel] a Hc Hds Hf Hq;
    cbn [length] in Hf; try lia; cbn [a_channel_loop]; run.
  - destruct (poll_recv_nothing (a_sock a) Hc) as (k' & Hr & Hk & Hh).
    exists (a_set_sock k' a). unfold a_poll_recv at 1, zoom; run. rewrite Hr. split; [done|].
    unfold left_with, in_flight. change (queue (a_set_sock k' a) c) with (queue a c).
    cbn [a_sock a_set_sock]. by rewrite Hq, Hk.
  - apply Forall_cons in Hds as [[Hne Hlen] Hds]. cbn in Hne, Hlen. destruct msg as [|id msg]; [done|].
    destruct (poll_recv_coming (a_sock a) _ _ _ _ Hc Hlen) as (k' & Hr & Hk & Hh).
    destruct (a_poll_recv_arrival len a id msg peer _ mark k' Hr) as (a1 & Ha1 & Hs1 & _ & Hq1 & _).
    rewrite Ha1. specialize (Hq1 c). rewrite Hq in Hq1. cbn [app] in Hq1.
    rewrite arrivals_for_cons.
    match goal with |- context [?x ++ arrivals_for c ds] => replace x with (queue a1 c) by exact Hq1 end.
    pose proof (a_pop_packet_exact c a1) as Hp.
    assert (∀ a2, a_sock a2 = a_sock a1 → coming (a_sock a2) = ds ∧ steady (a_sock a) (a_sock a2)) as Hnext.
    { intros a2 H. by rewrite H, Hs1, Hk. }
    destruct (queue a1 c) as [|d l] eqn:E; cbn [app].
    + destruct Hp as (a2 & -> & Hs2 & _ & Hq2). destruct (Hnext a2 Hs2) as [Hk2 Hh2].
      specialize (IH fuel a2 Hk2 Hds ltac:(lia)). rewrite Hq2, E in IH. specialize (IH eq_refl).
      unfold left_with in *. by destruct (arrivals_for c ds); destruct IH as (a3 & ? & ? & ? & ?);
        exists a3; split_and!; try done; etrans.
    + destruct Hp as (a2 & -> & Hs2 & _ & Hq2). destruct (Hnext a2 Hs2) as [Hk2 Hh2].
      assert (l = []) as ->.
      { cbn in Hq1. by destruct (decide _); [injection Hq1 as _ <-|]. }
      exists a2. split; [done|]. unfold left_with, in_flight. rewrite Hq2, decide_True by done.
      by rewrite Hk2.
Qed.

Lemma a_poll_channel_link c fuel (a : ASock K) :
  Forall receivable (coming (a_sock a)) → (length (coming (a_sock a)) < fuel)%nat →
  match in_flight c a with
  | [] => ∃ a', a_poll_channel len fuel c a = Suspend a' ∧ left_with c a a' []
  | d :: rest => ∃ a', a_poll_channel len fuel c a = Return d a' ∧ left_with c a a' rest
  end.
Proof.
  intros Hds Hf. unfold in_flight, a_poll_channel; run. pose proof (a_pop_packet_exact c a) as Hp.
  destruct (queue a c) as [|d q] eqn:Eq; destruct Hp as (a1 & Ha1 & Hs & _ & Hq); rewrite Ha1; cbn [app].
  - pose proof (a_channel_loop_link c _ fuel a1 eq_refl) as H. rewrite Hs in H.
    specialize (H Hds Hf). rewrite Hq in H. specialize (H Eq). unfold left_with in *. by rewrite Hs in H.
  - exists a1. split; [done|]. unfold left_with, in_flight. rewrite Hq, decide_True, Hs by done. done.
Qed.
End abstract.

(** ** A channel between two sockets *)

(** The socket a party sends from and the one its peer receives at. *)
Record link (K : Type) `{!BytesCrate} `{!SegQueueCrate} `{!SlabCrate} : Type := MkLink {
  local : InnerDtpSocket (K:=K);
  peer : InnerDtpSocket (K:=K)
}.
Arguments MkLink {K _ _ _} _ _.
Arguments local {K _ _ _} _.
Arguments peer {K _ _ _} _.

Section link.
Context {BC : BytesCrate} {BL : BytesLaws BC}.
Context {SQ : SegQueueCrate} {SQL : SegQueueLaws SQ}.
Context {SL : SlabCrate} {SLL : SlabLaws SL}.
Context {PR : Profile} {K : Type} `{!UdpExt K} `{!UdpExtLaws K} `{!UdpSocket K}.
Context {NW : Network K} {NL : NetworkLaws K}.

#[local] Abbreviation isock := (InnerDtpSocket (K:=K)).

Definition set_local (s : isock) (l : link K) : link K := MkLink s (peer l).
Definition set_peer (s : isock) (l : link K) : link K := MkLink (local l) s.

(** The network carries what was sent. *)
Definition carried (l : link K) : link K :=
  let '(k1, k2) := carry (socket (local l)) (socket (peer l)) in
  MkLink (set_socket k1 (local l)) (set_socket k2 (peer l)).

(** The network carries what the peer sent. *)
Definition carried_back (l : link K) : link K :=
  let '(k2, k1) := carry (socket (peer l)) (socket (local l)) in
  MkLink (set_socket k1 (local l)) (set_socket k2 (peer l)).

(** A call at one of the two sockets. *)
Definition at_local {A} (m : M io_error isock A) : M io_error (link K) A :=
  x ← zoom local set_local m; modify carried;; mret x.
Definition at_peer {A} (m : M io_error isock A) : M io_error (link K) A :=
  x ← zoom peer set_peer m; modify carried_back;; mret x.

(** The name the peer has for the channel [c] of the local socket. *)
Definition peer_channel (c : Channel) (l : link K) : Channel :=
  MkChannel (from_socket_addr (host (socket (local l)))) (channel_id c).

(** [SendFuture] on the local handle. *)
Definition link_send (c : Channel) (p : DtpPacket) : M io_error (link K) () :=
  zoom local set_local (send (Channel:=DtpChannel_Channel 0 (MkDtpChannel c)) p);; modify carried.

(** [RecvFuture] on the peer's handle, with fuel for what is on its way. *)
Definition link_recv (c : Channel) : M io_error (link K) DtpPacket :=
  l ← get_state;
  let fuel := S (length (coming (socket (peer l)))) in
  zoom peer set_peer (recv (Channel:=DtpChannel_Channel fuel (MkDtpChannel (peer_channel c l)))).

Definition link_Channel (c : Channel) : Channel.Channel (link K) DtpPacket := {|
  send := link_send c;
  recv := link_recv c
|}.

Definition has_id (d : datagram) : Prop := d_bytes d ≠ [].

(** Both sockets are well formed, the network has carried what was sent, the
    channel is addressed to the peer, what comes to the peer fits its buffer,
    and what is in flight on the channel starts with a channel id. *)
Record link_ok (c : Channel) (l : link K) : Prop := {
  ok_local : Inv (local l);
  ok_peer : Inv (peer l);
  ok_idle : idle (socket (local l));
  ok_addr : socket_addr (peer_addr c) = host (socket (peer l));
  ok_coming : Forall (receivable buffer_len) (coming (socket (peer l)));
  ok_ids : Forall has_id (in_flight (peer_channel c l) (abs (peer l)))
}.

(** The payloads on their way or waiting at the peer. *)
Definition link_pending (c : Channel) (l : link K) : list (list byte) :=
  (tail ∘ d_bytes) <$> in_flight (peer_channel c l) (abs (peer l)).

(** The payload lengths for which a datagram fits the network and the buffer. *)
Definition fits_datagram (n : nat) : Prop :=
  Z.of_nat (S n) ≤ MTU ∧ Z.of_nat (S n) ≤ MAX_PACKET_LEN.

Lemma inv_set_socket (k : K) (s : isock) : Inv s → Inv (set_socket k s).
Proof. intros []. by split. Qed.

Lemma in_flight_set_socket c (k : K) (s : isock) :
  in_flight c (abs (set_socket k s)) = queue (abs s) c ++ arrivals_for c (coming k).
Proof. reflexivity. Qed.

(** The datagrams that are not for the channel. *)
Definition foreign (c : Channel) (ds : list arrival) : list arrival :=
  filter (λ x, match arrivals_for c [x] with [] => true | _ => false end = true) ds.

(** A socket whose tables and arrivals have not changed; one to which more may
    have come on the channel. *)
Definition unmoved (s s' : isock) : Prop :=
  abs s' = a_set_sock (socket s') (abs s) ∧ coming (socket s') = coming (socket s) ∧ steady (socket s) (socket s').
Definition reached (c : Channel) (s s' : isock) : Prop :=
  s' = set_socket (socket s') s ∧ steady (socket s) (socket s') ∧
  foreign c (coming (socket s')) = foreign c (coming (socket s)).

Lemma poll_send_link c (p : DtpPacket) s l : link_ok c l → payload p = Some s →
  fits_datagram (length s) →
  ∃ l', link_send c p l = Return () l' ∧ link_ok c l' ∧ link_pending c l' = link_pending c l ++ [s] ∧
    unmoved (local l) (local l') ∧ reached (peer_channel c l) (peer l) (peer l').
Proof.
  intros [Hl Hp Hi Ha Hc Hids] Hs [Hmtu Hmax].
  pose proof (transfer _ _ _ (local l) (poll_send_refines c p s Hs) Hl) as H.
  destruct (carry_send (if ecn p then Some ECT0 else None) (channel_id c :: s) _ (socket (peer l)) Hi Hmtu)
    as (k1 & n & mark & Hsend & Hidle & Hh1 & Hc1 & Hst & Hcom).
  unfold a_poll_send, zoom, udp_poll_send in H. cbn [abs a_sock] in H. rewrite Ha, Hsend in H. cbn in H.
  destruct H as ([] & s1 & Hs1 & _ & Hi1 & Habs).
  assert (socket s1 = k1) as Hk by exact (f_equal a_sock Habs).
  eexists. split; [|split; [|split]].
  - unfold link_send, zoom; run. cbn [send DtpChannel_Channel handle]. rewrite Hs1. reflexivity.
  - unfold carried. cbn [local peer set_local]. rewrite Hk.
    destruct (carry k1 (socket (peer l))) as [k1' k2']. destruct Hst as [Hh2 _]. cbn in *.
    split; cbn; try by apply inv_set_socket.
    + done.
    + by rewrite Hh2.
    + rewrite Hcom. apply Forall_app. split; [done|]. apply Forall_singleton.
      unfold receivable. cbn [fst]. split; [done|].
      unfold buffer_len. cbn -[length]. pose proof (remaining_with_capacity MAX_PACKET_LEN).
      unfold MAX_PACKET_LEN in *. cbn [length]. lia.
    + unfold peer_channel. cbn [local]. rewrite in_flight_set_socket. cbn [socket set_socket].
      rewrite Hh1, Hcom, arrivals_for_app, (assoc_L (++)). apply Forall_app. split; [exact Hids|].
      cbn. rewrite decide_True by done. by apply Forall_singleton.
  - unfold carried, link_pending, peer_channel. cbn [local peer set_local]. rewrite Hk.
    destruct (carry k1 (socket (peer l))) as [k1' k2']. cbn [fst snd] in *.
    cbn [local peer socket set_socket]. rewrite in_flight_set_socket, Hh1, Hcom, arrivals_for_app.
    unfold in_flight. rewrite (assoc_L (++)), fmap_app. cbn. by rewrite decide_True.
  - unfold carried. cbn [local peer set_local]. rewrite Hk.
    destruct (carry k1 (socket (peer l))) as [k1' k2']. cbn [fst snd] in *. unfold unmoved, reached.
    cbn [local peer socket set_socket]. split_and!; try done; cycle 1.
    { unfold foreign. rewrite Hcom, filter_app, filter_cons_False, filter_nil, app_nil_r; [done|].
      unfold peer_channel. cbn. by rewrite decide_True. }
    change (a_set_sock k1' (abs s1) = a_set_sock k1' (abs (local l))). by rewrite Habs.
Qed.

(** What a receive leaves behind. *)
Lemma left_with_link c (l : link K) (s' : isock) rest : link_ok c l → Inv s' → Forall has_id rest →
  left_with buffer_len (peer_channel c l) (abs (peer l)) (abs s') rest →
  link_ok c (set_peer s' l) ∧ link_pending c (set_peer s' l) = (tail ∘ d_bytes) <$> rest ∧
  steady (socket (peer l)) (socket s').
Proof.
  intros [Hl Hp Hi Ha Hc _] Hs' Hids (Hf & Hst & Hr). pose proof Hst as [Hh _]. cbn [abs a_sock] in Hh, Hr. split_and!.
  - split; cbn; try done; [by rewrite Hh|]. by rewrite <-Hf in Hids.
  - unfold link_pending. by rewrite <-Hf.
  - done.
Qed.

Lemma link_recv_link c (l : link K) : link_ok c l →
  match in_flight (peer_channel c l) (abs (peer l)) with
  | [] => ∃ s', link_recv c l = Suspend (set_peer s' l) ∧ link_ok c (set_peer s' l) ∧
      link_pending c (set_peer s' l) = [] ∧ steady (socket (peer l)) (socket s')
  | d :: rest => ∃ p s', link_recv c l = Return p (set_peer s' l) ∧ datagram_of p = d ∧ has_id d ∧
      link_ok c (set_peer s' l) ∧ link_pending c (set_peer s' l) = (tail ∘ d_bytes) <$> rest ∧
      steady (socket (peer l)) (socket s')
  end.
Proof.
  intros Hok. set (pc := peer_channel c l). set (fuel := S (length (coming (socket (peer l))))).
  pose proof (a_poll_channel_link buffer_len pc fuel (abs (peer l)) (ok_coming _ _ Hok)
    (Nat.lt_succ_diag_r _)) as H.
  pose proof (transfer _ _ _ (peer l) (poll_channel_refines fuel pc) (ok_peer _ _ Hok)) as T.
  pose proof (ok_ids _ _ Hok) as Hids. fold pc in Hids.
  destruct (in_flight pc (abs (peer l))) as [|d rest]; destruct H as (a' & Ha & Hleft); rewrite Ha in T.
  - destruct T as (s' & Hs & Hi & <-). destruct (left_with_link c l s' _ Hok Hi Hids Hleft) as (? & ? & ?).
    exists s'. split_and!; try done.
    unfold link_recv, zoom; run. cbn [recv DtpChannel_Channel handle]. fold pc fuel. by rewrite Hs.
  - apply Forall_cons in Hids as [Hid Hids].
    destruct T as (p & s' & Hs & Hd & Hi & <-). destruct (left_with_link c l s' _ Hok Hi Hids Hleft) as (? & ? & ?).
    exists p, s'. split_and!; try done.
    unfold link_recv, zoom; run. cbn [recv DtpChannel_Channel handle]. fold pc fuel. by rewrite Hs.
Qed.

(** The payload of what is received. *)
Lemma payload_of_datagram p : has_id (datagram_of p) → payload p = Some (tail (d_bytes (datagram_of p))).
Proof.
  intros Hid. cbn. unfold has_id, datagram_of, bytes in *. cbn in Hid |- *.
  destruct (deref (packet_bytes p)); [done|]. apply slice_from_Some. cbn. split; [lia|done].
Qed.

(** The channel between the two sockets is a reliable channel. *)
Definition Link_Reliable (c : Channel) : @ReliableChannel (link K) DtpPacket _ (link_Channel c).
Proof.
  refine (@Build_ReliableChannel _ _ _ (link_Channel c) (link_ok c) (link_pending c) fits_datagram _ _ _).
  - intros p s l Hok Hs Hfits. destruct (poll_send_link c p s l Hok Hs Hfits) as (l' & ? & ? & ? & _). by exists l'.
  - intros l s rest Hok Hl. pose proof (link_recv_link c l Hok) as H. unfold link_pending in Hl.
    destruct (in_flight (peer_channel c l) (abs (peer l))) as [|d ds]; [done|].
    cbn [fmap list_fmap] in Hl. injection Hl as <- <-.
    destruct H as (p & s' & Hr & <- & Hid & Hok' & Hpend & _). exists p, (set_peer s' l).
    split_and!; try done. by apply payload_of_datagram.
  - intros l Hok Hl. pose proof (link_recv_link c l Hok) as H. unfold link_pending in Hl.
    destruct (in_flight (peer_channel c l) (abs (peer l))); [|done].
    destruct H as (s' & ? & ? & ? & _). by exists (set_peer s' l).
Defined.
End link.

(** ** A reference network: hosts with an inbox and an outbox *)

Module NetReference.
Record node : Type := MkNode {
  address : SocketAddr;
  inbox : list arrival;
  outbox : list (SocketAddr * list byte)
}.

#[export] Instance node_UdpExt : UdpExt node := {|
  init_ext k := (k, Ok ());
  send_ext peer _ msg k :=
    (MkNode (address k) (inbox k) (outbox k ++ [(peer, msg)]), Ok (Z.of_nat (length msg)));
  recv_ext n k :=
    match inbox k with
    | [] => (k, Err (IoError WouldBlock "would block"))
    | (msg, peer, mark) :: l =>
      (MkNode (address k) l (outbox k),
       Ok (take (Z.to_nat n) msg, peer, if mark : bool then Some CE else None))
    end
|}.

#[export] Instance node_UdpExtLaws : UdpExtLaws node.
Proof.
  refine {| backlog k := length (inbox k) |}.
  - intros n k k' data peer ecn Hn. cbn. destruct (inbox k) as [|[[msg p] m] l]; [done|].
    intros [= _ <- _ _]. solve_length.
  - intros n k k' r. cbn. destruct (inbox k) as [|[[msg p] m] l]; [done|].
    intros [= <- _]. cbn. lia.
Defined.

#[export] Instance node_UdpSocket : UdpSocket node := {|
  os_bind addr := Ok (MkNode addr [] []);
  os_local_addr k := Ok (address k);
  os_ttl _ := Ok 64;
  os_set_ttl _ k := (k, Ok ())
|}.

(** What [k1] sent to [k2] goes to its inbox, the rest elsewhere. *)
Definition deliver (k1 k2 : node) : node * node :=
  (MkNode (address k1) (inbox k1) [],
   MkNode (address k2)
     (inbox k2 ++ omap (λ x, if decide (x.1 = address k2) then Some (x.2, address k1, false) else None)
                       (outbox k1)) (outbox k2)).

#[export] Instance node_Network : Network node := {|
  host := address;
  coming := inbox;
  idle k := outbox k = [];
  carry := deliver;
  MTU := 65507
|}.

#[export] Instance node_laws : NetworkLaws node.
Proof.
  split.
  - intros [a1 i1 o1] [a2 i2 o2] H. cbn in H. subst o1. unfold carry, node_Network, deliver. cbn.
    by rewrite app_nil_r.
  - intros c msg [a1 i1 o1] [a2 i2 o2] H _. cbn in H |- *. subst o1.
    eexists _, _, false. split_and!; [done|done|done|done|done|]. cbn. by rewrite decide_True.
  - intros n [a i o] msg peer mark l. cbn. intros -> Hn.
    eexists _, (if mark then Some CE else None). rewrite take_ge by lia.
    split_and!; [done|by destruct mark|done|done].
  - intros n [a i o]. cbn. intros ->. by eexists _, _.
Qed.
End NetReference.
