(* ===== verification/DtcpPacket.v ===== *)
(** * Crate dtcp: the packet (src/dtcp/src/packet.rs)

    Three header bytes before the payload of the inner packet: the type and
    the data run flag in the first, the sequence number, big-endian, in the
    other two. *)

From S2P Require Export Channel.

Inductive DtcpType : Type :=
| Transfer (drf : bool)
| Control.

#[export] Instance DtcpType_eq_dec : EqDecision DtcpType.
Proof. solve_decision. Defined.

Record DtcpPacket (P : Type) : Type := MkDtcpPacket { dtcp_inner : P }.
Arguments MkDtcpPacket {P} _.
Arguments dtcp_inner {P} _.

#[export] Instance DtcpPacket_Newtype P : Newtype (DtcpPacket P) P.
Proof. by refine {| Self := MkDtcpPacket; inner := dtcp_inner |}; [|intros []]. Defined.

Section DtcpPacket.
Context {BC : BytesCrate} {BO : ByteOrderCrate} {P : Type} `{!BasePacket P}.

#[export] Instance DtcpPacket_BufMut : BufMut (DtcpPacket P) := derive_BufMut.

Definition DtcpPacket_new (payload_len : Z) : option (DtcpPacket P) :=
  packet ← new (payload_len + 3);
  packet ← put_u8 Byte.x00 packet;
  packet ← put_u16_be 0 packet;
  Some (MkDtcpPacket packet).

Definition raw_type (q : DtcpPacket P) : option Z :=
  p ← payload (dtcp_inner q);
  b ← p !! O;
  Some (Z.shiftr (b2z b) 4).

Definition flag0 (q : DtcpPacket P) : option bool :=
  p ← payload (dtcp_inner q);
  b ← p !! O;
  Some (0 <? Z.land (b2z b) 1).

Definition DtcpPacket_check (q : DtcpPacket P) : option (result () io_error) :=
  p ← payload (dtcp_inner q);
  if bool_decide (length p < 3)%nat
  then Some (Err (IoError Other "invalid dtcp packet"))
  else
    t ← raw_type q;
    if 2 <=? t then Some (Err (IoError Other "invalid dtcp packet type"))
    else Some (Ok ()).

Definition DtcpPacket_payload (q : DtcpPacket P) : option (list byte) :=
  p ← payload (dtcp_inner q); slice_from 3 p.

Definition DtcpPacket_payload_mut (q : DtcpPacket P) : option (borrow (DtcpPacket P)) :=
  b ← payload_mut (dtcp_inner q); borrow_map MkDtcpPacket <$> borrow_from 3 b.

#[export] Instance DtcpPacket_BasePacket : BasePacket (DtcpPacket P) := {|
  new := DtcpPacket_new;
  check := DtcpPacket_check;
  payload := DtcpPacket_payload;
  payload_mut := DtcpPacket_payload_mut
|}.

#[export] Instance DtcpPacket_Packet : Packet (DtcpPacket P) P := derive_Packet.

(** [unreachable!] is a panic. *)
Definition ty (q : DtcpPacket P) : option DtcpType :=
  t ← raw_type q;
  match t with
  | 0 => drf ← flag0 q; Some (Transfer drf)
  | 1 => Some Control
  | _ => None
  end.

Definition type_byte (t : DtcpType) : byte :=
  match t with
  | Transfer drf => z2b (Z.lor 0 (if drf then 1 else 0))
  | Control => z2b (Z.lor (Z.shiftl 1 4) 0)
  end.

Definition set_ty (t : DtcpType) (q : DtcpPacket P) : option (DtcpPacket P) :=
  b ← payload_mut (dtcp_inner q);
  MkDtcpPacket <$> update_borrow (set_index O (type_byte t)) b.

Definition seq_num (q : DtcpPacket P) : option Z :=
  p ← payload (dtcp_inner q);
  s ← slice 1 3 p;
  read_u16 s.

Definition set_seq_num (n : Z) (q : DtcpPacket P) : option (DtcpPacket P) :=
  b ← payload_mut (dtcp_inner q);
  MkDtcpPacket <$> update_borrow (λ p, s ← slice 1 3 p; s ← write_u16 n s; Some (splice 1 s p)) b.
End DtcpPacket.

Section laws.
Context {BC : BytesCrate} {BL : BytesLaws BC} {BO : ByteOrderCrate} {BOL : ByteOrderLaws BO}.
Context {P : Type} `{!BasePacket P} {max : Z} `{!PacketLaws P max}.

Definition dtcp_check_header (h : list byte) : result () io_error :=
  match h with
  | b :: _ => if 2 <=? Z.shiftr (b2z b) 4
              then Err (IoError Other "invalid dtcp packet type") else Ok ()
  | [] => Err (IoError Other "invalid dtcp packet")
  end.

Lemma dtcp_check_eq (q : DtcpPacket P) s : payload (dtcp_inner q) = Some s →
  (3 ≤ length s)%nat → check q = Some (dtcp_check_header (take 3 s)).
Proof.
  intros Hp Hs. cbn. unfold DtcpPacket_check, raw_type. rewrite Hp. cbn.
  rewrite bool_decide_false by lia. destruct s as [|b s]; [cbn in Hs; lia|]. cbn.
  by destruct (2 <=? _).
Qed.

#[export] Instance DtcpPacket_HeaderPacket :
  HeaderPacket (DtcpPacket P) P max 3 [Byte.x00; Byte.x00; Byte.x00] dtcp_check_header.
Proof.
  split; try done.
  - apply dtcp_check_eq.
  - intros n Hn. destruct (new_spec (P:=P) (n + 3)) as (p & Hnew & Hpay & Hr & _); [lia|].
    cbn. unfold DtcpPacket_new. rewrite Hnew. cbn [mbind option_bind].
    destruct (put_slice_append p [] [Byte.x00] Hpay) as (Hp1 & Hpay1 & Hr1 & _); [cbn; lia|].
    rewrite put_u8_spec, Hp1. cbn [mbind option_bind].
    destruct (put_slice_append _ _ (be_bytes 2 0) Hpay1) as (Hp2 & Hpay2 & Hr2 & _);
      [rewrite Hr1; cbn; lia|].
    rewrite put_u16_be_spec, Hp2. cbn [mbind option_bind]. eexists. split; [done|]. cbn [lower].
    split; [exact Hpay2|]. cbn [Newtype_Layer lower inner DtcpPacket_Newtype dtcp_inner].
    rewrite Hr2, Hr1. cbn [length be_bytes]. lia.
Qed.

#[export] Instance DtcpPacket_laws : PacketLaws (DtcpPacket P) (max - 3).
Proof. exact (header_packet_laws (Q:=DtcpPacket P) (max:=max)). Qed.

(** The three header bytes of a packet. *)
Definition dtcp_header (t : DtcpType) (n : Z) : list byte := type_byte t :: be_bytes 2 n.

Lemma payload_header (q : DtcpPacket P) s : payload q = Some s →
  ∃ h0 h1 h2, payload (dtcp_inner q) = Some (h0 :: h1 :: h2 :: s).
Proof.
  cbn. unfold DtcpPacket_payload. destruct (payload (dtcp_inner q)) as [p|]; cbn; [|done].
  rewrite slice_from_Some. destruct p as [|h0 [|h1 [|h2 p]]]; cbn; try lia.
  rewrite drop_0. intros [_ ->]. eauto.
Qed.

(** What a fallible write through the borrow of the inner payload does. *)
Lemma update_inner (q : DtcpPacket P) f p p' :
  payload (dtcp_inner q) = Some p → f p = Some p' → length p' = length p →
  ∃ q', (b ← payload_mut (dtcp_inner q); MkDtcpPacket <$> update_borrow f b) = Some q' ∧
    payload (dtcp_inner q') = Some p' ∧ remaining_mut q' = remaining_mut q ∧
    check (dtcp_inner q') = check (dtcp_inner q).
Proof.
  intros Hp Hf Hl. destruct (payload_mut_Some _ _ Hp) as (k & Hk & Hg).
  rewrite Hk. cbn. unfold update_borrow. cbn. rewrite Hf. cbn.
  eexists. split; [done|]. cbn. by apply Hg.
Qed.

Lemma slice_1_3 (h0 h1 h2 : byte) s : slice 1 3 (h0 :: h1 :: h2 :: s) = Some [h1; h2].
Proof. done. Qed.

Lemma set_ty_inner t (q : DtcpPacket P) h0 p : payload (dtcp_inner q) = Some (h0 :: p) →
  ∃ q', set_ty t q = Some q' ∧ payload (dtcp_inner q') = Some (type_byte t :: p) ∧
    remaining_mut q' = remaining_mut q ∧ check (dtcp_inner q') = check (dtcp_inner q).
Proof. intros Hp. by eapply update_inner. Qed.

Lemma set_seq_num_inner n (q : DtcpPacket P) h0 h1 h2 s :
  payload (dtcp_inner q) = Some (h0 :: h1 :: h2 :: s) →
  ∃ q', set_seq_num n q = Some q' ∧
    payload (dtcp_inner q') = Some (h0 :: be_bytes 2 n ++ s) ∧
    remaining_mut q' = remaining_mut q ∧ check (dtcp_inner q') = check (dtcp_inner q).
Proof.
  intros Hp. eapply update_inner; [done| |done].
  rewrite slice_1_3. cbn [mbind option_bind]. by rewrite write_u16_spec.
Qed.

Lemma shiftr4 b : Z.shiftr (b2z b) 4 = b2z b / 16.
Proof. by rewrite Z.shiftr_div_pow2. Qed.

Lemma ty_type_byte (q : DtcpPacket P) t p : payload (dtcp_inner q) = Some (type_byte t :: p) →
  ty q = Some t.
Proof. intros Hp. unfold ty, raw_type, flag0. rewrite Hp. by destruct t as [[]|]. Qed.

Lemma seq_num_be (q : DtcpPacket P) h0 n s : fits 16 n →
  payload (dtcp_inner q) = Some (h0 :: be_bytes 2 n ++ s) → seq_num q = Some n.
Proof.
  intros Hn Hp. unfold seq_num. rewrite Hp. cbn [mbind option_bind be_bytes app].
  rewrite slice_1_3. cbn [mbind option_bind]. rewrite read_u16_spec.
  unfold be_read. rewrite bool_decide_true by (cbn; lia). f_equal. by apply (be_value_bytes_small 2).
Qed.

(** The header of a packet that is about to be sent. *)
Lemma set_header (q : DtcpPacket P) s t n : payload q = Some s →
  ∃ q1 q2, set_ty t q = Some q1 ∧ set_seq_num n q1 = Some q2 ∧
    payload (dtcp_inner q2) = Some (dtcp_header t n ++ s) ∧
    payload q2 = Some s ∧ remaining_mut q2 = remaining_mut q ∧
    check q2 = Some (Ok ()) ∧ check (dtcp_inner q2) = check (dtcp_inner q).
Proof.
  intros (h0 & h1 & h2 & Hp)%payload_header.
  destruct (set_ty_inner t q _ _ Hp) as (q1 & H1 & Hp1 & Hr1 & Hc1).
  destruct (set_seq_num_inner n q1 _ _ _ _ Hp1) as (q2 & H2 & Hp2 & Hr2 & Hc2).
  exists q1, q2. split_and!; try done; try congruence.
  - cbn. unfold DtcpPacket_payload. rewrite Hp2. done.
  - cbn. unfold DtcpPacket_check, raw_type. rewrite Hp2. cbn. by destruct t as [[]|].
Qed.

(** The DTCP header round-trips: after [set_ty] and [set_seq_num] the
    packet reads back the type with its data run flag, and any 16-bit
    sequence number; its bytes are the type byte, the number big-endian,
    and the payload, which is unchanged; and it passes [check]. *)
Theorem dtcp_header_roundtrip (q : DtcpPacket P) s t n : payload q = Some s → fits 16 n →
  ∃ q1 q2, set_ty t q = Some q1 ∧ set_seq_num n q1 = Some q2 ∧
    ty q2 = Some t ∧ seq_num q2 = Some n ∧ payload q2 = Some s ∧ check q2 = Some (Ok ()) ∧
    payload (dtcp_inner q2) = Some (type_byte t :: be_bytes 2 n ++ s).
Proof.
  intros Hs Hn. destruct (set_header q s t n Hs) as (q1 & q2 & H1 & H2 & Hp & ? & _ & ? & _).
  exists q1, q2. split_and!; try done; [by apply (ty_type_byte _ t (be_bytes 2 n ++ s))|by apply (seq_num_be _ (type_byte t) n s)].
Qed.

(** What [check] guarantees.  On any packet whose inner payload can be
    read, [check] does not panic; it accepts exactly the packets with three
    header bytes and a type nibble of 0 or 1; and on a packet it accepts no
    accessor panics: [ty] never reaches its [unreachable!], and the sequence
    number fits 16 bits. *)
Theorem dtcp_check_sound (q : DtcpPacket P) p : payload (dtcp_inner q) = Some p →
  (∃ r, check q = Some r ∧
     (r = Ok () ↔ (3 ≤ length p)%nat ∧ ∃ b, p !! O = Some b ∧ b2z b < 32)) ∧
  (check q = Some (Ok ()) →
     is_Some (payload q) ∧ is_Some (ty q) ∧ ∃ n, seq_num q = Some n ∧ fits 16 n).
Proof.
  intros Hp. assert (∀ b : byte, (2 <=? b2z b / 16) = false ↔ b2z b < 32) as Hb.
  { intros b. rewrite Z.leb_gt. pose proof (Z.div_mod (b2z b) 16 ltac:(lia)).
    pose proof (Z.mod_pos_bound (b2z b) 16 ltac:(lia)). lia. }
  cbn. unfold DtcpPacket_check, DtcpPacket_payload, ty, raw_type, flag0, seq_num.
  rewrite Hp. cbn. case_bool_decide as Hl.
  { split; [|done]. eexists. split; [done|]. split; [done|]. intros [? _]. lia. }
  destruct p as [|h0 [|h1 [|h2 s]]]; try (cbn in Hl; lia). clear Hl. cbn.
  rewrite shiftr4. specialize (Hb h0). pose proof (b2z_bound h0) as Hb0.
  pose proof (Z.div_pos (b2z h0) 16) as Hpos.
  destruct (2 <=? b2z h0 / 16) eqn:E; cbn; split; try done.
  - eexists. split; [done|]. split; [done|]. intros [_ (b & [= <-] & Hlt)].
    by apply Hb in Hlt.
  - eexists. split; [done|]. split; [|done]. intros _. split; [lia|].
    exists h0. split; [done|]. by apply Hb.
  - intros _. split_and!; [by eexists| |].
    + assert (b2z h0 / 16 = 0 ∨ b2z h0 / 16 = 1) as [-> | ->] by lia; by eexists.
    + rewrite slice_1_3. cbn [mbind option_bind]. rewrite read_u16_spec. cbn. eexists. split; [done|].
      apply (be_value_bound [h1; h2]).
Qed.
End laws.
