(* ===== verification/Dtcp.v ===== *)
(** * Crate dtcp: timers, builder and channel (src/dtcp/src/lib.rs)

    Time is the system's monotonic clock, read by [Instant::now]: instants
    and durations are nanoseconds, in [Z]. *)

From S2P Require Export DtcpPacket.

(** The clock is not under src/: a reading, and the clock after it. *)
Class Clock (C : Type) : Type := { now : C → Z * C }.

(** ** [std::time::Duration]: seconds in 64 bits, and nanoseconds *)

Definition DURATION_MAX : Z := 2 ^ 64 * 1000000000 - 1.

Definition from_millis (n : Z) : Z := n * 1000000.

(** [u32 * Duration] and [Duration + Duration] panic on overflow. *)
Definition dur_mul (k d : Z) : option Z :=
  if bool_decide (k * d ≤ DURATION_MAX) then Some (k * d) else None.

Definition dur_add (d d' : Z) : option Z :=
  if bool_decide (d + d' ≤ DURATION_MAX) then Some (d + d') else None.

(** [Instant - Instant]: zero when the second is the later one. *)
Definition instant_sub (t t' : Z) : Z := Z.max 0 (t - t').

(** ** Timer *)

Record Timer : Type := MkTimer { enable : bool; start : Z; interval : Z }.

Section Timer.
Context {C : Type} `{!Clock C}.

Definition Timer_new (interval : Z) (clk : C) : Timer * C :=
  let '(t, clk) := now clk in (MkTimer false t interval, clk).

Definition Timer_start (self : Timer) (clk : C) : Timer * C :=
  let '(t, clk) := now clk in (MkTimer true t (interval self), clk).

Definition Timer_stop (self : Timer) (clk : C) : bool * Timer * C :=
  if enable self then
    let '(t, clk) := now clk in
    (interval self <? instant_sub t (start self),
     MkTimer false (start self) (interval self), clk)
  else (false, self, clk).
End Timer.

(** ** DtcpBuilder *)

Record DtcpBuilder : Type := MkDtcpBuilder { mpl : Z; ack : Z; max_retries : Z }.

Definition DtcpBuilder_new : DtcpBuilder :=
  MkDtcpBuilder (from_millis 1000) (from_millis 100) 3.

Definition set_mpl (mpl : Z) (b : DtcpBuilder) : DtcpBuilder :=
  MkDtcpBuilder mpl (ack b) (max_retries b).
Definition set_ack (ack : Z) (b : DtcpBuilder) : DtcpBuilder :=
  MkDtcpBuilder (mpl b) ack (max_retries b).
Definition set_max_retries (max_retries : byte) (b : DtcpBuilder) : DtcpBuilder :=
  MkDtcpBuilder (mpl b) (ack b) (b2z max_retries).

(** [a + b] of type [u8]: checked in a dev build, wrapping in a release. *)
Definition u8_add `{Profile} (a b : Z) : option Z :=
  if debug_assertions && (256 <=? a + b) then None else Some (wrap 8 (a + b)).

(** ** DtcpChannel: the inner channel's state, the cells of the channel, and
    the clock they read *)

Record DtcpChannel (S C : Type) : Type := MkDtcpChannel {
  dtcp_channel : S;
  set_drf : bool;
  next_seq_num : Z;
  sit : Timer;
  rit : Timer;
  clk : C
}.
Arguments MkDtcpChannel {S C} _ _ _ _ _ _.
Arguments dtcp_channel {S C} _.
Arguments set_drf {S C} _.
Arguments next_seq_num {S C} _.
Arguments sit {S C} _.
Arguments rit {S C} _.
Arguments clk {S C} _.

Section DtcpChannel.
Context {BC : BytesCrate} {BO : ByteOrderCrate} {PR : Profile}.
Context {S P C : Type} `{!BasePacket P} `{!Channel S P} `{!Clock C}.
#[local] Abbreviation chan := (DtcpChannel S C).

Definition build_channel (self : DtcpBuilder) (channel : S) (clk : C) : option chan :=
  m ← dur_mul 2 (mpl self);
  dx ← dur_add m (ack self);
  r ← u8_add (max_retries self) 1;
  dt ← dur_mul r dx;
  sit ← dur_mul 2 dt;
  rit ← dur_mul 3 dt;
  let '(sit, clk) := Timer_new sit clk in
  let '(rit, clk) := Timer_new rit clk in
  Some (MkDtcpChannel channel true 0 sit rit clk).

Definition put_channel (s : S) (c : chan) : chan :=
  MkDtcpChannel s (set_drf c) (next_seq_num c) (sit c) (rit c) (clk c).

#[export] Instance Dtcp_Wraps : Wraps chan S.
Proof. by refine {| get_inner := dtcp_channel; put_inner := put_channel |}. Defined.

Definition stop_sit : M io_error chan bool := λ c,
  let '(expired, t, k) := Timer_stop (sit c) (clk c) in
  Return expired (MkDtcpChannel (dtcp_channel c) (set_drf c) (next_seq_num c) t (rit c) k).

Definition start_sit : M io_error chan () := λ c,
  let '(t, k) := Timer_start (sit c) (clk c) in
  Return () (MkDtcpChannel (dtcp_channel c) (set_drf c) (next_seq_num c) t (rit c) k).

Definition stop_rit : M io_error chan bool := λ c,
  let '(expired, t, k) := Timer_stop (rit c) (clk c) in
  Return expired (MkDtcpChannel (dtcp_channel c) (set_drf c) (next_seq_num c) (sit c) t k).

Definition start_rit : M io_error chan () := λ c,
  let '(t, k) := Timer_start (rit c) (clk c) in
  Return () (MkDtcpChannel (dtcp_channel c) (set_drf c) (next_seq_num c) (sit c) t k).

(** [self.set_drf.swap(b)] and [self.set_drf.store(b)]. *)
Definition swap_drf (b : bool) : M io_error chan bool := λ c,
  Return (set_drf c) (MkDtcpChannel (dtcp_channel c) b (next_seq_num c) (sit c) (rit c) (clk c)).

Definition store_drf (b : bool) : M io_error chan () := λ c,
  Return () (MkDtcpChannel (dtcp_channel c) b (next_seq_num c) (sit c) (rit c) (clk c)).

(** [self.seq_num.fetch_add(1)], which wraps. *)
Definition fetch_add_seq_num : M io_error chan Z := λ c,
  Return (next_seq_num c)
    (MkDtcpChannel (dtcp_channel c) (set_drf c) (wrap 16 (next_seq_num c + 1)) (sit c) (rit c) (clk c)).

Definition dtcp_send (packet : DtcpPacket P) : M io_error chan () :=
  expired ← stop_sit;
  old ← swap_drf false;
  let drf := old || expired in
  seq_num ← fetch_add_seq_num;
  packet ← unwrap (set_ty (Transfer drf) packet);
  packet ← unwrap (set_seq_num seq_num packet);
  zoom dtcp_channel put_channel (send (into_packet packet));;
  start_sit.

Definition dtcp_recv : M io_error chan (DtcpPacket P) :=
  expired ← stop_rit;
  store_drf expired;;
  packet ← zoom dtcp_channel put_channel recv;
  r ← unwrap (parse packet);
  packet ← try r;
  start_rit;;
  mret packet.

#[export] Instance Dtcp_Channel : Channel chan (DtcpPacket P) := {|
  send := dtcp_send;
  recv := dtcp_recv
|}.

(** [unwrap] and [deref] of the channel. *)
Definition dtcp_unwrap (c : chan) : S := dtcp_channel c.
Definition dtcp_deref (c : chan) : S := dtcp_channel c.
End DtcpChannel.
