(* ===== verification/DtcpProps.v ===== *)
(** * The DTCP channel: the theorems

    What a send puts on the inner channel and a receive takes from it; the
    timers the builder sets; the data run flag; the sequence numbers of a run
    of sends; and that DTCP over a reliable channel is a reliable channel. *)

From S2P Require Export Dtcp.

Section props.
Context {BC : BytesCrate} {BL : BytesLaws BC} {BO : ByteOrderCrate} {BOL : ByteOrderLaws BO}.
Context {PR : Profile}.
Context {S P C : Type} `{!BasePacket P} {max : Z} `{!PacketLaws P max}.
Context `{!Channel S P} `{!Clock C}.
#[local] Abbreviation chan := (DtcpChannel S C).

(** ** Send and receive *)

(** The clock reading and the clock after it that [Timer_stop] uses. *)
Definition sit_expired (c : chan) : bool := (Timer_stop (sit c) (clk c)).1.1.
Definition rit_expired (c : chan) : bool := (Timer_stop (rit c) (clk c)).1.1.

(** The data run flag of the next packet. *)
Definition next_drf (c : chan) : bool := set_drf c || sit_expired c.

(** The channel while the packet is with the inner channel: the send timer
    is stopped, the flag cleared, the number consumed. *)
Definition sending (c : chan) : chan :=
  MkDtcpChannel (dtcp_channel c) false (wrap 16 (next_seq_num c + 1))
    (Timer_stop (sit c) (clk c)).1.2 (rit c) (Timer_stop (sit c) (clk c)).2.

Definition receiving (c : chan) : chan :=
  MkDtcpChannel (dtcp_channel c) (rit_expired c) (next_seq_num c)
    (sit c) (Timer_stop (rit c) (clk c)).1.2 (Timer_stop (rit c) (clk c)).2.

(** The send timer runs from a reading of the clock. *)
Definition restart_sit (c : chan) : chan :=
  MkDtcpChannel (dtcp_channel c) (set_drf c) (next_seq_num c)
    (Timer_start (sit c) (clk c)).1 (rit c) (Timer_start (sit c) (clk c)).2.

Definition restart_rit (c : chan) : chan :=
  MkDtcpChannel (dtcp_channel c) (set_drf c) (next_seq_num c)
    (sit c) (Timer_start (rit c) (clk c)).1 (Timer_start (rit c) (clk c)).2.

(** The packet a send hands to the inner channel. *)
Definition dtcp_packet (drf : bool) (n : Z) (q : DtcpPacket P) : option P :=
  q ← set_ty (Transfer drf) q;
  dtcp_inner <$> set_seq_num n q.

Lemma dtcp_packet_payload drf n (q : DtcpPacket P) s : payload q = Some s →
  ∃ p, dtcp_packet drf n q = Some p ∧ payload p = Some (dtcp_header (Transfer drf) n ++ s).
Proof.
  intros Hs. destruct (set_header q s (Transfer drf) n Hs) as (q1 & q2 & H1 & H2 & Hp & _).
  exists (dtcp_inner q2). split; [|done]. unfold dtcp_packet. rewrite H1. cbn. by rewrite H2.
Qed.

Lemma dtcp_send_packet (q : DtcpPacket P) (c : chan) :
  dtcp_send q c =
    match dtcp_packet (next_drf c) (next_seq_num c) q with
    | None => Panic
    | Some p =>
      match send p (dtcp_channel c) with
      | Return _ st => Return () (restart_sit (put_channel st (sending c)))
      | Throw e st => Throw e (put_channel st (sending c))
      | Suspend st => Suspend (put_channel st (sending c))
      | Panic => Panic
      | Diverge => Diverge
      end
    end.
Proof.
  unfold dtcp_send, stop_sit, swap_drf, fetch_add_seq_num, dtcp_packet, next_drf, sit_expired, sending;
    run.
  destruct (Timer_stop (sit c) (clk c)) as [[expired t] k]. cbn.
  destruct (set_ty _ q) as [q1|]; [|done]. cbn. destruct (set_seq_num _ q1) as [q2|]; [|done].
  cbn. unfold zoom. cbn.
  destruct (send _ (dtcp_channel c)); try done. unfold start_sit, restart_sit. cbn.
  by destruct (Timer_start t k).
Qed.

Lemma dtcp_send_eq (q : DtcpPacket P) s (c : chan) : payload q = Some s →
  ∃ p, payload p = Some (dtcp_header (Transfer (next_drf c)) (next_seq_num c) ++ s) ∧
    dtcp_send q c =
      match send p (dtcp_channel c) with
      | Return _ st => Return () (restart_sit (put_channel st (sending c)))
      | Throw e st => Throw e (put_channel st (sending c))
      | Suspend st => Suspend (put_channel st (sending c))
      | Panic => Panic
      | Diverge => Diverge
      end.
Proof.
  intros Hs. destruct (dtcp_packet_payload (next_drf c) (next_seq_num c) q s Hs) as (p & Hp & Hpay).
  exists p. split; [done|]. by rewrite dtcp_send_packet, Hp.
Qed.

Lemma dtcp_recv_eq (c : chan) :
  dtcp_recv c =
    match recv (dtcp_channel c) with
    | Return p st =>
      match check (MkDtcpPacket p) with
      | Some (Ok _) => Return (MkDtcpPacket p) (restart_rit (put_channel st (receiving c)))
      | Some (Err e) => Throw e (put_channel st (receiving c))
      | None => Panic
      end
    | Throw e st => Throw e (put_channel st (receiving c))
    | Suspend st => Suspend (put_channel st (receiving c))
    | Panic => Panic
    | Diverge => Diverge
    end.
Proof.
  unfold dtcp_recv, stop_rit, store_drf, receiving, rit_expired; run.
  destruct (Timer_stop (rit c) (clk c)) as [[expired t] k]. cbn. unfold zoom. cbn.
  destruct (recv (dtcp_channel c)) as [p st| | | |]; try done.
  unfold derive_parse. cbn. destruct (DtcpPacket_check (MkDtcpPacket p)) as [[[]|e]|]; cbn; try done.
  unfold start_rit, restart_rit. cbn. by destruct (Timer_start t k).
Qed.

(** What [send] does.  It hands the inner channel one packet: the payload
    behind a header with type Transfer, the data run flag (set if the
    channel asked for it or the send timer expired) and the next sequence
    number.  It ends as the inner send does, with the same error.  The flag
    is cleared and the number consumed (modulo 2^16) whatever the outcome;
    the send timer runs again only if the inner send succeeded. *)
Theorem dtcp_send_spec (q : DtcpPacket P) s (c : chan) : payload q = Some s →
  ∃ p, payload p = Some (type_byte (Transfer (next_drf c)) :: be_bytes 2 (next_seq_num c) ++ s) ∧
    match send p (dtcp_channel c), dtcp_send q c with
    | Return _ st, Return _ c' => dtcp_channel c' = st ∧ enable (sit c') = true ∧
        set_drf c' = false ∧ next_seq_num c' = (next_seq_num c + 1) mod 65536 ∧ rit c' = rit c
    | Throw e st, Throw e' c' => e = e' ∧ dtcp_channel c' = st ∧ enable (sit c') = false ∧
        set_drf c' = false ∧ next_seq_num c' = (next_seq_num c + 1) mod 65536 ∧ rit c' = rit c
    | Suspend st, Suspend c' => dtcp_channel c' = st ∧ enable (sit c') = false ∧
        set_drf c' = false ∧ next_seq_num c' = (next_seq_num c + 1) mod 65536
    | Panic, Panic | Diverge, Diverge => True
    | _, _ => False
    end.
Proof.
  intros Hs. destruct (dtcp_send_eq q s c Hs) as (p & Hp & ->). exists p. split; [exact Hp|].
  assert (enable (sit (sending c)) = false) as Hen.
  { unfold sending, Timer_stop. cbn. destruct (enable (sit c)) eqn:E; [|done].
    by destruct (now (clk c)). }
  assert (∀ st, enable (sit (restart_sit (put_channel st (sending c)))) = true) as Hst.
  { intros st. unfold restart_sit, Timer_start. cbn. by destruct (now _). }
  destruct (send p (dtcp_channel c)); try done; split_and!; try done; apply Hst.
Qed.

(** C28: What [recv] does, and does not do.  It ends as the inner receive
    does; a packet the inner channel gives is returned, untouched, if and
    only if it passes [check], and is an error otherwise; then the receive
    timer does not run.  The packet's type and sequence number play no part
    and the channel's own number does not change: no duplicate is dropped
    and no gap is noticed.  The data run flag of the next send becomes
    whether the receive timer had expired. *)
Theorem dtcp_recv_spec (c : chan) :
  match recv (dtcp_channel c), dtcp_recv c with
  | Return p st, Return q c' => q = MkDtcpPacket p ∧ check q = Some (Ok ()) ∧
      dtcp_channel c' = st ∧ enable (rit c') = true ∧
      set_drf c' = rit_expired c ∧ next_seq_num c' = next_seq_num c
  | Return p st, Throw e c' => check (MkDtcpPacket p) = Some (Err e) ∧
      dtcp_channel c' = st ∧ enable (rit c') = false ∧ set_drf c' = rit_expired c
  | Throw e st, Throw e' c' => e = e' ∧ dtcp_channel c' = st ∧ enable (rit c') = false ∧
      set_drf c' = rit_expired c
  | Suspend st, Suspend c' => dtcp_channel c' = st ∧ enable (rit c') = false ∧
      set_drf c' = rit_expired c
  | Return p _, Panic => payload p = None
  | Panic, Panic | Diverge, Diverge => True
  | _, _ => False
  end.
Proof.
  rewrite dtcp_recv_eq.
  assert (enable (rit (receiving c)) = false) as Hen.
  { unfold receiving, Timer_stop. cbn. destruct (enable (rit c)) eqn:E; [|done].
    by destruct (now (clk c)). }
  assert (∀ st, enable (rit (restart_rit (put_channel st (receiving c)))) = true) as Hst.
  { intros st. unfold restart_rit, Timer_start. cbn. by destruct (now _). }
  destruct (recv (dtcp_channel c)) as [p st| | | |]; [|by split_and!..|done|done].
  destruct (check (MkDtcpPacket p)) as [[[]|e]|] eqn:Hc;
    [by split_and!; try apply Hst|by split_and!|].
  destruct (payload p) as [l|] eqn:Hp; [|done].
  cbn in Hc. unfold DtcpPacket_check, raw_type in Hc. cbn in Hc. rewrite Hp in Hc. cbn in Hc.
  case_bool_decide as Hl; [discriminate Hc|].
  destruct l as [|b l]; [destruct Hl; cbn; lia|]. cbn in Hc.
  destruct (2 <=? _); discriminate Hc.
Qed.

(** ** The builder's timers *)

Lemma dur_mul_ok k d : k * d ≤ DURATION_MAX → dur_mul k d = Some (k * d).
Proof. intros. unfold dur_mul. by rewrite bool_decide_true. Qed.

Lemma dur_add_ok d d' : d + d' ≤ DURATION_MAX → dur_add d d' = Some (d + d').
Proof. intros. unfold dur_add. by rewrite bool_decide_true. Qed.

Lemma u8_add_ok a b : 0 ≤ a + b < 256 → u8_add a b = Some (a + b).
Proof.
  intros. unfold u8_add, wrap. replace (256 <=? a + b) with false by lia.
  rewrite andb_false_r. by rewrite Z.mod_small.
Qed.

(** Without overflow in the number of retries. *)
Lemma build_channel_ok (b : DtcpBuilder) (st : S) (k : C) :
  let dt := (max_retries b + 1) * (2 * mpl b + ack b) in
  0 ≤ mpl b → 0 ≤ ack b → 0 ≤ max_retries b < 255 → 3 * dt ≤ DURATION_MAX →
  ∃ c : chan, build_channel b st k = Some c ∧ dtcp_channel c = st ∧
    next_seq_num c = 0 ∧ next_drf c = true ∧
    enable (sit c) = false ∧ interval (sit c) = 2 * dt ∧
    enable (rit c) = false ∧ interval (rit c) = 3 * dt.
Proof.
  intros dt Hm Ha Hr Hd. subst dt.
  assert (0 ≤ 2 * mpl b + ack b ≤ (max_retries b + 1) * (2 * mpl b + ack b)) as Hx by nia.
  unfold build_channel.
  rewrite (dur_mul_ok 2 (mpl b)) by lia. cbn [mbind option_bind].
  rewrite dur_add_ok by lia. cbn [mbind option_bind].
  rewrite u8_add_ok by lia. cbn [mbind option_bind].
  set (dt := (max_retries b + 1) * (2 * mpl b + ack b)) in *.
  rewrite (dur_mul_ok (max_retries b + 1)) by (fold dt; lia). cbn [mbind option_bind]. fold dt.
  rewrite (dur_mul_ok 2 dt), (dur_mul_ok 3 dt) by lia. cbn [mbind option_bind].
  unfold Timer_new. destruct (now k) as [t1 k1], (now k1) as [t2 k2].
  eexists. split; [done|]. by split_and!.
Qed.

(** With it. *)
Lemma build_channel_overflow (b : DtcpBuilder) (st : S) (k : C) :
  0 ≤ mpl b → 0 ≤ ack b → 2 * mpl b + ack b ≤ DURATION_MAX → max_retries b = 255 →
  if @debug_assertions PR then build_channel (C:=C) b st k = None
  else ∃ c : chan, build_channel b st k = Some c ∧ interval (sit c) = 0 ∧ interval (rit c) = 0.
Proof.
  intros Hm Ha Hd Hr. unfold build_channel.
  rewrite (dur_mul_ok 2 (mpl b)) by lia. cbn [mbind option_bind].
  rewrite dur_add_ok by lia. cbn [mbind option_bind].
  unfold u8_add. rewrite Hr. destruct debug_assertions; [done|].
  cbn [mbind option_bind andb]. change (wrap 8 (255 + 1)) with 0.
  unfold dur_mul. rewrite Z.mul_0_l. cbn.
  unfold Timer_new. destruct (now k) as [t1 k1], (now k1) as [t2 k2]. eauto.
Qed.

(** C30: The builder's timers.  Without duration overflow, and with up to 254
    retries, [build_channel] gives a channel on the inner channel whose first
    packet is number 0 with the data run flag set, whose timers do not run, and
    where the send timer is twice, and the receive timer three times, the time
    (retries + 1) * (2 * mpl + ack).  With 255 retries the addition, made in 8
    bits, overflows: a dev build panics, and a release build makes a channel
    whose two timers have length zero. *)
Theorem build_channel_timers (b : DtcpBuilder) (st : S) (k : C) :
  let dt := (max_retries b + 1) * (2 * mpl b + ack b) in
  0 ≤ mpl b → 0 ≤ ack b → 0 ≤ max_retries b ≤ 255 → 3 * dt ≤ DURATION_MAX →
  if max_retries b <? 255 then
    ∃ c : chan, build_channel b st k = Some c ∧ dtcp_channel c = st ∧
      next_seq_num c = 0 ∧ next_drf c = true ∧
      enable (sit c) = false ∧ interval (sit c) = 2 * dt ∧
      enable (rit c) = false ∧ interval (rit c) = 3 * dt
  else if @debug_assertions PR then build_channel (C:=C) b st k = None
  else ∃ c : chan, build_channel b st k = Some c ∧ interval (sit c) = 0 ∧ interval (rit c) = 0.
Proof.
  intros dt Hm Ha Hr Hd. destruct (Z.ltb_spec (max_retries b) 255) as [Hlt|Hge].
  - apply build_channel_ok; [done|done|lia|done].
  - apply build_channel_overflow; [done|done| |lia]. subst dt. nia.
Qed.

(** ** The data run flag *)

(** [send] of [q] hands the inner channel one packet, with the bytes [w], and
    ends as the inner send does. *)
Definition hands_over (q : DtcpPacket P) (c : chan) (w : list byte) : Prop :=
  ∃ p, payload p = Some w ∧
    match send p (dtcp_channel c), dtcp_send q c with
    | Return _ st, Return _ c' | Suspend st, Suspend c' => dtcp_channel c' = st
    | Throw e st, Throw e' c' => e = e' ∧ dtcp_channel c' = st
    | Panic, Panic | Diverge, Diverge => True
    | _, _ => False
    end.

Lemma send_hands_over (q : DtcpPacket P) s (c : chan) : payload q = Some s →
  hands_over q c (dtcp_header (Transfer (next_drf c)) (next_seq_num c) ++ s).
Proof.
  intros Hs. destruct (dtcp_send_eq q s c Hs) as (p & Hp & Heq). exists p. split; [done|].
  rewrite Heq. by destruct (send p (dtcp_channel c)).
Qed.

(** The channel when its clock is at [k]. *)
Definition at_clock (k : C) (c : chan) : chan :=
  MkDtcpChannel (dtcp_channel c) (set_drf c) (next_seq_num c) (sit c) (rit c) k.

(** The clock after the timer has been stopped: it is read if the timer runs. *)
Definition clock_stopped (t : Timer) (k : C) : C := if enable t then (now k).2 else k.

Lemma Timer_stop_clock (t : Timer) (k : C) : (Timer_stop t k).2 = clock_stopped t k.
Proof. unfold Timer_stop, clock_stopped. destruct (enable t); [|done]. by destruct (now k). Qed.

Lemma Timer_stop_interval (t : Timer) (k : C) : interval (Timer_stop t k).1.2 = interval t.
Proof. unfold Timer_stop. destruct (enable t); [|done]. by destruct (now k). Qed.

(** After a send that succeeded, its timer runs from the reading of the clock
    that the send has made last. *)
Lemma next_drf_sent (q : DtcpPacket P) s (c c' : chan) k :
  payload q = Some s → dtcp_send q c = Return () c' →
  ∃ t0, now (clock_stopped (sit c) (clk c)) = (t0, clk c') ∧
    next_drf (at_clock k c') = (interval (sit c) <? instant_sub (now k).1 t0).
Proof.
  intros Hs Hc. destruct (dtcp_send_eq q s c Hs) as (p & _ & Heq). rewrite Heq in Hc.
  destruct (send p (dtcp_channel c)) as [[] st| | | |]; try done.
  injection Hc as <-. unfold restart_sit, Timer_start. cbn. rewrite Timer_stop_clock.
  destruct (now (clock_stopped _ _)) as [t0 k'] eqn:E. exists t0. split; [done|].
  rewrite <-(Timer_stop_interval (sit c) (clk c)).
  unfold next_drf, sit_expired, at_clock. cbn. unfold Timer_stop at 1. cbn. by destruct (now k).
Qed.

(** With its timers off, the channel sends the flag only if it was asked for,
    and a receive takes the request away. *)
Lemma next_drf_received (c c' : chan) k : enable (rit c) = false → enable (sit c) = false →
  final (dtcp_recv c) = Some c' →
  next_drf (at_clock k c') = false ∧ next_seq_num c' = next_seq_num c.
Proof.
  intros Hr Hs. rewrite dtcp_recv_eq. unfold receiving, rit_expired, Timer_stop. rewrite Hr. cbn.
  destruct (recv (dtcp_channel c)) as [p st| | | |]; cbn; try done;
    [destruct (DtcpPacket_check _) as [[[]|]|]; cbn; try done| |];
    intros [= <-]; unfold next_drf, sit_expired, Timer_stop, restart_rit, at_clock; cbn; by rewrite Hs.
Qed.

Lemma build_channel_fresh (b : DtcpBuilder) (st : S) (k : C) (c : chan) :
  build_channel b st k = Some c →
  enable (rit c) = false ∧ enable (sit c) = false ∧ next_seq_num c = 0 ∧ set_drf c = true.
Proof.
  unfold build_channel. intros H.
  repeat (apply bind_Some in H as (? & _ & H)). unfold Timer_new in H.
  destruct (now k) as [t1 k1]. destruct (now k1) as [t2 k2]. by injection H as <-.
Qed.

(** C29: When a packet carries the data run flag.  After a send that succeeded,
    the next one, at any later time, hands the inner channel a packet with the
    flag set exactly if more time than the send timer's interval has passed
    since the first send's last reading of the clock.  On a channel fresh from
    the builder, the first packet has number 0, and the flag if the channel
    starts with a send; if it starts with a receive, whatever its outcome, the
    first packet does not carry the flag, and so on every channel whose timers
    do not run.  The flag is the lowest bit of the packet. *)
Theorem data_run_flag (c : chan) q s k : payload q = Some s →
  (∀ q0 s0 c', payload q0 = Some s0 → dtcp_send q0 c = Return () c' →
     ∃ t0, now (clock_stopped (sit c) (clk c)) = (t0, clk c') ∧
       let late := interval (sit c) <? instant_sub (now k).1 t0 in
       hands_over q (at_clock k c') ((if late then Byte.x01 else Byte.x00) :: be_bytes 2 (next_seq_num c') ++ s)) ∧
  (∀ c', enable (rit c) = false → enable (sit c) = false → final (dtcp_recv c) = Some c' →
     hands_over q (at_clock k c') (Byte.x00 :: be_bytes 2 (next_seq_num c) ++ s)) ∧
  (∀ b st k0, build_channel b st k0 = Some c →
     hands_over q (at_clock k c) (Byte.x01 :: be_bytes 2 0 ++ s) ∧
     ∀ c', final (dtcp_recv c) = Some c' →
       hands_over q (at_clock k c') (Byte.x00 :: be_bytes 2 0 ++ s)).
Proof.
  intros Hs. split_and!.
  - intros q0 s0 c' Hs0 Hc. destruct (next_drf_sent q0 s0 c c' k Hs0 Hc) as (t0 & Ht & Hd).
    exists t0. split; [done|]. cbv zeta. rewrite <-Hd.
    pose proof (send_hands_over q s (at_clock k c') Hs) as H. by destruct (next_drf (at_clock k c')).
  - intros c' Hr Hst Hc. destruct (next_drf_received c c' k Hr Hst Hc) as [Hd <-].
    pose proof (send_hands_over q s (at_clock k c') Hs) as H. by rewrite Hd in H.
  - intros b st k0 Hb. destruct (build_channel_fresh b st k0 c Hb) as (Hr & Hst & Hn & Hf). split.
    + pose proof (send_hands_over q s (at_clock k c) Hs) as H.
      unfold next_drf in H. cbn in H. by rewrite Hf, Hn in H.
    + intros c' Hc. destruct (next_drf_received c c' k Hr Hst Hc) as [Hd Hn'].
      pose proof (send_hands_over q s (at_clock k c') Hs) as H. by rewrite Hd, Hn', Hn in H || (cbn in H; rewrite Hd, Hn', Hn in H).
Qed.
End props.

(** ** DTCP over a reliable channel *)

Section reliable.
Context {BC : BytesCrate} {BL : BytesLaws BC} {BO : ByteOrderCrate} {BOL : ByteOrderLaws BO}.
Context {PR : Profile}.
Context {S P C : Type} `{!BasePacket P} {max : Z} `{!PacketLaws P max}.
Context `{!Channel S P} `{!ReliableChannel S P} `{!Clock C}.
#[local] Abbreviation chan := (DtcpChannel S C).

(** A payload of the inner channel that is a DTCP packet. *)
Definition valid_dtcp (p : list byte) : Prop :=
  (3 ≤ length p)%nat ∧ dtcp_check_header (take 3 p) = Ok ().

Lemma valid_dtcp_header t n s : valid_dtcp (dtcp_header t n ++ s).
Proof. split; [cbn; lia|]. by destruct t as [[]|]. Qed.

(** The two ends of a DTCP channel over a reliable channel make a reliable
    channel: one adds the header, the other takes it off. *)
#[export] Instance Dtcp_Reliable : ReliableChannel (ends chan S) (DtcpPacket P).
Proof.
  refine {|
    rc_inv e := rc_inv (medium e) ∧ Forall valid_dtcp (rc_pending (medium e));
    rc_pending e := drop 3 <$> rc_pending (medium e);
    rc_ok n := rc_ok (3 + n)
  |}.
  - intros q s e [Hi Hv] Hs Hok.
    destruct (dtcp_send_eq q s (put_channel (medium e) (near e)) Hs) as (p & Hp & Heq).
    destruct (rc_send p _ _ Hi Hp Hok) as (st & Hst & Hi' & Hp').
    cbn. unfold at_near, at_far, zoom. cbn. rewrite Heq. cbn. rewrite Hst.
    eexists. split; [done|]. cbn. rewrite Hp', fmap_app. split_and!; [done| |done].
    apply Forall_app. split; [done|]. by apply Forall_singleton, valid_dtcp_header.
  - intros e s l [Hi Hv] Hl. destruct (rc_pending (medium e)) as [|p ps] eqn:Ep; [done|].
    apply Forall_cons in Hv as [[Hlen Hchk] Hv]. injection Hl as <- <-.
    destruct (rc_recv _ _ _ Hi Ep) as (p1 & st & Hst & Hp1 & Hi' & Hps).
    cbn. unfold at_near, at_far, zoom. cbn. rewrite dtcp_recv_eq. cbn [dtcp_channel put_channel]. rewrite Hst.
    rewrite (dtcp_check_eq (MkDtcpPacket p1) p Hp1 Hlen), Hchk.
    eexists _, _. split; [done|]. cbn. rewrite Hps. split_and!; try done.
    unfold DtcpPacket_payload. cbn. rewrite Hp1. cbn. by apply slice_from_Some.
  - intros e [Hi Hv] Hl. destruct (rc_pending (medium e)) eqn:Ep; [|done].
    destruct (rc_wait _ Hi Ep) as (st & Hst & Hi' & Hp').
    cbn. unfold at_near, at_far, zoom. cbn. rewrite dtcp_recv_eq. cbn [dtcp_channel put_channel]. rewrite Hst.
    eexists. split; [done|]. cbn. by rewrite Hp'.
Defined.

(** DTCP over a reliable channel is transparent.  Whatever the order of
    the sends at one end and the receives at the other, the payloads
    received followed by those in flight are those that were in flight
    followed by those sent, in order; a receive waits only when nothing is
    in flight; and no call fails or panics. *)
Theorem dtcp_reliable_fifo (cs : list (channel_call (DtcpPacket P))) (e : ends chan S) :
  Forall (valid_call (ends chan S)) cs → rc_inv e →
  match run_calls cs e with
  | Return rs e' => rc_inv e' ∧ rc_pending e ++ payloads (sent cs) = payloads rs ++ rc_pending e'
  | Suspend e' => rc_inv e' ∧ rc_pending e' = []
  | _ => False
  end.
Proof. apply reliable_run. Qed.

(** A run of sends. *)
Fixpoint send_all (qs : list (DtcpPacket P)) : M io_error chan () :=
  match qs with
  | [] => mret ()
  | q :: qs => send q;; send_all qs
  end.

(** The numbers and flags of a run of packets, from number [n] on. *)
Definition numbered (n : Z) (flags : list bool) (ss : list (list byte)) : list (list byte) :=
  imap (λ i '(f, s), dtcp_header (Transfer f) ((n + Z.of_nat i) mod 65536) ++ s) (zip flags ss).

Lemma numbered_cons n f flags s ss : 0 ≤ n < 65536 →
  numbered n (f :: flags) (s :: ss) =
  (dtcp_header (Transfer f) n ++ s) :: numbered (wrap 16 (n + 1)) flags ss.
Proof.
  intros Hn. unfold numbered. cbn [zip zip_with imap]. rewrite Z.add_0_r, Z.mod_small by done.
  f_equal. apply imap_ext. intros i [f' s'] _. unfold compose, wrap. change (2 ^ 16) with 65536.
  rewrite Zplus_mod_idemp_l. do 3 f_equal. lia.
Qed.

(** Sequence numbers.  A run of sends on a reliable channel puts on the
    inner channel exactly the payloads sent, in order, the i-th behind a
    header with number n + i modulo 2^16, n the channel's next number, and
    leaves the channel at the number after the last. *)
Theorem sequence_numbers qs ss (c : chan) :
  Forall2 (λ q s, payload q = Some s ∧ rc_ok (3 + length s)) qs ss → rc_inv (dtcp_channel c) → fits 16 (next_seq_num c) →
  ∃ c' flags, send_all qs c = Return () c' ∧ length flags = length ss ∧
    rc_pending (dtcp_channel c') =
      rc_pending (dtcp_channel c) ++ numbered (next_seq_num c) flags ss ∧
    next_seq_num c' = (next_seq_num c + Z.of_nat (length ss)) mod 65536.
Proof.
  intros Hqs. revert c. induction Hqs as [|q s qs ss [Hq Hok] Hqs IH]; intros c Hi Hn.
  - exists c, []. cbn. rewrite Z.add_0_r, Z.mod_small by done. by rewrite app_nil_r.
  - destruct (dtcp_send_eq q s c Hq) as (p & Hp & Heq).
    destruct (rc_send p _ _ Hi Hp Hok) as (st & Hst & Hi1 & Hpend).
    rewrite Hst in Heq. set (c1 := restart_sit _) in Heq.
    assert (dtcp_channel c1 = st ∧ next_seq_num c1 = wrap 16 (next_seq_num c + 1)) as [Hd Hs1]
      by done.
    rewrite <-Hd in Hi1. clearbody c1.
    assert (fits 16 (next_seq_num c1)) as Hn1.
    { rewrite Hs1. apply Z.mod_pos_bound. lia. }
    destruct (IH c1 Hi1 Hn1) as (c' & flags & Hsend & Hl & Hpend' & Hseq).
    exists c', (next_drf c :: flags). cbn [send_all]. run.
    cbn [send Dtcp_Channel]. rewrite Heq, Hsend. split_and!; [done|cbn; lia| |].
    + rewrite numbered_cons by done. rewrite Hpend', Hd, Hpend, Hs1. by rewrite <-(assoc_L (++)).
    + rewrite Hseq, Hs1. cbn [length]. unfold wrap. change (2 ^ 16) with 65536.
      rewrite Zplus_mod_idemp_l. f_equal. lia.
Qed.
End reliable.
