(* ===== verification/DtcpExamples.v ===== *)
(** * DTCP over the loopback channel: the theorems on concrete inputs *)

From S2P Require Export DtcpProps.

Import Reference LoopbackChannel.

#[local] Instance example_profile : Profile := dev.

Module DtcpExample.
(** A clock that advances by one nanosecond with each reading. *)
#[export] Instance ticking : Clock Z := {| now t := (t, t + 1) |}.

Abbreviation chan := (DtcpChannel Loopback Z).

(** [BytesMut] has no bound on payloads; 1000 bytes are enough here. *)
#[local] Instance small : PacketLaws BytesMut 1000 := BytesMut_laws 1000.

Definition fresh_channel : chan :=
  default (MkDtcpChannel (MkLoopback []) false 0 (MkTimer false 0 0) (MkTimer false 0 0) 0)
    (build_channel DtcpBuilder_new (MkLoopback []) 0).

(** The packet [From<&[u8]>] makes of [ping]. *)
Definition ping : list byte := [Byte.x70; Byte.x69; Byte.x6e; Byte.x67].

Definition ping_packet : DtcpPacket BytesMut :=
  default (MkDtcpPacket (RawBuf 0 [] [])) (from_slice (Q:=DtcpPacket BytesMut) ping).

Lemma ping_payload : payload ping_packet = Some ping.
Proof. vm_compute. reflexivity. Qed.

Lemma from_slice_correct_witness :
  ∃ q : DtcpPacket BytesMut, from_slice ping = Some q ∧ payload q = Some ping ∧
    check q = Some (Ok ()).
Proof. apply (from_slice_correct (max:=1000 - 3) ping). cbn. lia. Defined.

Lemma dtcp_header_roundtrip_witness :
  ∃ q1 q2, set_ty (Transfer true) ping_packet = Some q1 ∧ set_seq_num 4660 q1 = Some q2 ∧
    ty q2 = Some (Transfer true) ∧ seq_num q2 = Some 4660 ∧ payload q2 = Some ping ∧
    check q2 = Some (Ok ()) ∧
    payload (dtcp_inner q2) = Some (type_byte (Transfer true) :: be_bytes 2 4660 ++ ping).
Proof.
  apply (dtcp_header_roundtrip (max:=1000) ping_packet ping); [apply ping_payload|].
  unfold fits. lia.
Defined.

(** A packet with a type nibble of 2 is refused. *)
Definition bad : DtcpPacket BytesMut :=
  MkDtcpPacket (RawBuf 3 [Byte.x20; Byte.x00; Byte.x01] []).

Lemma dtcp_check_sound_witness : ∃ r, check bad = Some r ∧ r ≠ Ok ().
Proof.
  assert (payload (dtcp_inner bad) = Some [Byte.x20; Byte.x00; Byte.x01]) as Hp by reflexivity.
  destruct (dtcp_check_sound bad _ Hp) as ((r & Hr & Hiff) & _).
  exists r. split; [done|]. intros E. apply Hiff in E as (_ & b & [= <-] & Hb).
  revert Hb. vm_compute. discriminate.
Defined.

Lemma dtcp_send_spec_witness :
  ∃ p : BytesMut, payload p =
    Some (type_byte (Transfer (next_drf fresh_channel)) :: be_bytes 2 (next_seq_num fresh_channel) ++ ping).
Proof.
  destruct (dtcp_send_spec (max:=1000) ping_packet ping fresh_channel ping_payload) as (p & Hp & _).
  by exists p.
Defined.

Definition many_retries : DtcpBuilder := set_max_retries Byte.xff DtcpBuilder_new.

Lemma build_channel_timers_witness :
  (∃ c : chan, build_channel DtcpBuilder_new (MkLoopback []) 0 = Some c ∧
    interval (sit c) = 16800 * 1000000 ∧ interval (rit c) = 25200 * 1000000) ∧
  build_channel (PR:=dev) (C:=Z) many_retries (MkLoopback []) 0 = None ∧
  ∃ c : chan, build_channel (PR:=release) many_retries (MkLoopback []) 0 = Some c ∧
    interval (sit c) = 0.
Proof.
  split_and!.
  - destruct (build_channel_timers (PR:=dev) (C:=Z) DtcpBuilder_new (MkLoopback []) 0)
      as (c & Hc & _ & _ & _ & _ & Hs & _ & Hr); [by vm_compute..|].
    by exists c.
  - apply (build_channel_timers (PR:=dev) (C:=Z) many_retries (MkLoopback []) 0);
      by vm_compute.
  - destruct (build_channel_timers (PR:=release) (C:=Z) many_retries (MkLoopback []) 0)
      as (c & Hc & Hs & _); [by vm_compute..|]. by exists c.
Defined.

(** After the first send, the flag depends on the time since: 16.8 seconds are
    the interval of the send timer. *)
Lemma data_run_flag_witness :
  hands_over ping_packet (at_clock 0 fresh_channel) (Byte.x01 :: be_bytes 2 0 ++ ping) ∧
  ∃ c', dtcp_send ping_packet fresh_channel = Return () c' ∧
    hands_over ping_packet (at_clock 16800000000 c') (Byte.x00 :: be_bytes 2 1 ++ ping) ∧
    hands_over ping_packet (at_clock 16900000000 c') (Byte.x01 :: be_bytes 2 1 ++ ping).
Proof.
  assert (match dtcp_send ping_packet fresh_channel with Return _ c' => next_seq_num c' = 1 | _ => False end)
    as Hn by (vm_compute; reflexivity).
  destruct (dtcp_send ping_packet fresh_channel) as [[] c'| | | |] eqn:Hc; try (exfalso; exact Hn).
  split.
  - refine (proj1 (proj2 (proj2 (data_run_flag (max:=1000) fresh_channel ping_packet ping 0 ping_payload))
      DtcpBuilder_new (MkLoopback []) 0 _)). reflexivity.
  - exists c'. split; [reflexivity|].
    destruct (proj1 (data_run_flag (max:=1000) fresh_channel ping_packet ping 16800000000 ping_payload)
      ping_packet ping c' ping_payload Hc) as (t0 & Ht & Hearly).
    destruct (proj1 (data_run_flag (max:=1000) fresh_channel ping_packet ping 16900000000 ping_payload)
      ping_packet ping c' ping_payload Hc) as (t1 & Ht' & Hlate).
    injection Ht as <- _. injection Ht' as <- _. rewrite Hn in Hearly, Hlate. by split.
Defined.

(** The two ends of the channel. *)
Definition both_ends : ends chan Loopback := MkEnds (MkLoopback []) fresh_channel fresh_channel.

Definition calls : list (channel_call (DtcpPacket BytesMut)) :=
  [CallSend ping_packet; CallSend ping_packet; CallRecv].

Lemma dtcp_reliable_fifo_witness :
  match run_calls calls both_ends with
  | Return rs e' => rc_inv e' ∧ ping :: ping :: [] = payloads rs ++ rc_pending e'
  | _ => False
  end.
Proof.
  pose proof (dtcp_reliable_fifo (max:=1000) calls both_ends) as H.
  assert (match run_calls calls both_ends with Return _ _ => True | _ => False end)
    as Hret by (vm_compute; exact I).
  destruct (run_calls calls both_ends) as [rs e'| | | |]; try done.
  apply H; [|by split; vm_compute].
  repeat apply Forall_cons_2; try exact I; try apply Forall_nil_2;
    (exists ping; split; [apply ping_payload|exact I]).
Defined.

Lemma sequence_numbers_witness :
  ∃ c' flags, send_all [ping_packet; ping_packet] fresh_channel = Return () c' ∧
    length (flags : list bool) = 2%nat ∧ next_seq_num c' = 2.
Proof.
  destruct (sequence_numbers (max:=1000) [ping_packet; ping_packet] [ping; ping] fresh_channel)
    as (c' & flags & ? & ? & _ & ?).
  - repeat constructor; apply ping_payload || exact I.
  - done.
  - by vm_compute.
  - by exists c', flags.
Defined.
End DtcpExample.
