(* ===== verification/Secure.v ===== *)
(** * Crate efcp: the encrypted channel (src/efcp/src/secure.rs)

    A DiscoPacket has the nonce, eight bytes big-endian, and the
    authentication tag before the encrypted payload. *)

From S2P Require Export Channel.

Record DiscoPacket (P : Type) : Type := MkDiscoPacket { disco_inner : P }.
Arguments MkDiscoPacket {P} _.
Arguments disco_inner {P} _.

#[export] Instance DiscoPacket_Newtype P : Newtype (DiscoPacket P) P.
Proof. by refine {| Self := MkDiscoPacket; inner := disco_inner |}; [|intros []]. Defined.

Section DiscoPacket.
Context {BC : BytesCrate} {BO : ByteOrderCrate} {DC : DiscoCrate} {P : Type} `{!BasePacket P}.

#[export] Instance DiscoPacket_BufMut : BufMut (DiscoPacket P) := derive_BufMut.

(** The bytes before the payload. *)
Definition HEADER : nat := 8 + TAG_LEN.

Definition DiscoPacket_new (payload_len : Z) : option (DiscoPacket P) :=
  packet ← new (payload_len + 8 + Z.of_nat TAG_LEN);
  packet ← put_u64_be 0 packet;
  packet ← put_slice (replicate TAG_LEN Byte.x00) packet;
  Some (MkDiscoPacket packet).

Definition DiscoPacket_check (q : DiscoPacket P) : option (result () io_error) :=
  p ← payload (disco_inner q);
  if bool_decide (length p < 8)%nat
  then Some (Err (IoError Other "invalid disco packet"))
  else Some (Ok ()).

Definition DiscoPacket_payload (q : DiscoPacket P) : option (list byte) :=
  p ← payload (disco_inner q); slice_from HEADER p.

Definition DiscoPacket_payload_mut (q : DiscoPacket P) : option (borrow (DiscoPacket P)) :=
  b ← payload_mut (disco_inner q); borrow_map MkDiscoPacket <$> borrow_from HEADER b.

#[export] Instance DiscoPacket_BasePacket : BasePacket (DiscoPacket P) := {|
  new := DiscoPacket_new;
  check := DiscoPacket_check;
  payload := DiscoPacket_payload;
  payload_mut := DiscoPacket_payload_mut
|}.

#[export] Instance DiscoPacket_Packet : Packet (DiscoPacket P) P := derive_Packet.

Definition nonce (q : DiscoPacket P) : option Z :=
  p ← payload (disco_inner q); s ← slice_to 8 p; read_u64 s.

Definition set_nonce (n : Z) (q : DiscoPacket P) : option (DiscoPacket P) :=
  b ← payload_mut (disco_inner q);
  MkDiscoPacket <$> update_borrow (λ p, s ← slice_to 8 p; s ← write_u64 n s; Some (splice 0 s p)) b.

Definition tag (q : DiscoPacket P) : option (list byte) :=
  p ← payload (disco_inner q); slice 8 HEADER p.

Definition set_tag (t : list byte) (q : DiscoPacket P) : option (DiscoPacket P) :=
  b ← payload_mut (disco_inner q);
  MkDiscoPacket <$> update_borrow (copy_from_slice 8 HEADER t) b.
End DiscoPacket.

(** ** DiscoChannel *)

Record DiscoChannel {DC : DiscoCrate} (S : Type) : Type := MkDiscoChannel {
  transport : StatelessTransportState;
  disco_channel : S;
  next_nonce : Z
}.
Arguments MkDiscoChannel {DC S} _ _ _.
Arguments transport {DC S} _.
Arguments disco_channel {DC S} _.
Arguments next_nonce {DC S} _.

Section DiscoChannel.
Context {BC : BytesCrate} {BO : ByteOrderCrate} {DC : DiscoCrate}.
Context {S P : Type} `{!BasePacket P} `{!Channel S P}.
#[local] Abbreviation chan := (DiscoChannel S).

Definition DiscoChannel_new (channel : S) (state : StatelessTransportState) : chan :=
  MkDiscoChannel state channel 0.

Definition put_disco (s : S) (c : chan) : chan := MkDiscoChannel (transport c) s (next_nonce c).

#[export] Instance Disco_Wraps : Wraps chan S.
Proof. by refine {| get_inner := disco_channel; put_inner := put_disco |}. Defined.

(** [self.nonce.fetch_add(1)] of 64 bits, which wraps. *)
Definition fetch_add_nonce : M io_error chan Z := λ c,
  Return (next_nonce c)
    (MkDiscoChannel (transport c) (disco_channel c) (wrap 64 (next_nonce c + 1))).

(** [self.state.write_message(nonce, packet.payload_mut())]: the packet with
    its payload encrypted in place, and the tag. *)
Definition encrypt (t : StatelessTransportState) (n : Z) (packet : DiscoPacket P)
    : option (DiscoPacket P * list byte) :=
  b ← payload_mut packet;
  let '(c, tag) := transport_write t n (view b) in
  Some (give_back b c, tag).

Definition decrypt (t : StatelessTransportState) (n : Z) (tag : list byte) (packet : DiscoPacket P)
    : option (DiscoPacket P * result () ReadError) :=
  b ← payload_mut packet;
  let '(m, r) := transport_read t n (view b) tag in
  Some (give_back b m, r).

Definition disco_send (packet : DiscoPacket P) : M io_error chan () :=
  nonce ← fetch_add_nonce;
  packet ← unwrap (set_nonce nonce packet);
  t ← gets transport;
  '(packet, tag) ← unwrap (encrypt t nonce packet);
  packet ← unwrap (set_tag tag packet);
  zoom disco_channel put_disco (send (into_packet packet)).

Definition disco_recv : M io_error chan (DiscoPacket P) :=
  p ← zoom disco_channel put_disco recv;
  r ← unwrap (parse p);
  packet ← try r;
  nonce ← unwrap (nonce packet);
  tag ← unwrap (tag packet);
  t ← gets transport;
  '(packet, r) ← unwrap (decrypt t nonce tag packet);
  match r with
  | Ok _ => mret packet
  | Err err => throw (IoError Other (read_error_debug err))
  end.

#[export] Instance Disco_Channel : Channel chan (DiscoPacket P) := {|
  send := disco_send;
  recv := disco_recv
|}.

(** [Deref]. *)
Definition disco_deref (c : chan) : S := disco_channel c.
End DiscoChannel.
