(* ===== verification/SecureProps.v ===== *)
(** * The encrypted channel: the theorems

    The header, what a send puts on the wire and a receive makes of it, the
    nonces of a run of sends, the packets whose header [check] lets through
    although it is not there, and transparency over a reliable channel. *)

From S2P Require Export Secure.

Section laws.
Context {BC : BytesCrate} {BL : BytesLaws BC} {BO : ByteOrderCrate} {BOL : ByteOrderLaws BO}.
Context {DC : DiscoCrate} {P : Type} `{!BasePacket P} {max : Z} `{!PacketLaws P max}.

Lemma disco_check_eq (q : DiscoPacket P) s : payload (disco_inner q) = Some s →
  check q = Some (if bool_decide (length s < 8)%nat
                  then Err (IoError Other "invalid disco packet") else Ok ()).
Proof.
  intros Hp. cbn. unfold DiscoPacket_check. rewrite Hp. cbn. by case_bool_decide.
Qed.

#[export] Instance DiscoPacket_HeaderPacket :
  HeaderPacket (DiscoPacket P) P max HEADER
    (be_bytes 8 0 ++ replicate TAG_LEN Byte.x00) (λ _, Ok ()).
Proof.
  split; try done.
  - intros q s Hp Hs. rewrite (disco_check_eq q s Hp).
    rewrite bool_decide_false; [done|]. unfold HEADER in Hs. lia.
  - unfold HEADER. by rewrite length_app, length_be_bytes, length_replicate.
  - intros n Hn. unfold HEADER in Hn.
    destruct (new_spec (P:=P) (n + 8 + Z.of_nat TAG_LEN)) as (p & Hnew & Hpay & Hr & _); [lia|].
    cbn [new DiscoPacket_BasePacket]. unfold DiscoPacket_new. rewrite Hnew. cbn [mbind option_bind].
    destruct (put_slice_append p [] (be_bytes 8 0) Hpay) as (Hp1 & Hpay1 & Hr1 & _);
      [solve_length|].
    rewrite put_u64_be_spec, Hp1. cbn [mbind option_bind].
    destruct (put_slice_append _ _ (replicate TAG_LEN Byte.x00) Hpay1) as (Hp2 & Hpay2 & Hr2 & _);
      [rewrite Hr1, length_be_bytes, length_replicate; lia|].
    rewrite Hp2. cbn [mbind option_bind]. eexists. split; [done|].
    split; [exact Hpay2|]. cbn [Newtype_Layer lower inner DiscoPacket_Newtype disco_inner].
    rewrite Hr2, Hr1, length_be_bytes, length_replicate. lia.
Qed.

#[export] Instance DiscoPacket_laws : PacketLaws (DiscoPacket P) (max - Z.of_nat HEADER).
Proof. exact (header_packet_laws (Q:=DiscoPacket P) (max:=max)). Qed.

(** The header and payload of a packet whose payload can be read. *)
Lemma disco_payload_header (q : DiscoPacket P) s : payload q = Some s →
  ∃ n t, payload (disco_inner q) = Some (n ++ t ++ s) ∧ length n = 8%nat ∧ length t = TAG_LEN.
Proof.
  cbn. unfold DiscoPacket_payload. destruct (payload (disco_inner q)) as [p|]; cbn; [|done].
  rewrite slice_from_Some. intros [Hl ->]. unfold HEADER in *.
  exists (take 8 p), (take TAG_LEN (drop 8 p)).
  rewrite !length_take, length_drop. split_and!; [|lia..]. f_equal.
  rewrite <-(take_drop 8 p) at 1. f_equal.
  rewrite <-(take_drop TAG_LEN (drop 8 p)) at 1. f_equal. by rewrite drop_drop.
Qed.

Lemma disco_payload_eq (q : DiscoPacket P) n t s : payload (disco_inner q) = Some (n ++ t ++ s) →
  length n = 8%nat → length t = TAG_LEN → payload q = Some s.
Proof.
  intros Hp Hn Ht. cbn. unfold DiscoPacket_payload. rewrite Hp. cbn. apply slice_from_Some.
  unfold HEADER. rewrite !length_app, (assoc_L (++)), drop_app_length'; [|rewrite length_app; lia].
  split; [lia|done].
Qed.

Lemma disco_update_inner (q : DiscoPacket P) f p p' :
  payload (disco_inner q) = Some p → f p = Some p' → length p' = length p →
  ∃ q', (b ← payload_mut (disco_inner q); MkDiscoPacket <$> update_borrow f b) = Some q' ∧
    payload (disco_inner q') = Some p' ∧ remaining_mut q' = remaining_mut q.
Proof.
  intros Hp Hf Hl. destruct (payload_mut_Some _ _ Hp) as (k & Hk & Hg).
  rewrite Hk. cbn. unfold update_borrow. cbn. rewrite Hf. cbn.
  eexists. split; [done|]. cbn. by destruct (Hg p' Hl) as (? & ? & _).
Qed.

Lemma set_nonce_inner n (q : DiscoPacket P) h p :
  payload (disco_inner q) = Some (h ++ p) → length h = 8%nat →
  ∃ q', set_nonce n q = Some q' ∧ payload (disco_inner q') = Some (be_bytes 8 n ++ p) ∧
    remaining_mut q' = remaining_mut q.
Proof.
  intros Hp Hh. eapply disco_update_inner; [done| |].
  - unfold slice_to. rewrite bool_decide_true by solve_length. cbn [mbind option_bind].
    rewrite write_u64_spec, take_app_length' by done. unfold be_write.
    rewrite bool_decide_true by lia. cbn [mbind option_bind].
    unfold splice. rewrite take_0, !length_app, length_be_bytes, length_drop, Hh.
    rewrite drop_ge by lia. rewrite app_nil_r. cbn [app]. rewrite drop_app_length' by lia. done.
  - solve_length.
Qed.

Lemma set_tag_inner t (q : DiscoPacket P) n t0 s :
  payload (disco_inner q) = Some (n ++ t0 ++ s) → length n = 8%nat →
  length t0 = TAG_LEN → length t = TAG_LEN →
  ∃ q', set_tag t q = Some q' ∧ payload (disco_inner q') = Some (n ++ t ++ s) ∧
    remaining_mut q' = remaining_mut q.
Proof.
  intros Hp Hn Ht0 Ht. eapply disco_update_inner; [done| |].
  - unfold copy_from_slice, HEADER. rewrite bool_decide_true by solve_length.
    unfold splice. rewrite take_app_length' by done. do 3 f_equal.
    rewrite (assoc_L (++)), drop_app_length'; [done|]. solve_length.
  - solve_length.
Qed.

Lemma nonce_eq (q : DiscoPacket P) n p : fits 64 n →
  payload (disco_inner q) = Some (be_bytes 8 n ++ p) → nonce q = Some n.
Proof.
  intros Hn Hp. unfold nonce. rewrite Hp. cbn [mbind option_bind]. unfold slice_to.
  rewrite bool_decide_true by solve_length. cbn [mbind option_bind].
  rewrite take_app_length' by by rewrite length_be_bytes.
  rewrite read_u64_spec. unfold be_read.
  rewrite length_be_bytes, bool_decide_true by lia.
  rewrite take_ge by solve_length. f_equal. by apply be_value_bytes_small.
Qed.

Lemma tag_eq (q : DiscoPacket P) n t s : length n = 8%nat → length t = TAG_LEN →
  payload (disco_inner q) = Some (n ++ t ++ s) → tag q = Some t.
Proof.
  intros Hn Ht Hp. unfold tag. rewrite Hp. cbn [mbind option_bind]. unfold slice, HEADER.
  rewrite bool_decide_true by solve_length. f_equal.
  rewrite drop_app_length' by done. by rewrite take_app_length' by lia.
Qed.

(** The DISCO header round-trips: on a packet with a payload, after
    [set_nonce] and [set_tag] the packet reads back any 64-bit nonce and any
    tag, and its bytes are the nonce, big-endian, the tag, and the payload,
    which is unchanged. *)
Theorem disco_header_roundtrip (q : DiscoPacket P) s n t :
  payload q = Some s → fits 64 n → length t = TAG_LEN →
  ∃ q1 q2, set_nonce n q = Some q1 ∧ set_tag t q1 = Some q2 ∧
    nonce q2 = Some n ∧ tag q2 = Some t ∧ payload q2 = Some s ∧ check q2 = Some (Ok ()) ∧
    payload (disco_inner q2) = Some (be_bytes 8 n ++ t ++ s).
Proof.
  intros Hs Hn Ht. destruct (disco_payload_header q s Hs) as (n0 & t0 & Hp & Hn0 & Ht0).
  destruct (set_nonce_inner n q n0 _ Hp Hn0) as (q1 & H1 & Hp1 & _).
  destruct (set_tag_inner t q1 _ _ _ Hp1 (length_be_bytes _ _) Ht0 Ht) as (q2 & H2 & Hp2 & _).
  exists q1, q2. split_and!; try done.
  - by eapply nonce_eq.
  - by apply (tag_eq _ _ _ _ (length_be_bytes 8 n) Ht Hp2).
  - by apply (disco_payload_eq _ _ _ _ Hp2 (length_be_bytes 8 n)).
  - rewrite (disco_check_eq _ _ Hp2). rewrite bool_decide_false; [done|].
    solve_length.
Qed.
End laws.

Section props.
Context {BC : BytesCrate} {BL : BytesLaws BC} {BO : ByteOrderCrate} {BOL : ByteOrderLaws BO}.
Context {DC : DiscoCrate} {DL : DiscoLaws DC}.
Context {S P : Type} `{!BasePacket P} {max : Z} `{!PacketLaws P max} `{!Channel S P}.
#[local] Abbreviation chan := (DiscoChannel S).

#[local] Arguments decrypt : simpl never.
#[local] Arguments nonce : simpl never.
#[local] Arguments tag : simpl never.

(** The bytes of a packet on the wire. *)
Definition disco_wire (t : StatelessTransportState) (n : Z) (s : list byte) : list byte :=
  be_bytes 8 n ++ (transport_write t n s).2 ++ (transport_write t n s).1.

Lemma encrypt_eq t n (q : DiscoPacket P) s : payload q = Some s →
  ∃ q', encrypt t n q = Some (q', (transport_write t n s).2) ∧
    payload q' = Some (transport_write t n s).1 ∧
    (∀ h, payload (disco_inner q) = Some (h ++ s) → length h = HEADER →
          payload (disco_inner q') = Some (h ++ (transport_write t n s).1)).
Proof.
  intros Hs. destruct (payload_mut_Some _ _ Hs) as (k & Hk & Hg).
  unfold encrypt. rewrite Hk. cbn [mbind option_bind view give_back].
  pose proof (transport_write_length t n s) as Hl.
  destruct (transport_write t n s) as [c tg]. cbn [fst snd] in *.
  destruct (Hg c Hl) as (Hp & _ & _). eexists. split_and!; [done|exact Hp|].
  intros h Hh Hlen.
  destruct (hp_give_back (h:=HEADER) q (Borrow s k) c Hk Hl) as (v & Hv & Hh' & Hgb & _).
  cbn [lower Newtype_Layer inner DiscoPacket_Newtype give_back] in Hv, Hgb.
  rewrite Hh in Hv. injection Hv as <-. rewrite Hgb.
  by rewrite take_app_length' by done.
Qed.

Lemma decrypt_eq t n tg (q : DiscoPacket P) s : payload q = Some s →
  ∃ q', decrypt t n tg q = Some (q', (transport_read t n s tg).2) ∧
    payload q' = Some (transport_read t n s tg).1.
Proof.
  intros Hs. destruct (payload_mut_Some _ _ Hs) as (k & Hk & Hg).
  unfold decrypt. rewrite Hk. cbn [mbind option_bind view give_back].
  pose proof (transport_read_length t n s tg) as Hl.
  destruct (transport_read t n s tg) as [m r]. cbn [fst snd] in *.
  destruct (Hg m Hl) as (Hp & _ & _). eauto.
Qed.

Definition bump (c : chan) : chan :=
  MkDiscoChannel (transport c) (disco_channel c) (wrap 64 (next_nonce c + 1)).

(** The packet a send hands to the inner channel. *)
Definition disco_packet (t : StatelessTransportState) (n : Z) (q : DiscoPacket P) : option P :=
  q ← set_nonce n q;
  '(q, tg) ← encrypt t n q;
  disco_inner <$> set_tag tg q.

Lemma disco_packet_payload t n (q : DiscoPacket P) s : payload q = Some s →
  ∃ p, disco_packet t n q = Some p ∧ payload p = Some (disco_wire t n s).
Proof.
  intros Hs. destruct (disco_payload_header q s Hs) as (n0 & t0 & Hp & Hn0 & Ht0).
  destruct (set_nonce_inner n q n0 _ Hp Hn0) as (q1 & H1 & Hp1 & _).
  pose proof (length_be_bytes 8 n) as Hlen.
  pose proof (disco_payload_eq _ _ _ _ Hp1 Hlen Ht0) as Hs1.
  destruct (encrypt_eq t n q1 s Hs1) as (q2 & H2 & _ & Hp2).
  rewrite (assoc_L (++)) in Hp1.
  specialize (Hp2 _ Hp1 ltac:(rewrite length_app; unfold HEADER; lia)).
  rewrite <-(assoc_L (++)) in Hp2.
  destruct (set_tag_inner (transport_write t n s).2 q2 _ _ _ Hp2 Hlen Ht0)
    as (q3 & H3 & Hp3 & _); [apply transport_tag_length|].
  exists (disco_inner q3). split; [|exact Hp3].
  unfold disco_packet. rewrite H1. cbn [mbind option_bind]. rewrite H2. cbn [mbind option_bind].
  by rewrite H3.
Qed.

Lemma disco_send_packet (q : DiscoPacket P) (c : chan) :
  disco_send q c =
    match disco_packet (transport c) (next_nonce c) q with
    | None => Panic
    | Some p =>
      match send p (disco_channel c) with
      | Return _ st => Return () (put_disco st (bump c))
      | Throw e st => Throw e (put_disco st (bump c))
      | Suspend st => Suspend (put_disco st (bump c))
      | Panic => Panic
      | Diverge => Diverge
      end
    end.
Proof.
  unfold disco_send, fetch_add_nonce, disco_packet; run.
  destruct (set_nonce (next_nonce c) q) as [q1|]; [|done]. cbn [unwrap mret M_ret transport mbind option_bind].
  destruct (encrypt (transport c) (next_nonce c) q1) as [[q2 tg]|]; [|done].
  cbn [unwrap mret M_ret transport mbind option_bind].
  destruct (set_tag tg q2) as [q3|]; [|done]. cbn. unfold zoom. cbn.
  by destruct (send (disco_inner q3) (disco_channel c)) as [[]| | | |].
Qed.

Lemma disco_send_eq (q : DiscoPacket P) s (c : chan) : payload q = Some s →
  ∃ p, payload p = Some (disco_wire (transport c) (next_nonce c) s) ∧
    disco_send q c =
      match send p (disco_channel c) with
      | Return _ st => Return () (put_disco st (bump c))
      | Throw e st => Throw e (put_disco st (bump c))
      | Suspend st => Suspend (put_disco st (bump c))
      | Panic => Panic
      | Diverge => Diverge
      end.
Proof.
  intros Hs. destruct (disco_packet_payload (transport c) (next_nonce c) q s Hs) as (p & Hp & Hpay).
  exists p. split; [done|]. by rewrite disco_send_packet, Hp.
Qed.

(** What the encrypted [send] does.  It hands the inner channel one packet: the
    nonce, the tag, and the payload encrypted under that nonce; and ends as
    the inner send does.  The nonce is consumed whatever the outcome, so a
    failed send is never followed by another packet under its nonce, until
    2^64 sends later. *)
Theorem disco_send_spec (q : DiscoPacket P) s (c : chan) : payload q = Some s →
  ∃ p, payload p = Some (disco_wire (transport c) (next_nonce c) s) ∧
    match send p (disco_channel c), disco_send q c with
    | Return _ st, Return _ c' | Suspend st, Suspend c' => disco_channel c' = st ∧
        transport c' = transport c ∧ next_nonce c' = (next_nonce c + 1) mod 2 ^ 64
    | Throw e st, Throw e' c' => e = e' ∧ disco_channel c' = st ∧
        transport c' = transport c ∧ next_nonce c' = (next_nonce c + 1) mod 2 ^ 64
    | Panic, Panic | Diverge, Diverge => True
    | _, _ => False
    end.
Proof.
  intros Hs. destruct (disco_send_eq q s c Hs) as (p & Hp & ->). exists p. split; [done|].
  by destruct (send p (disco_channel c)).
Qed.

Lemma disco_recv_eq (c : chan) p st n t s :
  recv (disco_channel c) = Return p st → payload p = Some (be_bytes 8 n ++ t ++ s) →
  fits 64 n → length t = TAG_LEN →
  ∃ q, payload q = Some (transport_read (transport c) n s t).1 ∧
    disco_recv c =
      match (transport_read (transport c) n s t).2 with
      | Ok _ => Return q (put_disco st c)
      | Err e => Throw (IoError Other (read_error_debug e)) (put_disco st c)
      end.
Proof.
  intros Hr Hp Hn Ht. pose proof (length_be_bytes 8 n) as Hlen.
  pose proof (disco_payload_eq (MkDiscoPacket p) _ _ _ Hp Hlen Ht) as Hs.
  destruct (decrypt_eq (transport c) n t (MkDiscoPacket p) s Hs) as (q & Hd & Hq).
  exists q. split; [done|].
  unfold disco_recv, zoom; run. rewrite Hr.
  cbn [parse DiscoPacket_Packet derive_Packet]. unfold derive_parse.
  change (Self p) with (MkDiscoPacket p). rewrite (disco_check_eq (MkDiscoPacket p) _ Hp).
  rewrite bool_decide_false by solve_length. cbn.
  rewrite (nonce_eq (MkDiscoPacket p) n _ Hn Hp). cbn.
  rewrite (tag_eq (MkDiscoPacket p) _ _ _ Hlen Ht Hp). cbn. rewrite Hd. cbn.
  by destruct ((transport_read (transport c) n s t).2) as [[]|].
Qed.

(** C27: What the encrypted [recv] makes of a packet the inner channel gives.
    With fewer than 8 bytes it is an error.  With 8 bytes or more but no
    room for the tag it passes [check], and [recv] panics.  Otherwise the
    rest is decrypted under the nonce and tag it carries, and the result is
    the packet or, if the tag is wrong, an error. *)
Theorem disco_recv_spec (c : chan) p st l :
  recv (disco_channel c) = Return p st → payload p = Some l →
  ((length l < 8)%nat →
     disco_recv c = Throw (IoError Other "invalid disco packet") (put_disco st c)) ∧
  ((8 ≤ length l < HEADER)%nat →
     check (MkDiscoPacket p) = Some (Ok ()) ∧ disco_recv c = Panic) ∧
  (∀ n t s, l = be_bytes 8 n ++ t ++ s → fits 64 n → length t = TAG_LEN →
     match (transport_read (transport c) n s t).2 with
     | Ok _ => ∃ q, disco_recv c = Return q (put_disco st c) ∧
                 payload q = Some (transport_read (transport c) n s t).1
     | Err e => disco_recv c = Throw (IoError Other (read_error_debug e)) (put_disco st c)
     end).
Proof.
  intros Hr Hp. pose proof (disco_check_eq (MkDiscoPacket p) l Hp) as Hchk.
  split_and!.
  - intros Hl. rewrite bool_decide_true in Hchk by done.
    unfold disco_recv, zoom; run. rewrite Hr.
    cbn [parse DiscoPacket_Packet derive_Packet]. unfold derive_parse.
    change (Self p) with (MkDiscoPacket p). by rewrite Hchk.
  - intros Hl. rewrite bool_decide_false in Hchk by lia. split; [done|].
    unfold disco_recv, zoom; run. rewrite Hr.
    cbn [parse DiscoPacket_Packet derive_Packet]. unfold derive_parse.
    change (Self p) with (MkDiscoPacket p). rewrite Hchk. cbn.
    destruct (nonce (MkDiscoPacket p)); [cbn|done].
    assert (tag (MkDiscoPacket p) = None) as ->; [|done].
    unfold tag. cbn [disco_inner]. rewrite Hp. cbn [mbind option_bind].
    unfold slice. by rewrite bool_decide_false by lia.
  - intros n t s -> Hn Ht. destruct (disco_recv_eq c p st n t s Hr Hp Hn Ht) as (q & Hq & ->).
    destruct (transport_read _ n s t).2; eauto.
Qed.

Lemma disco_recv_wire t (c' : chan) n s p st : paired t (transport c') →
  fits 64 n → recv (disco_channel c') = Return p st →
  payload p = Some (disco_wire t n s) →
  ∃ q, disco_recv c' = Return q (put_disco st c') ∧ payload q = Some s.
Proof.
  intros Hpair Hn Hr Hp. unfold disco_wire in Hp.
  pose proof (transport_tag_length t n s) as Ht.
  destruct (transport_write t n s) as [ct tg] eqn:E. cbn [fst snd] in *.
  destruct (disco_recv_eq c' p st n tg ct Hr Hp Hn Ht) as (q & Hq & Heq).
  rewrite (transport_read_write _ _ _ _ _ _ Hpair Hn E) in Hq, Heq. by exists q.
Qed.

(** No protection against replay.  The receiver keeps no record of the
    nonces it has seen: when the inner channel gives twice the bytes that
    the peer sent once, both receives succeed with the same payload. *)
Theorem disco_replay (c c' : chan) s p1 p2 st1 st2 :
  paired (transport c) (transport c') → fits 64 (next_nonce c) →
  let w := disco_wire (transport c) (next_nonce c) s in
  recv (disco_channel c') = Return p1 st1 → payload p1 = Some w →
  recv st1 = Return p2 st2 → payload p2 = Some w →
  ∃ q1 q2, (x ← disco_recv; y ← disco_recv; mret (x, y)) c' = Return (q1, q2) (put_disco st2 c') ∧
    payload q1 = Some s ∧ payload q2 = Some s.
Proof.
  intros Hpair Hn w Hr1 Hp1 Hr2 Hp2.
  destruct (disco_recv_wire (transport c) c' _ s p1 st1 Hpair Hn Hr1 Hp1) as (q1 & H1 & Hq1).
  destruct (disco_recv_wire (transport c) (put_disco st1 c') _ s p2 st2 Hpair Hn Hr2 Hp2) as (q2 & H2 & Hq2).
  exists q1, q2. run. rewrite H1, H2. done.
Qed.
End props.

(** ** The encrypted channel over a reliable channel *)

Section reliable.
Context {BC : BytesCrate} {BL : BytesLaws BC} {BO : ByteOrderCrate} {BOL : ByteOrderLaws BO}.
Context {DC : DiscoCrate} {DL : DiscoLaws DC}.
Context {S P : Type} `{!BasePacket P} {max : Z} `{!PacketLaws P max}.
Context `{!Channel S P} `{!ReliableChannel S P}.
#[local] Abbreviation chan := (DiscoChannel S).

(** The payload under which some bytes decrypt. *)
Definition disco_plain (t : StatelessTransportState) (w : list byte) : list byte :=
  (transport_read t (be_value (take 8 w)) (drop HEADER w) (take TAG_LEN (drop 8 w))).1.

#[local] Arguments disco_plain : simpl never.
#[local] Arguments disco_wire : simpl never.

Lemma length_disco_wire t n s : length (disco_wire t n s) = (HEADER + length s)%nat.
Proof.
  unfold disco_wire. rewrite !length_app, length_be_bytes, transport_tag_length, transport_write_length.
  unfold HEADER. lia.
Qed.

Lemma disco_plain_wire t t' n s : paired t t' → fits 64 n →
  disco_plain t' (disco_wire t n s) = s.
Proof.
  intros Hp Hn. unfold disco_plain, disco_wire.
  pose proof (transport_tag_length t n s) as Ht. pose proof (length_be_bytes 8 n) as Hl.
  destruct (transport_write t n s) as [c tg] eqn:E. cbn [fst snd] in *.
  rewrite take_app_length', be_value_bytes_small by done.
  rewrite (drop_app_length' _ _ 8) by done. rewrite (take_app_length' tg c TAG_LEN) by done.
  rewrite (assoc_L (++)), drop_app_length' by (rewrite length_app; unfold HEADER; lia).
  by rewrite (transport_read_write _ _ _ _ _ _ Hp Hn E).
Qed.

Definition sent_by (t : StatelessTransportState) (w : list byte) : Prop :=
  ∃ n s, fits 64 n ∧ w = disco_wire t n s.

(** The two ends of a session over a reliable channel make a reliable
    channel. *)
#[export] Instance Disco_Reliable : ReliableChannel (ends chan S) (DiscoPacket P).
Proof.
  refine {|
    rc_inv e := rc_inv (medium e) ∧ paired (transport (near e)) (transport (far e)) ∧
      fits 64 (next_nonce (near e)) ∧ Forall (sent_by (transport (near e))) (rc_pending (medium e));
    rc_pending e := disco_plain (transport (far e)) <$> rc_pending (medium e);
    rc_ok n := rc_ok (HEADER + n)
  |}.
  - intros q s e (Hi & Hpair & Hn & Hw) Hs Hok.
    destruct (disco_send_eq q s (put_disco (medium e) (near e)) Hs) as (p & Hp & Heq).
    destruct (rc_send p _ _ Hi Hp) as (st & Hst & Hi' & Hp'); [by rewrite length_disco_wire|].
    cbn. unfold at_near, at_far, zoom. cbn. rewrite Heq. cbn. rewrite Hst.
    eexists. split; [done|]. cbn in *. rewrite Hp', fmap_app. cbn.
    rewrite disco_plain_wire by done. split_and!; try done.
    + apply Z.mod_pos_bound. lia.
    + apply Forall_app. split; [done|]. apply Forall_singleton. by exists (next_nonce (near e)), s.
  - intros e s l (Hi & Hpair & Hn & Hw) Hl.
    destruct (rc_pending (medium e)) as [|w ws] eqn:Ew; [done|].
    apply Forall_cons in Hw as [(n & s0 & Hn0 & ->) Hw]. cbn in Hl.
    rewrite disco_plain_wire in Hl by done. injection Hl as <- <-.
    destruct (rc_recv _ _ _ Hi Ew) as (p1 & st & Hst & Hp1 & Hi' & Hps).
    destruct (disco_recv_wire (transport (near e)) (put_disco (medium e) (far e)) n s0 p1 st Hpair Hn0 Hst Hp1)
      as (q & Hq & Hqs).
    cbn. unfold at_near, at_far, zoom. cbn. rewrite Hq.
    eexists _, _. split; [done|]. cbn. by rewrite Hps.
  - intros e (Hi & Hpair & Hn & Hw) Hl. destruct (rc_pending (medium e)) eqn:Ep; [|done].
    destruct (rc_wait _ Hi Ep) as (st & Hst & Hi' & Hp').
    cbn. unfold at_near, at_far, zoom, disco_recv. cbn. unfold zoom; run. cbn. rewrite Hst.
    eexists. split; [done|]. cbn. by rewrite Hp'.
Defined.

(** The encrypted channel over a reliable channel is transparent.  With
    the two ends of one session, whatever the order of the sends at one and
    the receives at the other, the payloads received followed by those in
    flight are those that were in flight followed by those sent, in order;
    a receive waits only when nothing is in flight; no call fails or
    panics. *)
Theorem disco_reliable_fifo (cs : list (channel_call (DiscoPacket P))) (e : ends chan S) :
  Forall (valid_call (ends chan S)) cs → rc_inv e →
  match run_calls cs e with
  | Return rs e' => rc_inv e' ∧ rc_pending e ++ payloads (sent cs) = payloads rs ++ rc_pending e'
  | Suspend e' => rc_inv e' ∧ rc_pending e' = []
  | _ => False
  end.
Proof. apply reliable_run. Qed.

Fixpoint send_all (qs : list (DiscoPacket P)) : M io_error chan () :=
  match qs with
  | [] => mret ()
  | q :: qs => send q;; send_all qs
  end.

(** Nonces are never reused.  Up to the 2^64-th packet, a run of sends
    on a reliable channel puts the i-th payload on the wire encrypted under
    the nonce n + i, n the channel's next nonce, without wrap-around: no two
    packets of the channel share a nonce. *)
Theorem nonces_fresh qs ss (c : chan) :
  Forall2 (λ q s, payload q = Some s ∧ rc_ok (HEADER + length s)) qs ss → rc_inv (disco_channel c) →
  0 ≤ next_nonce c → next_nonce c + Z.of_nat (length ss) < 2 ^ 64 →
  ∃ c', send_all qs c = Return () c' ∧
    next_nonce c' = next_nonce c + Z.of_nat (length ss) ∧
    rc_pending (disco_channel c') = rc_pending (disco_channel c) ++
      imap (λ i s, disco_wire (transport c) (next_nonce c + Z.of_nat i) s) ss.
Proof.
  intros Hqs. revert c. induction Hqs as [|q s qs ss [Hq Hok] Hqs IH]; intros c Hi Hn0 Hn.
  - exists c. cbn. split_and!; [done|lia|by rewrite app_nil_r].
  - cbn [length] in Hn. destruct (disco_send_eq q s c Hq) as (p & Hp & Heq).
    destruct (rc_send p _ _ Hi Hp) as (st & Hst & Hi1 & Hpend); [by rewrite length_disco_wire|].
    rewrite Hst in Heq. set (c1 := put_disco st (bump c)) in Heq.
    assert (next_nonce c1 = next_nonce c + 1) as Hn1.
    { cbn. unfold wrap. rewrite Z.mod_small; lia. }
    assert (disco_channel c1 = st ∧ transport c1 = transport c) as [Hd Ht] by done.
    rewrite <-Hd in Hi1. clearbody c1.
    destruct (IH c1 Hi1 ltac:(lia) ltac:(lia)) as (c' & Hsend & Hnn & Hpend').
    exists c'. cbn [send_all]. run. cbn [send Disco_Channel].
    rewrite Heq, Hsend. split_and!; [done|cbn [length]; lia|].
    rewrite Hpend', Hd, Hpend, <-(assoc_L (++)). cbn [imap app]. rewrite Z.add_0_r. do 2 f_equal.
    apply imap_ext. intros i s' _. unfold compose. rewrite Ht, Hn1. f_equal. lia.
Qed.
End reliable.
