(* ===== verification/SecureExamples.v ===== *)
(** * The encrypted channel over the loopback channel: concrete inputs *)

From S2P Require Export SecureProps.

Import Reference LoopbackChannel.

#[local] Instance example_profile : Profile := dev.

Module SecureExample.
Abbreviation chan := (DiscoChannel Loopback).

#[local] Instance small : PacketLaws BytesMut 1000 := BytesMut_laws 1000.

Definition buffer (l : list byte) : BytesMut := RawBuf (Z.of_nat (length l)) l [].

Definition start (l : list BytesMut) : chan := DiscoChannel_new (MkLoopback l) 7.

Definition ping : list byte := [Byte.x70; Byte.x69; Byte.x6e; Byte.x67].

Definition ping_packet : DiscoPacket BytesMut :=
  default (MkDiscoPacket (RawBuf 0 [] [])) (from_slice (Q:=DiscoPacket BytesMut) ping).

Lemma sealed_ping_payload : payload ping_packet = Some ping.
Proof. vm_compute. reflexivity. Qed.

Definition some_tag : list byte := replicate 16 Byte.xaa.

Lemma disco_header_roundtrip_witness :
  ∃ q1 q2, set_nonce 513 ping_packet = Some q1 ∧ set_tag some_tag q1 = Some q2 ∧
    nonce q2 = Some 513 ∧ tag q2 = Some some_tag ∧ payload q2 = Some ping ∧
    check q2 = Some (Ok ()) ∧
    payload (disco_inner q2) = Some (be_bytes 8 513 ++ some_tag ++ ping).
Proof.
  apply (disco_header_roundtrip (max:=1000) ping_packet ping 513 some_tag).
  - apply sealed_ping_payload.
  - unfold fits. lia.
  - reflexivity.
Defined.

Lemma disco_send_spec_witness :
  ∃ p : BytesMut, payload p = Some (be_bytes 8 0 ++ ref_tag 7 0 ping ++ ping).
Proof.
  destruct (disco_send_spec (max:=1000) ping_packet ping (start []) sealed_ping_payload) as (p & Hp & _).
  by exists p.
Defined.

(** Ten bytes: a nonce and no tag. *)
Definition short : list byte := replicate 10 Byte.x01.

Lemma disco_recv_spec_witness : disco_recv (start [buffer short]) = Panic.
Proof.
  apply (disco_recv_spec (max:=1000) (start [buffer short]) (buffer short) (MkLoopback []) short);
    [reflexivity|reflexivity|vm_compute; lia].
Defined.

Definition wire : list byte := disco_wire (7 : StatelessTransportState) 0 ping.

Lemma disco_replay_witness :
  ∃ q1 q2, (x ← disco_recv; y ← disco_recv; mret (x, y)) (start [buffer wire; buffer wire]) =
      Return (q1, q2) (put_disco (MkLoopback []) (start [buffer wire; buffer wire])) ∧
    payload q1 = Some ping ∧ payload q2 = Some ping.
Proof.
  apply (disco_replay (max:=1000) (start []) (start [buffer wire; buffer wire]) ping
    (buffer wire) (buffer wire) (MkLoopback [buffer wire])).
  - reflexivity.
  - split; [done|by vm_compute].
  - reflexivity.
  - reflexivity.
  - reflexivity.
  - reflexivity.
Defined.

Definition both_ends : ends chan Loopback := MkEnds (MkLoopback []) (start []) (start []).

Definition calls : list (channel_call (DiscoPacket BytesMut)) :=
  [CallSend ping_packet; CallRecv; CallSend ping_packet; CallRecv].

Lemma disco_reliable_fifo_witness :
  match run_calls calls both_ends with
  | Return rs e' => rc_inv e' ∧ ping :: ping :: [] = payloads rs ++ rc_pending e'
  | _ => False
  end.
Proof.
  pose proof (disco_reliable_fifo (max:=1000) calls both_ends) as H.
  assert (match run_calls calls both_ends with Return _ _ => True | _ => False end)
    as Hret by (vm_compute; exact I).
  destruct (run_calls calls both_ends) as [rs e'| | | |]; try done.
  apply H.
  - repeat apply Forall_cons_2; try exact I; try apply Forall_nil_2;
      (exists ping; split; [apply sealed_ping_payload|exact I]).
  - split_and!; [done|done|split; [done|by vm_compute]|constructor].
Defined.

Lemma nonces_fresh_witness :
  ∃ c', send_all [ping_packet; ping_packet] (start []) = Return () c' ∧ next_nonce c' = 2.
Proof.
  destruct (nonces_fresh (max:=1000) [ping_packet; ping_packet] [ping; ping] (start []))
    as (c' & Hc & Hn & _).
  - repeat constructor; apply sealed_ping_payload || exact I.
  - done.
  - done.
  - by vm_compute.
  - by exists c'.
Defined.
End SecureExample.
