(* ===== verification/Negotiation.v ===== *)
(** * Crate efcp: errors and protocol negotiation
    (src/efcp/src/error.rs, src/efcp/src/negotiation.rs)

    Two parties take turns to propose the protocols they have, each in its own
    order of preference, until one accepts a proposal of the other or has
    nothing left to propose. *)

From S2P Require Export Text Crates.

(** ** HandshakeError *)

Inductive HandshakeError {DC : DiscoCrate} : Type :=
| Io (e : io_error)
| Disco (e : ReadError)
| ProtocolError
| NegotiationError
| ExternalAddr.

(** Protocols are strings. *)
Definition Protocol : Type := str.

Inductive Message : Type :=
| Propose (protocol : Protocol)
| Accept
| Fail.

#[export] Instance Message_eq_dec : EqDecision Message.
Proof. solve_decision. Defined.

Record Negotiation : Type := MkNegotiation {
  protocols : list Protocol;
  tried : nat;
  started : bool;
  proposed : option Protocol;
  accepted : option Protocol;
  finished : bool
}.

Definition Negotiation_new (protocols : list Protocol) : Negotiation :=
  MkNegotiation protocols 0 false None None false.

Definition put_tried t (n : Negotiation) : Negotiation :=
  MkNegotiation (protocols n) t (started n) (proposed n) (accepted n) (finished n).
Definition put_started (n : Negotiation) : Negotiation :=
  MkNegotiation (protocols n) (tried n) true (proposed n) (accepted n) (finished n).
Definition put_proposed p (n : Negotiation) : Negotiation :=
  MkNegotiation (protocols n) (tried n) (started n) p (accepted n) (finished n).
Definition put_accepted a (n : Negotiation) : Negotiation :=
  MkNegotiation (protocols n) (tried n) (started n) (proposed n) a (finished n).
Definition put_finished (n : Negotiation) : Negotiation :=
  MkNegotiation (protocols n) (tried n) (started n) (proposed n) (accepted n) true.

Section Negotiation.
Context {DC : DiscoCrate}.
#[local] Abbreviation MN := (M HandshakeError Negotiation).

Definition propose : MN Message :=
  i ← gets tried;
  modify (put_tried (S i));;
  protocols ← gets protocols;
  match protocols !! i with
  | Some protocol => modify (put_proposed (Some protocol));; mret (Propose protocol)
  | None => modify put_finished;; mret Fail
  end.

Definition initiate : MN Message :=
  started ← gets started;
  assert (negb started);;
  modify put_started;;
  propose.

(** [self.protocols.into_iter().find(|p| *p == protocol)]. *)
Definition find_protocol (protocol : Protocol) (ps : list Protocol) : option Protocol :=
  head (filter (λ p, p = protocol) ps).

Definition message (msg : Message) : MN (option Message) :=
  modify put_started;;
  match msg with
  | Propose protocol =>
    accepted0 ← gets accepted;
    match accepted0 with
    | Some _ => throw ProtocolError
    | None =>
      protocols ← gets protocols;
      modify (put_accepted (find_protocol protocol protocols));;
      accepted ← gets accepted;
      match accepted with
      | Some _ => modify put_finished;; mret (Some Accept)
      | None => m ← propose; mret (Some m)
      end
    end
  | Accept =>
    proposed ← gets proposed;
    modify (put_proposed None);;
    modify (put_accepted proposed);;
    modify put_finished;;
    mret None
  | Fail => modify put_finished;; mret None
  end.

Definition is_finished (n : Negotiation) : bool := finished n.

(** A failed assertion is [None]. *)
Definition into_protocol (n : Negotiation) : option (option Protocol) :=
  if finished n then Some (accepted n) else None.
End Negotiation.
