(* ===== verification/NegotiationProps.v ===== *)
(** * Protocol negotiation: the theorems

    A whole exchange between two honest parties agrees, on a protocol both
    have, exactly when there is one; and whatever a peer sends, a party only
    ever settles on a protocol of its own. *)

From Equations Require Import Equations.
From S2P Require Export Negotiation.

Section exchange.
Context {DC : DiscoCrate}.

(** An exchange: [m] was sent by [other] and is received by [me].  It ends
    when a party has nothing to answer. *)
Fixpoint exchange (fuel : nat) (m : Message) (me other : Negotiation)
    : option (Negotiation * Negotiation) :=
  match fuel with
  | O => None
  | S fuel =>
    match message m me with
    | Return (Some m') me => exchange fuel m' other me
    | Return None me => Some (me, other)
    | _ => None
    end
  end.

(** The initiator starts, and the two parties answer each other. *)
Definition negotiation (fuel : nat) (initiator responder : Negotiation)
    : option (Negotiation * Negotiation) :=
  match initiate initiator with
  | Return m initiator => exchange fuel m responder initiator
  | _ => None
  end.
End exchange.

(** ** Specification: the first proposal the other party has

    [first_common mine theirs r r']: it is my turn to propose the rest [r] of my
    protocols; [r'] is what the other party has left. *)
Equations first_common (mine theirs r r' : list Protocol) : option Protocol
    by wf (length r + length r')%nat lt :=
  first_common mine theirs [] r' := None;
  first_common mine theirs (p :: r) r' :=
    if decide (p ∈ theirs) then Some p else first_common theirs mine r' r.
Next Obligation. cbn. lia. Qed.

(** What was proposed and is no longer left is not in the other's list. *)
Lemma first_common_sound mine theirs r r' :
  (∀ p, p ∈ r → p ∈ mine) → (∀ p, p ∈ r' → p ∈ theirs) →
  (∀ p, p ∈ mine → p ∈ r ∨ p ∉ theirs) → (∀ p, p ∈ theirs → p ∈ r' ∨ p ∉ mine) →
  match first_common mine theirs r r' with
  | Some p => p ∈ mine ∧ p ∈ theirs
  | None => ∀ p, p ∈ mine → p ∉ theirs
  end.
Proof.
  funelim (first_common mine theirs r r'); intros Hr Hr' Hm Ht.
  - intros p Hp. destruct (Hm p Hp) as [Hin|]; [|done]. by apply not_elem_of_nil in Hin.
  - case_decide as Hp; [split; [|done]; apply Hr, list_elem_of_here|].
    specialize (H Hp Hr').
    assert (∀ q, q ∈ r → q ∈ mine) as H1 by (intros q Hq; by apply Hr, list_elem_of_further).
    assert (∀ q, q ∈ mine → q ∈ r ∨ q ∉ theirs) as H2.
    { intros q Hq. destruct (Hm q Hq) as [Hq'|]; [|by right].
      apply elem_of_cons in Hq' as [->|]; [by right|by left]. }
    specialize (H H1 Ht H2). destruct (first_common theirs mine r' r) as [q|]; [naive_solver|].
    intros q Hq Hq'. by apply (H q).
Qed.

Section agreement.
Context {DC : DiscoCrate}.

(** The state of a party that has proposed its first [t] protocols, the
    last one not answered yet, and accepted nothing. *)
Definition pending (n : Negotiation) (t : nat) : Prop :=
  tried n = t ∧ accepted n = None ∧ finished n = false.

Lemma propose_spec (n : Negotiation) :
  propose n = match protocols n !! tried n with
              | Some p => Return (Propose p) (put_proposed (Some p) (put_tried (S (tried n)) n))
              | None => Return Fail (put_finished (put_tried (S (tried n)) n))
              end.
Proof. unfold propose; run. cbn. by destruct (protocols n !! tried n). Qed.

Lemma find_protocol_spec p ps : find_protocol p ps = if decide (p ∈ ps) then Some p else None.
Proof.
  unfold find_protocol. induction ps as [|q ps IH]; [done|].
  rewrite filter_cons. destruct (decide (q = p)) as [->|Hne].
  - rewrite decide_True; [done|]. apply list_elem_of_here.
  - rewrite IH. apply decide_ext. rewrite elem_of_cons. naive_solver.
Qed.

(** What a party that has accepted nothing answers to a proposal. *)
Lemma message_propose (n : Negotiation) p : accepted n = None →
  message (Propose p) n =
    if decide (p ∈ protocols n)
    then Return (Some Accept) (put_finished (put_accepted (Some p) (put_started n)))
    else match protocols n !! tried n with
         | Some q => Return (Some (Propose q))
             (put_proposed (Some q) (put_tried (S (tried n)) (put_accepted None (put_started n))))
         | None => Return (Some Fail)
             (put_finished (put_tried (S (tried n)) (put_accepted None (put_started n))))
         end.
Proof.
  intros Ha. unfold message; run. cbn. rewrite Ha, find_protocol_spec.
  change (protocols (put_started n)) with (protocols n). case_decide; [done|].
  rewrite propose_spec. cbn. by destruct (protocols n !! tried n).
Qed.

Lemma message_accept (n : Negotiation) :
  message Accept n =
    Return None (put_finished (put_accepted (proposed n) (put_proposed None (put_started n)))).
Proof. done. Qed.

Lemma message_fail (n : Negotiation) : message Fail n = Return None (put_finished (put_started n)).
Proof. done. Qed.

Lemma exchange_spec fuel (me other : Negotiation) p :
  accepted me = None → finished me = false →
  accepted other = None → finished other = false → proposed other = Some p →
  (length (drop (tried me) (protocols me)) + length (drop (tried other) (protocols other)) + 1 < fuel)%nat →
  ∃ a b r, exchange fuel (Propose p) me other = Some (a, b) ∧
    into_protocol a = Some r ∧ into_protocol b = Some r ∧
    r = if decide (p ∈ protocols me) then Some p
        else first_common (protocols me) (protocols other)
               (drop (tried me) (protocols me)) (drop (tried other) (protocols other)).
Proof.
  revert me other p. induction fuel as [|fuel IH]; intros me other p Ha Hf Ha' Hf' Hp Hfuel; [lia|].
  cbn [exchange]. rewrite message_propose by done. case_decide as Hin.
  - destruct fuel as [|fuel]; [lia|]. cbn [exchange]. rewrite message_accept.
    eexists _, _, _. split; [done|]. unfold into_protocol. cbn. by rewrite Hp.
  - destruct (protocols me !! tried me) as [q|] eqn:Eq.
    + rewrite (drop_S _ _ _ Eq). rewrite (drop_S _ _ _ Eq) in Hfuel. cbn [length] in Hfuel.
      set (me' := put_proposed _ _).
      destruct (IH other me' q) as (a & b & r & Hex & Hra & Hrb & Hr); try done.
      { cbn. lia. }
      exists a, b, r. split_and!; try done. by rewrite first_common_equation_2.
    + destruct fuel as [|fuel]; [lia|]. cbn [exchange]. rewrite message_fail.
      apply lookup_ge_None in Eq. rewrite (drop_ge (protocols me)) by done.
      rewrite first_common_equation_1. eexists _, _, _. split; [done|].
      unfold into_protocol. cbn. by rewrite Ha'.
Qed.

Lemma negotiation_result (ps qs : list Protocol) fuel :
  (length ps + length qs + 2 ≤ fuel)%nat →
  ∃ a b r, negotiation fuel (Negotiation_new ps) (Negotiation_new qs) = Some (a, b) ∧
    into_protocol a = Some r ∧ into_protocol b = Some r ∧ r = first_common ps qs ps qs ∧
    match r with
    | Some p => p ∈ ps ∧ p ∈ qs
    | None => ∀ p, p ∈ ps → p ∉ qs
    end.
Proof.
  intros Hfuel.
  assert (match first_common ps qs ps qs with
          | Some p => p ∈ ps ∧ p ∈ qs
          | None => ∀ p, p ∈ ps → p ∉ qs
          end) as Hsound by (apply first_common_sound; auto).
  unfold negotiation, initiate; run. cbn [started Negotiation_new negb assert mret M_ret].
  rewrite propose_spec. cbn.
  destruct ps as [|p ps]; cbn.
  - destruct fuel as [|fuel]; [lia|]. cbn [exchange]. rewrite message_fail.
    eexists _, _, _. split; [done|]. by rewrite first_common_equation_1.
  - set (init := put_proposed _ _).
    destruct (exchange_spec fuel (Negotiation_new qs) init p) as (a & b & r & Hex & Ha & Hb & Hr);
      try done; [cbn in *; rewrite !drop_0; lia|].
    exists a, b, r. split_and!; try done; [by rewrite first_common_equation_2|].
    assert (r = first_common (p :: ps) qs (p :: ps) qs) as -> by by rewrite first_common_equation_2.
    done.
Qed.

(** C21: Negotiation between two parties.  It ends, within as many messages as
    the two have protocols, plus two; both parties are finished and hold the
    same result; the result is a protocol if and only if they have one in
    common, and then it is the first, in the order in which the two propose
    in turn, that the other party has. *)
Theorem negotiation_agrees (ps qs : list Protocol) fuel :
  (length ps + length qs + 2 ≤ fuel)%nat →
  ∃ a b r, negotiation fuel (Negotiation_new ps) (Negotiation_new qs) = Some (a, b) ∧
    into_protocol a = Some r ∧ into_protocol b = Some r ∧ r = first_common ps qs ps qs ∧
    match r with
    | Some p => p ∈ ps ∧ p ∈ qs
    | None => ∀ p, p ∈ ps → p ∉ qs
    end.
Proof. apply negotiation_result. Qed.

(** One call of a party, whatever the other end sends. *)
Inductive nstep (n : Negotiation) : Negotiation → Prop :=
| nstep_initiate n' : final (initiate n) = Some n' → nstep n n'
| nstep_message m n' : final (message m n) = Some n' → nstep n n'.

Definition own (ps : list Protocol) (n : Negotiation) : Prop :=
  protocols n = ps ∧ (∀ p, accepted n = Some p → p ∈ ps) ∧ (∀ p, proposed n = Some p → p ∈ ps).

Lemma propose_own ps (n n' : Negotiation) : own ps n → final (propose n) = Some n' → own ps n'.
Proof.
  intros (Hp & Ha & Hq). rewrite propose_spec, Hp.
  destruct (ps !! tried n) as [q|] eqn:Eq; intros [= <-]; split_and!; try done.
  cbn. intros p [= <-]. by eapply list_elem_of_lookup_2.
Qed.

Lemma nstep_own ps n n' : nstep n n' → own ps n → own ps n'.
Proof.
  destruct 1 as [n' Hf|m n' Hf]; intros Ho.
  - unfold initiate in Hf; run in Hf. destruct (started n); [done|].
    cbn in Hf. by eapply propose_own in Hf.
  - pose proof Ho as (Hp & Ha & Hq). destruct m as [p| |].
    + destruct (accepted n) as [q|] eqn:Ea.
      { unfold message in Hf; run in Hf. cbn in Hf. rewrite Ea in Hf.
        injection Hf as <-. split_and!; try done; cbn; by rewrite Ea. }
      rewrite message_propose, Hp in Hf by done. case_decide.
      * injection Hf as <-. split_and!; try done. by intros p' [= <-].
      * destruct (ps !! tried n) as [q|] eqn:Eq; injection Hf as <-; split_and!; try done.
        intros p' [= <-]. by eapply list_elem_of_lookup_2.
    + injection Hf as <-. by split_and!.
    + injection Hf as <-. by split_and!.
Qed.

(** A party, whatever the other end sends: the messages it has received, those
    it has sent, and its state.  A call that panics does not return. *)
Inductive party (ps : list Protocol) : list Message → list Message → Negotiation → Prop :=
| party_new : party ps [] [] (Negotiation_new ps)
| party_initiate got sent n m n' :
    party ps got sent n → initiate n = Return m n' → party ps got (sent ++ [m]) n'
| party_answer got sent n m o n' :
    party ps got sent n → message m n = Return o n' →
    party ps (got ++ [m]) (sent ++ option_list o) n'
| party_error got sent n m e n' :
    party ps got sent n → message m n = Throw e n' → party ps (got ++ [m]) sent n'.

Definition proposal (m : Message) : option Protocol :=
  match m with Propose p => Some p | _ => None end.

Definition proposals (ms : list Message) : list Protocol := omap proposal ms.

Lemma proposals_app ms ms' : proposals (ms ++ ms') = proposals ms ++ proposals ms'.
Proof. apply omap_app. Qed.

(** The counter says how many proposals there were; a proposal not yet answered
    is one of them; what is accepted is a proposal of one of the two. *)
Record party_inv (ps : list Protocol) (got sent : list Message) (n : Negotiation) : Prop := {
  pi_protocols : protocols n = ps;
  pi_sent : proposals sent = take (tried n) ps;
  pi_proposed p : proposed n = Some p → p ∈ proposals sent;
  pi_accepted p : accepted n = Some p → p ∈ ps ∧ (p ∈ proposals sent ∨ p ∈ proposals got)
}.

Lemma take_next {A} (l : list A) n : take n l ++ option_list (l !! n) = take (S n) l.
Proof.
  destruct (l !! n) eqn:E; cbn; [by rewrite (take_S_r _ _ _ E)|].
  apply lookup_ge_None in E. by rewrite app_nil_r, !take_ge by lia.
Qed.

(** A proposal, or the failure when there is nothing left to propose. *)
Lemma propose_inv ps got sent n m n' : party_inv ps got sent n →
  propose n = Return m n' → party_inv ps got (sent ++ [m]) n'.
Proof.
  intros [Hp Hs Hq Ha]. rewrite propose_spec, Hp. intros Hn.
  assert (proposals (sent ++ [m]) = take (S (tried n)) ps ∧ tried n' = S (tried n)) as [Hs' Ht].
  { rewrite proposals_app, Hs, <-take_next. by destruct (ps !! tried n); injection Hn as <- <-. }
  assert (∀ p, p ∈ proposals sent → p ∈ proposals (sent ++ [m])) as Hmono
    by (intros p; rewrite proposals_app, elem_of_app; by left).
  destruct (ps !! tried n) as [q|] eqn:Eq; injection Hn as <- <-; split; cbn; try done.
  - intros p [= <-]. rewrite proposals_app. apply elem_of_app. right. by apply list_elem_of_singleton.
  - naive_solver.
  - naive_solver.
  - naive_solver.
Qed.

Lemma answer_inv ps got sent n m o n' : party_inv ps got sent n →
  message m n = Return o n' → party_inv ps (got ++ [m]) (sent ++ option_list o) n'.
Proof.
  intros Hi. pose proof Hi as [Hp Hs Hq Ha].
  assert (∀ p, p ∈ proposals got → p ∈ proposals (got ++ [m])) as Hmono
    by (intros p; rewrite proposals_app, elem_of_app; by left).
  destruct m as [p| |].
  - destruct (accepted n) as [q|] eqn:Ea.
    { unfold message; run. cbn. by rewrite Ea. }
    rewrite message_propose, Hp by done. case_decide as Hin.
    + intros [= <- <-]. split; cbn; rewrite ?proposals_app, ?app_nil_r; cbn; try done.
      intros p' [= <-]. split; [done|]. right. apply elem_of_app. right. by apply list_elem_of_singleton.
    + set (n1 := put_accepted None (put_started n)).
      assert (party_inv ps (got ++ [Propose p]) sent n1) as Hi1 by (by split).
      intros Hn. destruct o as [m'|]; [|by destruct (ps !! tried n)].
      apply (propose_inv _ _ _ _ _ _ Hi1). rewrite propose_spec. cbn. rewrite Hp.
      by destruct (ps !! tried n); injection Hn as <- <-.
  - rewrite message_accept. intros [= <- <-]. rewrite app_nil_r. split; try done. cbn.
    intros p Hpr. pose proof (Hq p Hpr) as Hin. split; [|by left]. rewrite Hs in Hin.
    apply elem_of_take in Hin as (i & Hl & _). by eapply list_elem_of_lookup_2.
  - rewrite message_fail. intros [= <- <-]. rewrite app_nil_r. split; try done. cbn. naive_solver.
Qed.

Lemma party_reachable_inv ps got sent n : party ps got sent n → party_inv ps got sent n.
Proof.
  induction 1 as [|got sent n m n' _ IH Hn|got sent n m o n' _ IH Hn|got sent n m e n' _ IH Hn].
  - by split.
  - unfold initiate in Hn; run in Hn. destruct (started n); [done|]. cbn in Hn.
    eapply propose_inv; [|exact Hn]. by destruct IH.
  - by eapply answer_inv.
  - destruct m as [p| |]; [|done..]. destruct (accepted n) as [q|] eqn:Ea.
    + unfold message in Hn; run in Hn. cbn in Hn. rewrite Ea in Hn. injection Hn as _ <-.
      destruct IH as [Hp Hs Hq Ha]. split; cbn; try done. intros q' Hq'.
      rewrite proposals_app, elem_of_app. naive_solver.
    + rewrite message_propose in Hn by done. case_decide; [done|]. by destruct (_ !! _).
Qed.

(** C22: Negotiation with an arbitrary peer.  Whatever messages arrive, in any
    order and number, a party never changes its list; the protocols it has
    proposed so far are the first ones of its list, in order and each once;
    it only ever settles on one of its own that one of the two parties has
    proposed.  The next message never makes it panic.  It answers with a
    proposal, and then with the first protocol not yet proposed; or it
    accepts, and then a proposal that is on its list; or it gives up, and then
    it has proposed its whole list; or it has nothing to say, and then the
    message was no proposal.  The one error is a proposal that arrives after it
    has accepted one. *)
Theorem negotiation_robust ps got sent n : party ps got sent n →
  protocols n = ps ∧
  proposals sent `prefix_of` ps ∧
  (∀ p, into_protocol n = Some (Some p) → p ∈ ps ∧ (p ∈ proposals sent ∨ p ∈ proposals got)) ∧
  ∀ m, match message m n with
       | Return (Some (Propose p)) n' => ps !! length (proposals sent) = Some p
       | Return (Some Accept) n' =>
           ∃ p, m = Propose p ∧ p ∈ ps ∧ into_protocol n' = Some (Some p)
       | Return (Some Fail) n' => proposals sent = ps ∧ finished n' = true
       | Return None n' => proposal m = None ∧ finished n' = true
       | Throw e n' => e = ProtocolError ∧ is_Some (accepted n) ∧ ∃ p, m = Propose p
       | _ => False
       end.
Proof.
  intros [Hp Hs Hq Ha]%party_reachable_inv. split_and!; [done| | |].
  - rewrite Hs. apply prefix_take.
  - intros p. unfold into_protocol. destruct (finished n); [|done]. intros [= H]. by apply Ha.
  - intros [p| |]; [|by rewrite message_accept|by rewrite message_fail].
    destruct (accepted n) as [q|] eqn:Ea.
    + unfold message; run. cbn. rewrite Ea. cbn. eauto.
    + rewrite message_propose, Hp by done. case_decide; [by exists p|].
      rewrite Hs, length_take.
      destruct (ps !! tried n) as [q|] eqn:Eq; cbn.
      * apply lookup_lt_Some in Eq as Hlt. by rewrite Nat.min_l by lia.
      * apply lookup_ge_None in Eq. by rewrite take_ge.
Qed.

(** An acceptance that was not asked for.  [Accept] always finishes the
    negotiation, and takes the proposal away: a second [Accept], or one
    before any proposal, leaves a party that is finished without a
    protocol, even if both parties had agreed on one. *)
Theorem second_accept_forgets (n : Negotiation) :
  match (message Accept;; message Accept) n with
  | Return None n' => into_protocol n' = Some None
  | _ => False
  end ∧
  (proposed n = None →
   match message Accept n with
   | Return None n' => into_protocol n' = Some None
   | _ => False
   end).
Proof. split; [done|]. intros Hp. rewrite message_accept. cbn. by rewrite Hp. Qed.
End agreement.
