(* ===== verification/HandshakePacket.v ===== *)
(** * Crate efcp: the handshake packet (src/efcp/src/packet.rs)

    A type byte, whose low nibble is the kind of negotiation message and whose
    high nibble says whether an address follows; then the proposed protocol
    and the observed address, each behind a length byte. *)

From S2P Require Export Addr Negotiation.

Record HandshakePacket : Type := MkHandshakePacket {
  negotiate_ : option Message;
  external_addr_ : option Addr
}.

#[export] Instance HandshakePacket_eq_dec : EqDecision HandshakePacket.
Proof. solve_decision. Defined.

Definition HandshakePacket_new := MkHandshakePacket.

Definition invalid : io_error := IoError Other "invalid handshake packet".

(** A string at [i], behind its length byte, and the index after it: the
    block that occurs twice in [from_bytes].  Here and below the option is a
    panic: of a slice out of bounds, and of the address parser. *)
Definition read_str (bytes : list byte) (i : nat) : option (result (str * nat) io_error) :=
  match bytes !! i with
  | None => Some (Err invalid)
  | Some len =>
    let i := S i in
    let i2 := (i + Z.to_nat (b2z len))%nat in
    if bool_decide (length bytes < i2)%nat then Some (Err invalid)
    else
      s ← slice i i2 bytes;
      Some match from_utf8 s with
           | None => Err invalid
           | Some s => Ok (s, i2)
           end
  end.

(** The negotiation message and the index after it. *)
Definition read_negotiate (bytes : list byte) (ty : Z)
    : option (result (option Message * nat) io_error) :=
  match Z.land ty 0xf with
  | 0 => Some (Ok (None, 1%nat))
  | 1 =>
    r ← read_str bytes 1;
    Some match r with
         | Err e => Err e
         | Ok (protocol, i) => Ok (Some (Propose protocol), i)
         end
  | 2 => Some (Ok (Some Accept, 1%nat))
  | 3 => Some (Ok (Some Fail, 1%nat))
  | _ => Some (Err invalid)
  end.

Definition read_addr (bytes : list byte) (i : nat) : option (result Addr io_error) :=
  r ← read_str bytes i;
  match r with
  | Err e => Some (Err e)
  | Ok (s, _) =>
    r ← from_str s;
    Some match r with Ok a => Ok a | Err _ => Err invalid end
  end.

Definition from_bytes (bytes : list byte) : option (result HandshakePacket io_error) :=
  match bytes !! O with
  | None => Some (Err invalid)
  | Some ty =>
    let contains_addr := 0 <? Z.shiftr (b2z ty) 4 in
    r ← read_negotiate bytes (b2z ty);
    match r with
    | Err e => Some (Err e)
    | Ok (negotiate, i) =>
      if contains_addr then
        r ← read_addr bytes i;
        Some match r with
             | Err e => Err e
             | Ok a => Ok (MkHandshakePacket negotiate (Some a))
             end
      else Some (Ok (MkHandshakePacket negotiate None))
    end
  end.

(** [take] of the two fields. *)
Definition negotiate (p : HandshakePacket) : option Message * HandshakePacket :=
  (negotiate_ p, MkHandshakePacket None (external_addr_ p)).

Definition external_addr (p : HandshakePacket) : option Addr * HandshakePacket :=
  (external_addr_ p, MkHandshakePacket (negotiate_ p) None).

(** The bytes pushed for a string: its length byte, and the string. *)
Definition push_str (s : str) : result (list byte) io_error :=
  if bool_decide (255 < length s)%nat then Err invalid
  else Ok (z2b (Z.of_nat (length s)) :: s).

Definition push_negotiate (m : option Message) : result (list byte) io_error :=
  match m with
  | None => Ok [z2b 0]
  | Some (Propose protocol) =>
    match push_str protocol with Ok l => Ok (z2b 1 :: l) | Err e => Err e end
  | Some Accept => Ok [z2b 2]
  | Some Fail => Ok [z2b 3]
  end.

(** [bytes[0] |= 0xf0]; the type byte has been pushed, so there is one. *)
Definition set_high_nibble (bytes : list byte) : list byte :=
  match bytes with
  | b :: l => z2b (Z.lor (b2z b) 0xf0) :: l
  | [] => []
  end.

Definition to_bytes (p : HandshakePacket) : result (list byte) io_error :=
  match push_negotiate (negotiate_ p) with
  | Err e => Err e
  | Ok bytes =>
    match external_addr_ p with
    | None => Ok bytes
    | Some addr =>
      match push_str (display_addr addr) with
      | Err e => Err e
      | Ok l => Ok (set_high_nibble (bytes ++ l))
      end
    end
  end.

(** ** Round trip *)

(** A packet as the program makes them: a proposal is a string of at most 255
    bytes, an address is well formed. *)
Definition packet_wf (p : HandshakePacket) : Prop :=
  (∀ s, negotiate_ p = Some (Propose s) → utf8 s = true ∧ (length s ≤ 255)%nat) ∧
  (∀ a, external_addr_ p = Some a → addr_wf a).

Lemma push_str_Ok s : (length s ≤ 255)%nat → push_str s = Ok (z2b (Z.of_nat (length s)) :: s).
Proof. intros. unfold push_str. by rewrite bool_decide_false by lia. Qed.

Lemma read_str_push pre s post : (length s ≤ 255)%nat → utf8 s = true →
  read_str (pre ++ (z2b (Z.of_nat (length s)) :: s) ++ post) (length pre) =
    Some (Ok (s, (length pre + 1 + length s)%nat)).
Proof.
  intros Hl Hu. unfold read_str. cbn [app]. rewrite list_lookup_middle by done.
  rewrite b2z_small, Nat2Z.id by lia.
  assert (length (pre ++ z2b (Z.of_nat (length s)) :: s ++ post) =
          length pre + S (length s + length post))%nat as Hlen
    by (rewrite length_app; cbn [length]; by rewrite length_app).
  rewrite bool_decide_false by lia. unfold slice. rewrite bool_decide_true by lia.
  replace (S (length pre) + length s - S (length pre))%nat with (length s) by lia.
  rewrite cons_middle, (assoc_L (++)), drop_app_length' by solve_length.
  rewrite take_app_length. cbn. unfold from_utf8. rewrite Hu. do 4 f_equal. lia.
Qed.

(** The checks before the slice are enough for it: there is no panic. *)
Lemma read_str_total bytes i : ∃ r, read_str bytes i = Some r ∧
  match r with
  | Ok (s, _) => utf8 s = true ∧ (length s ≤ 255)%nat
  | Err e => e = invalid
  end.
Proof.
  unfold read_str. destruct (bytes !! i) as [len|]; [|by eexists].
  case_bool_decide as Hlen; [by eexists|]. unfold slice. rewrite bool_decide_true by lia. cbn.
  eexists. split; [done|]. unfold from_utf8. destruct (utf8 (take _ (drop _ _))) eqn:Hu; [|done].
  split; [done|]. pose proof (b2z_bound len). solve_length.
Qed.

Lemma push_str_bytes s l : push_str s = Ok l → l = z2b (Z.of_nat (length s)) :: s ∧ (length s ≤ 255)%nat.
Proof. unfold push_str. case_bool_decide; [done|]. intros [= <-]. split; [done|lia]. Qed.

(** The type byte and the rest, with and without the high nibble. *)
Definition type_nibble (m : option Message) : Z :=
  match m with
  | None => 0
  | Some (Propose _) => 1
  | Some Accept => 2
  | Some Fail => 3
  end.

Definition message_tail (m : option Message) : list byte :=
  match m with
  | Some (Propose s) => z2b (Z.of_nat (length s)) :: s
  | _ => []
  end.

Definition message_ok (m : option Message) : Prop :=
  ∀ s, m = Some (Propose s) → utf8 s = true ∧ (length s ≤ 255)%nat.

Lemma push_negotiate_Ok m : message_ok m →
  push_negotiate m = Ok (z2b (type_nibble m) :: message_tail m).
Proof.
  intros Hm. destruct m as [[s| |]|]; try done. cbn. destruct (Hm s eq_refl) as [_ Hl].
  by rewrite push_str_Ok.
Qed.

Lemma read_negotiate_push m b rest ty : message_ok m → Z.land ty 0xf = type_nibble m →
  read_negotiate (b :: message_tail m ++ rest) ty = Some (Ok (m, (1 + length (message_tail m))%nat)).
Proof.
  intros Hm Hty. unfold read_negotiate. rewrite Hty.
  destruct m as [[s| |]|]; try done. cbn [type_nibble message_tail].
  destruct (Hm s eq_refl) as [Hu Hl].
  pose proof (read_str_push [b] s rest Hl Hu) as H. cbn [length app] in H.
  cbn [app]. rewrite H. done.
Qed.

Lemma read_addr_push pre a : addr_wf a →
  read_addr (pre ++ z2b (Z.of_nat (length (display_addr a))) :: display_addr a) (length pre) = Some (Ok a).
Proof.
  intros Ha. destruct (display_addr_ascii a Ha) as [Hasc Hlen]. unfold read_addr.
  pose proof (read_str_push pre (display_addr a) []) as H. rewrite app_nil_r in H.
  rewrite H by (done || lia || by apply utf8_ascii). cbn. by rewrite from_str_display.
Qed.

Lemma from_to_bytes p : packet_wf p →
  ∃ bytes, to_bytes p = Ok bytes ∧ from_bytes bytes = Some (Ok p).
Proof.
  intros [Hm Ha]. destruct p as [m [a|]]; unfold to_bytes; cbn in *;
    rewrite (push_negotiate_Ok m Hm).
  - specialize (Ha a eq_refl). destruct (display_addr_ascii a Ha) as [Hasc Hlen].
    rewrite push_str_Ok by lia. eexists. split; [done|]. cbn [set_high_nibble app].
    set (b := z2b (Z.lor _ _)).
    assert (Z.land (b2z b) 0xf = type_nibble m ∧ (0 <? Z.shiftr (b2z b) 4) = true) as [Hb1 Hb2]
      by (subst b; by destruct m as [[]|]).
    clearbody b. unfold from_bytes. cbn [lookup list_lookup]. rewrite Hb2.
    rewrite read_negotiate_push by done.
    pose proof (read_addr_push (b :: message_tail m) a Ha) as H. cbn [app length] in H.
    cbn [Nat.add mbind option_bind]. by rewrite H.
  - eexists. split; [done|]. unfold from_bytes. cbn [lookup list_lookup].
    assert (Z.land (b2z (z2b (type_nibble m))) 0xf = type_nibble m ∧
            (0 <? Z.shiftr (b2z (z2b (type_nibble m))) 4) = false) as [Hb1 Hb2]
      by (by destruct m as [[]|]).
    rewrite Hb2. pose proof (read_negotiate_push m (z2b (type_nibble m)) [] _ Hm Hb1) as H.
    rewrite app_nil_r in H. by rewrite H.
Qed.

Lemma to_bytes_length p bytes : to_bytes p = Ok bytes → (length bytes ≤ 513)%nat.
Proof.
  unfold to_bytes. destruct (push_negotiate (negotiate_ p)) as [l|] eqn:El; [|done].
  assert (length l ≤ 257)%nat as Hl.
  { destruct (negotiate_ p) as [[s| |]|]; cbn in El; try (by injection El as <-; cbn; lia).
    destruct (push_str s) as [l'|] eqn:E; [|done]. injection El as <-.
    apply push_str_bytes in E as [-> ?]. cbn. lia. }
  destruct (external_addr_ p) as [a|]; [|intros [= <-]; lia].
  destruct (push_str (display_addr a)) as [l'|] eqn:E; [|done]. intros [= <-].
  apply push_str_bytes in E as [-> ?]. destruct l; cbn in *; solve_length.
Qed.

Lemma read_negotiate_total bytes ty : ∃ r, read_negotiate bytes ty = Some r ∧
  match r with Ok (m, _) => message_ok m | Err e => e = invalid end.
Proof.
  unfold read_negotiate. destruct (read_str_total bytes 1) as (r & -> & Hr).
  repeat case_match; cbn; eexists; (split; [done|]); try done; cbn; simplify_eq; try done.
  by intros s' [= <-].
Qed.

Lemma read_addr_total bytes i : ∃ r, read_addr bytes i = Some r ∧
  match r with Ok a => addr_wf a | Err e => e = invalid end.
Proof.
  unfold read_addr. destruct (read_str_total bytes i) as ([[s j]|e] & -> & Hr); cbn; [|by eexists].
  destruct (from_str_total_wf s) as ([a|e] & -> & Hwf); by eexists.
Qed.

Lemma from_bytes_wf bytes : ∃ r, from_bytes bytes = Some r ∧
  match r with Ok p => packet_wf p | Err e => e = invalid end.
Proof.
  unfold from_bytes. destruct (bytes !! O) as [ty|]; [|by eexists].
  destruct (read_negotiate_total bytes (b2z ty)) as ([[m i]|e] & -> & Hm); cbn; [|by eexists].
  destruct (0 <? _); [|by eexists].
  destruct (read_addr_total bytes i) as ([a|e] & -> & Ha); cbn; [|by eexists].
  eexists. split; [done|]. split; [done|]. by intros a' [= <-].
Qed.

(** C23: Handshake packets round-trip.  [to_bytes] succeeds on every packet
    whose proposed protocol has at most 255 bytes, whatever its address, and
    [from_bytes] then gives the packet back; with a longer protocol it is an
    error. *)
Theorem handshake_roundtrip (p : HandshakePacket) : packet_wf p →
  (∃ bytes, to_bytes p = Ok bytes ∧ from_bytes bytes = Some (Ok p)) ∧
  (∀ s a, (255 < length s)%nat →
     to_bytes (MkHandshakePacket (Some (Propose s)) a) = Err invalid).
Proof.
  intros Hp. split; [by apply from_to_bytes|]. intros s a Hl. unfold to_bytes. cbn.
  unfold push_str. by rewrite bool_decide_true.
Qed.

(** C24: Parsing bytes from the network.  [from_bytes] never panics; it fails
    with one error, "invalid handshake packet"; and every packet it returns is
    one that [to_bytes] encodes and [from_bytes] reads back: whatever the
    bytes were (trailing bytes, other high nibbles), the packet has a
    canonical encoding. *)
Theorem handshake_parse_total (bytes : list byte) :
  ∃ r, from_bytes bytes = Some r ∧
    match r with
    | Err e => e = invalid
    | Ok p => ∃ bytes', to_bytes p = Ok bytes' ∧ from_bytes bytes' = Some (Ok p)
    end.
Proof.
  destruct (from_bytes_wf bytes) as ([p|e] & Hr & H); eexists; (split; [exact Hr|]); [|done].
  by apply from_to_bytes.
Qed.
