(* ===== verification/HandshakeExamples.v ===== *)
(** * Negotiation and handshake packets: concrete inputs *)

From S2P Require Export NegotiationProps HandshakePacket.

Import Reference.

Module HandshakeExample.
Definition ping1 : Protocol := lit "/ping/1.0".
Definition ping2 : Protocol := lit "/ping/2.0".

(** The parties prefer different versions; the initiator proposes first. *)
Lemma negotiation_agrees_witness :
  ∃ a b r, negotiation 5 (Negotiation_new [ping2; ping1]) (Negotiation_new [ping1]) = Some (a, b) ∧
    into_protocol a = Some r ∧ into_protocol b = Some r ∧
    r = first_common [ping2; ping1] [ping1] [ping2; ping1] [ping1] ∧
    match r with
    | Some p => p ∈ [ping2; ping1] ∧ p ∈ [ping1]
    | None => ∀ p, p ∈ [ping2; ping1] → p ∉ [ping1]
    end.
Proof. apply negotiation_agrees. cbn. lia. Defined.

(** A party that proposes both of its protocols, the second in answer to a
    proposal it does not know; the peer accepts that one. *)
Definition chat : Protocol := lit "/chat/1.0".
Definition both : list Protocol := [ping1; ping2].

Definition proposing : Negotiation := default (Negotiation_new []) (final (initiate (Negotiation_new both))).
Definition waiting : Negotiation := default (Negotiation_new []) (final (message (Propose chat) proposing)).
Definition settled : Negotiation := default (Negotiation_new []) (final (message Accept waiting)).

Lemma settled_party : party both [Propose chat; Accept] [Propose ping1; Propose ping2] settled.
Proof.
  refine (party_answer both [Propose chat] [Propose ping1; Propose ping2] waiting Accept None settled _ _);
    [|reflexivity].
  refine (party_answer both [] [Propose ping1] proposing (Propose chat) (Some (Propose ping2)) waiting _ _);
    [|reflexivity].
  refine (party_initiate both [] [] (Negotiation_new both) (Propose ping1) proposing _ _);
    [|reflexivity].
  apply party_new.
Qed.

(** It has settled on its second protocol, and takes no further proposal. *)
Lemma negotiation_robust_witness :
  [ping1; ping2] `prefix_of` both ∧ into_protocol settled = Some (Some ping2) ∧ ping2 ∈ both ∧
  match message (Propose ping1) settled with
  | Throw e n' => e = ProtocolError
  | _ => False
  end.
Proof.
  destruct (negotiation_robust both _ _ _ settled_party) as (_ & Hsent & Hs & Hm).
  assert (into_protocol settled = Some (Some ping2)) as Hr by reflexivity.
  split; [exact Hsent|]. split; [exact Hr|]. split; [exact (proj1 (Hs ping2 Hr))|].
  exact (proj1 (Hm (Propose ping1))).
Defined.

Definition v6_addr : Addr := MkAddr (V6 (MkV6 [0; 0; 0; 0; 0; 0; 0; 1])) 8000.

Definition greeting : HandshakePacket := MkHandshakePacket (Some (Propose ping1)) (Some v6_addr).

Lemma greeting_wf : packet_wf greeting.
Proof.
  split.
  - intros s [= <-]. split; [vm_compute; reflexivity|cbn; lia].
  - intros a [= <-]. unfold addr_wf, ip_wf, v6_wf, fits. cbn. split_and!; [done| |lia|lia].
    repeat constructor; lia.
Qed.

Lemma handshake_roundtrip_witness :
  ∃ bytes, to_bytes greeting = Ok bytes ∧ from_bytes bytes = Some (Ok greeting).
Proof. exact (proj1 (handshake_roundtrip greeting greeting_wf)). Defined.
End HandshakeExample.
