(* ===== verification/TestChannel.v ===== *)
(** * Crate test-channel: the lossy channel (src/test-channel/src/lib.rs)

    An [f64] is the standard library's [spec_float] in binary64, so that the
    comparisons and products are those of IEEE 754. *)

From Stdlib Require Import Floats.SpecFloat.
From S2P Require Export Channel.

Abbreviation f64 := spec_float.

Definition f64_mul : f64 → f64 → f64 := SFmul 53 1024.
Definition f64_sub : f64 → f64 → f64 := SFsub 53 1024.

Definition f64_zero : f64 := S754_zero false.
Definition f64_half : f64 := S754_finite false (2 ^ 52) (-53).
Definition f64_one : f64 := S754_finite false (2 ^ 52) (-52).

(** [OsRng.gen::<f64>()]: crate rand. *)
Class Rng (R : Type) : Type := { gen : R → f64 * R }.

(** Its documented range is [0, 1). *)
Class RngLaws (R : Type) `{!Rng R} : Prop := {
  gen_range r : SFleb f64_zero (gen r).1 = true ∧ SFltb (gen r).1 f64_one = true
}.

Import LoopbackChannel.

Section LossyLoopback.
Context {BC : BytesCrate} {R : Type} `{!Rng R}.

(** The channel's fields, those behind [Arc]s included. *)
Record LossyLoopback : Type := MkLossyLoopback {
  px : f64;
  pq : f64;
  delayed : list BytesMut;
  loopback : Loopback
}.

Definition LossyLoopback_new (px pq : f64) : LossyLoopback :=
  MkLossyLoopback px pq [] Loopback_default.

(** The state: the channel, and the random number generator. *)
Definition lossy : Type := LossyLoopback * R.

Definition put_loopback (l : Loopback) (s : lossy) : lossy :=
  (MkLossyLoopback (px s.1) (pq s.1) (delayed s.1) l, s.2).
Definition put_delayed (d : list BytesMut) (s : lossy) : lossy :=
  (MkLossyLoopback (px s.1) (pq s.1) d (loopback s.1), s.2).

Definition gen_fate : M io_error lossy f64 := λ s,
  let '(fate, r) := gen s.2 in Return fate (s.1, r).

Definition on_loopback {A} : M io_error Loopback A → M io_error lossy A :=
  zoom (λ s, loopback s.1) put_loopback.

Definition lossy_send (packet : BytesMut) : M io_error lossy () :=
  fate ← gen_fate;
  px ← gets (λ s, px s.1);
  (if SFltb fate px then on_loopback (send packet) else mret ());;
  pq ← gets (λ s, pq s.1);
  if SFltb fate pq then modify (λ s, put_delayed (delayed s.1 ++ [packet]) s) else mret ().

(** The loop of [recv]: it pops the delayed packets until there is none. *)
Fixpoint flush (queue : list BytesMut) : M io_error lossy () :=
  match queue with
  | packet :: queue =>
    modify (put_delayed queue);;
    on_loopback (send packet);;
    flush queue
  | [] => mret ()
  end.

Definition lossy_recv : M io_error lossy BytesMut :=
  packet ← on_loopback recv;
  queue ← gets (λ s, delayed s.1);
  flush queue;;
  mret packet.

#[export] Instance Lossy_Channel : Channel lossy BytesMut := {|
  send := lossy_send;
  recv := lossy_recv
|}.

(** ** LossyChannel: the two directions of the pair [split] makes *)

Record duplex : Type := MkDuplex { rx : LossyLoopback; tx : LossyLoopback; rng : R }.

Definition on_rx {A} : M io_error lossy A → M io_error duplex A :=
  zoom (λ d, (rx d, rng d)) (λ s d, MkDuplex s.1 (tx d) s.2).
Definition on_tx {A} : M io_error lossy A → M io_error duplex A :=
  zoom (λ d, (tx d, rng d)) (λ s d, MkDuplex (rx d) s.1 s.2).

(** [LossyChannelBuilder::new]; a failed assertion is [None]. *)
Record LossyChannelBuilder : Type := MkBuilder { b_px : f64; b_pq : f64; b_rx : LossyLoopback; b_tx : LossyLoopback }.

Definition LossyChannelBuilder_new (px pq : f64) : option LossyChannelBuilder :=
  if SFleb f64_zero px && SFleb px f64_one then
    if SFleb f64_zero pq && SFleb pq f64_one then
      Some (MkBuilder px pq (LossyLoopback_new px pq) (LossyLoopback_new px pq))
    else None
  else None.

(** [split]: the first channel receives on [rx] and sends on [tx], the
    second the other way round; the queues are shared. *)
Definition split (b : LossyChannelBuilder) (r : R) : duplex := MkDuplex (b_rx b) (b_tx b) r.

Definition LossyChannel_first : Channel duplex BytesMut := {|
  send packet := on_tx (send packet);
  recv := on_rx recv
|}.

Definition LossyChannel_second : Channel duplex BytesMut := {|
  send packet := on_rx (send packet);
  recv := on_tx recv
|}.

Inductive Tx : Type := Success | Delay | Duplicate | Drop.

Definition probability (b : LossyChannelBuilder) (cond : Tx) : f64 :=
  match cond with
  | Success => f64_mul (b_px b) (f64_sub f64_one (b_pq b))
  | Delay => f64_mul (f64_sub f64_one (b_px b)) (b_pq b)
  | Duplicate => f64_mul (b_px b) (b_pq b)
  | Drop => f64_mul (f64_sub f64_one (b_px b)) (f64_sub f64_one (b_pq b))
  end.
End LossyLoopback.

(** ** Properties *)

Section properties.
Context {BC : BytesCrate} {R : Type} `{!Rng R}.
#[local] Abbreviation st := (lossy (R:=R)).

(** What happened to a packet, from the queues before and after its send. *)
Definition happened (p : BytesMut) (s s' : st) (t : Tx) : Prop :=
  packets (loopback s'.1) =
    packets (loopback s.1) ++ (if t is Success then [p] else if t is Duplicate then [p] else []) ∧
  delayed s'.1 = delayed s.1 ++ (if t is Delay then [p] else if t is Duplicate then [p] else []).

(** The fate of a packet for a random number. *)
Definition fate_of (s : st) : Tx :=
  match SFltb (gen s.2).1 (px s.1), SFltb (gen s.2).1 (pq s.1) with
  | true, true => Duplicate
  | true, false => Success
  | false, true => Delay
  | false, false => Drop
  end.

Lemma lossy_send_eq p (s : st) :
  ∃ s', lossy_send p s = Return () s' ∧ happened p s s' (fate_of s) ∧
    px s'.1 = px s.1 ∧ pq s'.1 = pq s.1 ∧ s'.2 = (gen s.2).2.
Proof.
  unfold lossy_send, gen_fate, on_loopback, zoom, fate_of; run.
  destruct s as [l r]. cbn. destruct (gen r) as [fate r']. cbn.
  destruct (SFltb fate (px l)); cbn; destruct (SFltb fate (pq l)); cbn;
    eexists; (split; [done|]); unfold happened; cbn; by rewrite ?app_nil_r.
Qed.

Lemma flush_eq q (s : st) :
  flush q s = Return ()
    (match q with [] => s
     | _ => (MkLossyLoopback (px s.1) (pq s.1) [] (MkLoopback (packets (loopback s.1) ++ q)), s.2) end).
Proof.
  revert s. induction q as [|p q IH]; intros s; [done|].
  cbn [flush]. unfold on_loopback, zoom; run. cbn. rewrite IH. cbn.
  destruct q; [done|]. cbn. by rewrite <-(assoc_L (++)).
Qed.

(** What [recv] of the lossy channel delivers.  With a packet in the
    loopback queue it returns the first one, and every delayed packet moves,
    in order, behind those in the queue; with none it waits, and the delayed
    packets stay where they are. *)
Theorem lossy_recv_spec (s : st) :
  match packets (loopback s.1) with
  | p :: q => lossy_recv s = Return p
      (MkLossyLoopback (px s.1) (pq s.1) [] (MkLoopback (q ++ delayed s.1)), s.2)
  | [] => lossy_recv s = Suspend s
  end.
Proof.
  destruct s as [[x y d [[|p q]]] r]; [done|].
  unfold lossy_recv, on_loopback, zoom. cbn [recv Loopback_Channel].
  unfold RecvFuture_poll; run. cbn. rewrite flush_eq. cbn.
  destruct d; [by rewrite app_nil_r|done].
Qed.

(** One random number decides both questions.  [send] delays a packet
    that it does not also transmit only for a random number between the two
    parameters.  So with equal parameters no packet is ever delayed alone,
    and none is transmitted alone: packets are duplicated or dropped,
    whatever [probability] announces; at one half it announces one quarter
    for each of the four cases. *)
Theorem lossy_fates_dependent p (s : st) :
  (∃ s', lossy_send p s = Return () s' ∧ happened p s s' (fate_of s)) ∧
  (px s.1 = pq s.1 → fate_of s = Duplicate ∨ fate_of s = Drop) ∧
  match LossyChannelBuilder_new f64_half f64_half with
  | Some b => ∀ t, SFeqb (probability b t) (f64_mul f64_half f64_half) = true
  | None => False
  end.
Proof.
  split_and!.
  - destruct (lossy_send_eq p s) as (s' & ? & ? & _). eauto.
  - unfold fate_of. intros ->. destruct (SFltb _ _); eauto.
  - unfold LossyChannelBuilder_new.
    replace (SFleb f64_zero f64_half && SFleb f64_half f64_one) with true by (vm_compute; reflexivity).
    by intros []; vm_compute.
Qed.

(** ** Runs of calls *)

(** Whether each of [n] packets is transmitted, and whether it is delayed, for
    the random numbers from [r] on. *)
Fixpoint fates (x y : f64) (n : nat) (r : R) : list (bool * bool) :=
  match n with
  | O => []
  | S n => (SFltb (gen r).1 x, SFltb (gen r).1 y) :: fates x y n (gen r).2
  end.

Definition kept (b : bool) (p : BytesMut) : list BytesMut := if b then [p] else [].

Definition on_time (ps : list BytesMut) (fs : list (bool * bool)) : list BytesMut :=
  mjoin (zip_with (λ p f, kept f.1 p) ps fs).
Definition late (ps : list BytesMut) (fs : list (bool * bool)) : list BytesMut :=
  mjoin (zip_with (λ p f, kept f.2 p) ps fs).

(** The packets in the channel. *)
Definition inside (s : st) : list BytesMut := packets (loopback s.1) ++ delayed s.1.

Lemma lossy_send_kept p (s : st) : ∃ s', lossy_send p s = Return () s' ∧
  packets (loopback s'.1) = packets (loopback s.1) ++ kept (SFltb (gen s.2).1 (px s.1)) p ∧
  delayed s'.1 = delayed s.1 ++ kept (SFltb (gen s.2).1 (pq s.1)) p ∧
  px s'.1 = px s.1 ∧ pq s'.1 = pq s.1 ∧ s'.2 = (gen s.2).2.
Proof.
  destruct (lossy_send_eq p s) as (s' & Hs & [Hp Hd] & Hrest). exists s'. rewrite Hp, Hd. unfold fate_of.
  by destruct (SFltb _ (px s.1)), (SFltb _ (pq s.1)).
Qed.

(** C36: What the lossy channel does to the packets of a whole run.  Each send draws
    one random number; the packet is transmitted if it is below [px], and
    delayed if it is below [pq].  Every packet is received, or still in the
    channel, once for each of the two, so never, once or twice, and nothing
    else is; the transmitted ones arrive in the order of their sends, and so do
    the delayed ones, behind what was in the channel.  With equal parameters no
    packet is only transmitted, and none only delayed.  A receive waits only if
    nothing has been transmitted that was not received; no call fails. *)
Theorem lossy_conserves (cs : list (channel_call BytesMut)) (s : st) :
  let fs := fates (px s.1) (pq s.1) (length (sent cs)) s.2 in
  match run_calls cs s with
  | Return rs s' =>
    rs ++ inside s' ≡ₚ inside s ++ on_time (sent cs) fs ++ late (sent cs) fs ∧
    packets (loopback s.1) ++ on_time (sent cs) fs `sublist_of` rs ++ packets (loopback s'.1) ∧
    inside s ++ late (sent cs) fs `sublist_of` rs ++ inside s'
  | Suspend s' => packets (loopback s'.1) = []
  | _ => False
  end ∧
  (px s.1 = pq s.1 → Forall (λ f, f.1 = f.2) fs).
Proof.
  cbv zeta. split; [|intros ->; generalize s.2; induction (length (sent cs)); by constructor].
  revert s. induction cs as [|[p|] cs IH]; intros s; cbn [run_calls sent omap list_omap].
  - cbn. rewrite !app_nil_r. by split_and!.
  - change (omap _ cs) with (sent cs).
    destruct (lossy_send_kept p s) as (s1 & Hs & Hp & Hd & Hx & Hq & Hr). run. cbn [send Lossy_Channel].
    rewrite Hs. specialize (IH s1). rewrite Hx, Hq, Hr in IH. cbn [length fates].
    destruct (run_calls cs s1) as [rs s'| | | |]; try done.
    set (f := (SFltb (gen s.2).1 (px s.1), SFltb (gen s.2).1 (pq s.1))). set (fs := fates _ _ _ _) in *.
    change (on_time (p :: sent cs) (f :: fs)) with (kept f.1 p ++ on_time (sent cs) fs).
    change (late (p :: sent cs) (f :: fs)) with (kept f.2 p ++ late (sent cs) fs).
    unfold inside in *. rewrite Hp, Hd in IH. change (SFltb (gen s.2).1 (px s.1)) with f.1 in IH.
    change (SFltb (gen s.2).1 (pq s.1)) with f.2 in IH. destruct IH as (IH1 & IH2 & IH3). split_and!.
    + rewrite IH1. solve_Permutation.
    + by rewrite <-(assoc_L (++)) in IH2.
    + etrans; [|exact IH3]. rewrite <-!(assoc_L (++)). apply sublist_app; [done|].
      by apply sublist_inserts_l.
  - change (omap _ cs) with (sent cs). pose proof (lossy_recv_spec s) as H. run. cbn [recv Lossy_Channel].
    destruct (packets (loopback s.1)) as [|p q] eqn:E; rewrite H; [done|].
    specialize (IH (MkLossyLoopback (px s.1) (pq s.1) [] (MkLoopback (q ++ delayed s.1)), s.2)).
    cbn [fst snd px pq] in IH. destruct (run_calls cs _) as [rs s'| | | |]; try done.
    unfold inside in *. rewrite E. cbn in IH |- *. rewrite ?app_nil_r in IH. destruct IH as (IH1 & IH2 & IH3). split_and!.
    + by rewrite IH1.
    + apply sublist_skip. etrans; [|exact IH2]. apply sublist_app; [|done]. by apply sublist_inserts_r.
    + by apply sublist_skip.
Qed.

Lemma SFltb_zero f : SFleb f64_zero f = true → SFltb f f64_zero = false.
Proof. by destruct f as [[]|[]| |[]]. Qed.

(** A channel of the parameters (1, 0) is reliable. *)
#[export] Instance Lossy_Reliable `{!RngLaws R} : ReliableChannel st BytesMut.
Proof.
  refine {|
    rc_inv s := px s.1 = f64_one ∧ pq s.1 = f64_zero ∧ delayed s.1 = [];
    rc_pending s := deref <$> packets (loopback s.1);
    rc_ok _ := True
  |}.
  - intros p d s (Hx & Hq & Hd) [= <-] _.
    destruct (lossy_send_eq p s) as (s' & Hs' & [Hp Hdel] & Hx' & Hq' & _).
    destruct (gen_range s.2) as [Hge Hlt].
    unfold fate_of in *. rewrite Hx, Hlt, Hq, (SFltb_zero _ Hge) in *.
    exists s'. split; [done|]. rewrite Hp, Hdel, Hx', Hq', Hd, fmap_app. done.
  - intros s d l (Hx & Hq & Hd) Hl. pose proof (lossy_recv_spec s) as H.
    destruct (packets (loopback s.1)) as [|p q]; [done|]. injection Hl as <- <-.
    eexists _, _. split; [exact H|]. cbn. by rewrite Hd, app_nil_r.
  - intros s Hi Hl. pose proof (lossy_recv_spec s) as H.
    destruct (packets (loopback s.1)) as [|p q] eqn:E; [|done].
    exists s. split; [exact H|]. split; [done|]. cbn. by rewrite E.
Defined.

(** The reliable setting.  The builder accepts the parameters (1, 0), and
    the channel they give loses, duplicates and reorders nothing, whatever
    the random numbers in their documented range: the packets received
    followed by those in flight are those that were in flight followed by
    those sent. *)
Theorem lossy_reliable_setting `{!RngLaws R} (cs : list (channel_call BytesMut)) (r : R) :
  match LossyChannelBuilder_new f64_one f64_zero with
  | Some b =>
    match run_calls cs (b_tx b, r) with
    | Return rs s' => payloads (sent cs) = payloads rs ++ rc_pending s'
    | Suspend s' => rc_pending s' = []
    | _ => False
    end
  | None => False
  end.
Proof.
  unfold LossyChannelBuilder_new.
  replace (SFleb f64_zero f64_one && SFleb f64_one f64_one) with true by (vm_compute; reflexivity).
  replace (SFleb f64_zero f64_zero && SFleb f64_zero f64_one) with true by (vm_compute; reflexivity).
  cbn [b_tx].
  pose proof (reliable_run cs (LossyLoopback_new f64_one f64_zero, r)) as H.
  assert (Forall (valid_call (LossyLoopback * R)) cs) as Hv.
  { apply Forall_forall. intros [p|] _; cbn; eauto. }
  specialize (H Hv ltac:(done)).
  destruct (run_calls cs _); try done; naive_solver.
Qed.
End properties.

(** ** Concrete inputs *)

Module TestChannelExample.
Import Reference.

(** A generator that always gives one half. *)
#[export] Instance constant : Rng () := {| gen r := (f64_half, r) |}.

#[export] Instance constant_laws : RngLaws ().
Proof. split. intros r. split; reflexivity. Qed.

Definition packet : BytesMut := RawBuf 1 [Byte.x70] [].

Definition even : lossy := (LossyLoopback_new f64_half f64_half, ()).

Lemma lossy_fates_dependent_witness : fate_of even = Duplicate ∨ fate_of even = Drop.
Proof. apply (lossy_fates_dependent packet even). reflexivity. Defined.

Lemma lossy_reliable_setting_witness :
  match LossyChannelBuilder_new f64_one f64_zero with
  | Some b =>
    match run_calls [CallSend packet; CallRecv] (b_tx b, ()) with
    | Return rs s' => payloads [packet] = payloads rs ++ rc_pending s'
    | Suspend s' => rc_pending s' = []
    | _ => False
    end
  | None => False
  end.
Proof. exact (lossy_reliable_setting [CallSend packet; CallRecv] ()). Defined.

(** Both parameters one: every packet is transmitted and delayed. *)
Definition doubling : lossy := (LossyLoopback_new f64_one f64_one, ()).

Lemma lossy_conserves_witness :
  match run_calls [CallSend packet; CallRecv] doubling with
  | Return rs s' => rs ++ inside s' ≡ₚ [packet; packet]
  | Suspend s' => packets (loopback s'.1) = []
  | _ => False
  end ∧ Forall (λ f, f.1 = f.2) (fates f64_one f64_one 1 ()).
Proof.
  destruct (lossy_conserves [CallSend packet; CallRecv] doubling) as [H Heq]. split; [|exact (Heq eq_refl)].
  destruct (run_calls [CallSend packet; CallRecv] doubling) as [rs s'| |s'| |]; try exact H. exact (proj1 H).
Defined.
End TestChannelExample.
