(* ===== verification/ChannelTests.v ===== *)
(** * The layers of the test module of crate channel (src/channel/src/lib.rs)

    Two packets that [derive_packet!] makes from header layers, two channels
    that wrap and parse them, and the test that stacks them on the loopback
    channel; the layers are reliable over any reliable channel. *)

From S2P Require Export Channel Text.

(** [Result::unwrap]. *)
Definition unwrapped {E E' S A} (m : M E S A) : M E' S A := λ s,
  match m s with
  | Return a s' => Return a s'
  | Throw _ _ | Panic => Panic
  | Suspend s' => Suspend s'
  | Diverge => Diverge
  end.

(** ** A channel that wraps on send and parses on receive *)

Section wrapping.
Context {BC : BytesCrate} {Q P L S : Type} `{!BasePacket Q} `{!BasePacket P} `{!Packet Q P}.
Context `{!Wraps L S} `{!Channel S P}.

Definition wrap_send (packet : Q) : M io_error L () :=
  zoom get_inner put_inner (send (into_packet packet)).

Definition parse_recv : M io_error L Q :=
  p ← zoom get_inner put_inner recv;
  r ← unwrap (parse p);
  try r.
End wrapping.

(** [test::DtpPacket]: the channel id. *)
Module DtpLayer.
Record DtpPacket (P : Type) : Type := MkDtpPacket { dtp_inner : P }.
Arguments MkDtpPacket {P} _.
Arguments dtp_inner {P} _.

#[global] Instance DtpPacket_Newtype P : Newtype (DtpPacket P) P.
Proof. by refine {| Self := MkDtpPacket; inner := dtp_inner |}; [|intros []]. Defined.

Section packet.
Context {BC : BytesCrate} {P : Type} `{!BasePacket P}.

#[global] Instance DtpPacket_BufMut : BufMut (DtpPacket P) := derive_BufMut.

Definition DtpPacket_new (payload_len : Z) : option (DtpPacket P) :=
  packet ← new (payload_len + 1);
  packet ← put_u8 Byte.x00 packet;
  Some (MkDtpPacket packet).

Definition DtpPacket_check (q : DtpPacket P) : option (result () io_error) :=
  p ← payload (dtp_inner q);
  if bool_decide (length p < 1)%nat
  then Some (Err (IoError Other "invalid message"))
  else Some (Ok ()).

Definition DtpPacket_payload (q : DtpPacket P) : option (list byte) :=
  p ← payload (dtp_inner q); slice_from 1 p.

Definition DtpPacket_payload_mut (q : DtpPacket P) : option (borrow (DtpPacket P)) :=
  b ← payload_mut (dtp_inner q); borrow_map MkDtpPacket <$> borrow_from 1 b.

#[global] Instance DtpPacket_BasePacket : BasePacket (DtpPacket P) := {|
  new := DtpPacket_new;
  check := DtpPacket_check;
  payload := DtpPacket_payload;
  payload_mut := DtpPacket_payload_mut
|}.

#[global] Instance DtpPacket_Packet : Packet (DtpPacket P) P := derive_Packet.
End packet.

Record DtpChannel (S : Type) : Type := MkDtpChannel { dtp_channel : S }.
Arguments MkDtpChannel {S} _.
Arguments dtp_channel {S} _.

#[global] Instance Dtp_Wraps S : Wraps (DtpChannel S) S.
Proof. by refine {| get_inner := dtp_channel; put_inner s _ := MkDtpChannel s |}. Defined.

Definition channel {S} (c : DtpChannel S) : byte := Byte.x00.

#[global] Instance Dtp_Channel {BC : BytesCrate} {S P} `{!BasePacket P} `{!Channel S P} :
  Channel (DtpChannel S) (DtpPacket P) := {| send := wrap_send; recv := parse_recv |}.
End DtpLayer.

(** [test::DiscoPacket]: a nonce of eight bytes. *)
Module DiscoLayer.
Record DiscoPacket (P : Type) : Type := MkDiscoPacket { disco_inner : P }.
Arguments MkDiscoPacket {P} _.
Arguments disco_inner {P} _.

#[global] Instance DiscoPacket_Newtype P : Newtype (DiscoPacket P) P.
Proof. by refine {| Self := MkDiscoPacket; inner := disco_inner |}; [|intros []]. Defined.

Section packet.
Context {BC : BytesCrate} {BO : ByteOrderCrate} {P : Type} `{!BasePacket P}.

#[global] Instance DiscoPacket_BufMut : BufMut (DiscoPacket P) := derive_BufMut.

Definition DiscoPacket_new (payload_len : Z) : option (DiscoPacket P) :=
  packet ← new (payload_len + 8);
  packet ← put_u64_be 0 packet;
  Some (MkDiscoPacket packet).

Definition DiscoPacket_check (q : DiscoPacket P) : option (result () io_error) :=
  p ← payload (disco_inner q);
  if bool_decide (length p < 8)%nat
  then Some (Err (IoError Other "invalid message"))
  else Some (Ok ()).

Definition DiscoPacket_payload (q : DiscoPacket P) : option (list byte) :=
  p ← payload (disco_inner q); slice_from 8 p.

Definition DiscoPacket_payload_mut (q : DiscoPacket P) : option (borrow (DiscoPacket P)) :=
  b ← payload_mut (disco_inner q); borrow_map MkDiscoPacket <$> borrow_from 8 b.

#[global] Instance DiscoPacket_BasePacket : BasePacket (DiscoPacket P) := {|
  new := DiscoPacket_new;
  check := DiscoPacket_check;
  payload := DiscoPacket_payload;
  payload_mut := DiscoPacket_payload_mut
|}.

#[global] Instance DiscoPacket_Packet : Packet (DiscoPacket P) P := derive_Packet.

Definition nonce (q : DiscoPacket P) : option Z :=
  p ← payload (disco_inner q); s ← slice_to 8 p; read_u64 s.
End packet.

Record DiscoChannel (S : Type) : Type := MkDiscoChannel { disco_channel : S }.
Arguments MkDiscoChannel {S} _.
Arguments disco_channel {S} _.

#[global] Instance Disco_Wraps S : Wraps (DiscoChannel S) S.
Proof. by refine {| get_inner := disco_channel; put_inner s _ := MkDiscoChannel s |}. Defined.

(** [Deref]. *)
Definition deref {S} (c : DiscoChannel S) : S := disco_channel c.

#[global] Instance Disco_Channel {BC : BytesCrate} {BO : ByteOrderCrate} {S P} `{!BasePacket P}
    `{!Channel S P} : Channel (DiscoChannel S) (DiscoPacket P) :=
  {| send := wrap_send; recv := parse_recv |}.
End DiscoLayer.

(** ** The layers keep a channel reliable *)

Section wrapping_reliable.
Context {BC : BytesCrate} {BL : BytesLaws BC} {Q P L S : Type} `{!Newtype Q P}.
Context `{!BasePacket Q} `{!BasePacket P} {max : Z} `{!PacketLaws P max}.
Context {h : nat} {hdr : list byte} `{!HeaderPacket Q P max h hdr (λ _, Ok ())}.
Context `{!Wraps L S} `{!Channel S P} {RC : ReliableChannel S P}.

#[local] Instance wrapping_Packet : Packet Q P := derive_Packet.

(** For channels with the text of the two above. *)
Definition wrapping_Channel : Channel L Q := {| send := wrap_send; recv := parse_recv |}.

Lemma parse_wrapped (p : P) w : payload p = Some w → (h ≤ length w)%nat →
  ∃ q : Q, parse p = Some (Ok q) ∧ payload q = Some (drop h w).
Proof.
  intros Hp Hw. exists (Self p).
  assert (payload (lower (Self (Q:=Q) p)) = Some w) as Hl.
  { cbn [lower Newtype_Layer]. by rewrite inner_Self. }
  split.
  - change (derive_parse p = Some (Ok (Self p))). unfold derive_parse. by rewrite (hp_check _ w Hl).
  - rewrite hp_payload, Hl. cbn. apply slice_from_Some. by split; [lia|].
Qed.

Definition wrapping_Reliable : @ReliableChannel L Q _ wrapping_Channel.
Proof.
  refine (@Build_ReliableChannel _ _ _ wrapping_Channel
    (λ l, rc_inv (get_inner l) ∧ Forall (λ w, (h ≤ length w)%nat) (rc_pending (get_inner l)))
    (λ l, drop h <$> rc_pending (get_inner l)) (λ n, rc_ok (h + n)) _ _ _).
  - intros q s l [Hi Hw] Hs Hok. rewrite hp_payload in Hs.
    destruct (payload (lower q)) as [w|] eqn:Hp; [|done]. apply slice_from_Some in Hs as [Hh ->].
    rewrite length_drop in Hok. replace (h + (length w - h))%nat with (length w) in Hok by lia.
    destruct (rc_send _ w (get_inner l) Hi Hp Hok) as (st & Hst & Hi' & Hpend).
    exists (put_inner st l). rewrite !get_put_inner, Hpend, fmap_app. split_and!; try done.
    + cbn. unfold wrap_send, zoom. change (into_packet q) with (lower q). by rewrite Hst.
    + apply Forall_app. split; [done|]. by apply Forall_singleton.
  - intros l s rest [Hi Hw] Hl. destruct (rc_pending (get_inner l)) as [|w ws] eqn:Ew; [done|].
    apply Forall_cons in Hw as [Hw Hws]. injection Hl as <- <-.
    destruct (rc_recv _ _ _ Hi Ew) as (p & st & Hst & Hp & Hi' & Hpend).
    destruct (parse_wrapped p w Hp Hw) as (q & Hq & Hqp).
    exists q, (put_inner st l). rewrite !get_put_inner, Hpend. split_and!; try done.
    cbn. unfold parse_recv, zoom; run. rewrite Hst. cbn in Hq |- *. by rewrite Hq.
  - intros l [Hi Hw] Hl. destruct (rc_pending (get_inner l)) as [|w ws] eqn:Ew; [|done].
    destruct (rc_wait _ Hi Ew) as (st & Hst & Hi' & Hpend).
    exists (put_inner st l). rewrite !get_put_inner, Hpend. split_and!; try done.
    cbn. unfold parse_recv, zoom; run. by rewrite Hst.
Defined.
End wrapping_reliable.

Section layers.
Context {BC : BytesCrate} {BL : BytesLaws BC} {BO : ByteOrderCrate} {BOL : ByteOrderLaws BO}.
Context {P : Type} `{!BasePacket P} {max : Z} {PL : PacketLaws P max}.

#[global] Instance DtpLayer_HeaderPacket :
  HeaderPacket (DtpLayer.DtpPacket P) P max 1 [Byte.x00] (λ _, Ok ()).
Proof.
  split; try done.
  - intros q s Hp Hs. cbn in Hp |- *. unfold DtpLayer.DtpPacket_check. rewrite Hp. cbn.
    by rewrite bool_decide_false by lia.
  - intros n Hn. destruct (new_spec (P:=P) (n + 1)) as (p & Hnew & Hpay & Hr & _); [lia|].
    cbn. unfold DtpLayer.DtpPacket_new. rewrite Hnew. cbn [mbind option_bind].
    destruct (put_slice_append p [] [Byte.x00] Hpay) as (Hp1 & Hpay1 & Hr1 & _); [solve_length|].
    rewrite put_u8_spec, Hp1. cbn [mbind option_bind]. eexists. split; [done|]. cbn.
    split; [exact Hpay1|]. rewrite Hr1. cbn [length]. lia.
Qed.

#[global] Instance DtpLayer_laws : PacketLaws (DtpLayer.DtpPacket P) (max - 1).
Proof. exact (header_packet_laws (Q:=DtpLayer.DtpPacket P) (max:=max)). Qed.

#[global] Instance DiscoLayer_HeaderPacket :
  HeaderPacket (DiscoLayer.DiscoPacket P) P max 8 (be_bytes 8 0) (λ _, Ok ()).
Proof.
  split; try done.
  - intros q s Hp Hs. cbn in Hp |- *. unfold DiscoLayer.DiscoPacket_check. rewrite Hp. cbn.
    by rewrite bool_decide_false by lia.
  - intros n Hn. destruct (new_spec (P:=P) (n + 8)) as (p & Hnew & Hpay & Hr & _); [lia|].
    cbn. unfold DiscoLayer.DiscoPacket_new. rewrite Hnew. cbn [mbind option_bind].
    destruct (put_slice_append p [] (be_bytes 8 0) Hpay) as (Hp1 & Hpay1 & Hr1 & _); [solve_length|].
    rewrite put_u64_be_spec, Hp1. cbn [mbind option_bind]. eexists. split; [done|].
    split; [exact Hpay1|]. cbn [lower Newtype_Layer inner DiscoLayer.DiscoPacket_Newtype DiscoLayer.disco_inner]. rewrite Hr1, length_be_bytes. lia.
Qed.

#[global] Instance DiscoLayer_laws : PacketLaws (DiscoLayer.DiscoPacket P) (max - 8).
Proof. exact (header_packet_laws (Q:=DiscoLayer.DiscoPacket P) (max:=max)). Qed.

Context {S : Type} `{!Channel S P} {RC : ReliableChannel S P}.

#[global] Instance DtpLayer_Reliable : ReliableChannel (DtpLayer.DtpChannel S) (DtpLayer.DtpPacket P) :=
  wrapping_Reliable (Q:=DtpLayer.DtpPacket P).

#[global] Instance DiscoLayer_Reliable : ReliableChannel (DiscoLayer.DiscoChannel S) (DiscoLayer.DiscoPacket P) :=
  wrapping_Reliable (Q:=DiscoLayer.DiscoPacket P).
End layers.

(** ** The test, on any inner channel *)

Section test_channels.
Context {BC : BytesCrate} {BO : ByteOrderCrate}.
Context {S P : Type} `{!BasePacket P} `{!Channel S P}.

#[local] Abbreviation ch := (DiscoLayer.DiscoChannel (DtpLayer.DtpChannel S)).
#[local] Abbreviation packet := (DiscoLayer.DiscoPacket (DtpLayer.DtpPacket P)).

(** The body of [test_channels], for a message. *)
Definition test_channels (m : list byte) : M io_error ch () :=
  p ← unwrap (from_slice (Q:=packet) m);
  unwrapped (send p);;
  msg ← unwrapped recv;
  s ← unwrap (payload (P:=packet) msg);
  assert (bool_decide (s = m));;
  c ← gets DiscoLayer.deref;
  assert (bool_decide (b2z (DtpLayer.channel c) = 0)).
End test_channels.

(** The test passes for every message that the layers have room for, over
    every reliable channel with nothing in flight, and leaves nothing there. *)
Section test_passes.
Context {BC : BytesCrate} {BL : BytesLaws BC} {BO : ByteOrderCrate} {BOL : ByteOrderLaws BO}.
Context {S P : Type} `{!BasePacket P} {max : Z} {PL : PacketLaws P max}.
Context `{!Channel S P} {RC : ReliableChannel S P}.

#[local] Abbreviation ch := (DiscoLayer.DiscoChannel (DtpLayer.DtpChannel S)).
#[local] Abbreviation packet := (DiscoLayer.DiscoPacket (DtpLayer.DtpPacket P)).

Theorem test_channels_passes (m : list byte) (c : ch) :
  rc_inv (P:=P) (get_inner (get_inner c)) → rc_pending (P:=P) (get_inner (get_inner c)) = [] →
  Z.of_nat (length m) ≤ max - 9 → rc_ok (S:=S) (P:=P) (9 + length m) →
  ∃ c', test_channels (P:=P) m c = Return () c' ∧ rc_pending (P:=P) (get_inner (get_inner c')) = [].
Proof.
  cbn [get_inner DiscoLayer.Disco_Wraps DtpLayer.Dtp_Wraps]. intros Hi Hp Hm Hok.
  destruct (from_slice_Some (Q:=packet) (max:=max - 1 - 8) m) as (p & Hpm & Hps & _); [lia|].
  assert (rc_inv (P:=packet) c) as Hi0.
  { cbn. rewrite Hp. split; [split; [exact Hi|constructor]|constructor]. }
  assert (rc_pending (P:=packet) c = []) as Hp0 by (cbn; by rewrite Hp).
  destruct (rc_send p m c Hi0 Hps Hok) as (c1 & Hc1 & Hi1 & Hp1). rewrite Hp0 in Hp1.
  destruct (rc_recv c1 m [] Hi1 Hp1) as (msg & c2 & Hc2 & Hmsg & Hi2 & Hp2).
  exists c2. split.
  - unfold test_channels, unwrapped; run. rewrite Hpm. cbn -[send recv payload]. rewrite Hc1, Hc2, Hmsg.
    cbn -[payload]. by rewrite bool_decide_true.
  - cbn in Hp2. by apply fmap_nil_inv, fmap_nil_inv in Hp2.
Qed.
End test_passes.
