(* ===== verification/Efcp.v ===== *)
(** * Crate efcp: the handshake, the channel and the socket (src/efcp/src/lib.rs)

    The handshake runs over DTCP over the inner channel, and once the session
    has keys, over DTCP over the encrypted channel over the same inner
    channel.  The functions are generic in the inner channel, which [dial] and
    [incoming] instantiate with a DTP channel. *)

From S2P Require Export Dtcp Secure HandshakePacket Dtp.

Section handshake.
Context {BC : BytesCrate} {BO : ByteOrderCrate} {PR : Profile}.
Context {DC : DiscoCrate} {DS : DiscoSession DC}.
Context {S P C : Type} {BP : BasePacket P} {CH : Channel S P} {CK : Clock C}.

(** The channel before and after the session has keys. *)
#[local] Abbreviation clear := (DtcpChannel S C).
#[local] Abbreviation sealed := (DtcpChannel (DiscoChannel S) C).

(** [?] on an [io::Error]. *)
Definition io {T A} (m : M io_error T A) : M HandshakeError T A := map_err Io m.

(** [HandshakePacket::from_bytes(..)?]. *)
Definition parse_handshake {T} (bytes : list byte) : M HandshakeError T HandshakePacket :=
  r ← unwrap (from_bytes bytes);
  io (try r).

(** [msg.negotiate().as_ref().map(|msg| negotiate.message(msg)).unwrap_or(Ok(None))?],
    with the negotiation it updates. *)
Definition answer {T} (msg : option Message) (negotiate : Negotiation)
    : M HandshakeError T (option Message * Negotiation) :=
  match msg with
  | None => mret (None, negotiate)
  | Some msg =>
    match message msg negotiate with
    | Return next negotiate => mret (next, negotiate)
    | Throw e _ => throw e
    | Suspend _ => suspend
    | Panic => panic
    | Diverge => diverge
    end
  end.

(** A message of the handshake: [HandshakePacket::new(..).to_bytes()?], sent
    as it is or, before the session has keys, encrypted by the session. *)
Definition send_clear (msg : HandshakePacket) (session : Session) : M HandshakeError clear Session :=
  bytes ← io (try (to_bytes msg));
  let '(ct, session) := session_write bytes session in
  packet ← unwrap (from_slice (Q:=DtcpPacket P) ct);
  io (dtcp_send packet);;
  mret session.

Definition recv_clear (session : Session) : M HandshakeError clear (HandshakePacket * Session) :=
  packet ← io (dtcp_recv (P:=P));
  ct ← unwrap (payload packet);
  let '(r, session) := session_read ct session in
  match r with
  | Err e => throw (Disco e)
  | Ok pt => msg ← parse_handshake pt; mret (msg, session)
  end.

Definition send_sealed (msg : HandshakePacket) : M HandshakeError sealed () :=
  bytes ← io (try (to_bytes msg));
  packet ← unwrap (from_slice (Q:=DtcpPacket (DiscoPacket P)) bytes);
  io (dtcp_send packet).

Definition recv_sealed : M HandshakeError sealed HandshakePacket :=
  packet ← io (dtcp_recv (P:=DiscoPacket P));
  bytes ← unwrap (payload packet);
  parse_handshake bytes.

(** ** The initiator *)

Fixpoint initiator_loop (fuel : nat) (session : Session) (negotiate : Negotiation)
    (external_addr : option Addr) (next_neg : option Message)
    : M HandshakeError clear (Session * Negotiation * option Addr) :=
  match fuel with
  | O => diverge
  | Datatypes.S fuel =>
    session ← send_clear (MkHandshakePacket next_neg None) session;
    if is_handshake_finished session then mret (session, negotiate, external_addr)
    else
      '(msg, session) ← recv_clear session;
      let external_addr :=
        match external_addr_ msg with Some addr => Some addr | None => external_addr end in
      '(next_neg, negotiate) ← answer (negotiate_ msg) negotiate;
      initiator_loop fuel session negotiate external_addr next_neg
  end.

Fixpoint initiator_negotiate (fuel : nat) (negotiate : Negotiation)
    : M HandshakeError sealed Negotiation :=
  match fuel with
  | O => diverge
  | Datatypes.S fuel =>
    if is_finished negotiate then mret negotiate
    else
      msg ← recv_sealed;
      '(next_neg, negotiate) ← answer (negotiate_ msg) negotiate;
      match next_neg with
      | None => mret negotiate
      | Some _ =>
        send_sealed (MkHandshakePacket next_neg None);;
        initiator_negotiate fuel negotiate
      end
  end.

(** ** The responder *)

Fixpoint responder_loop (fuel : nat) (session : Session) (negotiate : Negotiation)
    (external_addr : option Addr)
    : M HandshakeError clear (Session * Negotiation * option Addr * option Message) :=
  match fuel with
  | O => diverge
  | Datatypes.S fuel =>
    '(msg, session) ← recv_clear session;
    '(next_neg, negotiate) ← answer (negotiate_ msg) negotiate;
    if is_handshake_finished session then mret (session, negotiate, external_addr, next_neg)
    else
      session ← send_clear (MkHandshakePacket next_neg external_addr) session;
      responder_loop fuel session negotiate None
  end.

Fixpoint responder_negotiate (fuel : nat) (negotiate : Negotiation) (external_addr : option Addr)
    (next_neg : option Message) : M HandshakeError sealed (Negotiation * option Addr) :=
  match fuel with
  | O => diverge
  | Datatypes.S fuel =>
    match next_neg with
    | None => mret (negotiate, external_addr)
    | Some msg =>
      send_sealed (MkHandshakePacket (Some msg) external_addr);;
      if is_finished negotiate then mret (negotiate, None)
      else
        msg ← recv_sealed;
        '(next_neg, negotiate) ← answer (negotiate_ msg) negotiate;
        responder_negotiate fuel negotiate None next_neg
    end
  end.

(** [negotiate.into_protocol().map(Ok).unwrap_or(Err(Negotiation))?]. *)
Definition settle {T} (negotiate : Negotiation) : M HandshakeError T Protocol :=
  r ← unwrap (into_protocol negotiate);
  match r with
  | Some p => mret p
  | None => throw NegotiationError
  end.

(** ** EfcpChannel *)

Record EfcpChannel : Type := MkEfcpChannel {
  efcp_channel : sealed;
  remote : PublicKey;
  protocol : Protocol;
  efcp_external_addr : option Addr
}.

(** A computation on a channel built over the inner channel's state, which is
    taken back when it ends. *)
Definition scoped {L A} (enter : S * C → option L) (leave : L → S * C)
    (m : M HandshakeError L A) : M HandshakeError (S * C) A :=
  l ← get_state;
  l ← unwrap (enter l);
  zoom (λ _, l) (λ l _, leave l) m.

(** [dtcp.build_channel(channel)], and the same over [DiscoChannel::new]. *)
Definition in_clear {A} : M HandshakeError clear A → M HandshakeError (S * C) A :=
  scoped (λ '(s, k), build_channel DtcpBuilder_new s k) (λ l, (dtcp_unwrap l, clk l)).

Definition in_sealed {A} (session : Session) : M HandshakeError sealed A → M HandshakeError (S * C) A :=
  scoped
    (λ '(s, k), build_channel DtcpBuilder_new
       (DiscoChannel_new s (into_stateless_transport_mode session)) k)
    (λ l, (disco_deref (dtcp_deref l), clk l)).

Definition initiator (fuel : nat) (identity : Keypair) (protocols : list Protocol)
    (remote_public : PublicKey) : M HandshakeError (S * C) EfcpChannel :=
  let session := build_initiator identity remote_public in
  match initiate (Negotiation_new protocols) with
  | Return next_neg negotiate =>
    '(session, negotiate, external_addr) ←
      in_clear (initiator_loop fuel session negotiate None (Some next_neg));
    remote ← unwrap (remote_static session);
    in_sealed session (
      match external_addr with
      | None => throw ExternalAddr
      | Some _ =>
        negotiate ← initiator_negotiate fuel negotiate;
        protocol ← settle negotiate;
        channel ← get_state;
        mret (MkEfcpChannel channel remote protocol external_addr)
      end)
  | _ => panic
  end.

Definition responder (fuel : nat) (identity : Keypair) (protocols : list Protocol)
    (remote_addr : Addr) : M HandshakeError (S * C) EfcpChannel :=
  let session := build_responder identity in
  '(session, negotiate, external_addr, next_neg) ←
    in_clear (responder_loop fuel session (Negotiation_new protocols) (Some remote_addr));
  remote ← unwrap (remote_static session);
  in_sealed session (
    '(negotiate, external_addr) ← responder_negotiate fuel negotiate external_addr next_neg;
    protocol ← settle negotiate;
    channel ← get_state;
    mret (MkEfcpChannel channel remote protocol external_addr)).

(** The accessors, and [impl Channel].  The value holds the state of the inner
    channel as the handshake left it; [put_inner] puts a later one in. *)
Definition efcp_peer_identity (c : EfcpChannel) : PublicKey := remote c.
Definition efcp_protocol (c : EfcpChannel) : Protocol := protocol c.

Definition put_sealed (l : sealed) (c : EfcpChannel) : EfcpChannel :=
  MkEfcpChannel l (remote c) (protocol c) (efcp_external_addr c).

#[export] Instance Efcp_Wraps : Wraps EfcpChannel S.
Proof.
  by refine {| get_inner c := disco_channel (dtcp_channel (efcp_channel c));
    put_inner s c := put_sealed
      (put_channel (put_disco s (dtcp_channel (efcp_channel c))) (efcp_channel c)) c |}.
Defined.

#[export] Instance Efcp_Channel : Channel EfcpChannel (DtcpPacket (DiscoPacket P)) := {|
  send packet := zoom efcp_channel put_sealed (dtcp_send packet);
  recv := zoom efcp_channel put_sealed dtcp_recv
|}.
End handshake.

(** ** EfcpSocket *)

Record Dial {DC : DiscoCrate} {DS : DiscoSession DC} : Type := MkDial {
  dial_peer_addr : Addr;
  dial_channel : byte;
  remote_public : PublicKey;
  dial_protocols : list Protocol
}.

Section EfcpSocket.
Context {BC : BytesCrate} {BO : ByteOrderCrate} {SQ : SegQueueCrate} {SL : SlabCrate} {PR : Profile}.
Context {DC : DiscoCrate} {DS : DiscoSession DC}.
Context {K : Type} `{!UdpExt K} `{!UdpSocket K} {C : Type} `{!Clock C}.

#[local] Abbreviation inner := (Dtp.InnerDtpSocket (K:=K)).

(** The socket's own fields; its DTP socket is the state the calls run on. *)
Record EfcpSocket : Type := MkEfcpSocket { identity : Keypair; socket_protocols : list Protocol }.

(** A channel of the socket: the handle on its DTP channel, and the layers. *)
#[local] Abbreviation connected := (Dtp.DtpChannel * EfcpChannel (S:=inner) (C:=C))%type.

Definition on_dtp {E A} (f : io_error → E) (m : M io_error inner A) : M E (inner * C) A :=
  map_err f (zoom fst (λ s st, (s, st.2)) m).

(** A handshake owns the DTP channel it runs on: when it fails, the channel is
    dropped, which closes it. *)
Definition owning {A} (ch : Dtp.DtpChannel) (m : M HandshakeError (inner * C) A)
    : M HandshakeError (inner * C) A := λ st,
  match m st with
  | Throw e st => (on_dtp Io (Dtp.DtpChannel_drop ch);; throw e) st
  | o => o
  end.

(** The option is the panic of the address parser. *)
Definition EfcpSocket_bind {T} `{!ToAddr T} (addr : T) (identity : Keypair)
    (protocols : list Protocol) : option (result (inner * EfcpSocket) io_error) :=
  r ← Dtp.DtpSocket_bind addr;
  Some match r with
       | Ok dtp => Ok (dtp, MkEfcpSocket identity protocols)
       | Err e => Err e
       end.

(** The stream of DTP channels never ends, so there is always a result. *)
Definition efcp_incoming (fuel : nat) (self : EfcpSocket)
    : M HandshakeError (inner * C) connected :=
  channel ← on_dtp Io (Dtp.Incoming_poll_next fuel);
  let peer_addr := Dtp.DtpChannel_peer_addr channel in
  efcp ← owning channel
    (responder (CH:=Dtp.DtpChannel_Channel fuel channel) fuel
       (identity self) (socket_protocols self) peer_addr);
  mret (channel, efcp).

Definition dial (fuel : nat) (self : EfcpSocket) (d : Dial)
    : M HandshakeError (inner * C) connected :=
  channel ← on_dtp Io (Dtp.DtpSocket_outgoing (dial_peer_addr d) (dial_channel d));
  efcp ← owning channel
    (initiator (CH:=Dtp.DtpChannel_Channel fuel channel) fuel
       (identity self) (socket_protocols self) (remote_public d));
  mret (channel, efcp).

Definition EfcpSocket_local_addr : M io_error (inner * C) Addr :=
  on_dtp id Dtp.DtpSocket_local_addr.
Definition EfcpSocket_identity (self : EfcpSocket) : PublicKey := public (identity self).
Definition EfcpSocket_protocols (self : EfcpSocket) : list Protocol := socket_protocols self.

(** The accessors of a channel that ask its DTP channel. *)
Definition efcp_local_addr (c : connected) : M io_error (inner * C) Addr :=
  on_dtp id (Dtp.DtpChannel_local_addr c.1).
Definition efcp_peer_addr (c : connected) : Addr := Dtp.DtpChannel_peer_addr c.1.
Definition efcp_channel_id (c : connected) : byte := Dtp.DtpChannel_channel c.1.
End EfcpSocket.
