(* ===== verification/EfcpReliable.v ===== *)
(** * The channel of two parties after the handshake (src/efcp/src/lib.rs)

    An EFCP channel is DTCP over the encrypted channel over the inner channel.
    Over a reliable inner channel the two ends of a session make a reliable
    channel. *)

From S2P Require Export DtcpProps SecureProps Efcp.

Section reliable.
Context {BC : BytesCrate} {BL : BytesLaws BC} {BO : ByteOrderCrate} {BOL : ByteOrderLaws BO}.
Context {PR : Profile} {DC : DiscoCrate} {DL : DiscoLaws DC} {DS : DiscoSession DC}.
Context {S P C : Type} {BP : BasePacket P} {max : Z} {PL : PacketLaws P max}.
Context {CH : Channel S P} {RC : ReliableChannel S P} {CK : Clock C}.

#[local] Abbreviation efcp := (EfcpChannel (S:=S) (C:=C)).
#[local] Abbreviation Q := (DtcpPacket (DiscoPacket P)).

#[local] Arguments disco_plain : simpl never.
#[local] Arguments disco_wire : simpl never.

(** The cipher and the next nonce of a channel. *)
Definition cipher (c : efcp) : StatelessTransportState := transport (dtcp_channel (efcp_channel c)).
Definition nonce_of (c : efcp) : Z := next_nonce (dtcp_channel (efcp_channel c)).

(** What a channel puts on the wire. *)
Definition efcp_wire (t : StatelessTransportState) (w : list byte) : Prop :=
  ∃ n f k s, fits 64 n ∧ w = disco_wire t n (dtcp_header (Transfer f) k ++ s).

Lemma efcp_send_eq (q : Q) s (c : efcp) st : payload q = Some s → rc_ok (HEADER + (3 + length s)) →
  rc_inv st → fits 64 (nonce_of c) →
  ∃ w c', efcp_wire (cipher c) w ∧
    (∀ t', paired (cipher c) t' → drop 3 (disco_plain t' w) = s) ∧
    send q (put_inner st c) = Return () c' ∧ rc_inv (get_inner c') ∧
    rc_pending (get_inner c') = rc_pending st ++ [w] ∧
    cipher c' = cipher c ∧ fits 64 (nonce_of c').
Proof.
  intros Hs Hok Hi Hn. set (l := efcp_channel (put_inner st c)).
  destruct (dtcp_send_eq q s l Hs) as (p & Hp & Heq).
  destruct (disco_send_eq p _ (dtcp_channel (sending l)) Hp) as (p' & Hp' & Heq').
  destruct (rc_send p' _ st Hi Hp') as (st' & Hst & Hi' & Hpend); [by rewrite length_disco_wire|].
  set (w := disco_wire _ _ _) in *.
  eexists w, _. split_and!.
  - by eexists (nonce_of c), _, _, s.
  - intros t' Ht. unfold w. by rewrite (disco_plain_wire (cipher c)) by done.
  - cbn [send Efcp_Channel]. unfold zoom. fold l. rewrite Heq.
    change (send p) with (disco_send (S:=S) p). change (dtcp_channel l) with (dtcp_channel (sending l)).
    rewrite Heq'. change (disco_channel (dtcp_channel (sending l))) with st. rewrite Hst. reflexivity.
  - done.
  - done.
  - done.
  - unfold nonce_of. cbn. apply Z.mod_pos_bound. lia.
Qed.

Lemma efcp_recv_eq (t : StatelessTransportState) n f k s w l st (c : efcp) : paired t (cipher c) →
  fits 64 n → w = disco_wire t n (dtcp_header (Transfer f) k ++ s) →
  rc_inv st → rc_pending st = w :: l →
  ∃ (q : Q) c', recv (put_inner st c) = Return q c' ∧ payload q = Some s ∧ rc_inv (get_inner c') ∧
    rc_pending (get_inner c') = l ∧ cipher c' = cipher c ∧ nonce_of c' = nonce_of c.
Proof.
  intros Hpair Hn -> Hi Hl. destruct (rc_recv _ _ _ Hi Hl) as (p1 & st' & Hst & Hp1 & Hi' & Hl').
  set (c1 := efcp_channel (put_inner st c)).
  destruct (disco_recv_wire t (dtcp_channel c1) n _ p1 st' Hpair Hn Hst Hp1) as (q & Hq & Hqs).
  pose proof (valid_dtcp_header (Transfer f) k s) as [Hlen Hchk].
  eexists (MkDtcpPacket q), _. split_and!.
  - cbn [recv Efcp_Channel]. unfold zoom. fold c1. rewrite dtcp_recv_eq.
    change (recv (dtcp_channel c1)) with (disco_recv (dtcp_channel c1)).
    rewrite Hq, (dtcp_check_eq (MkDtcpPacket q) _ Hqs Hlen), Hchk. reflexivity.
  - change (payload (MkDtcpPacket q)) with (DtcpPacket_payload (MkDtcpPacket q)).
    unfold DtcpPacket_payload. cbn [dtcp_inner]. by rewrite Hqs.
  - done.
  - done.
  - done.
  - done.
Qed.

Lemma efcp_recv_waits st (c : efcp) : rc_inv st → rc_pending st = [] →
  ∃ c', recv (P:=Q) (put_inner st c) = Suspend c' ∧ rc_inv (get_inner c') ∧
    rc_pending (get_inner c') = [] ∧ cipher c' = cipher c ∧ nonce_of c' = nonce_of c.
Proof.
  intros Hi Hl. destruct (rc_wait _ Hi Hl) as (st' & Hst & Hi' & Hl').
  eexists. cbn [recv Efcp_Channel]. unfold zoom. rewrite dtcp_recv_eq.
  cbn. unfold disco_recv; run. unfold zoom. cbn. rewrite Hst. done.
Qed.

(** The two ends of a session.  [rc_pending] is what the far end will read. *)
#[export] Instance Efcp_Reliable : ReliableChannel (ends efcp S) Q.
Proof.
  refine {|
    rc_inv e := rc_inv (medium e) ∧ paired (cipher (near e)) (cipher (far e)) ∧
      fits 64 (nonce_of (near e)) ∧ Forall (efcp_wire (cipher (near e))) (rc_pending (medium e));
    rc_pending e := (λ w, drop 3 (disco_plain (cipher (far e)) w)) <$> rc_pending (medium e);
    rc_ok n := rc_ok (HEADER + (3 + n))
  |}.
  - intros q s e (Hi & Hpair & Hn & Hw) Hs Hok.
    destruct (efcp_send_eq q s (near e) (medium e) Hs Hok Hi Hn)
      as (w & c' & Hwire & Hread & Hsend & Hi' & Hpend & Hc & Hn').
    exists (MkEnds (get_inner c') c' (far e)).
    split; [cbn [send ends_Channel]; unfold at_near, zoom; by rewrite Hsend|].
    cbn [medium near far]. rewrite Hpend, fmap_app, Hc. split_and!; try done.
    + apply Forall_app. split; [done|]. by apply Forall_singleton.
    + cbn. by rewrite Hread.
  - intros e s l (Hi & Hpair & Hn & Hw) Hl.
    destruct (rc_pending (medium e)) as [|w ws] eqn:Ew; [done|].
    apply Forall_cons in Hw as [(n & f & k & s0 & Hn0 & ->) Hw].
    cbn [fmap list_fmap] in Hl. rewrite disco_plain_wire in Hl by done. injection Hl as <- <-.
    destruct (efcp_recv_eq (cipher (near e)) n f k s0 _ ws (medium e) (far e) Hpair Hn0 eq_refl Hi Ew)
      as (q & c' & Hr & Hq & Hi' & Hpend & Hc & _).
    exists q, (MkEnds (get_inner c') (near e) c').
    split; [cbn [recv ends_Channel]; unfold at_far, zoom; by rewrite Hr|].
    cbn [medium near far]. rewrite Hpend, Hc. by split_and!.
  - intros e (Hi & Hpair & Hn & Hw) Hl. destruct (rc_pending (medium e)) eqn:Ep; [|done].
    destruct (efcp_recv_waits (medium e) (far e) Hi Ep) as (c' & Hr & Hi' & Hpend & Hc & _).
    exists (MkEnds (get_inner c') (near e) c').
    split; [cbn [recv ends_Channel]; unfold at_far, zoom; by rewrite Hr|].
    cbn [medium near far]. rewrite Hpend, Hc. by split_and!.
Defined.

(** A client's calls on the two ends, from an empty medium. *)
Lemma efcp_reliable_run (cs : list (channel_call Q)) (st : S) (sender receiver : efcp) :
  Forall (valid_call (ends efcp S)) cs → rc_inv (P:=P) st → rc_pending (P:=P) st = [] →
  paired (cipher sender) (cipher receiver) → fits 64 (nonce_of sender) →
  match run_calls cs (MkEnds st sender receiver) with
  | Return rs e => payloads (sent cs) = payloads rs ++ rc_pending (P:=Q) e
  | Suspend e => rc_pending (P:=Q) e = []
  | _ => False
  end.
Proof.
  intros Hcs Hi Hl Hpair Hn. set (e := MkEnds st sender receiver).
  assert (rc_inv (P:=Q) e) as He.
  { split; [exact Hi|]. split; [exact Hpair|]. split; [exact Hn|].
    change (medium e) with st. rewrite Hl. constructor. }
  assert (rc_pending (P:=Q) e = []) as Hp.
  { change (rc_pending (P:=Q) e) with
      ((λ w, drop 3 (disco_plain (cipher receiver) w)) <$> rc_pending (P:=P) st).
    by rewrite Hl. }
  pose proof (reliable_run cs e Hcs He) as H. rewrite Hp in H.
  destruct (run_calls cs e) as [rs e'|? ?|e'| |]; try exact H; apply H.
Qed.

(** The channel that an application gets is reliable.  Take two EFCP channels
    whose ciphers are a pair, as the handshake leaves them, over a reliable
    medium with nothing in flight.  Whatever the order of the sends at one end
    and the receives at the other, the payloads received, followed by those
    still in flight, are those sent, in order: none lost, duplicated or
    altered by the layers of headers and encryption; a receive waits only when
    everything sent has been received; no call fails or panics. *)
Theorem efcp_reliable_fifo (cs : list (channel_call Q)) (st : S) (sender receiver : efcp) :
  Forall (valid_call (ends efcp S)) cs → rc_inv (P:=P) st → rc_pending (P:=P) st = [] →
  paired (cipher sender) (cipher receiver) → fits 64 (nonce_of sender) →
  match run_calls cs (MkEnds st sender receiver) with
  | Return rs e => payloads (sent cs) = payloads rs ++ rc_pending (P:=Q) e
  | Suspend e => rc_pending (P:=Q) e = []
  | _ => False
  end.
Proof. apply efcp_reliable_run. Qed.
End reliable.
