(* ===== verification/Unreliable.v ===== *)
(** * Channels that lose, repeat and reorder

    UDP may lose, repeat, delay and reorder datagrams, and DTCP does nothing
    about it.  What is left: over a channel that makes nothing up, the layers
    make nothing up, and no call panics, whatever the channel does. *)

From S2P Require Export EfcpReliable TestChannel.

(** ** Channels that make nothing up *)

(** [hc_inv W st]: every payload that may still be received satisfies [W]. *)
Class HonestChannel (S P : Type) `{!BasePacket P} `{!Channel S P} : Type := {
  hc_inv : (list byte → Prop) → S → Prop;
  hc_ok : nat → Prop;
  hc_send W (p : P) w st : hc_inv W st → payload p = Some w → W w → hc_ok (length w) →
    match send p st with
    | Return _ st' | Throw _ st' | Suspend st' => hc_inv W st'
    | Panic | Diverge => False
    end;
  hc_recv W st : hc_inv W st →
    match recv (P:=P) st with
    | Return p st' => hc_inv W st' ∧ ∃ w, payload p = Some w ∧ W w
    | Throw _ st' | Suspend st' => hc_inv W st'
    | Panic | Diverge => False
    end
}.

(** A client that goes on after errors, and polls again later when it has to
    wait. *)
Definition attempt {E S A} (m : M E S A) : M E S (option A) := λ s,
  match m s with
  | Return a s => Return (Some a) s
  | Throw _ s | Suspend s => Return None s
  | Panic => Panic
  | Diverge => Diverge
  end.

Fixpoint attempts {S P : Type} `{!Channel S P} (cs : list (channel_call P)) : M io_error S (list P) :=
  match cs with
  | [] => mret []
  | CallSend p :: cs => attempt (send p);; attempts cs
  | CallRecv :: cs => r ← attempt recv; ps ← attempts cs; mret (option_list r ++ ps)
  end.

Section honest_client.
Context {S P : Type} `{!BasePacket P} `{!Channel S P} `{!HonestChannel S P}.

Definition honest_call (W : list byte → Prop) (c : channel_call P) : Prop :=
  match c with CallSend p => ∃ w, payload p = Some w ∧ W w ∧ hc_ok (length w) | CallRecv => True end.

Lemma honest_run W cs st : Forall (honest_call W) cs → hc_inv W st →
  ∃ rs st', attempts cs st = Return rs st' ∧ hc_inv W st' ∧ Forall (λ p, ∃ w, payload p = Some w ∧ W w) rs.
Proof.
  intros Hcs. revert st. induction Hcs as [|[p|] cs Hc Hcs IH]; intros st Hi; cbn [attempts].
  - by exists [], st.
  - destruct Hc as (w & Hp & Hw & Hok). pose proof (hc_send W p w st Hi Hp Hw Hok) as H.
    unfold attempt; run. destruct (send p st) as [? st1|? st1|st1| |]; try done; by apply IH.
  - pose proof (hc_recv W st Hi) as H. unfold attempt; run.
    destruct (recv st) as [p st1|e st1|st1| |]; try done.
    2,3: destruct (IH st1 H) as (rs & st2 & Hr & Hi2 & Hrs); exists rs, st2; by rewrite Hr.
    destruct H as [H Hp]. destruct (IH st1 H) as (rs & st2 & Hr & Hi2 & Hrs). exists (p :: rs), st2.
    rewrite Hr. split_and!; [done|done|]. by constructor.
Qed.

(** What was sent. *)
Definition among (l : list (list byte)) : list byte → Prop := λ w, w ∈ l.

Lemma honest_sent cs : Forall (honest_call (λ _, True)) cs → Forall (honest_call (among (payloads (sent cs)))) cs.
Proof.
  intros Hcs. assert (∀ l, sent cs ⊆ l → Forall (honest_call (among (payloads l))) cs) as H; [|by apply H].
  induction Hcs as [|[p|] cs Hc Hcs IH]; intros l Hl; constructor; try done.
  - destruct Hc as (w & Hp & _ & Hok). exists w. split_and!; [done| |done].
    unfold among, payloads. apply list_elem_of_omap. exists p. split; [apply Hl, list_elem_of_here|done].
  - apply IH. intros x Hx. apply Hl. by apply list_elem_of_further.
  - by apply IH.
Qed.
End honest_client.

(** ** The channel after the handshake *)

Section efcp.
Context {BC : BytesCrate} {BL : BytesLaws BC} {BO : ByteOrderCrate} {BOL : ByteOrderLaws BO}.
Context {PR : Profile} {DC : DiscoCrate} {DL : DiscoLaws DC} {DS : DiscoSession DC}.
Context {S P C : Type} {BP : BasePacket P} {max : Z} {PL : PacketLaws P max}.
Context {CH : Channel S P} {HC : HonestChannel S P} {CK : Clock C}.

#[local] Abbreviation efcp := (EfcpChannel (S:=S) (C:=C)).
#[local] Abbreviation Q := (DtcpPacket (DiscoPacket P)).

#[local] Arguments disco_wire : simpl never.

(** The wires of payloads that satisfy [W]. *)
Definition efcp_wires (t : StatelessTransportState) (W : list byte → Prop) (w : list byte) : Prop :=
  ∃ n f k s, fits 64 n ∧ w = disco_wire t n (dtcp_header (Transfer f) k ++ s) ∧ W s.

#[export] Instance Efcp_Honest : HonestChannel (ends efcp S) Q.
Proof.
  refine {|
    hc_inv W e := hc_inv (efcp_wires (cipher (near e)) W) (medium e) ∧
      paired (cipher (near e)) (cipher (far e)) ∧ fits 64 (nonce_of (near e));
    hc_ok n := hc_ok (HEADER + (3 + n))
  |}.
  - intros W q s e (Hi & Hpair & Hn) Hs HW Hok. set (l := efcp_channel (put_inner (medium e) (near e))).
    destruct (dtcp_send_eq q s l Hs) as (p & Hp & Heq).
    destruct (disco_send_eq p _ (dtcp_channel (sending l)) Hp) as (p' & Hp' & Heq').
    assert (Hw : efcp_wires (cipher (near e)) W (disco_wire (cipher (near e)) (nonce_of (near e))
      (dtcp_header (Transfer (next_drf l)) (next_seq_num l) ++ s))) by (by eexists _, _, _, _).
    pose proof (hc_send _ p' _ (medium e) Hi Hp' Hw) as H. rewrite length_disco_wire in H. specialize (H Hok).
    assert (Hn' : fits 64 ((nonce_of (near e) + 1) mod 2 ^ 64)) by (apply Z.mod_pos_bound; lia).
    cbn [send ends_Channel Efcp_Channel]. unfold at_near, zoom. fold l. rewrite Heq.
    change (send p) with (disco_send (S:=S) p). change (dtcp_channel l) with (dtcp_channel (sending l)). rewrite Heq'.
    change (disco_channel (dtcp_channel (sending l))) with (medium e).
    destruct (send p' (medium e)); done.
  - intros W e (Hi & Hpair & Hn). set (l := efcp_channel (put_inner (medium e) (far e))).
    pose proof (hc_recv _ (medium e) Hi) as H.
    cbn [recv ends_Channel Efcp_Channel]. unfold at_far, zoom. fold l. rewrite dtcp_recv_eq.
    change (recv (dtcp_channel l)) with (disco_recv (dtcp_channel l)).
    destruct (recv (P:=P) (medium e)) as [p1 st|err st|st| |] eqn:Er; try done.
    + destruct H as [Hi' (w & Hp1 & n & f & k & s & Hf & -> & HW)].
      destruct (disco_recv_wire (cipher (near e)) (dtcp_channel l) n _ p1 st Hpair Hf Er Hp1) as (q & Hq & Hqs).
      pose proof (valid_dtcp_header (Transfer f) k s) as [Hlen Hchk].
      rewrite Hq, (dtcp_check_eq (MkDtcpPacket q) _ Hqs Hlen), Hchk. split; [done|].
      exists s. split; [|done].
      change (payload (MkDtcpPacket q)) with (DtcpPacket_payload (MkDtcpPacket q)).
      unfold DtcpPacket_payload. cbn [dtcp_inner]. by rewrite Hqs.
    + unfold disco_recv, zoom; run. change (disco_channel (dtcp_channel l)) with (medium e). rewrite Er. done.
    + unfold disco_recv, zoom; run. change (disco_channel (dtcp_channel l)) with (medium e). rewrite Er. done.
Defined.
End efcp.

(** ** The lossy channel makes nothing up *)

Section lossy.
Context {BC : BytesCrate} {R : Type} `{!Rng R}.

#[export] Instance Lossy_Honest : HonestChannel (lossy (R:=R)) BytesMut.
Proof.
  refine {|
    hc_inv W s := Forall (W ∘ deref) (LoopbackChannel.packets (loopback s.1)) ∧ Forall (W ∘ deref) (delayed s.1);
    hc_ok _ := True
  |}.
  - intros W p w s [Hl Hd] [= <-] Hw _.
    destruct (lossy_send_eq p s) as (s' & Hs & [Hl' Hd'] & _).
    change (send p s) with (lossy_send p s). rewrite Hs, Hl', Hd', !Forall_app.
    by destruct (fate_of s); rewrite ?Forall_singleton, ?Forall_nil.
  - intros W s [Hl Hd]. pose proof (lossy_recv_spec s) as H.
    change (recv s) with (lossy_recv s).
    destruct (LoopbackChannel.packets (loopback s.1)) as [|p q] eqn:E; rewrite H; [by rewrite E|].
    apply Forall_cons in Hl as [Hp Hq]. cbn. rewrite Forall_app.
    split; [done|]. by exists (deref p).
Defined.
End lossy.

(** ** Properties *)

Section properties.
Context {BC : BytesCrate} {BL : BytesLaws BC} {BO : ByteOrderCrate} {BOL : ByteOrderLaws BO}.
Context {PR : Profile} {DC : DiscoCrate} {DL : DiscoLaws DC} {DS : DiscoSession DC}.
Context {S P C : Type} {BP : BasePacket P} {max : Z} {PL : PacketLaws P max}.
Context {CH : Channel S P} {HC : HonestChannel S P} {CK : Clock C}.

(** C3: Whatever the medium loses, repeats, delays or reorders, a session
    stays sound.  Take two EFCP channels whose ciphers are a pair, as the
    handshake leaves them, over a medium that makes nothing up, with nothing
    in flight.  Whatever the order of the sends at one end and the receives
    at the other, with a client that goes on after every error and every
    wait: no call panics or runs forever, and every payload received is one
    that was sent, unaltered. *)
Theorem efcp_integrity (cs : list (channel_call (DtcpPacket (DiscoPacket P)))) (st : S)
    (sender receiver : EfcpChannel (S:=S) (C:=C)) :
  Forall (honest_call (S:=ends EfcpChannel S) (λ _, True)) cs → (∀ W, hc_inv W st) →
  paired (cipher sender) (cipher receiver) → fits 64 (nonce_of sender) →
  ∃ rs e, attempts cs (MkEnds st sender receiver) = Return rs e ∧ payloads rs ⊆ payloads (sent cs).
Proof.
  intros Hcs Hst Hpair Hn.
  destruct (honest_run _ cs (MkEnds st sender receiver) (honest_sent cs Hcs)) as (rs & e & Hr & _ & Hrs);
    [by split_and!|].
  exists rs, e. split; [done|]. intros w Hw. apply list_elem_of_omap in Hw as (p & Hp & Hw).
  rewrite Forall_forall in Hrs. destruct (Hrs p Hp) as (w' & Hw' & Hin). by simplify_eq.
Qed.
End properties.

(** ** Concrete inputs *)

Module UnreliableExample.
Import Reference.

#[local] Existing Instance TestChannelExample.constant.
#[local] Instance example_profile : Profile := dev.
#[local] Instance small : PacketLaws BytesMut 1000 := BytesMut_laws 1000.
#[local] Instance clock : Clock Z := {| now t := (t, t + 1) |}.

Abbreviation channel := (lossy (R:=())).
Abbreviation packet := (DtcpPacket (DiscoPacket BytesMut)).

(** A channel that repeats every packet. *)
Definition repeating : channel := (LossyLoopback_new f64_one f64_one, ()).

(** One that loses every packet. *)
Definition losing : channel := (LossyLoopback_new f64_zero f64_zero, ()).

Definition party (m : channel) (k : PublicKey) : EfcpChannel (S:=channel) (C:=Z) :=
  MkEfcpChannel (MkDtcpChannel (DiscoChannel_new m (7 : Z)) true 0
    (MkTimer false 0 0) (MkTimer false 0 0) 0) k (lit "/ping/1.0") None.

Definition hello : list byte := [Byte.x68; Byte.x69].

Definition hello_packet : packet :=
  default (MkDtcpPacket (MkDiscoPacket (RawBuf 0 [] []))) (from_slice (Q:=packet) hello).

Definition calls : list (channel_call packet) := [CallSend hello_packet; CallRecv; CallRecv; CallRecv].

Definition received (m : channel) : option (list (list byte)) :=
  match attempts calls (MkEnds m (party m Byte.x62) (party m Byte.x61)) with
  | Return rs _ => Some (payloads rs)
  | _ => None
  end.

(** The stack does not notice either: sequence numbers are not read. *)
Example received_twice : received repeating = Some [hello; hello].
Proof. vm_compute. reflexivity. Qed.

Example received_nothing : received losing = Some [].
Proof. vm_compute. reflexivity. Qed.

Lemma efcp_integrity_witness :
  ∃ rs e, attempts calls (MkEnds repeating (party repeating Byte.x62) (party repeating Byte.x61)) = Return rs e ∧
    payloads rs ⊆ [hello].
Proof.
  assert (payloads (sent calls) = [hello]) as <- by (vm_compute; reflexivity).
  apply (efcp_integrity (max:=1000) calls repeating).
  - repeat apply Forall_cons_2; try exact I; try apply Forall_nil_2.
    exists hello. split_and!; [reflexivity|exact I|exact I].
  - intros W. split; apply Forall_nil_2.
  - reflexivity.
  - unfold fits. cbn. lia.
Defined.
End UnreliableExample.
