(* ===== verification/Stack.v ===== *)
(** * The whole stack: EFCP over DTP over the network

    An EFCP channel whose inner channel is a channel between two multiplexing
    sockets (src/efcp/src/lib.rs over src/dtp/src/lib.rs), over a network that
    delivers: the layers' guarantees composed. *)

From S2P Require Export DtpLink EfcpReliable.

Section stack.
Context {BC : BytesCrate} {BL : BytesLaws BC} {BO : ByteOrderCrate} {BOL : ByteOrderLaws BO}.
Context {SQ : SegQueueCrate} {SQL : SegQueueLaws SQ} {SL : SlabCrate} {SLL : SlabLaws SL}.
Context {DC : DiscoCrate} {DL : DiscoLaws DC} {DS : DiscoSession DC}.
Context {PR : Profile} {C : Type} {CK : Clock C}.
Context {K : Type} `{!UdpExt K} `{!UdpExtLaws K} `{!UdpSocket K}.
Context {NW : Network K} {NL : NetworkLaws K}.

(** The channel of the local socket that the stack runs on. *)
Context (c : Dtp.Channel).

#[local] Instance stack_inner : Channel (link K) DtpPacket := link_Channel c.
#[local] Instance stack_reliable : ReliableChannel (link K) DtpPacket := Link_Reliable c.

#[local] Abbreviation party := (EfcpChannel (S:=link K) (C:=C)).
#[local] Abbreviation Q := (DtcpPacket (DiscoPacket DtpPacket)).

(** The length of the longest payload a datagram of [n] bytes has room for,
    after the channel id and the headers of encryption and control. *)
Definition room_in (n : Z) : Z := n - (1 + Z.of_nat HEADER + 3).

(** A send of a payload that fits a datagram of the network. *)
Definition fitting_call (x : channel_call Q) : Prop :=
  match x with
  | CallSend p => ∃ s, payload p = Some s ∧ Z.of_nat (length s) ≤ room_in (MTU `min` MAX_PACKET_LEN)
  | CallRecv => True
  end.

Lemma fitting_valid x : fitting_call x → valid_call (ends party (link K)) x.
Proof.
  destruct x as [p|]; [|done]. intros (s & Hs & Hl). exists s. split; [done|].
  unfold room_in in Hl. cbn -[HEADER MAX_PACKET_LEN]. unfold fits_datagram.
  split; lia.
Qed.

(** C4: The stack delivers.  Take two EFCP channels whose ciphers are a pair, as
    the handshake leaves them, on a channel between two multiplexing sockets,
    over a network that delivers datagrams in order, with nothing in flight
    and all other channels of the sockets in whatever state.  Whatever the
    order of the sends at one end and the receives at the other, for payloads
    that fit a datagram with the stack's headers, the payloads received,
    followed by those still in flight, are those sent, in order; a receive
    waits only when everything sent has been received; no call fails or
    panics. *)
Theorem stack_delivers (cs : list (channel_call Q)) (l : link K) (sender receiver : party) :
  Forall fitting_call cs → link_ok c l → link_pending c l = [] →
  paired (cipher sender) (cipher receiver) → fits 64 (nonce_of sender) →
  match run_calls cs (MkEnds l sender receiver) with
  | Return rs e => payloads (sent cs) =
      payloads rs ++ ((λ w, drop 3 (disco_plain (cipher (far e)) w)) <$> link_pending c (medium e))
  | Suspend e => link_pending c (medium e) = []
  | _ => False
  end.
Proof.
  intros Hcs Hl Hp Hpair Hn.
  assert (Forall (valid_call (ends party (link K))) cs) as Hv by (by eapply Forall_impl; [|exact fitting_valid]).
  pose proof (efcp_reliable_run (max:=MAX_PAYLOAD_LEN) cs l sender receiver Hv Hl Hp Hpair Hn) as H.
  destruct (run_calls cs _) as [rs e|? ?|e| |]; try exact H.
  by apply fmap_nil_inv in H.
Qed.
End stack.
