(* ===== verification/StackExamples.v ===== *)
(** * The stack on concrete inputs *)

From S2P Require Export Stack.

Import Reference NetReference.

#[local] Instance example_profile : Profile := dev.

Module StackExample.
#[export] Instance clock : Clock Z := {| now t := (t, t + 1) |}.

Abbreviation inner := (link node).
Abbreviation packet := (DtcpPacket (DiscoPacket DtpPacket)).

Definition here : SocketAddr := SockV4 (MkSockV4 (MkV4 Byte.x0a Byte.x00 Byte.x00 Byte.x01) 4000).
Definition there : SocketAddr := SockV4 (MkSockV4 (MkV4 Byte.x0a Byte.x00 Byte.x00 Byte.x02) 4001).

(** Two sockets just bound, and the channel 7 from the first to the second. *)
Definition socket_at (a : SocketAddr) : Dtp.InnerDtpSocket (K:=node) :=
  Dtp.MkInner (MkNode a [] []) slab_new ∅ ∅ sq_new.

Definition channel7 : Dtp.Channel := Dtp.MkChannel (from_socket_addr there) Byte.x07.

Definition fresh_link : inner := MkLink (socket_at here) (socket_at there).

Lemma socket_at_Inv a : Inv (socket_at a).
Proof. split; intros *; cbn; try by rewrite lookup_empty. Qed.

Lemma fresh_link_ok : link_ok channel7 fresh_link.
Proof. split; try apply socket_at_Inv; try done; constructor. Qed.

(** The two parties of a session. *)
Definition party (k : PublicKey) : EfcpChannel (S:=inner) (C:=Z) :=
  MkEfcpChannel (MkDtcpChannel (DiscoChannel_new fresh_link (7 : Z)) true 0
    (MkTimer false 0 0) (MkTimer false 0 0) 0) k (lit "/ping/1.0") None.

Definition hello : list byte := [Byte.x68; Byte.x69].
Definition world : list byte := [Byte.x79; Byte.x6f; Byte.x75].

Definition packet_of (s : list byte) : packet :=
  default (MkDtcpPacket (MkDiscoPacket uninitialized)) (from_slice (Q:=packet) s).

Definition calls : list (channel_call packet) :=
  [CallSend (packet_of hello); CallRecv; CallSend (packet_of world)].

Lemma calls_fit : Forall (fitting_call (K:=node)) calls.
Proof.
  repeat apply Forall_cons_2; try exact I; try apply Forall_nil_2;
    (eexists; split; [reflexivity|vm_compute; discriminate]).
Qed.

#[local] Instance channel7_Channel : Channel inner DtpPacket := link_Channel channel7.

(** The first message is received, the second is in flight, in a datagram
    that starts with the channel id. *)
Definition outcome_of : option (list (list byte) * list (list byte)) :=
  match run_calls calls (MkEnds fresh_link (party Byte.x62) (party Byte.x61)) with
  | Return rs e => Some (payloads rs, (λ x, take 1 x.1.1) <$> coming (Dtp.socket (peer (medium e))))
  | _ => None
  end.

Example outcome_eq : outcome_of = Some ([hello], [[Byte.x07]]).
Proof. vm_compute. reflexivity. Qed.

Lemma stack_delivers_witness :
  match run_calls calls (MkEnds fresh_link (party Byte.x62) (party Byte.x61)) with
  | Return rs e => [hello; world] =
      payloads rs ++ ((λ w, drop 3 (disco_plain (cipher (far e)) w)) <$> link_pending channel7 (medium e))
  | _ => False
  end.
Proof.
  pose proof (stack_delivers channel7 calls fresh_link (party Byte.x62) (party Byte.x61)
    calls_fit fresh_link_ok eq_refl eq_refl) as H.
  assert (match run_calls calls (MkEnds fresh_link (party Byte.x62) (party Byte.x61))
    with Return _ _ => True | _ => False end) as Hret by (vm_compute; exact I).
  destruct (run_calls calls _) as [rs e| | | |]; try done.
  apply H. split; [done|by vm_compute].
Defined.
End StackExample.
