(* ===== verification/EfcpProps.v ===== *)
(** * The handshake: the theorems for one party

    Whatever the inner channel delivers, the handshake of a party ends, and
    a channel it returns has a protocol of the party's own list; and the
    packets a peer can make it panic with. *)

From S2P Require Export Efcp DtcpProps SecureProps NegotiationProps.

(** ** Negotiation: how many proposals and answers a party has left *)

Section rounds.
Context {DC : DiscoCrate}.

Definition rounds (n : Negotiation) : nat :=
  if finished n then O else S (length (protocols n) - tried n).

Lemma rounds_own ps n : own ps n → (rounds n ≤ S (length ps))%nat.
Proof. intros [<- _]. unfold rounds. destruct (finished n); lia. Qed.

Lemma own_new ps : own ps (Negotiation_new ps).
Proof. by split_and!. Qed.

Lemma message_rounds ps n m next n' : own ps n → message m n = Return next n' →
  own ps n' ∧ (is_Some next → finished n = false → (rounds n' < rounds n)%nat).
Proof.
  intros Ho Hm. split.
  - eapply nstep_own; [|done]. apply (nstep_message _ m). by rewrite Hm.
  - intros [m' ->] Hf. destruct Ho as [Hp _]. destruct m as [p| |]; [|done..].
    destruct (accepted n) as [q|] eqn:Ea.
    { unfold message in Hm; run in Hm. cbn in Hm. by rewrite Ea in Hm. }
    unfold rounds. rewrite Hf, Hp. rewrite message_propose, Hp in Hm by done.
    case_decide; [injection Hm as _ <-; cbn; lia|].
    destruct (ps !! tried n) as [q|] eqn:Eq; injection Hm as _ <-; cbn; [|lia].
    apply lookup_lt_Some in Eq. rewrite Hf, Hp. lia.
Qed.

Lemma initiate_own ps m n : initiate (Negotiation_new ps) = Return m n → own ps n.
Proof.
  intros Hi. eapply nstep_own; [|apply own_new]. apply nstep_initiate. by rewrite Hi.
Qed.

Lemma answer_yields {T} (I : T → Prop) D ps msg n : own ps n →
  yields (E:=HandshakeError) I D (λ '(next, n'), own ps n' ∧
    (is_Some next → finished n = false → (rounds n' < rounds n)%nat)) (answer msg n).
Proof.
  intros Ho. unfold answer. destruct msg as [m|]; [|apply yields_ret; by split; [|intros []]].
  destruct (message m n) as [next n'|e n'|n'| |] eqn:Em; try by intros s Hs.
  - apply yields_ret. by eapply message_rounds.
  - assert (no_panic (message m n) ∧ terminates (message m n)) as [_ Ht]; [|by rewrite Em in Ht].
    destruct (accepted n) eqn:Ea.
    { destruct m; [|done..]. unfold message; run. cbn. by rewrite Ea. }
    destruct m as [p| |]; [|done..]. rewrite message_propose by done.
    case_decide; [done|]. by destruct (protocols n !! tried n).
Qed.

Lemma settle_yields {T} (I : T → Prop) D ps n : own ps n →
  yields (E:=HandshakeError) I D (λ p, p ∈ ps) (settle n).
Proof.
  intros (_ & Ha & _). unfold settle, into_protocol. destruct (finished n); [|by intros s Hs].
  cbn. destruct (accepted n) as [p|]; [|by intros s Hs]. apply yields_ret. by apply Ha.
Qed.
End rounds.

(** ** Layers over a channel that ends *)

Section layers.
Context {BC : BytesCrate} {BO : ByteOrderCrate} {PR : Profile} {DC : DiscoCrate}.
Context {S P C : Type} {BP : BasePacket P} {CH : Channel S P} {CK : Clock C} {D : Prop}.

(** The calls of a channel keep an invariant, and end, or not if [D]. *)
Definition channel_yields {S : Type} (I : S → Prop) (D : Prop) (P : Type) `{!Channel S P} : Prop :=
  (∀ p, yields I D (λ _, True) (send (S:=S) (P:=P) p)) ∧ yields I D (λ _, True) (recv (S:=S) (P:=P)).

Context (I : S → Prop).
Hypothesis Hch : channel_yields I D P.
#[local] Abbreviation dtcp_inv := (λ c : DtcpChannel S C, I (dtcp_channel c)).
#[local] Abbreviation disco_inv := (λ c : DiscoChannel S, I (disco_channel c)).

Lemma stop_sit_yields : yields dtcp_inv D (λ _, True) (stop_sit (S:=S) (C:=C)).
Proof. intros c Hc. unfold stop_sit. by destruct (Timer_stop _ _) as [[? ?] ?]. Qed.
Lemma stop_rit_yields : yields dtcp_inv D (λ _, True) (stop_rit (S:=S) (C:=C)).
Proof. intros c Hc. unfold stop_rit. by destruct (Timer_stop _ _) as [[? ?] ?]. Qed.
Lemma start_sit_yields : yields dtcp_inv D (λ _, True) (start_sit (S:=S) (C:=C)).
Proof. intros c Hc. unfold start_sit. by destruct (Timer_start _ _). Qed.
Lemma start_rit_yields : yields dtcp_inv D (λ _, True) (start_rit (S:=S) (C:=C)).
Proof. intros c Hc. unfold start_rit. by destruct (Timer_start _ _). Qed.
Lemma swap_drf_yields b : yields dtcp_inv D (λ _, True) (swap_drf (S:=S) (C:=C) b).
Proof. by intros c Hc. Qed.
Lemma store_drf_yields b : yields dtcp_inv D (λ _, True) (store_drf (S:=S) (C:=C) b).
Proof. by intros c Hc. Qed.
Lemma fetch_add_yields : yields dtcp_inv D (λ _, True) (fetch_add_seq_num (S:=S) (C:=C)).
Proof. by intros c Hc. Qed.
Lemma on_dtcp_yields {A} (m : M io_error S A) : yields I D (λ _, True) m →
  yields dtcp_inv D (λ _, True) (zoom dtcp_channel put_channel m).
Proof. intros Hm. by eapply yields_zoom; [| |exact Hm]. Qed.
Lemma on_disco_yields {A} (m : M io_error S A) : yields I D (λ _, True) m →
  yields disco_inv D (λ _, True) (zoom disco_channel put_disco m).
Proof. intros Hm. by eapply yields_zoom; [| |exact Hm]. Qed.

Lemma dtcp_yields : channel_yields dtcp_inv D (DtcpPacket P).
Proof.
  split.
  - intros p. cbn. unfold dtcp_send. yields_then ltac:(apply stop_sit_yields).
    yields_then ltac:(apply swap_drf_yields). yields_then ltac:(apply fetch_add_yields). yields_steps.
    yields_then ltac:(apply on_dtcp_yields, Hch). apply start_sit_yields.
  - cbn. unfold dtcp_recv. yields_then ltac:(apply stop_rit_yields).
    yields_then ltac:(apply store_drf_yields).
    yields_then ltac:(apply on_dtcp_yields, Hch). yields_steps.
    yields_then ltac:(apply start_rit_yields). by apply yields_ret.
Qed.

Lemma fetch_nonce_yields : yields disco_inv D (λ _, True) (fetch_add_nonce (S:=S)).
Proof. by intros c Hc. Qed.

Lemma disco_yields : channel_yields disco_inv D (DiscoPacket P).
Proof.
  split.
  - intros p. cbn. unfold disco_send. yields_then ltac:(apply fetch_nonce_yields). yields_steps. apply on_disco_yields, Hch.
  - cbn. unfold disco_recv. yields_then ltac:(apply on_disco_yields, Hch). yields_steps. case_match; by intros s Hs.
Qed.
End layers.

(** ** The handshake *)

Section handshake.
Context {BC : BytesCrate} {BO : ByteOrderCrate} {PR : Profile}.
Context {DC : DiscoCrate} {DL : DiscoLaws DC} {DS : DiscoSession DC} {DSL : DiscoSessionLaws DS}.
Context {S P C : Type} {BP : BasePacket P} {CH : Channel S P} {CK : Clock C}.
Context (I : S → Prop).
Hypothesis Hch : channel_yields I False P.

#[local] Abbreviation clear := (DtcpChannel S C).
#[local] Abbreviation sealed := (DtcpChannel (DiscoChannel S) C).
#[local] Abbreviation clear_inv := (λ c : clear, I (dtcp_channel c)).
#[local] Abbreviation sealed_inv := (λ c : sealed, I (disco_channel (dtcp_channel c))).
#[local] Abbreviation whole_inv := (λ st : S * C, I st.1).

Lemma clear_yields : channel_yields clear_inv False (DtcpPacket P).
Proof. exact (dtcp_yields I Hch). Qed.

Lemma sealed_yields : channel_yields sealed_inv False (DtcpPacket (DiscoPacket P)).
Proof. exact (dtcp_yields _ (disco_yields I Hch)). Qed.

Lemma send_clear_yields msg session :
  yields clear_inv False (λ session', messages_left session' = pred (messages_left session))
    (send_clear (S:=S) (C:=C) msg session).
Proof.
  unfold send_clear. yields_then ltac:(by apply yields_map_err, yields_try).
  pose proof (left_write a session). destruct (session_write a session) as [ct session'].
  yields_steps. yields_then ltac:(apply yields_map_err, clear_yields). by apply yields_ret.
Qed.

Lemma parse_handshake_yields {T} (J : T → Prop) bytes : yields J False (λ _, True) (parse_handshake bytes).
Proof. unfold parse_handshake. yields_steps. by apply yields_map_err, yields_try. Qed.

Lemma recv_clear_yields session :
  yields clear_inv False (λ '(_, session'), messages_left session' = pred (messages_left session))
    (recv_clear (S:=S) (C:=C) session).
Proof.
  unfold recv_clear. yields_then ltac:(apply yields_map_err, clear_yields). yields_steps.
  destruct (session_read _ session) as [[pt|e] session'] eqn:E; [|by apply yields_throw].
  yields_then ltac:(apply parse_handshake_yields). apply yields_ret. by eapply left_read.
Qed.

Lemma send_sealed_yields msg : yields sealed_inv False (λ _, True) (send_sealed (S:=S) (C:=C) msg).
Proof.
  unfold send_sealed. yields_then ltac:(by apply yields_map_err, yields_try).
  yields_steps. apply yields_map_err, sealed_yields.
Qed.

Lemma recv_sealed_yields : yields sealed_inv False (λ _, True) (recv_sealed (S:=S) (C:=C)).
Proof.
  unfold recv_sealed. yields_then ltac:(apply yields_map_err, sealed_yields).
  yields_steps. apply parse_handshake_yields.
Qed.

Lemma initiator_loop_yields fuel session ps n ext next :
  own ps n → (messages_left session < fuel)%nat →
  yields clear_inv False (λ '(_, n', _), own ps n')
    (initiator_loop (S:=S) (C:=C) fuel session n ext next).
Proof.
  revert session n ext next. induction fuel as [|fuel IH]; intros session n ext next Ho Hl; [lia|].
  cbn [initiator_loop]. eapply yields_bind; [apply send_clear_yields|]. intros session1 Hl1.
  cbn in Hl1. rewrite left_finished. case_bool_decide; [by apply yields_ret|].
  eapply yields_bind; [apply recv_clear_yields|]. intros [msg session2] Hl2.
  eapply yields_bind; [by apply answer_yields|]. intros [next' n'] [Ho' _].
  apply IH; [done|lia].
Qed.

Lemma initiator_negotiate_yields fuel ps n : own ps n → (rounds n < fuel)%nat →
  yields sealed_inv False (own ps) (initiator_negotiate (S:=S) (C:=C) fuel n).
Proof.
  revert n. induction fuel as [|fuel IH]; intros n Ho Hl; [lia|].
  cbn [initiator_negotiate]. unfold is_finished. destruct (finished n) eqn:Ef; [by apply yields_ret|].
  yields_then ltac:(apply recv_sealed_yields).
  eapply yields_bind; [by apply answer_yields|]. intros [[m|] n'] [Ho' Hr]; [|by apply yields_ret].
  yields_then ltac:(apply send_sealed_yields). specialize (Hr ltac:(eauto) Ef). apply IH; [done|lia].
Qed.

Lemma responder_loop_yields fuel session ps n ext :
  own ps n → (messages_left session < fuel)%nat →
  yields clear_inv False (λ '(_, n', ext', _), own ps n' ∧ (ext' = None ∨ ext' = ext))
    (responder_loop (S:=S) (C:=C) fuel session n ext).
Proof.
  revert session n ext. induction fuel as [|fuel IH]; intros session n ext Ho Hl; [lia|].
  cbn [responder_loop]. eapply yields_bind; [apply recv_clear_yields|]. intros [msg session1] Hl1.
  eapply yields_bind; [by apply answer_yields|]. intros [next n'] [Ho' _].
  rewrite left_finished. case_bool_decide; [apply yields_ret; by auto|].
  eapply yields_bind; [apply send_clear_yields|]. intros session2 Hl2. cbn in Hl2.
  eapply yields_mono; [apply IH; [done|lia]|]. intros [[[? n''] ext'] ?] [? [|]]; subst; auto.
Qed.

Lemma responder_negotiate_yields fuel ps n ext next : own ps n → (0 < fuel)%nat →
  (is_Some next → (rounds n + 1 < fuel)%nat) →
  yields sealed_inv False (λ '(n', ext'), own ps n' ∧ (ext' = None ∨ ext' = ext))
    (responder_negotiate (S:=S) (C:=C) fuel n ext next).
Proof.
  revert n ext next. induction fuel as [|fuel IH]; intros n ext next Ho H0 Hl; [lia|].
  cbn [responder_negotiate]. destruct next as [m|]; [|apply yields_ret; by auto].
  specialize (Hl ltac:(eauto)).
  yields_then ltac:(apply send_sealed_yields). unfold is_finished.
  destruct (finished n) eqn:Ef; [apply yields_ret; by auto|].
  yields_then ltac:(apply recv_sealed_yields).
  eapply yields_bind; [by apply answer_yields|]. intros [next' n'] [Ho' Hr].
  eapply yields_mono; [apply IH; [done|lia|]|].
  - intros Hn. specialize (Hr Hn Ef). lia.
  - intros [n'' ext'] [? [|]]; subst; auto.
Qed.

(** A computation on a channel that is built over the inner channel. *)
Lemma scoped_yields {L A} (J : L → Prop) (Q : A → Prop) (enter : S * C → option L) leave (m : M HandshakeError L A) :
  (∀ st l, I st.1 → enter st = Some l → J l) → (∀ l, J l → I (leave l).1) →
  yields J False Q m → yields whole_inv False Q (scoped enter leave m).
Proof.
  intros He Hl Hm st Hst. unfold scoped; run. destruct (enter st) as [l|] eqn:E; cbn; [|done].
  specialize (Hm l (He _ _ Hst E)). unfold zoom. destruct (m l); naive_solver.
Qed.

Lemma build_inv {T} (dtcp : DtcpBuilder) (s : T) (k : C) l : build_channel dtcp s k = Some l → dtcp_channel l = s.
Proof.
  unfold build_channel. intros H. repeat (apply bind_Some in H as (? & _ & H)).
  destruct (Timer_new _ _) as [? ?]. destruct (Timer_new _ _) as [? ?]. by injection H as <-.
Qed.

Lemma in_clear_yields {A} (Q : A → Prop) (m : M HandshakeError clear A) :
  yields clear_inv False Q m → yields whole_inv False Q (in_clear m).
Proof.
  apply scoped_yields; [|done]. intros [s k] l Hs Hl. cbn in *. by rewrite (build_inv _ _ _ _ Hl).
Qed.

Lemma in_sealed_yields {A} session (Q : A → Prop) (m : M HandshakeError sealed A) :
  yields sealed_inv False Q m → yields whole_inv False Q (in_sealed session m).
Proof.
  apply scoped_yields; [|done]. intros [s k] l Hs Hl. cbn in *. by rewrite (build_inv _ _ _ _ Hl).
Qed.

(** The results of a whole handshake. *)
Lemma initiator_yields fuel identity ps remote_public : (length ps + 3 < fuel)%nat →
  yields whole_inv False (λ c, protocol c ∈ ps ∧ is_Some (efcp_external_addr c))
    (initiator fuel identity ps remote_public).
Proof.
  intros Hfuel. pose proof (initiate_own ps) as Hi. unfold initiator.
  destruct (initiate _) as [m n| | | |]; try done. specialize (Hi m n eq_refl).
  eapply yields_bind.
  { apply in_clear_yields, initiator_loop_yields; [done|]. rewrite left_initiator. lia. }
  intros [[session n'] [a|]] Ho; yields_steps; apply in_sealed_yields; [|by apply yields_throw].
  eapply yields_bind; [apply initiator_negotiate_yields; [done|]; pose proof (rounds_own _ _ Ho); lia|].
  intros n'' Ho'. eapply yields_bind; [by apply settle_yields|]. intros p Hp.
  yields_steps. apply yields_ret. by split; [|eexists].
Qed.

Lemma responder_yields fuel identity ps remote_addr : (length ps + 3 < fuel)%nat →
  yields whole_inv False (λ c, protocol c ∈ ps ∧
      (efcp_external_addr c = None ∨ efcp_external_addr c = Some remote_addr))
    (responder fuel identity ps remote_addr).
Proof.
  intros Hfuel. unfold responder. eapply yields_bind.
  { apply in_clear_yields, responder_loop_yields; [apply own_new|]. rewrite left_responder. lia. }
  intros [[[session n] ext] next] [Ho Hext]. yields_steps. apply in_sealed_yields.
  eapply yields_bind.
  { apply responder_negotiate_yields; [done|lia|]. pose proof (rounds_own _ _ Ho). lia. }
  intros [n' ext'] [Ho' Hext']. eapply yields_bind; [by apply settle_yields|]. intros p Hp.
  yields_steps. apply yields_ret. split; [done|]. cbn. destruct Hext' as [|]; subst; auto.
Qed.

(** C15: The handshake with an arbitrary peer, over an arbitrary channel whose
    calls end and keep an invariant of the inner channel.  It ends, and keeps
    the invariant: with fuel above the four steps of the key exchange and the
    party's number of protocols plus two, no loop runs on, whatever arrives.
    A channel it returns has a protocol of the party's own list; the
    initiator's has the address the peer observed, the responder's at most
    the address it was given. *)
Theorem handshake_safe fuel identity ps remote_public remote_addr (st : S * C) :
  (length ps + 3 < fuel)%nat → I st.1 →
  match initiator fuel identity ps remote_public st with
  | Return c st' => (protocol c ∈ ps ∧ is_Some (efcp_external_addr c)) ∧ I st'.1
  | Throw _ st' | Suspend st' => I st'.1
  | Diverge => False
  | Panic => True
  end ∧
  match responder fuel identity ps remote_addr st with
  | Return c st' => (protocol c ∈ ps ∧
      (efcp_external_addr c = None ∨ efcp_external_addr c = Some remote_addr)) ∧ I st'.1
  | Throw _ st' | Suspend st' => I st'.1
  | Diverge => False
  | Panic => True
  end.
Proof.
  intros Hfuel Hst.
  pose proof (initiator_yields fuel identity ps remote_public Hfuel st Hst) as Hi.
  pose proof (responder_yields fuel identity ps remote_addr Hfuel st Hst) as Hr.
  split; [destruct (initiator _ _ _ _ st)|destruct (responder _ _ _ _ st)]; naive_solver.
Qed.
End handshake.
