(* ===== verification/EfcpSocketProps.v ===== *)
(** * The EFCP socket: what its handshakes leave of the DTP socket
    (src/efcp/src/lib.rs over src/dtp/src/lib.rs)

    [dial] and [incoming] run a handshake on a channel of the multiplexing
    socket.  Whatever the peers send, they end, the socket's tables stay in
    order, the channel is the caller's exactly if the call succeeds or still
    waits, and a handshake that fails gives its channel back. *)

From S2P Require Export EfcpProps DtpProps.

Import Dtp.

(** [backlog] counts all datagrams to come: neither a send nor a receive that
    fails adds to them. *)
Class UdpQuiet (K : Type) `{!UdpExt K} {UL : UdpExtLaws K} : Prop := {
  send_ext_backlog dst c msg (k : K) : (backlog (send_ext dst c msg k).1 ≤ backlog k)%nat;
  recv_ext_backlog n (k k' : K) e : recv_ext n k = (k', Err e) → (backlog k' ≤ backlog k)%nat
}.

(** ** The receive loops, on the abstract socket *)

Section abstract.
Context {K : Type} `{!UdpExt K} {UL : UdpExtLaws K} {UQ : UdpQuiet K} (len : Z).

(** Nothing is added to what is to come, and the taken channels stay [X]. *)
Definition quiet (X : gset Channel) (a a' : ASock K) : Prop :=
  (waiting a' ≤ waiting a)%nat ∧ a_taken a' = X.

Lemma a_poll_recv_quiet (a : ASock K) :
  match a_poll_recv len a with
  | Return _ a' => (waiting a' < waiting a)%nat ∧ a_taken a' = a_taken a
  | Throw _ a' | Suspend a' => quiet (a_taken a) a a'
  | _ => False
  end.
Proof.
  pose proof (a_poll_recv_delivers len a) as Hd. pose proof (a_poll_recv_consumes len a) as Hc.
  destruct (a_poll_recv len a) as [[] a'|e a'|a'| |] eqn:E; try done;
    (split; [|by destruct Hd]); [by apply Hc| |];
    revert E; unfold a_poll_recv, zoom, udp_poll_recv, waiting; run;
    destruct (recv_ext len (a_sock a)) as [k [[[data peer] c]|e']] eqn:Er; cbn.
  - destruct data; cbn; [|by unfold a_announce, modify; destruct (a_conns a !! _)].
    intros [= _ <-]. cbn. apply recv_ext_consumes in Er. lia.
  - case_decide; [done|]. intros [= _ <-]. cbn. by eapply recv_ext_backlog.
  - destruct data; cbn; [done|by unfold a_announce, modify; destruct (a_conns a !! _)].
  - case_decide; [|done]. intros [= <-]. cbn. by eapply recv_ext_backlog.
Qed.

Lemma a_pop_packet_quiet c (a : ASock K) :
  match a_pop_packet c a with
  | Return _ a' => waiting a' = waiting a ∧ a_taken a' = a_taken a
  | _ => False
  end.
Proof.
  pose proof (a_pop_packet_exact c a) as H. unfold waiting.
  destruct (queue a c); destruct H as (a' & -> & -> & -> & _); done.
Qed.

Lemma a_channel_loop_quiet fuel c (a : ASock K) : (waiting a < fuel)%nat →
  match a_channel_loop len fuel c a with
  | Return _ a' | Throw _ a' | Suspend a' => quiet (a_taken a) a a'
  | _ => False
  end.
Proof.
  revert a. induction fuel as [|fuel IH]; intros a Hf; [lia|]. cbn [a_channel_loop]; run.
  pose proof (a_poll_recv_quiet a) as Hr.
  destruct (a_poll_recv len a) as [[] a1|e a1|a1| |]; try done. destruct Hr as [Hlt Ht].
  pose proof (a_pop_packet_quiet c a1) as Hp.
  destruct (a_pop_packet c a1) as [[d|] a2| | | |]; try done; destruct Hp as [Hw Ht2].
  - split; [lia|congruence].
  - specialize (IH a2 ltac:(lia)). rewrite Ht2, Ht in IH. unfold quiet in *.
    destruct (a_channel_loop len fuel c a2); try done; destruct IH; split; done || lia.
Qed.

Lemma a_poll_channel_quiet fuel c (a : ASock K) : (waiting a < fuel)%nat →
  match a_poll_channel len fuel c a with
  | Return _ a' | Throw _ a' | Suspend a' => quiet (a_taken a) a a'
  | _ => False
  end.
Proof.
  intros Hf. unfold a_poll_channel; run. pose proof (a_pop_packet_quiet c a) as Hp.
  destruct (a_pop_packet c a) as [[d|] a1| | | |]; try done; destruct Hp as [Hw Ht].
  - split; [lia|done].
  - pose proof (a_channel_loop_quiet fuel c a1 ltac:(lia)) as H. rewrite Ht in H. unfold quiet in *.
    rewrite Hw in H. exact H.
Qed.

Lemma a_incoming_loop_quiet fuel (a : ASock K) : (waiting a < fuel)%nat →
  match a_incoming_loop len fuel a with
  | Return c a' => (c ∉ a_taken a) ∧ quiet ({[c]} ∪ a_taken a) a a'
  | Throw _ a' | Suspend a' => quiet (a_taken a) a a'
  | _ => False
  end.
Proof.
  revert a. induction fuel as [|fuel IH]; intros a Hf; [lia|]. cbn [a_incoming_loop]; run.
  pose proof (a_poll_recv_quiet a) as Hr.
  destruct (a_poll_recv len a) as [[] a1|e a1|a1| |]; try done. destruct Hr as [Hlt Ht].
  pose proof (a_pop_incoming_delivers len a1) as Hp.
  assert (∀ a2, a_sock a2 = a_sock a1 → a_taken a2 = a_taken a1 →
    match a_incoming_loop len fuel a2 with
    | Return c a' => (c ∉ a_taken a) ∧ quiet ({[c]} ∪ a_taken a) a a'
    | Throw _ a' | Suspend a' => quiet (a_taken a) a a'
    | _ => False
    end) as Hnext.
  { intros a2 Hs Ht2. assert (waiting a2 = waiting a1) as Hw by (unfold waiting; by rewrite Hs).
    specialize (IH a2 ltac:(lia)). rewrite Ht2, Ht in IH. unfold quiet in *.
    destruct (a_incoming_loop len fuel a2); try done;
      [destruct IH as (? & ? & ?)|destruct IH as [? ?]..]; split_and?; done || lia. }
  destruct (a_pop_incoming a1) as [[c|] a2| | | |]; try done;
    destruct Hp as (_ & Hs & Ht2); [|by apply Hnext].
  unfold gets. case_decide as Hc; [by apply Hnext|]. cbn. rewrite Ht2, Ht in *.
  split; [done|]. split; [|done]. unfold waiting in *. cbn. rewrite Hs. lia.
Qed.

(** A channel that is handed out: one nobody had taken, or the one that was
    announced first. *)
Definition accepted (a : ASock K) (c : Channel) (X : gset Channel) : Prop :=
  ((c ∉ a_taken a) ∧ X = {[c]} ∪ a_taken a) ∨ (head (a_incoming a) = Some c ∧ X = a_taken a).

Lemma a_poll_incoming_quiet fuel (a : ASock K) : (waiting a < fuel)%nat →
  match a_poll_incoming len fuel a with
  | Return c a' => accepted a c (a_taken a') ∧ (waiting a' ≤ waiting a)%nat
  | Throw _ a' | Suspend a' => quiet (a_taken a) a a'
  | _ => False
  end.
Proof.
  intros Hf. unfold a_poll_incoming, a_pop_incoming; run. cbn.
  destruct (a_incoming a) as [|c q] eqn:Ei; cbn.
  - pose proof (a_incoming_loop_quiet fuel a Hf) as H.
    destruct (a_incoming_loop len fuel a) as [c a'|e a'|a'| |]; try done.
    destruct H as (Hc & Hw & Ht). split; [by left|done].
  - split; [|unfold waiting; cbn; lia]. right. by rewrite Ei.
Qed.
End abstract.

(** ** The calls of a DTP channel keep the socket *)

Section socket.
Context {BC : BytesCrate} {BL : BytesLaws BC} {BO : ByteOrderCrate}.
Context {SQ : SegQueueCrate} {SQL : SegQueueLaws SQ} {SL : SlabCrate} {SLL : SlabLaws SL}.
Context {PR : Profile} {DC : DiscoCrate} {DL : DiscoLaws DC} {DS : DiscoSession DC} {DSL : DiscoSessionLaws DS}.
Context {K : Type} `{!UdpExt K} {UL : UdpExtLaws K} {UQ : UdpQuiet K} `{!UdpSocket K}.
Context {C : Type} {CK : Clock C}.

#[local] Abbreviation isock := (InnerDtpSocket (K:=K)).

(** The tables are in order, the channels [X] are taken, and at most [n]
    datagrams are to come. *)
Definition keeps (X : gset Channel) (n : nat) (s : isock) : Prop :=
  Inv s ∧ channels s = X ∧ (backlog (socket s) ≤ n)%nat.

Lemma keeps_abs X n (s : isock) a : Inv s → abs s = a → (waiting a ≤ n)%nat → a_taken a = X → keeps X n s.
Proof. by intros Hi <-. Qed.

Lemma poll_channel_yields X n fuel c : (n < fuel)%nat →
  yields (keeps X n) False (λ _, True) (poll_channel (K:=K) fuel c).
Proof.
  intros Hf s (Hi & HX & Hn). pose proof (transfer _ _ _ s (poll_channel_refines fuel c) Hi) as T.
  pose proof (a_poll_channel_quiet buffer_len fuel c (abs s)) as H.
  assert (waiting (abs s) < fuel)%nat as Hw by (unfold waiting; cbn; lia). specialize (H Hw).
  assert (∀ a s', Inv s' → abs s' = a → quiet (a_taken (abs s)) (abs s) a → keeps X n s') as Hk.
  { intros a s' Hi' Ha [Hle Ht]. apply (keeps_abs X n s' a Hi' Ha); [|by rewrite Ht].
    unfold waiting in *. cbn in Hle. lia. }
  destruct (a_poll_channel buffer_len fuel c (abs s)) as [d a'|e a'|a'| |]; try done.
  - destruct T as (p & s' & -> & _ & Hi' & Ha). split; [done|by eapply Hk].
  - destruct T as (s' & -> & Hi' & Ha). by eapply Hk.
  - destruct T as (s' & -> & Hi' & Ha). by eapply Hk.
Qed.

Lemma poll_send_yields X n c p : yields (keeps X n) False (λ _, True) (poll_send (K:=K) c p).
Proof.
  intros s (Hi & HX & Hn). unfold poll_send; run.
  destruct (set_channel (channel_id c) p) as [p'|]; cbn; [|done].
  unfold zoom, udp_poll_send. set (dst := socket_addr (peer_addr c)).
  set (cp := if ecn p' then Some ECT0 else None).
  pose proof (send_ext_backlog dst cp (bytes p') (socket s)) as Hb.
  destruct (send_ext dst cp (bytes p') (socket s)) as [k' [m|e]]; cbn in Hb.
  - split; [done|]. split_and!; [by destruct Hi; split|done|cbn; lia].
  - case_decide; (split_and!; [by destruct Hi; split|done|cbn; lia]).
Qed.

Lemma dtp_channel_yields X n fuel ch : (n < fuel)%nat →
  channel_yields (Channel0:=DtpChannel_Channel fuel ch) (keeps X n) False DtpPacket.
Proof. intros Hf. split; [intros p; apply poll_send_yields|by apply poll_channel_yields]. Qed.

(** Dropping a channel. *)
Lemma close_keeps X n c (s : isock) : keeps X n s →
  ∃ s', close c s = Return () s' ∧ keeps (X ∖ {[c]}) n s' ∧ channel_lookup s' !! c = None.
Proof.
  intros (Hi & HX & Hn). pose proof (transfer _ _ _ s (close_refines c) Hi) as H. cbn in H.
  destruct H as (x & s' & Hc & _ & Hi' & Ha). destruct x. exists s'. split; [done|]. split.
  - apply (keeps_abs _ _ _ _ Hi' Ha); cbn; [done|by rewrite HX].
  - apply (conns_None s' c Hi'). rewrite Ha. cbn. apply lookup_delete_eq.
Qed.

(** A failed handshake gives its channel back. *)
Lemma owning_keeps {A} X n ch (m : M HandshakeError (isock * C) A) (Q : A → Prop) (s : isock) (k : C) :
  yields (λ st : isock * C, keeps X n st.1) False Q m → keeps X n s →
  match owning ch m (s, k) with
  | Return a st => Q a ∧ keeps X n st.1
  | Throw _ st => keeps (X ∖ {[handle ch]}) n st.1 ∧ channel_lookup st.1 !! handle ch = None
  | Suspend st => keeps X n st.1
  | Panic => True
  | Diverge => False
  end.
Proof.
  intros Hm Hs. unfold owning. specialize (Hm (s, k) Hs).
  destruct (m (s, k)) as [a st|e st|st| |]; try done. run.
  destruct (close_keeps X n (handle ch) st.1 Hm) as (s' & Hc & Hk & Hnone).
  unfold on_dtp, DtpChannel_drop, map_err, zoom. rewrite Hc. by cbn.
Qed.

(** [outgoing] takes a free channel, or fails and changes nothing. *)
Lemma outgoing_eq (peer : Addr) id (s : isock) :
  DtpSocket_outgoing peer id s =
    if decide (MkChannel peer id ∈ channels s)
    then Throw (IoError Other "channel already taken") s
    else Return (MkDtpChannel (MkChannel peer id)) (set_channels ({[MkChannel peer id]} ∪ channels s) s).
Proof. unfold DtpSocket_outgoing, outgoing; run. cbn. by destruct (decide _). Qed.

Lemma keeps_take (s : isock) c : Inv s →
  keeps ({[c]} ∪ channels s) (backlog (socket s)) (set_channels ({[c]} ∪ channels s) s).
Proof. intros Hi. unfold keeps. split_and!; [by destruct Hi; split|done|done]. Qed.

(** Dialling.  From every state of the multiplexing socket with its tables in
    order, whatever arrives, with fuel above the datagrams to come and the
    steps of the handshake: [dial] ends, and the tables stay in order.  A
    channel that is taken already is refused and nothing changes.  Otherwise
    the channel is the caller's when [dial] returns, with a protocol of its
    own list and the address the peer observed, and while it waits; when the
    handshake fails, the channel is free again and its queue is gone, and no
    other channel is touched. *)
Theorem dial_ownership fuel (self : EfcpSocket) (d : Dial) (s : isock) (k : C) : Inv s →
  (length (socket_protocols self) + 3 < fuel)%nat → (backlog (socket s) < fuel)%nat →
  let c := MkChannel (dial_peer_addr d) (dial_channel d) in
  match dial fuel self d (s, k) with
  | Return (h, e) (s', _) => handle h = c ∧ (c ∉ channels s) ∧ channels s' = {[c]} ∪ channels s ∧
      Inv s' ∧ protocol e ∈ socket_protocols self ∧ is_Some (efcp_external_addr e)
  | Throw e (s', k') =>
      if decide (c ∈ channels s) then e = Io (IoError Other "channel already taken") ∧ (s', k') = (s, k)
      else Inv s' ∧ channels s' = channels s ∧ channel_lookup s' !! c = None
  | Suspend (s', _) => Inv s' ∧ (c ∉ channels s) ∧ channels s' = {[c]} ∪ channels s
  | Panic => c ∉ channels s
  | Diverge => False
  end.
Proof.
  intros Hi Hp Hf c. unfold dial, on_dtp, map_err, zoom; run. cbn [fst snd].
  rewrite outgoing_eq. fold c. case_decide as Hc; [by split|]. cbn [fst snd].
  pose proof (keeps_take s c Hi) as Hk. set (s1 := set_channels _ s) in *.
  pose proof (owning_keeps _ _ (MkDtpChannel c) _ _ s1 k
    (initiator_yields (CH:=DtpChannel_Channel fuel (MkDtpChannel c)) (P:=DtpPacket) (C:=C) _
       (dtp_channel_yields _ _ fuel (MkDtpChannel c) Hf)
       fuel (identity self) (socket_protocols self) (remote_public d) Hp) Hk) as H.
  destruct (owning _ _ (s1, k)) as [e [s' k']|e [s' k']|[s' k']| |]; try done; cbn in H |- *.
  - destruct H as [[? ?] (? & ? & _)]. by split_and!.
  - destruct H as [(? & HX & _) ?]. split_and!; [done| |done]. rewrite HX. set_solver.
  - destruct H as (? & ? & _). by split_and!.
Qed.

(** ** Accepting *)

Lemma poll_incoming_keeps fuel (s : isock) : Inv s → (backlog (socket s) < fuel)%nat →
  match poll_incoming fuel s with
  | Return c s' => accepted (abs s) c (channels s') ∧ keeps (channels s') (backlog (socket s)) s'
  | Throw _ s' | Suspend s' => keeps (channels s) (backlog (socket s)) s'
  | _ => False
  end.
Proof.
  intros Hi Hf. pose proof (transfer _ _ _ s (poll_incoming_refines fuel) Hi) as T.
  pose proof (a_poll_incoming_quiet buffer_len fuel (abs s) Hf) as H.
  destruct (a_poll_incoming buffer_len fuel (abs s)) as [c a'|e a'|a'| |]; try done.
  - destruct T as (c' & s' & -> & -> & Hi' & <-). destruct H as [Ha Hw]. split; [exact Ha|].
    by apply (keeps_abs _ _ _ _ Hi' eq_refl).
  - destruct T as (s' & -> & Hi' & <-). destruct H as [Hw Ht]. by apply (keeps_abs _ _ _ _ Hi' eq_refl).
  - destruct T as (s' & -> & Hi' & <-). destruct H as [Hw Ht]. by apply (keeps_abs _ _ _ _ Hi' eq_refl).
Qed.

(** C18: Accepting.  Under the same conditions, [incoming] ends and the tables
    stay in order.  The channel of a session it returns, or of a handshake
    that still waits, is one that nobody had taken and that is taken now, or
    the first of the channels announced earlier, which is not taken by this.
    When it fails, the taken channels are as before, except that the failed
    handshake of a channel announced earlier frees that channel whoever has
    taken it.  A session has a protocol of the own list. *)
Theorem incoming_ownership fuel (self : EfcpSocket) (s : isock) (k : C) : Inv s →
  (length (socket_protocols self) + 3 < fuel)%nat → (backlog (socket s) < fuel)%nat →
  let announced := head (sq_items (incoming s)) in
  match efcp_incoming fuel self (s, k) with
  | Return (h, e) (s', _) => Inv s' ∧ protocol e ∈ socket_protocols self ∧
      (((handle h ∉ channels s) ∧ channels s' = {[handle h]} ∪ channels s) ∨
       (announced = Some (handle h) ∧ channels s' = channels s))
  | Throw e (s', _) => Inv s' ∧
      (channels s' = channels s ∨ ∃ c, announced = Some c ∧ channels s' = channels s ∖ {[c]})
  | Suspend (s', _) => Inv s' ∧
      (channels s' = channels s ∨ ∃ c, (c ∉ channels s) ∧ channels s' = {[c]} ∪ channels s)
  | Panic => True
  | Diverge => False
  end.
Proof.
  intros Hi Hp Hf announced. unfold efcp_incoming, on_dtp, map_err, zoom, Incoming_poll_next; run.
  cbn [fst snd]. pose proof (poll_incoming_keeps fuel s Hi Hf) as Hin.
  destruct (poll_incoming fuel s) as [c s1|e s1|s1| |]; try done;
    [|destruct Hin as (? & ? & _); cbn; auto..].
  destruct Hin as [Hacc Hk]. cbn [fst snd mret M_ret].
  pose proof (owning_keeps _ _ (MkDtpChannel c) _ _ s1 k
    (responder_yields (CH:=DtpChannel_Channel fuel (MkDtpChannel c)) (P:=DtpPacket) (C:=C) _
       (dtp_channel_yields _ _ fuel (MkDtpChannel c) Hf)
       fuel (identity self) (socket_protocols self) (DtpChannel_peer_addr (MkDtpChannel c)) Hp) Hk) as H.
  destruct (owning _ _ (s1, k)) as [e [s' k']|e [s' k']|[s' k']| |]; try done; cbn in H |- *.
  - destruct H as [[? _] (? & HX & _)]. rewrite HX. by split_and!.
  - destruct H as [(? & HX & _) _]. split; [done|]. rewrite HX.
    destruct Hacc as [[Hc ->]|[Hc ->]]; [left; cbn in *; set_solver|right; by exists c].
  - destruct H as (? & HX & _). split; [done|]. rewrite HX.
    destruct Hacc as [[Hc ->]|[Hc ->]]; [right; by exists c|by left].
Qed.
End socket.
