(* ===== verification/EfcpSocketExamples.v ===== *)
(** * Dialling and accepting on concrete inputs *)

From S2P Require Export EfcpSocketProps DtpLink.

Import Reference NetReference.

#[local] Instance example_profile : Profile := dev.

Module EfcpSocketExample.
#[export] Instance clock : Clock Z := {| now t := (t, t + 1) |}.

#[export] Instance node_quiet : UdpQuiet node.
Proof.
  split; [done|]. intros n k k' e. cbn. destruct (inbox k) as [|[[? ?] ?] ?] eqn:E; [|done]. intros [= <- _]. by rewrite E.
Qed.

Definition ours : EfcpSocket := MkEfcpSocket (Byte.x61 : @Keypair _ disco_session_ref) [lit "/ping/1.0"].

Definition there : Addr := MkAddr (V4 (MkV4 Byte.x0a Byte.x00 Byte.x00 Byte.x02)) 4001.

Definition to_there : Dial := MkDial _ _ there Byte.x07 (Byte.x62 : @PublicKey _ disco_session_ref) [].

Definition there7 : Dtp.Channel := Dtp.MkChannel there Byte.x07.

(** A socket just bound; and one that will receive a datagram of noise. *)
Definition socket_with (l : list arrival) : Dtp.InnerDtpSocket (K:=node) :=
  Dtp.MkInner (MkNode (socket_addr there) l []) slab_new ∅ ∅ sq_new.

Lemma socket_with_Inv l : Inv (socket_with l).
Proof. split; intros *; cbn; try by rewrite lookup_empty. Qed.

Definition noise : list arrival := [([Byte.x07; Byte.x01; Byte.x02], socket_addr there, false)].

(** Nobody answers: the dial waits, and owns the channel. *)
Lemma dial_ownership_witness :
  match dial 30 ours to_there (socket_with [], 0) with
  | Suspend (s', _) => Inv s' ∧ (there7 ∉ Dtp.channels (socket_with [])) ∧
      Dtp.channels s' = {[there7]} ∪ Dtp.channels (socket_with [])
  | _ => False
  end.
Proof.
  pose proof (dial_ownership 30 ours to_there (socket_with []) 0 (socket_with_Inv [])
    ltac:(cbn; lia) ltac:(cbn; lia)) as H. cbn zeta in H.
  assert (match dial 30 ours to_there (socket_with [], 0) with Suspend _ => True | _ => False end) as Hw
    by (vm_compute; exact I).
  destruct (dial 30 ours to_there (socket_with [], 0)) as [| |[s' k']| |]; try done.
Defined.

(** Noise is not a handshake: the call fails, and no channel is taken. *)
Lemma incoming_ownership_witness :
  match efcp_incoming 30 ours (socket_with noise, 0) with
  | Throw e (s', _) => Inv s' ∧ Dtp.channels s' = ∅
  | _ => False
  end.
Proof.
  pose proof (incoming_ownership 30 ours (socket_with noise) 0 (socket_with_Inv noise)
    ltac:(cbn; lia) ltac:(cbn; lia)) as H. cbn zeta in H.
  assert (match efcp_incoming 30 ours (socket_with noise, 0) with Throw _ _ => True | _ => False end) as Hw
    by (vm_compute; exact I).
  destruct (efcp_incoming 30 ours (socket_with noise, 0)) as [|e [s' k']| | |]; try done.
  destruct H as [? [?|(c & Hc & _)]]; [done|discriminate Hc].
Defined.
End EfcpSocketExample.
