(* ===== verification/Dialogue.v ===== *)
(** * Two parties of the handshake over one link

    A scripted channel delivers the packets of its inbox and collects what is
    sent; when the inbox is empty, a receive waits.  A party that waits is
    run again from the start when there is more in its inbox: it makes the
    same calls with the same results, and goes on from where it waited.  Two
    parties are run on what the other sent, in turn. *)

From S2P Require Export EfcpProps.

(** ** The scripted channel *)

Record script (P : Type) : Type := MkScript { inbox : list P; outbox : list P }.
Arguments MkScript {P} _ _.
Arguments inbox {P} _.
Arguments outbox {P} _.

#[export] Instance script_Channel {P} : Channel (script P) P := {|
  send p s := Return () (MkScript (inbox s) (outbox s ++ [p]));
  recv s :=
    match inbox s with
    | p :: ps => Return p (MkScript ps (outbox s))
    | [] => Suspend s
    end
|}.

(** The calls end, and consume a script from its front. *)
Lemma script_yields {P} (l : list P) : channel_yields (λ s, inbox s `suffix_of` l) False P.
Proof.
  split; [by intros p s|]. intros [[|p ps] o]; cbn; [done|]. intros H. split; [done|].
  etrans; [|exact H]. by exists [p].
Qed.

(** ** A layer on a script: what a call does to the inbox and the outbox, and
    to the rest of its state, which does not depend on them. *)

Section clear.
Context {BC : BytesCrate} {BL : BytesLaws BC} {BO : ByteOrderCrate} {BOL : ByteOrderLaws BO}.
Context {PR : Profile} {DC : DiscoCrate} {DL : DiscoLaws DC}.
Context {P C : Type} {BP : BasePacket P} {max : Z} {PL : PacketLaws P max} {CK : Clock C}.

#[local] Abbreviation clear := (DtcpChannel (script P) C).

Definition clear_sent (c : clear) : clear := restart_sit (sending c).
Definition clear_received (c : clear) : clear := restart_rit (receiving c).

(** A DTCP packet that carries [s]. *)
Definition carries (p : P) (s : list byte) : Prop :=
  ∃ drf n, payload p = Some (dtcp_header (Transfer drf) n ++ s).

Lemma dtcp_send_script (q : DtcpPacket P) s (c : clear) : payload q = Some s →
  ∃ p, carries p s ∧ ∀ ib ob,
    dtcp_send q (put_channel (MkScript ib ob) c) =
      Return () (put_channel (MkScript ib (ob ++ [p])) (clear_sent c)).
Proof.
  intros Hs. destruct (dtcp_packet_payload (next_drf c) (next_seq_num c) q s Hs) as (p & Hp & Hpay).
  exists p. split; [by eexists _, _|]. intros ib ob. rewrite dtcp_send_packet.
  change (next_drf (put_channel _ c)) with (next_drf c).
  change (next_seq_num (put_channel _ c)) with (next_seq_num c). by rewrite Hp.
Qed.

Lemma dtcp_recv_script p s ib ob (c : clear) : carries p s →
  dtcp_recv (put_channel (MkScript (p :: ib) ob) c) =
    Return (MkDtcpPacket p) (put_channel (MkScript ib ob) (clear_received c)) ∧
  payload (MkDtcpPacket p) = Some s.
Proof.
  intros (drf & n & Hp). pose proof (valid_dtcp_header (Transfer drf) n s) as [Hlen Hchk].
  rewrite dtcp_recv_eq. cbn [dtcp_channel put_channel recv script_Channel inbox].
  rewrite (dtcp_check_eq (MkDtcpPacket p) _ Hp Hlen), Hchk. split; [done|].
  cbn. unfold DtcpPacket_payload. cbn. by rewrite Hp.
Qed.

Lemma dtcp_recv_waits ob (c : clear) :
  dtcp_recv (P:=P) (put_channel (MkScript [] ob) c) =
    Suspend (put_channel (MkScript [] ob) (receiving c)).
Proof. by rewrite dtcp_recv_eq. Qed.
End clear.

Section sealed.
Context {BC : BytesCrate} {BL : BytesLaws BC} {BO : ByteOrderCrate} {BOL : ByteOrderLaws BO}.
Context {PR : Profile} {DC : DiscoCrate} {DL : DiscoLaws DC}.
Context {P C : Type} {BP : BasePacket P} {max : Z} {PL : PacketLaws P max} {CK : Clock C}.

#[local] Abbreviation sealed := (DtcpChannel (DiscoChannel (script P)) C).
#[local] Abbreviation Q := (DiscoPacket P).

Definition with_script (s : script P) (c : sealed) : sealed :=
  put_channel (put_disco s (dtcp_channel c)) c.

Definition sealed_sent (c : sealed) : sealed :=
  restart_sit (put_channel (bump (dtcp_channel c)) (sending c)).
Definition sealed_received (c : sealed) : sealed := restart_rit (receiving c).

Definition key (c : sealed) : StatelessTransportState := transport (dtcp_channel c).
Definition counter (c : sealed) : Z := next_nonce (dtcp_channel c).

Lemma key_sent c : key (sealed_sent c) = key c.
Proof. done. Qed.
Lemma key_received c : key (sealed_received c) = key c.
Proof. done. Qed.
Lemma counter_sent c : fits 64 (counter (sealed_sent c)).
Proof. unfold counter. cbn. apply Z.mod_pos_bound. lia. Qed.
Lemma counter_received c : counter (sealed_received c) = counter c.
Proof. done. Qed.

(** A packet that carries [s] encrypted under the key [t]. *)
Definition sealed_carries (t : StatelessTransportState) (p : P) (s : list byte) : Prop :=
  ∃ drf n k, fits 64 n ∧ payload p = Some (disco_wire t n (dtcp_header (Transfer drf) k ++ s)).

Lemma sealed_send_script (q : DtcpPacket Q) s (c : sealed) :
  payload q = Some s → fits 64 (counter c) →
  ∃ p, sealed_carries (key c) p s ∧ ∀ ib ob,
    dtcp_send q (with_script (MkScript ib ob) c) =
      Return () (with_script (MkScript ib (ob ++ [p])) (sealed_sent c)).
Proof.
  intros Hs Hn. destruct (dtcp_packet_payload (next_drf c) (next_seq_num c) q s Hs) as (q1 & Hq & Hp1).
  destruct (disco_packet_payload (key c) (counter c) q1 _ Hp1) as (p & Hp & Hpay).
  exists p. split; [by eexists _, _, _|]. intros ib ob. rewrite dtcp_send_packet.
  change (next_drf (with_script _ c)) with (next_drf c).
  change (next_seq_num (with_script _ c)) with (next_seq_num c). rewrite Hq.
  change (send q1) with (disco_send (S:=script P) q1). rewrite disco_send_packet.
  change (transport _) with (key c). change (next_nonce _) with (counter c). by rewrite Hp.
Qed.

Lemma sealed_recv_script t p s ib ob (c : sealed) : sealed_carries t p s → paired t (key c) →
  ∃ q, dtcp_recv (P:=Q) (with_script (MkScript (p :: ib) ob) c) =
    Return q (with_script (MkScript ib ob) (sealed_received c)) ∧ payload q = Some s.
Proof.
  intros (drf & n & k & Hn & Hp) Hpair.
  destruct (disco_recv_wire (S:=script P) t (put_disco (MkScript (p :: ib) ob) (dtcp_channel c)) n
    (dtcp_header (Transfer drf) k ++ s) p (MkScript ib ob)) as (q & Hr & Hq); [done..|].
  pose proof (valid_dtcp_header (Transfer drf) k s) as [Hlen Hchk].
  exists (MkDtcpPacket q). rewrite dtcp_recv_eq. unfold with_script at 1.
  cbn [dtcp_channel put_channel]. change recv with (disco_recv (S:=script P) (P:=P)) at 1.
  rewrite Hr, (dtcp_check_eq (MkDtcpPacket q) _ Hq Hlen), Hchk. split; [done|].
  change (payload (MkDtcpPacket q)) with (DtcpPacket_payload (MkDtcpPacket q)).
  unfold DtcpPacket_payload. cbn [dtcp_inner]. by rewrite Hq.
Qed.

Lemma sealed_recv_waits ob (c : sealed) :
  dtcp_recv (P:=Q) (with_script (MkScript [] ob) c) =
    Suspend (with_script (MkScript [] ob) (receiving c)).
Proof. by rewrite dtcp_recv_eq. Qed.
End sealed.

(** ** Messages of the handshake on a script *)

Section messages.
Context {BC : BytesCrate} {BL : BytesLaws BC} {BO : ByteOrderCrate} {BOL : ByteOrderLaws BO}.
Context {PR : Profile} {DC : DiscoCrate} {DL : DiscoLaws DC}.
Context {DS : DiscoSession DC} {DSL : DiscoSessionLaws DS}.
Context {P C : Type} {BP : BasePacket P} {max : Z} {PL : PacketLaws P max} {CK : Clock C}.
Hypothesis Hmax : 524 + Z.of_nat TAG_LEN + Z.of_nat OVERHEAD ≤ max.

#[local] Abbreviation clear := (DtcpChannel (script P) C).
#[local] Abbreviation sealed := (DtcpChannel (DiscoChannel (script P)) C).

Lemma send_clear_script msg session (c : clear) : packet_wf msg →
  ∃ bytes p ct session', session_write bytes session = (ct, session') ∧
    from_bytes bytes = Some (Ok msg) ∧ carries p ct ∧ ∀ ib ob,
    send_clear msg session (put_channel (MkScript ib ob) c) =
      Return session' (put_channel (MkScript ib (ob ++ [p])) (clear_sent c)).
Proof.
  intros Hwf. destruct (from_to_bytes msg Hwf) as (bytes & Hto & Hfrom).
  pose proof (to_bytes_length _ _ Hto) as Hlen. pose proof (session_write_length bytes session) as Hw.
  destruct (session_write bytes session) as [ct session'] eqn:E. cbn in Hw.
  destruct (from_slice_Some (Q:=DtcpPacket P) ct) as (q & Hq & Hpay & _); [lia|].
  destruct (dtcp_send_script q ct c Hpay) as (p & Hp & Hsend).
  exists bytes, p, ct, session'. split_and!; [done..|]. intros ib ob.
  unfold send_clear, io; run. rewrite Hto. cbn -[from_slice]. rewrite E, Hq. cbn.
  unfold map_err. by rewrite Hsend.
Qed.

Lemma recv_clear_script p ct session bytes session' msg ib ob (c : clear) :
  carries p ct → session_read ct session = (Ok bytes, session') → from_bytes bytes = Some (Ok msg) →
  recv_clear session (put_channel (MkScript (p :: ib) ob) c) =
    Return (msg, session') (put_channel (MkScript ib ob) (clear_received c)).
Proof.
  intros Hp Hr Hf. destruct (dtcp_recv_script p ct ib ob c Hp) as [Hrecv Hpay].
  unfold recv_clear, io, parse_handshake; run. unfold map_err at 1. rewrite Hrecv.
  cbn -[payload]. rewrite Hpay. cbn. rewrite Hr, Hf. done.
Qed.

Lemma recv_clear_waits session ob (c : clear) :
  recv_clear session (put_channel (MkScript [] ob) c) =
    Suspend (put_channel (MkScript [] ob) (receiving c)).
Proof. unfold recv_clear, io; run. unfold map_err. by rewrite dtcp_recv_waits. Qed.

(** A packet that carries a message of the sealed phase. *)
Definition says (t : StatelessTransportState) (p : P) (msg : HandshakePacket) : Prop :=
  ∃ bytes, from_bytes bytes = Some (Ok msg) ∧ sealed_carries t p bytes.

Lemma send_sealed_script msg (c : sealed) : packet_wf msg → fits 64 (counter c) →
  ∃ p, says (key c) p msg ∧ ∀ ib ob,
    send_sealed msg (with_script (MkScript ib ob) c) =
      Return () (with_script (MkScript ib (ob ++ [p])) (sealed_sent c)).
Proof.
  intros Hwf Hn. destruct (from_to_bytes msg Hwf) as (bytes & Hto & Hfrom).
  pose proof (to_bytes_length _ _ Hto) as Hlen.
  destruct (from_slice_Some (Q:=DtcpPacket (DiscoPacket P)) bytes) as (q & Hq & Hpay & _);
    [unfold HEADER; lia|].
  destruct (sealed_send_script q bytes c Hpay Hn) as (p & Hp & Hsend).
  exists p. split; [by exists bytes|]. intros ib ob.
  unfold send_sealed, io; run. rewrite Hto. cbn -[from_slice with_script]. rewrite Hq. cbn -[with_script].
  unfold map_err. by rewrite Hsend.
Qed.

Lemma recv_sealed_script t p msg ib ob (c : sealed) : says t p msg → paired t (key c) →
  recv_sealed (with_script (MkScript (p :: ib) ob) c) =
    Return msg (with_script (MkScript ib ob) (sealed_received c)).
Proof.
  intros (bytes & Hf & Hp) Hpair.
  destruct (sealed_recv_script t p bytes ib ob c Hp Hpair) as (q & Hrecv & Hpay).
  unfold recv_sealed, io, parse_handshake; run. unfold map_err at 1. rewrite Hrecv.
  cbn -[payload with_script]. rewrite Hpay. cbn -[with_script]. by rewrite Hf.
Qed.

Lemma recv_sealed_waits ob (c : sealed) :
  recv_sealed (with_script (MkScript [] ob) c) = Suspend (with_script (MkScript [] ob) (receiving c)).
Proof. unfold recv_sealed, io; run. unfold map_err. by rewrite sealed_recv_waits. Qed.
End messages.

(** ** Two parties, each run on what the other has sent *)

Section dialogue.
Context {DC : DiscoCrate} {P S A B : Type}.

(** What a party has sent when it ends or waits. *)
Definition said {S A} (o : outcome HandshakeError (script P * S) A) : list P :=
  match final o with Some (s, _) => outbox s | None => [] end.

(** [I] and [R]: the runs of the two parties on an inbox.  The initiator has
    received [ib]; the responder is run on what it has sent by then, and so on
    [n] times. *)
Fixpoint dialogue (n : nat) (I : list P → outcome HandshakeError (script P * S) A)
    (R : list P → outcome HandshakeError (script P * S) B) (ib : list P) :=
  match n with
  | O => (I ib, R (said (I ib)))
  | Datatypes.S n => dialogue n I R (said (R (said (I ib))))
  end.
End dialogue.
