(* ===== verification/EfcpAgreement.v ===== *)
(** * Two honest parties complete the handshake

    The handshake of an initiator and a responder over a link that delivers
    what is sent: both end, with the protocol their negotiation agrees on,
    each other's keys, and channels that read each other. *)

From S2P Require Export Dialogue.

(** ** Negotiation: whose turn it is *)

Section turns.
Context {DC : DiscoCrate}.

Definition proto_ok (p : Protocol) : Prop := utf8 p = true ∧ (length p ≤ 255)%nat.

(** [m], sent by [other], is on its way to [me]. *)
Definition turn (m : Message) (me other : Negotiation) : Prop :=
  finished me = false ∧ accepted me = None ∧
  match m with
  | Propose p => finished other = false ∧ accepted other = None ∧ proto_ok p
  | _ => finished other = true
  end ∧ Forall proto_ok (protocols me) ∧ Forall proto_ok (protocols other).

Lemma turn_message m me other : turn m me other →
  match m with
  | Propose _ => ∃ m' me', message m me = Return (Some m') me' ∧ turn m' other me'
  | _ => ∃ me', message m me = Return None me' ∧ finished me' = true ∧ finished other = true
  end.
Proof.
  intros (Hf & Ha & Hm & Hps & Hqs). destruct m as [p| |].
  - destruct Hm as (Hf' & Ha' & Hp). rewrite message_propose by done. case_decide.
    { by eexists _, _. }
    destruct (protocols me !! tried me) as [q|] eqn:Eq; eexists _, _; split; try done.
    pose proof (Forall_lookup_1 _ _ _ _ Hps Eq) as [? ?]. by split_and!.
  - eexists. by rewrite message_accept.
  - eexists. by rewrite message_fail.
Qed.

(** A party's reply to a packet that may hold a message. *)
Definition replies (msg : option Message) (n : Negotiation) (next : option Message) (n' : Negotiation) : Prop :=
  match msg with
  | Some m => message m n = Return next n'
  | None => next = None ∧ n' = n
  end.

Lemma answer_replies {T} msg n next n' (s : T) : replies msg n next n' →
  answer msg n s = Return (next, n') s.
Proof. destruct msg; cbn; [by intros ->|by intros [-> ->]]. Qed.

Definition sendable (m : option Message) : Prop := ∀ s, m = Some (Propose s) → proto_ok s.

Lemma turn_sendable m me other : turn m me other → sendable (Some m).
Proof. intros (_ & _ & Hm & _) s [= ->]. by destruct Hm as (_ & _ & ?). Qed.

Lemma initiate_turn ps qs : Forall proto_ok ps → Forall proto_ok qs →
  ∃ m n, initiate (Negotiation_new ps) = Return m n ∧ turn m (Negotiation_new qs) n.
Proof.
  intros Hps Hqs. unfold initiate; run. cbn [started Negotiation_new negb assert mret M_ret].
  rewrite propose_spec. cbn. destruct ps as [|p ps]; cbn; eexists _, _; split; try done.
  inversion Hps as [|? ? [? ?] ?]; subst. by split_and!.
Qed.

(** The messages that travel with the three packets of the key exchange, and
    what is left: a message of the responder, or nothing. *)
Lemma opening ps qs : Forall proto_ok ps → Forall proto_ok qs →
  ∃ m0 n0 next1 r1 next2 n2 next3 r3,
    initiate (Negotiation_new ps) = Return m0 n0 ∧
    replies (Some m0) (Negotiation_new qs) next1 r1 ∧ replies next1 n0 next2 n2 ∧
    replies next2 r1 next3 r3 ∧ sendable (Some m0) ∧ sendable next1 ∧ sendable next2 ∧
    let r := first_common ps qs ps qs in
    match next3 with
    | Some m => turn m n2 r3 ∧ ∃ a b,
        exchange (length ps + length qs) m n2 r3 = Some (a, b) ∧
        into_protocol a = Some r ∧ into_protocol b = Some r
    | None => finished n2 = true ∧ into_protocol n2 = Some r ∧ into_protocol r3 = Some r
    end.
Proof.
  intros Hps Hqs. destruct (negotiation_result ps qs (3 + (length ps + length qs)))
    as (a & b & r & Hex & Ha & Hb & -> & _); [lia|].
  destruct (initiate_turn ps qs Hps Hqs) as (m0 & n0 & Hi & Ht0). unfold negotiation in Hex.
  rewrite Hi in Hex. cbn [Nat.add exchange] in Hex.
  pose proof (turn_message _ _ _ Ht0) as Hm_0. pose proof (turn_sendable _ _ _ Ht0).
  assert (sendable None) by done.
  exists m0, n0. destruct m0 as [p| |]; cycle 1.
  1,2: destruct Hm_0 as (r1 & Hm & Hf & ?); rewrite Hm in Hex; injection Hex as <- <-;
    by exists None, r1, None, n0, None, r1.
  destruct Hm_0 as (m1 & r1 & Hm0 & Ht1). rewrite Hm0 in Hex.
  pose proof (turn_message _ _ _ Ht1) as Hm_1. pose proof (turn_sendable _ _ _ Ht1).
  exists (Some m1), r1. destruct m1 as [p1| |]; cycle 1.
  1,2: destruct Hm_1 as (n2 & Hm & Hf & ?); rewrite Hm in Hex; injection Hex as <- <-;
    by exists None, n2, None, r1.
  destruct Hm_1 as (m2 & n2 & Hm1 & Ht2). rewrite Hm1 in Hex.
  pose proof (turn_message _ _ _ Ht2) as Hm_2. pose proof (turn_sendable _ _ _ Ht2).
  exists (Some m2), n2. destruct m2 as [p2| |]; cycle 1.
  1,2: destruct Hm_2 as (r3 & Hm & Hf & ?); rewrite Hm in Hex; injection Hex as <- <-;
    by exists None, r3.
  destruct Hm_2 as (m3 & r3 & Hm2 & Ht3). rewrite Hm2 in Hex.
  exists (Some m3), r3. do 8 (split; [done|]). by exists a, b.
Qed.
End turns.

Section agreement.
Context {BC : BytesCrate} {BL : BytesLaws BC} {BO : ByteOrderCrate} {BOL : ByteOrderLaws BO}.
Context {PR : Profile} {DC : DiscoCrate} {DL : DiscoLaws DC}.
Context {DS : DiscoSession DC} {DSL : DiscoSessionLaws DS}.
Context {P C : Type} {BP : BasePacket P} {max : Z} {PL : PacketLaws P max} {CK : Clock C}.
Hypothesis Hmax : 524 + Z.of_nat TAG_LEN + Z.of_nat OVERHEAD ≤ max.

#[local] Abbreviation clear := (DtcpChannel (script P) C).
#[local] Abbreviation sealed := (DtcpChannel (DiscoChannel (script P)) C).
#[local] Abbreviation efcp := (EfcpChannel (S:=script P) (C:=C)).
#[local] Abbreviation run_result := (outcome HandshakeError (script P * C) efcp).

(** ** The sealed phase *)

(** The ends of [initiator] and [responder], after the key exchange. *)
Definition conclude (n : Negotiation) (ext : option Addr) (remote : PublicKey)
    : M HandshakeError sealed efcp :=
  protocol ← settle n;
  channel ← get_state;
  mret (MkEfcpChannel channel remote protocol ext).

Definition finish_i fuel n ext remote : M HandshakeError sealed efcp :=
  n ← initiator_negotiate fuel n; conclude n ext remote.

Definition finish_r fuel n ext next remote : M HandshakeError sealed efcp :=
  '(n, ext) ← responder_negotiate fuel n ext next; conclude n ext remote.

(** The outcome as [in_sealed] leaves it. *)
Definition leaving {A} (o : outcome HandshakeError sealed A) : outcome HandshakeError (script P * C) A :=
  match o with
  | Return a l => Return a (disco_deref (dtcp_deref l), clk l)
  | Throw e l => Throw e (disco_deref (dtcp_deref l), clk l)
  | Suspend l => Suspend (disco_deref (dtcp_deref l), clk l)
  | Panic => Panic
  | Diverge => Diverge
  end.

(** How a party ends that has negotiated [r]: with nothing left to read. *)
Definition concluded (r : option Protocol) ext remote (t : StatelessTransportState) (o : run_result) : Prop :=
  match r with
  | Some p => ∃ c st, o = Return c st ∧ inbox st.1 = [] ∧ protocol c = p ∧ Efcp.remote c = remote ∧
      efcp_external_addr c = ext ∧ key (efcp_channel c) = t ∧ fits 64 (counter (efcp_channel c))
  | None => ∃ st, o = Throw NegotiationError st ∧ inbox st.1 = []
  end.

Lemma conclude_concluded n r ext remote ob (c : sealed) : into_protocol n = Some r → fits 64 (counter c) →
  let o := leaving (conclude n ext remote (with_script (MkScript [] ob) c)) in
  concluded r ext remote (key c) o ∧ said o = ob.
Proof.
  intros Hn Hc. unfold conclude, settle; run. rewrite Hn. cbn. destruct r as [p|]; cbn; split; try done.
  - by eexists _, _.
  - by eexists.
Qed.

Lemma finish_i_waits fuel n ext remote ob c : finished n = false → (0 < fuel)%nat →
  said (leaving (finish_i fuel n ext remote (with_script (MkScript [] ob) c))) = ob.
Proof.
  intros Hf Hl. destruct fuel as [|fuel]; [lia|]. unfold finish_i; run. cbn [initiator_negotiate].
  unfold is_finished. rewrite Hf. run. by rewrite recv_sealed_waits.
Qed.

Lemma finish_i_finished fuel n ext remote c : finished n = true → (0 < fuel)%nat →
  finish_i fuel n ext remote c = conclude n ext remote c.
Proof.
  intros Hf Hl. destruct fuel as [|fuel]; [lia|]. unfold finish_i; run. cbn [initiator_negotiate].
  unfold is_finished. by rewrite Hf.
Qed.

(** The initiator receives [m], which ends the negotiation, or which it
    answers. *)
Lemma finish_i_ends t p m fuel n n' ext remote ib ob c :
  says t p (MkHandshakePacket (Some m) None) → paired t (key c) → finished n = false →
  message m n = Return None n' → (0 < fuel)%nat →
  finish_i fuel n ext remote (with_script (MkScript (p :: ib) ob) c) =
    conclude n' ext remote (with_script (MkScript ib ob) (sealed_received c)).
Proof.
  intros Hp Hpair Hf Hm Hl. destruct fuel as [|fuel]; [lia|].
  unfold finish_i; run. cbn [initiator_negotiate]. unfold is_finished. rewrite Hf. run.
  rewrite (recv_sealed_script t p _ ib ob c Hp Hpair). cbn [negotiate_]. unfold answer. by rewrite Hm.
Qed.

Lemma finish_i_answers t p m m' fuel n n' ext remote c :
  says t p (MkHandshakePacket (Some m) None) → paired t (key c) → finished n = false →
  message m n = Return (Some m') n' → fits 64 (counter c) →
  packet_wf (MkHandshakePacket (Some m') None) →
  ∃ p', says (key c) p' (MkHandshakePacket (Some m') None) ∧ ∀ ib ob,
    finish_i (S fuel) n ext remote (with_script (MkScript (p :: ib) ob) c) =
    finish_i fuel n' ext remote
      (with_script (MkScript ib (ob ++ [p'])) (sealed_sent (sealed_received c))).
Proof.
  intros Hp Hpair Hf Hm Hn Hwf.
  destruct (send_sealed_script Hmax _ (sealed_received c) Hwf Hn) as (p' & Hsays & Hsend).
  exists p'. split; [done|]. intros ib ob.
  unfold finish_i; run. cbn [initiator_negotiate]. unfold is_finished. rewrite Hf. run.
  rewrite (recv_sealed_script t p _ ib ob c Hp Hpair). cbn [negotiate_]. unfold answer. rewrite Hm.
  cbn [mret M_ret]. by rewrite Hsend.
Qed.

Lemma finish_r_finished fuel n ext remote c : (0 < fuel)%nat →
  finish_r fuel n ext None remote c = conclude n ext remote c.
Proof. intros Hl. by destruct fuel as [|fuel]; [lia|]. Qed.

(** The responder sends [m], and then ends, waits, or goes on with the answer. *)
Lemma finish_r_sends m n remote c : packet_wf (MkHandshakePacket (Some m) None) →
  fits 64 (counter c) →
  ∃ p, says (key c) p (MkHandshakePacket (Some m) None) ∧
    (finished n = true → ∀ fuel ib ob,
       finish_r (S fuel) n None (Some m) remote (with_script (MkScript ib ob) c) =
       conclude n None remote (with_script (MkScript ib (ob ++ [p])) (sealed_sent c))) ∧
    (finished n = false → ∀ fuel ob,
       said (leaving (finish_r (S fuel) n None (Some m) remote (with_script (MkScript [] ob) c))) =
       ob ++ [p]) ∧
    (∀ t p' m' next n', finished n = false → message m' n = Return next n' →
       says t p' (MkHandshakePacket (Some m') None) → paired t (key c) → ∀ fuel ib ob,
       finish_r (S fuel) n None (Some m) remote (with_script (MkScript (p' :: ib) ob) c) =
       finish_r fuel n' None next remote
         (with_script (MkScript ib (ob ++ [p])) (sealed_received (sealed_sent c)))).
Proof.
  intros Hwf Hn. destruct (send_sealed_script Hmax _ c Hwf Hn) as (p & Hsays & Hsend).
  exists p. split; [done|]. split_and!.
  - intros Hf fuel ib ob. unfold finish_r; run. cbn [responder_negotiate]. run. rewrite Hsend.
    unfold is_finished. by rewrite Hf.
  - intros Hf fuel ob. unfold finish_r; run. cbn [responder_negotiate]. run. rewrite Hsend.
    unfold is_finished. rewrite Hf. run. by rewrite recv_sealed_waits.
  - intros t p' m' next n' Hf Hm Hp Hpair fuel ib ob.
    unfold finish_r; run. cbn [responder_negotiate]. run. rewrite Hsend.
    unfold is_finished. rewrite Hf. run. rewrite (recv_sealed_script t p' _ ib _ (sealed_sent c) Hp Hpair).
    cbn [negotiate_]. unfold answer. by rewrite Hm.
Qed.

(** What the initiator will have received when both have replied once. *)
Definition answered (I R : list P → run_result) (ib : list P) : list P := said (R (said (I ib))).

Lemma dialogue_answered (I R : list P → run_result) n ib :
  dialogue n I R ib = (I (Nat.iter n (answered I R) ib), R (said (I (Nat.iter n (answered I R) ib)))).
Proof. revert ib. induction n as [|n IH]; intros ib; [done|]. rewrite Nat.iter_succ_r. apply IH. Qed.

(** Both parties have settled on [r]: the initiator has received [x], and
    that is all the responder says. *)
Definition settled (r : option Protocol) ext remote_i remote_r t_i t_r (I R : list P → run_result) (x : list P) : Prop :=
  concluded r ext remote_i t_i (I x) ∧ concluded r None remote_r t_r (R (said (I x))) ∧ answered I R x = x.

Lemma turn_packet_wf m me other : turn m me other → packet_wf (MkHandshakePacket (Some m) None).
Proof.
  intros (_ & _ & Hm & _). split; [|done]. intros s [= ->]. by destruct Hm as (_ & _ & ?).
Qed.

(** The parties conclude when each has received all the other sent. *)
Lemma dialogue_concludes (I R : list P → run_result) ib ib' ob' n_i n_r ext remote_i remote_r c_i c_r r :
  answered I R ib = ib' →
  I ib' = leaving (conclude n_i ext remote_i (with_script (MkScript [] ob') c_i)) →
  R ob' = leaving (conclude n_r None remote_r (with_script (MkScript [] ib') c_r)) →
  into_protocol n_i = Some r → into_protocol n_r = Some r →
  fits 64 (counter c_i) → fits 64 (counter c_r) →
  settled r ext remote_i remote_r (key c_i) (key c_r) I R (Nat.iter 1 (answered I R) ib).
Proof.
  intros Hsaid HI HR Hi Hr Hn Hn'. cbn [Nat.iter nat_rect]. rewrite Hsaid. unfold settled, answered. rewrite HI.
  destruct (conclude_concluded n_i r ext remote_i ob' c_i Hi Hn) as [Hc ->]. rewrite HR.
  by destruct (conclude_concluded n_r r None remote_r ib' c_r Hr Hn') as [Hc' ->].
Qed.

(** The responder has [m] to send; the initiator waits for it. *)
Lemma sealed_dialogue (I R : list P → run_result) remote_i remote_r ext r g : ∀ m n_i n_r c_i c_r ib ob f_i f_r a b,
  turn m n_i n_r → exchange g m n_i n_r = Some (a, b) →
  into_protocol a = Some r → into_protocol b = Some r → (g < f_i)%nat → (g < f_r)%nat →
  paired (key c_i) (key c_r) → paired (key c_r) (key c_i) →
  fits 64 (counter c_i) → fits 64 (counter c_r) →
  (∀ rest, I (ib ++ rest) = leaving (finish_i f_i n_i ext remote_i (with_script (MkScript rest ob) c_i))) →
  (∀ rest, R (ob ++ rest) =
     leaving (finish_r f_r n_r None (Some m) remote_r (with_script (MkScript rest ib) c_r))) →
  ∃ k, settled r ext remote_i remote_r (key c_i) (key c_r) I R (Nat.iter k (answered I R) ib).
Proof.
  induction g as [g IH] using lt_wf_ind.
  intros m n_i n_r c_i c_r ib ob f_i f_r a b Ht Hex Ha Hb Hfi Hfr Hp Hp' Hn Hn' HI HR.
  destruct f_r as [|f_r]; [lia|]. destruct g as [|g]; [done|]. cbn [exchange] in Hex.
  destruct (finish_r_sends m n_r remote_r c_r (turn_packet_wf _ _ _ Ht) Hn')
    as (p & Hsays & Hend & Hwait & Hcont).
  pose proof Ht as (Hf & _). pose proof (turn_message _ _ _ Ht) as Hmsg.
  pose proof (HI []) as HIib. rewrite app_nil_r in HIib.
  pose proof (HR []) as HRob. rewrite app_nil_r in HRob.
  assert (said (I ib) = ob) as HsI by (rewrite HIib; apply finish_i_waits; [done|lia]).
  assert (ends : ∀ n_i', message m n_i = Return None n_i' → finished n_r = true →
    ∃ k, settled r ext remote_i remote_r (key c_i) (key c_r) I R (Nat.iter k (answered I R) ib)).
  { intros n_i' Hm Hf2. rewrite Hm in Hex. injection Hex as <- <-. exists 1%nat.
    rewrite Hend in HRob by done.
    apply (dialogue_concludes I R ib (ib ++ [p]) ob n_i' n_r ext remote_i remote_r
             (sealed_received c_i) (sealed_sent c_r)); try done.
    - unfold answered. rewrite HsI, HRob. apply (conclude_concluded n_r r); [done|]. apply (counter_sent c_r).
    - rewrite HI. f_equal. by eapply finish_i_ends; [..|lia].
    - apply (counter_sent c_r). }
  destruct m as [x| |]; [clear ends|destruct Hmsg as (n' & Hm & _ & ?); by eapply ends..].
  pose proof Ht as (_ & _ & (Hfr' & _) & _).
  destruct Hmsg as (m' & n_i' & Hm & Ht'). rewrite Hm in Hex.
  destruct f_i as [|f_i]; [lia|].
  destruct (finish_i_answers (key c_r) p (Propose x) m' f_i n_i n_i' ext remote_i c_i)
    as (p' & Hsays' & Hans); try done; [by eapply turn_packet_wf|].
  assert (answered I R ib = ib ++ [p]) as HsR.
  { unfold answered. rewrite HsI, HRob. by apply Hwait. }
  assert (HI' : ∀ rest, I ((ib ++ [p]) ++ rest) = leaving (finish_i f_i n_i' ext remote_i
    (with_script (MkScript rest (ob ++ [p'])) (sealed_sent (sealed_received c_i))))).
  { intros rest. rewrite <-(assoc_L (++)), HI. f_equal. apply Hans. }
  assert (HR' : ∀ next n_r', message m' n_r = Return next n_r' → ∀ rest, R ((ob ++ [p']) ++ rest) =
    leaving (finish_r f_r n_r' None next remote_r
      (with_script (MkScript rest (ib ++ [p])) (sealed_received (sealed_sent c_r))))).
  { intros next n_r' Hm' rest. rewrite <-(assoc_L (++)), HR. f_equal. by eapply Hcont. }
  destruct g as [|g]; [done|]. cbn [exchange] in Hex. pose proof (turn_message _ _ _ Ht') as Hmsg'.
  assert (ends' : ∀ n_r', message m' n_r = Return None n_r' → finished n_i' = true →
    ∃ k, settled r ext remote_i remote_r (key c_i) (key c_r) I R (Nat.iter k (answered I R) ib)).
  { intros n_r' Hm' Hf2. rewrite Hm' in Hex. injection Hex as <- <-. exists 1%nat.
    specialize (HI' []). specialize (HR' None n_r' Hm' []). rewrite app_nil_r in HI', HR'.
    rewrite finish_i_finished in HI' by (done || lia). rewrite finish_r_finished in HR' by lia.
    apply (dialogue_concludes I R ib (ib ++ [p]) (ob ++ [p']) n_i' n_r' ext remote_i remote_r
             (sealed_sent (sealed_received c_i)) (sealed_received (sealed_sent c_r))); try done;
      [apply (counter_sent (sealed_received c_i))|apply (counter_sent c_r)]. }
  destruct m' as [y| |]; [clear ends'|destruct Hmsg' as (n' & Hm' & _ & ?); by eapply ends'..].
  destruct Hmsg' as (m'' & n_r' & Hm' & Ht''). rewrite Hm' in Hex.
  destruct (IH g ltac:(lia) m'' n_i' n_r' (sealed_sent (sealed_received c_i))
    (sealed_received (sealed_sent c_r)) (ib ++ [p]) (ob ++ [p']) f_i f_r a b) as [k Hk];
    try done; try lia;
    [exact (counter_sent (sealed_received c_i))|exact (counter_sent c_r)|by apply HR'|].
  exists (S k). by rewrite Nat.iter_succ_r, HsR.
Qed.

(** ** Entering the two kinds of channel *)

Lemma build_channel_new {T} (s0 : T) (k : C) : ∃ c : DtcpChannel T C,
  ∀ s, build_channel DtcpBuilder_new s k = Some (put_channel s c).
Proof.
  unfold build_channel, DtcpBuilder_new, from_millis. cbn [mpl ack max_retries].
  rewrite (dur_mul_ok 2) by (unfold DURATION_MAX; lia). cbn [mbind option_bind].
  rewrite dur_add_ok by (unfold DURATION_MAX; lia). cbn [mbind option_bind].
  rewrite u8_add_ok by lia. cbn [mbind option_bind].
  rewrite !dur_mul_ok by (unfold DURATION_MAX; lia). cbn [mbind option_bind].
  rewrite !dur_mul_ok by (unfold DURATION_MAX; lia). cbn [mbind option_bind].
  destruct (Timer_new _ k) as [t k1]. destruct (Timer_new _ k1) as [t' k2].
  by exists (MkDtcpChannel s0 true 0 t t' k2).
Qed.

Lemma in_clear_script (k : C) : ∃ c0 : clear, ∀ A (m : M HandshakeError clear A) s,
  in_clear m (s, k) =
    match m (put_channel s c0) with
    | Return a l => Return a (dtcp_unwrap l, clk l)
    | Throw e l => Throw e (dtcp_unwrap l, clk l)
    | Suspend l => Suspend (dtcp_unwrap l, clk l)
    | Panic => Panic
    | Diverge => Diverge
    end.
Proof.
  destruct (build_channel_new (MkScript [] [] : script P) k) as [c0 Hc]. exists c0.
  intros A m s. unfold in_clear, scoped; run. by rewrite Hc.
Qed.

Lemma in_sealed_script session (k : C) : ∃ c : sealed,
  key c = into_stateless_transport_mode session ∧ counter c = 0 ∧
  ∀ A (m : M HandshakeError sealed A) s, in_sealed session m (s, k) = leaving (m (with_script s c)).
Proof.
  set (d := DiscoChannel_new (MkScript [] [] : script P) (into_stateless_transport_mode session)).
  destruct (build_channel_new d k) as [c0 Hc]. exists (put_channel d c0).
  split_and!; [done..|]. intros A m s. unfold in_sealed, scoped; run. by rewrite Hc.
Qed.

(** ** The key exchange *)

Context (kp kp' : Keypair) (ps qs : list Protocol) (addr : Addr) (k k' : C) (fuel : nat).
Hypothesis Hps : Forall proto_ok ps.
Hypothesis Hqs : Forall proto_ok qs.
Hypothesis Haddr : addr_wf addr.
Hypothesis Hfuel : (length ps + length qs + 3 < fuel)%nat.

(** The two parties, on an inbox. *)
Definition the_initiator (ib : list P) : run_result :=
  initiator fuel kp ps (public kp') (MkScript ib [], k).
Definition the_responder (ib : list P) : run_result :=
  responder fuel kp' qs addr (MkScript ib [], k').

Lemma sendable_wf m a : sendable m → (∀ x, a = Some x → addr_wf x) → packet_wf (MkHandshakePacket m a).
Proof. intros Hm Ha. split; cbn; [intros s ->; by apply Hm|done]. Qed.

(** What one step of the initiator's loop does, before the last message. *)
Lemma initiator_loop_reads f session n ext next p q ct bytes session1 session2 msg next' n' ib ob (c : clear) :
  (∀ ib ob, send_clear (MkHandshakePacket next None) session (put_channel (MkScript ib ob) c) =
     Return session1 (put_channel (MkScript ib (ob ++ [p])) (clear_sent c))) →
  is_handshake_finished session1 = false →
  carries q ct → session_read ct session1 = (Ok bytes, session2) → from_bytes bytes = Some (Ok msg) →
  replies (negotiate_ msg) n next' n' →
  initiator_loop (S f) session n ext next (put_channel (MkScript (q :: ib) ob) c) =
  initiator_loop f session2 n'
    (match external_addr_ msg with Some a => Some a | None => ext end) next'
    (put_channel (MkScript ib (ob ++ [p])) (clear_received (clear_sent c))).
Proof.
  intros Hs Hf Hq Hr Hb Hn. cbn [initiator_loop]. run. rewrite Hs, Hf.
  rewrite (recv_clear_script q ct session1 bytes session2 msg ib (ob ++ [p]) (clear_sent c) Hq Hr Hb).
  by rewrite (answer_replies _ _ _ _ _ Hn).
Qed.

Lemma initiator_loop_waits f session n ext next p session1 ob (c : clear) :
  (∀ ib ob, send_clear (MkHandshakePacket next None) session (put_channel (MkScript ib ob) c) =
     Return session1 (put_channel (MkScript ib (ob ++ [p])) (clear_sent c))) →
  is_handshake_finished session1 = false →
  initiator_loop (S f) session n ext next (put_channel (MkScript [] ob) c) =
    Suspend (put_channel (MkScript [] (ob ++ [p])) (receiving (clear_sent c))).
Proof. intros Hs Hf. cbn [initiator_loop]. run. by rewrite Hs, Hf, recv_clear_waits. Qed.

Lemma initiator_loop_ends f session n ext next p session1 ib ob (c : clear) :
  (∀ ib ob, send_clear (MkHandshakePacket next None) session (put_channel (MkScript ib ob) c) =
     Return session1 (put_channel (MkScript ib (ob ++ [p])) (clear_sent c))) →
  is_handshake_finished session1 = true →
  initiator_loop (S f) session n ext next (put_channel (MkScript ib ob) c) =
    Return (session1, n, ext) (put_channel (MkScript ib (ob ++ [p])) (clear_sent c)).
Proof. intros Hs Hf. cbn [initiator_loop]. run. by rewrite Hs, Hf. Qed.

(** What one step of the responder's loop does: an answer, or the end. *)
Lemma responder_loop_answers f session n ext p q ct bytes session1 session2 msg next n' ib ob (c : clear) :
  carries p ct → session_read ct session = (Ok bytes, session1) → from_bytes bytes = Some (Ok msg) →
  replies (negotiate_ msg) n next n' → is_handshake_finished session1 = false →
  (∀ ib ob, send_clear (MkHandshakePacket next ext) session1 (put_channel (MkScript ib ob) (clear_received c)) =
     Return session2 (put_channel (MkScript ib (ob ++ [q])) (clear_sent (clear_received c)))) →
  responder_loop (S f) session n ext (put_channel (MkScript (p :: ib) ob) c) =
  responder_loop f session2 n' None (put_channel (MkScript ib (ob ++ [q])) (clear_sent (clear_received c))).
Proof.
  intros Hp Hr Hb Hn Hf Hs. cbn [responder_loop]. run.
  rewrite (recv_clear_script p ct session bytes session1 msg ib ob c Hp Hr Hb).
  by rewrite (answer_replies _ _ _ _ _ Hn), Hf, Hs.
Qed.

Lemma responder_loop_ends f session n ext p ct bytes session1 msg next n' ib ob (c : clear) :
  carries p ct → session_read ct session = (Ok bytes, session1) → from_bytes bytes = Some (Ok msg) →
  replies (negotiate_ msg) n next n' → is_handshake_finished session1 = true →
  responder_loop (S f) session n ext (put_channel (MkScript (p :: ib) ob) c) =
  Return (session1, n', ext, next) (put_channel (MkScript ib ob) (clear_received c)).
Proof.
  intros Hp Hr Hb Hn Hf. cbn [responder_loop]. run.
  rewrite (recv_clear_script p ct session bytes session1 msg ib ob c Hp Hr Hb).
  by rewrite (answer_replies _ _ _ _ _ Hn), Hf.
Qed.

Lemma responder_loop_waits f session n ext ob (c : clear) :
  responder_loop (S f) session n ext (put_channel (MkScript [] ob) c) =
    Suspend (put_channel (MkScript [] ob) (receiving c)).
Proof. cbn [responder_loop]. run. by rewrite recv_clear_waits. Qed.

(** The three packets of the key exchange. *)
Lemma key_exchange m0 n0 next1 r1 next2 n2 next3 r3 :
  initiate (Negotiation_new ps) = Return m0 n0 →
  replies (Some m0) (Negotiation_new qs) next1 r1 → replies next1 n0 next2 n2 →
  replies next2 r1 next3 r3 → sendable (Some m0) → sendable next1 → sendable next2 →
  ∃ p1 q1 p2 c_i c_r,
    paired (key c_i) (key c_r) ∧ paired (key c_r) (key c_i) ∧
    counter c_i = 0 ∧ counter c_r = 0 ∧
    said (the_initiator []) = [p1] ∧ said (the_responder [p1]) = [q1] ∧
    (∀ rest, the_initiator ([q1] ++ rest) =
       leaving (finish_i fuel n2 (Some addr) (public kp') (with_script (MkScript rest [p1; p2]) c_i))) ∧
    (∀ rest, the_responder ([p1; p2] ++ rest) =
       leaving (finish_r fuel r3 None next3 (public kp) (with_script (MkScript rest [q1]) c_r))).
Proof.
  intros Hi Hm1 Hm2 Hm3 Hs0 Hs1 Hs2.
  destruct (in_clear_script k) as [ci Hci]. destruct (in_clear_script k') as [cr Hcr].
  set (i0 := build_initiator kp (public kp')). set (r0 := build_responder kp').
  destruct (send_clear_script Hmax (MkHandshakePacket (Some m0) None) i0 ci)
    as (b1 & p1 & ct1 & i1 & Hw1 & Hb1 & Hp1 & Hsend1); [by apply sendable_wf|].
  destruct (in_step_initiator kp kp' 0 i0 r0 b1 ct1 i1) as (rr1 & Hr1 & Hst1);
    [apply in_step_start|by left|done|].
  destruct (send_clear_script Hmax (MkHandshakePacket next1 (Some addr)) rr1 (clear_received cr))
    as (b2 & q1 & ct2 & rr2 & Hw2 & Hb2 & Hq1 & Hsend2); [apply sendable_wf; naive_solver|].
  destruct (in_step_responder kp kp' i1 rr1 b2 ct2 rr2 Hst1 Hw2) as (i2 & Hr2 & Hst2).
  destruct (send_clear_script Hmax (MkHandshakePacket next2 None) i2 (clear_received (clear_sent ci)))
    as (b3 & p2 & ct3 & i3 & Hw3 & Hb3 & Hp2 & Hsend3); [by apply sendable_wf|].
  destruct (in_step_initiator kp kp' 2 i2 rr2 b3 ct3 i3) as (rr3 & Hr3 & Hst3);
    [done|by right|done|].
  destruct (in_step_done kp kp' i3 rr3 Hst3) as (Hrem & Hrem' & Hpair & Hpair').
  assert (Hfin : ∀ n i r, in_step kp kp' n i r →
    is_handshake_finished i = bool_decide (3 - n = 0)%nat ∧
    is_handshake_finished r = bool_decide (3 - n = 0)%nat).
  { intros n i r Hst. rewrite !left_finished. by destruct (in_step_left _ _ _ _ _ Hst) as [-> ->]. }
  destruct (Hfin _ _ _ Hst1) as [Hf1 Hf1'], (Hfin _ _ _ Hst3) as [Hf3 Hf3'].
  destruct (in_sealed_script i3 (clk (clear_sent (clear_received (clear_sent ci))))) as (c_i & Hki & Hni & Hei).
  destruct (in_sealed_script rr3 (clk (clear_received (clear_sent (clear_received cr))))) as (c_r & Hkr & Hnr & Her).
  exists p1, q1, p2, c_i, c_r. rewrite Hki, Hkr. unfold the_initiator, the_responder, initiator, responder.
  fold i0 r0. rewrite Hi. run.
  assert (∃ f, fuel = S (S (S f))) as [f Ef] by (exists (fuel - 3)%nat; lia).
  do 4 (split; [done|]). split_and!.
  - rewrite Hci, Ef at 1. erewrite initiator_loop_waits by done. done.
  - rewrite Hcr, Ef at 1. erewrite responder_loop_answers by done. by rewrite responder_loop_waits.
  - intros rest. rewrite Hci, Ef at 1. cbn [app]. erewrite initiator_loop_reads by done.
    cbn [external_addr_ app]. erewrite initiator_loop_ends by done. cbn -[in_sealed].
    rewrite Hrem. cbn -[in_sealed]. by rewrite Hei.
  - intros rest. rewrite Hcr, Ef at 1. cbn [app]. erewrite responder_loop_answers by done.
    erewrite responder_loop_ends by done. cbn -[in_sealed]. rewrite Hrem'. cbn -[in_sealed].
    by rewrite Her.
Qed.

(** What is said in all, and how both end. *)
Lemma handshake_settles :
  ∃ n t t', paired t t' ∧ paired t' t ∧
    settled (first_common ps qs ps qs) (Some addr) (public kp') (public kp) t t' the_initiator the_responder
      (Nat.iter n (answered the_initiator the_responder) []).
Proof.
  destruct (opening ps qs Hps Hqs)
    as (m0 & n0 & next1 & r1 & next2 & n2 & next3 & r3 & Hi & Hm1 & Hm2 & Hm3 & Hs0 & Hs1 & Hs2 & Hrest).
  destruct (key_exchange _ _ _ _ _ _ _ _ Hi Hm1 Hm2 Hm3 Hs0 Hs1 Hs2)
    as (p1 & q1 & p2 & c_i & c_r & Hp & Hp' & Hn & Hn' & HsI & HsR & HI & HR).
  assert (answered the_initiator the_responder [] = [q1]) as Hq1 by (unfold answered; by rewrite HsI).
  assert (fits 64 (counter c_i)) by (by rewrite Hn). assert (fits 64 (counter c_r)) by (by rewrite Hn').
  cut (∃ n, settled (first_common ps qs ps qs) (Some addr) (public kp') (public kp) (key c_i) (key c_r)
    the_initiator the_responder (Nat.iter n (answered the_initiator the_responder) [])).
  { intros [n Hset]. by exists n, (key c_i), (key c_r). }
  destruct next3 as [m|].
  - destruct Hrest as (Ht & a & b & Hex & Ha & Hb).
    edestruct (sealed_dialogue the_initiator the_responder) as [n Hset];
      [..|exists (S n); rewrite Nat.iter_succ_r, Hq1; exact Hset]; try done; lia || done.
  - destruct Hrest as (Hf & Ha & Hb). exists 1%nat. specialize (HI []). specialize (HR []).
    rewrite app_nil_r in HI, HR. rewrite finish_i_finished in HI by (done || lia).
    rewrite finish_r_finished in HR by lia. by eapply dialogue_concludes.
Qed.

(** Two parties complete the handshake.  An initiator with the protocols
    [ps] and a responder with [qs], each run on the packets the other sends,
    from nothing received on, both end: on the protocol that negotiation
    gives, the first proposal, in turn, that the other party has; or, when
    there is none, both with the negotiation error.  When they agree, each
    holds the other's public key, the initiator the address at which the
    responder saw it, and their channels' keys are a pair: each reads what
    the other writes. *)
Theorem handshake_agrees :
  ∃ n t t', paired t t' ∧ paired t' t ∧
  match first_common ps qs ps qs with
  | Some p => p ∈ ps ∧ p ∈ qs ∧ ∃ ci st cr st',
      dialogue n the_initiator the_responder [] = (Return ci st, Return cr st') ∧
      protocol ci = p ∧ protocol cr = p ∧
      efcp_peer_identity ci = public kp' ∧ efcp_peer_identity cr = public kp ∧
      efcp_external_addr ci = Some addr ∧ efcp_external_addr cr = None ∧
      transport (dtcp_channel (efcp_channel ci)) = t ∧ transport (dtcp_channel (efcp_channel cr)) = t'
  | None => (∀ p, p ∈ ps → p ∉ qs) ∧ ∃ st st',
      dialogue n the_initiator the_responder [] = (Throw NegotiationError st, Throw NegotiationError st')
  end.
Proof.
  destruct handshake_settles as (n & t & t' & Hp & Hp' & Hc_i & Hc_r & _).
  exists n, t, t'. split_and!; [done..|]. rewrite dialogue_answered.
  set (x := Nat.iter n (answered the_initiator the_responder) []) in *.
  pose proof (first_common_sound ps qs ps qs) as Hsound. unfold concluded in *.
  destruct (first_common ps qs ps qs) as [p|].
  - destruct Hsound as [? ?]; auto. destruct Hc_i as (ci & st & Ei & ? & ? & ? & ? & ? & ?). rewrite Ei in *.
    destruct Hc_r as (cr & st' & Er & ? & ? & ? & ? & ? & ?). rewrite Er. do 2 (split; [done|]).
    by eexists _, _, _, _.
  - split; [by apply Hsound; auto|]. destruct Hc_i as (st & Ei & _). rewrite Ei in *.
    destruct Hc_r as (st' & -> & _). by eexists _, _.
Qed.

(** C25: A peer that does not negotiate.  A peer that completes the key exchange
    with handshake packets that hold no negotiation message, in the first and
    third packet, makes the responder panic: it stops negotiating without
    being finished, and then asks for the protocol. *)
Theorem silent_peer_panics (a1 a3 : option Addr) : (3 ≤ fuel)%nat →
  (∀ a, a1 = Some a → addr_wf a) → (∀ a, a3 = Some a → addr_wf a) →
  ∃ p1 q1 p2, said (the_responder [p1]) = [q1] ∧ the_responder [p1; p2] = Panic ∧
    ∃ i1 i2 b1 ct1 b2 ct2 b3 ct3 i3, carries p1 ct1 ∧ carries q1 ct2 ∧ carries p2 ct3 ∧
      session_write b1 (build_initiator kp (public kp')) = (ct1, i1) ∧
      session_read ct2 i1 = (Ok b2, i2) ∧ session_write b3 i2 = (ct3, i3) ∧
      from_bytes b1 = Some (Ok (MkHandshakePacket None a1)) ∧
      from_bytes b2 = Some (Ok (MkHandshakePacket None (Some addr))) ∧
      from_bytes b3 = Some (Ok (MkHandshakePacket None a3)).
Proof.
  clear Hfuel. intros H3 Ha1 Ha3. assert (sendable None) as Hnone by done.
  destruct (in_clear_script k) as [ci _]. destruct (in_clear_script k') as [cr Hcr].
  set (i0 := build_initiator kp (public kp')). set (r0 := build_responder kp').
  destruct (send_clear_script Hmax (MkHandshakePacket None a1) i0 ci)
    as (b1 & p1 & ct1 & i1 & Hw1 & Hb1 & Hp1 & _); [by apply sendable_wf|].
  destruct (in_step_initiator kp kp' 0 i0 r0 b1 ct1 i1) as (rr1 & Hr1 & Hst1);
    [apply in_step_start|by left|done|].
  destruct (send_clear_script Hmax (MkHandshakePacket None (Some addr)) rr1 (clear_received cr))
    as (b2 & q1 & ct2 & rr2 & Hw2 & Hb2 & Hq1 & Hsend2); [apply sendable_wf; naive_solver|].
  destruct (in_step_responder kp kp' i1 rr1 b2 ct2 rr2 Hst1 Hw2) as (i2 & Hr2 & Hst2).
  destruct (send_clear_script Hmax (MkHandshakePacket None a3) i2 ci)
    as (b3 & p2 & ct3 & i3 & Hw3 & Hb3 & Hp2 & _); [by apply sendable_wf|].
  destruct (in_step_initiator kp kp' 2 i2 rr2 b3 ct3 i3) as (rr3 & Hr3 & Hst3);
    [done|by right|done|].
  destruct (in_step_done kp kp' i3 rr3 Hst3) as (_ & Hrem & _).
  destruct (in_step_left _ _ _ _ _ Hst1) as [_ Hl1], (in_step_left _ _ _ _ _ Hst3) as [_ Hl3].
  assert (is_handshake_finished rr1 = false) as Hf1 by by rewrite left_finished, Hl1.
  assert (is_handshake_finished rr3 = true) as Hf3 by by rewrite left_finished, Hl3.
  destruct (in_sealed_script rr3 (clk (clear_received (clear_sent (clear_received cr))))) as (c_r & _ & _ & Her).
  assert (∃ f, fuel = S (S (S f))) as [f Ef] by (exists (fuel - 3)%nat; lia).
  exists p1, q1, p2. unfold the_responder, responder. fold r0. run. split_and!.
  - rewrite Hcr, Ef at 1. erewrite responder_loop_answers by done. by rewrite responder_loop_waits.
  - rewrite Hcr, Ef at 1. erewrite responder_loop_answers by done.
    erewrite responder_loop_ends by done. cbn -[in_sealed]. rewrite Hrem. cbn -[in_sealed].
    rewrite Her. by rewrite Ef.
  - by exists i1, i2, b1, ct1, b2, ct2, b3, ct3, i3.
Qed.
End agreement.
