(* ===== verification/EfcpExamples.v ===== *)
(** * The handshake on concrete inputs

    Two parties over a link of byte buffers, with the reference instances of
    the crates. *)

From S2P Require Export EfcpAgreement EfcpReliable.

Import Reference LoopbackChannel.

#[local] Instance example_profile : Profile := dev.

Module EfcpExample.
(** A clock that advances by one nanosecond with each reading. *)
#[export] Instance ticking : Clock Z := {| now t := (t, t + 1) |}.

#[local] Instance small : PacketLaws BytesMut 1000 := BytesMut_laws 1000.

Definition ping1 : Protocol := lit "/ping/1.0".
Definition ping2 : Protocol := lit "/ping/2.0".
Definition echo : Protocol := lit "/echo".

Definition alice : @Keypair _ disco_session_ref := Byte.x61.
Definition bob : @Keypair _ disco_session_ref := Byte.x62.
Definition home : Addr := MkAddr (V4 (MkV4 Byte.xc0 Byte.xa8 Byte.x01 Byte.x02)) 4000.

Lemma home_wf : addr_wf home.
Proof. split; [done|]. unfold fits. cbn. lia. Qed.

Lemma room : 524 + Z.of_nat TAG_LEN + Z.of_nat OVERHEAD ≤ 1000.
Proof. cbn. lia. Qed.

Lemma protocols_ok : Forall proto_ok [ping2; ping1] ∧ Forall proto_ok [echo; ping1].
Proof. split; repeat constructor; try (vm_compute; reflexivity); cbn; lia. Qed.

Abbreviation the_initiator :=
  (the_initiator (P:=BytesMut) alice bob [ping2; ping1] (0 : Z) 30).
Abbreviation the_responder :=
  (the_responder (P:=BytesMut) bob [echo; ping1] home (0 : Z) 30).

(** The exchange evaluated: the initiator proposes ping/2.0, the responder
    echo, and the initiator ping/1.0 in the third packet, which the responder
    accepts in the sealed phase. *)
Definition summary :=
  match dialogue 2 the_initiator the_responder [] with
  | (Return ci (si, _), Return cr (sr, _)) =>
    Some (protocol ci, protocol cr, remote ci, remote cr, efcp_external_addr ci,
          length (outbox si), length (outbox sr))
  | _ => None
  end.

Example summary_eq :
  summary = Some (ping1, ping1, bob, alice, Some home, 2%nat, 2%nat).
Proof. vm_compute. reflexivity. Qed.

Lemma handshake_agrees_witness :
  ∃ n t t', paired t t' ∧ paired t' t ∧
  match first_common [ping2; ping1] [echo; ping1] [ping2; ping1] [echo; ping1] with
  | Some p => p ∈ [ping2; ping1] ∧ p ∈ [echo; ping1] ∧ ∃ ci st cr st',
      dialogue n the_initiator the_responder [] = (Return ci st, Return cr st') ∧
      protocol ci = p ∧ protocol cr = p ∧
      efcp_peer_identity ci = bob ∧ efcp_peer_identity cr = alice ∧
      efcp_external_addr ci = Some home ∧ efcp_external_addr cr = None ∧
      transport (dtcp_channel (efcp_channel ci)) = t ∧ transport (dtcp_channel (efcp_channel cr)) = t'
  | None => (∀ p, p ∈ [ping2; ping1] → p ∉ [echo; ping1]) ∧ ∃ st st',
      dialogue n the_initiator the_responder [] = (Throw NegotiationError st, Throw NegotiationError st')
  end.
Proof.
  apply (handshake_agrees (max:=1000) room alice bob [ping2; ping1] [echo; ping1] home 0 0 30).
  - exact (proj1 protocols_ok).
  - exact (proj2 protocols_ok).
  - exact home_wf.
  - cbn. lia.
Defined.

Lemma silent_peer_panics_witness :
  ∃ p1 q1 p2, said (the_responder [p1]) = [q1] ∧ the_responder [p1; p2] = Panic.
Proof.
  destruct (silent_peer_panics (max:=1000) room alice bob [echo; ping1] home 0 0 30 home_wf None None)
    as (p1 & q1 & p2 & Hq & Hp & _); [lia|done|done|].
  by exists p1, q1, p2.
Defined.

(** An initiator that receives a buffer of noise instead of an answer. *)
Definition noise : BytesMut := RawBuf 3 [Byte.x00; Byte.x00; Byte.x00] [].

Abbreviation deaf :=
  (initiator (S:=script BytesMut) (P:=BytesMut) (C:=Z) 30 alice [ping2; ping1] bob (MkScript [noise] [], 0)).

Lemma handshake_safe_witness :
  match deaf with
  | Return c st => (protocol c ∈ [ping2; ping1] ∧ is_Some (efcp_external_addr c)) ∧
      inbox st.1 `suffix_of` [noise]
  | Throw _ st | Suspend st => inbox st.1 `suffix_of` [noise]
  | Diverge => False
  | Panic => True
  end.
Proof.
  refine (proj1 (handshake_safe (S:=script BytesMut) (P:=BytesMut) (C:=Z) _ (script_yields [noise]) 30
    alice [ping2; ping1] bob home (MkScript [noise] [], 0) _ _)).
  - cbn. lia.
  - done.
Defined.
(** A channel of a session over the loopback, and its other end. *)
Definition data_channel (k : PublicKey) : EfcpChannel (S:=Loopback) (C:=Z) :=
  MkEfcpChannel (MkDtcpChannel (DiscoChannel_new (MkLoopback []) (7 : Z)) true 0
    (MkTimer false 0 0) (MkTimer false 0 0) 0) k ping1 None.

Abbreviation data_packet := (DtcpPacket (DiscoPacket BytesMut)).

Definition hello : list byte := [Byte.x68; Byte.x69].
Definition world : list byte := [Byte.x79; Byte.x6f; Byte.x75].

Definition packet_of (s : list byte) : data_packet :=
  default (MkDtcpPacket (MkDiscoPacket (RawBuf 0 [] []))) (from_slice (Q:=data_packet) s).

Definition data_calls : list (channel_call data_packet) :=
  [CallSend (packet_of hello); CallSend (packet_of world); CallRecv].

Lemma data_calls_valid : Forall (valid_call (ends (EfcpChannel (S:=Loopback) (C:=Z)) Loopback)) data_calls.
Proof.
  repeat apply Forall_cons_2; try exact I; try apply Forall_nil_2; (eexists; split; [reflexivity|exact I]).
Qed.

Lemma efcp_reliable_fifo_witness :
  match run_calls data_calls (MkEnds (MkLoopback []) (data_channel bob) (data_channel alice)) with
  | Return rs e => [hello; world] = payloads rs ++ rc_pending (P:=data_packet) e
  | _ => False
  end.
Proof.
  pose proof (efcp_reliable_fifo (max:=1000) data_calls (MkLoopback []) (data_channel bob) (data_channel alice)
    data_calls_valid I eq_refl eq_refl) as H.
  assert (match run_calls data_calls (MkEnds (MkLoopback []) (data_channel bob) (data_channel alice))
    with Return _ _ => True | _ => False end) as Hret by (vm_compute; exact I).
  destruct (run_calls data_calls _) as [rs e| | | |]; try done.
  apply H. split; [done|by vm_compute].
Defined.
End EfcpExample.
