(* ===== verification/EfcpTasks.v ===== *)
(** * The handshake as a task (src/efcp/src/lib.rs)

    The async functions of the stack, as threads whose sections end where the
    code awaits the channel below.  Polled once with everything it needs
    there, a task is the call of Efcp.v; polled on and off, it keeps what it
    has done and goes on from where it waits. *)

From S2P Require Export Tasks Dialogue.

(** The async trait: a call is a thread. *)
Class AsyncChannel (S P : Type) : Type := {
  t_send : P → thread io_error S ();
  t_recv : thread io_error S P
}.

(** The calls whose sections make up those of [Channel]. *)
Class AsyncLaws (S P : Type) `{!AsyncChannel S P} `{!Channel S P} : Prop := {
  run_t_send p s : run_thread (t_send p) s = send p s;
  run_t_recv s : run_thread t_recv s = recv s
}.

(** A channel that makes its calls in one section. *)
Definition one_section {S P : Type} `{!Channel S P} : AsyncChannel S P := {|
  t_send p := atomically (send p);
  t_recv := atomically recv
|}.

#[export] Instance one_section_laws {S P : Type} `{!Channel S P} : AsyncLaws S P (AsyncChannel0:=one_section).
Proof. split; intros; apply run_atomically. Qed.

(** ** The layers *)

Section dtcp.
Context {BC : BytesCrate} {BO : ByteOrderCrate} {PR : Profile}.
Context {S P C : Type} {BP : BasePacket P} {AC : AsyncChannel S P} {CK : Clock C}.
#[local] Abbreviation chan := (DtcpChannel S C).

(** What [send] does before it awaits the inner channel. *)
Definition number_packet (packet : DtcpPacket P) : M io_error chan (DtcpPacket P) :=
  expired ← stop_sit;
  old ← swap_drf false;
  seq_num ← fetch_add_seq_num;
  packet ← unwrap (set_ty (Transfer (old || expired)) packet);
  unwrap (set_seq_num seq_num packet).

(** What [recv] does with the packet of the inner channel. *)
Definition open_packet (packet : P) : M io_error chan (DtcpPacket P) :=
  r ← unwrap (parse packet);
  packet ← try r;
  start_rit;;
  mret packet.

#[export] Instance Dtcp_Async : AsyncChannel chan (DtcpPacket P) := {|
  t_send packet :=
    packet ← atomically (number_packet packet);
    t_zoom dtcp_channel put_channel (t_send (into_packet packet));;
    atomically start_sit;
  t_recv :=
    atomically (expired ← stop_rit; store_drf expired);;
    packet ← t_zoom dtcp_channel put_channel t_recv;
    atomically (open_packet packet)
|}.

#[export] Instance Dtcp_Lens : Lens (S:=chan) dtcp_channel put_channel.
Proof. split; by intros; try destruct s. Qed.

#[export] Instance Dtcp_AsyncLaws {CH : Channel S P} {AL : AsyncLaws S P} : AsyncLaws chan (DtcpPacket P).
Proof.
  split; [intros packet s|intros s]; cbn [t_send t_recv send recv Dtcp_Async Dtcp_Channel].
  - run. rewrite run_then, run_atomically. unfold dtcp_send, number_packet; run.
    destruct (stop_sit s) as [e s1| | | |]; try done. destruct (swap_drf false s1) as [o s2| | | |]; try done.
    destruct (fetch_add_seq_num s2) as [n s3| | | |]; try done.
    destruct (set_ty _ packet) as [q|]; cbn [unwrap mret M_ret]; [|done].
    destruct (set_seq_num n q) as [q'|]; cbn [unwrap mret M_ret]; [|done].
    rewrite run_then, (run_t_zoom dtcp_channel put_channel). unfold zoom; run. rewrite run_t_send.
    destruct (send _ _); try done. by rewrite run_atomically.
  - run. rewrite run_then, run_atomically. unfold dtcp_recv; run.
    destruct (stop_rit s) as [e s1| | | |]; try done. destruct (store_drf e s1) as [o s2| | | |]; try done.
    rewrite run_then, (run_t_zoom dtcp_channel put_channel). unfold zoom; run. rewrite run_t_recv.
    destruct (recv _); try done. by rewrite run_atomically.
Qed.
End dtcp.

Section disco.
Context {BC : BytesCrate} {BO : ByteOrderCrate} {DC : DiscoCrate}.
Context {S P : Type} {BP : BasePacket P} {AC : AsyncChannel S P}.
#[local] Abbreviation chan := (DiscoChannel S).

(** What [send] does before it awaits the inner channel. *)
Definition seal_packet (packet : DiscoPacket P) : M io_error chan (DiscoPacket P) :=
  nonce ← fetch_add_nonce;
  packet ← unwrap (set_nonce nonce packet);
  t ← gets transport;
  '(packet, tag) ← unwrap (encrypt t nonce packet);
  unwrap (set_tag tag packet).

(** What [recv] does with the packet of the inner channel. *)
Definition unseal_packet (p : P) : M io_error chan (DiscoPacket P) :=
  r ← unwrap (parse p);
  packet ← try r;
  nonce ← unwrap (nonce packet);
  tag ← unwrap (tag packet);
  t ← gets transport;
  '(packet, r) ← unwrap (decrypt t nonce tag packet);
  match r with
  | Ok _ => mret packet
  | Err err => throw (IoError Other (read_error_debug err))
  end.

(** The cells of the channel over another inner one. *)
Definition put_disco_cells {S S'} (s : S') (c : DiscoChannel S) : DiscoChannel S' :=
  MkDiscoChannel (transport c) s (next_nonce c).

#[export] Instance Disco_Async : AsyncChannel chan (DiscoPacket P) := {|
  t_send packet :=
    packet ← atomically (seal_packet packet);
    t_zoom disco_channel put_disco (t_send (into_packet packet));
  t_recv :=
    p ← t_zoom disco_channel put_disco t_recv;
    atomically (unseal_packet p)
|}.

#[export] Instance Disco_Lens : Lens (S:=chan) disco_channel put_disco.
Proof. split; by intros; try destruct s. Qed.

#[export] Instance Disco_AsyncLaws {CH : Channel S P} {AL : AsyncLaws S P} : AsyncLaws chan (DiscoPacket P).
Proof.
  split; [intros packet s|intros s]; cbn [t_send t_recv send recv Disco_Async Disco_Channel].
  - run. rewrite run_then, run_atomically. unfold disco_send, seal_packet; run.
    destruct (fetch_add_nonce s) as [n s1| | | |]; try done.
    destruct (set_nonce n packet) as [q|]; cbn [unwrap mret M_ret]; [|done].
    destruct (encrypt _ n q) as [[q1 tag]|]; cbn [unwrap mret M_ret]; [|done].
    destruct (set_tag tag q1) as [q2|]; cbn [unwrap mret M_ret]; [|done].
    rewrite (run_t_zoom disco_channel put_disco). unfold zoom. by rewrite run_t_send.
  - run. rewrite run_then, (run_t_zoom disco_channel put_disco). unfold disco_recv, zoom; run. rewrite run_t_recv.
    destruct (recv _); try done. by rewrite run_atomically.
Qed.
End disco.

(** ** A channel built over the inner one, between the sections of a task

    The task keeps the cells of the layers, the rest is the state it shares. *)
Section scope.
Context {E L X T : Type} (plug : X → T → L) (cells : L → X) (leave : L → T).

Fixpoint t_inside {A} (x : X) (t : thread E L A) : thread E T A :=
  match t with
  | Finished a => Finished a
  | Atomic m => Atomic (λ s,
      match m (plug x s) with
      | Return t l => Return (t_inside (cells l) t) (leave l)
      | Throw e l => Throw e (leave l)
      | Suspend l => Suspend (leave l)
      | Panic => Panic
      | Diverge => Diverge
      end)
  end.

Definition t_scoped {A} (enter : T → option L) (t : thread E L A) : thread E T A :=
  Atomic (λ s,
    match enter s with
    | Some l => Return (t_inside (cells l) t) (leave l)
    | None => Panic
    end).

Hypothesis plug_leave : ∀ l, plug (cells l) (leave l) = l.
Hypothesis leave_plug : ∀ x s, leave (plug x s) = s.

Lemma run_t_inside {A} x (t : thread E L A) s :
  run_thread (t_inside x t) s =
    match run_thread t (plug x s) with
    | Return a l => Return a (leave l)
    | Throw e l => Throw e (leave l)
    | Suspend l => Suspend (leave l)
    | Panic => Panic
    | Diverge => Diverge
    end.
Proof using plug_leave leave_plug.
  revert x s. induction t as [a|m IH] using thread_ind_run; intros x s; cbn; [by rewrite leave_plug|].
  specialize (IH (plug x s)). destruct (m (plug x s)) as [t l| | | |]; try done.
  by rewrite (IH t l eq_refl), plug_leave.
Qed.

Lemma run_t_scoped {A} enter (t : thread E L A) s :
  run_thread (t_scoped enter t) s =
    match enter s with
    | Some l =>
      match run_thread t l with
      | Return a l => Return a (leave l)
      | Throw e l => Throw e (leave l)
      | Suspend l => Suspend (leave l)
      | Panic => Panic
      | Diverge => Diverge
      end
    | None => Panic
    end.
Proof using plug_leave leave_plug.
  unfold t_scoped. cbn [run_thread]. destruct (enter s) as [l|]; [|done].
  by rewrite run_t_inside, plug_leave.
Qed.
End scope.

(** The same scope in two states. *)
Section scope_sim.
Context {E I L1 L2 X T1 T2 : Type} (R : I → T1 → T2 → Prop) (idle : T2 → Prop).
Context (RL : I → L1 → L2 → Prop) (idleL : L2 → Prop) (ahead : I → Prop).
Context (plug1 : X → T1 → L1) (cells1 : L1 → X) (leave1 : L1 → T1).
Context (plug2 : X → T2 → L2) (cells2 : L2 → X) (leave2 : L2 → T2).
Hypothesis Hplug : ∀ i x s1 s2, R i s1 s2 → RL i (plug1 x s1) (plug2 x s2).
Hypothesis Hleave : ∀ i l1 l2, RL i l1 l2 → R i (leave1 l1) (leave2 l2) ∧ cells1 l1 = cells2 l2.
Hypothesis leave_plug : ∀ x s, leave1 (plug1 x s) = s.
Hypothesis Hidle : ∀ l, idleL l → idle (leave2 l).

Lemma task_sim_inside {A B} (Q : A → B → Prop) x (t1 : thread E L1 A) (t2 : thread E L2 B) :
  task_sim RL idleL ahead Q t1 t2 →
  task_sim R idle ahead Q (t_inside plug1 cells1 leave1 x t1) (t_inside plug2 cells2 leave2 x t2).
Proof using Hplug Hleave leave_plug Hidle.
  intros Ht. revert x t2 Ht. induction t1 as [a|m1 IH] using thread_ind_run; intros x [b|m2] Ht; try done.
  intros i s1 s2 Hs. specialize (Ht i _ _ (Hplug i x s1 s2 Hs)). specialize (IH (plug1 x s1)).
  pose proof (Hleave i) as Hl. pose proof (leave_plug x s1) as Hlp. clear Hleave Hplug. cbn [t_inside].
  destruct (m2 (plug2 x s2)) as [t2 l2|e2 l2|l2| |], (m1 (plug1 x s1)) as [t1 l1|e1 l1|l1| |];
    cbn in Ht |- *; try contradiction; try exact Logic.I.
  - destruct Ht as [Ht Hr]. destruct (Hl l1 l2 Hr) as [? ->]. split; [by apply (IH t1 l1)|done].
  - destruct Ht as [-> Hr]. by destruct (Hl l1 l2 Hr).
  - destruct Ht as (Hr & ? & ?). destruct (Hl _ _ Hr). rewrite Hlp in *. auto.
  - destruct Ht as (Hr & ? & ?). destruct (Hl _ _ Hr). rewrite Hlp in *. auto.
  - destruct Ht as (-> & Hr & ?). destruct (Hl _ _ Hr). rewrite Hlp in *. auto.
  - destruct Ht as (Hr & ? & ?). destruct (Hl _ _ Hr). rewrite Hlp in *. auto.
  - destruct Ht as (Hr & ? & ?). destruct (Hl _ _ Hr). rewrite Hlp in *. auto.
Qed.

Lemma task_sim_scoped {A B} (Q : A → B → Prop) enter1 enter2 (t1 : thread E L1 A) (t2 : thread E L2 B) :
  (∀ i s1 s2, R i s1 s2 → match enter1 s1, enter2 s2 with
                          | Some l1, Some l2 => RL i l1 l2
                          | None, None => True
                          | _, _ => False
                          end) →
  task_sim RL idleL ahead Q t1 t2 →
  task_sim R idle ahead Q (t_scoped plug1 cells1 leave1 enter1 t1) (t_scoped plug2 cells2 leave2 enter2 t2).
Proof using Hplug Hleave leave_plug Hidle.
  intros He Ht i s1 s2 Hs. specialize (He i s1 s2 Hs).
  destruct (enter1 s1) as [l1|], (enter2 s2) as [l2|]; try done.
  destruct (Hleave i l1 l2 He) as [? ->]. cbn. split; [by apply task_sim_inside|done].
Qed.
End scope_sim.

(** ** The handshake *)

Section handshake.
Context {BC : BytesCrate} {BO : ByteOrderCrate} {PR : Profile}.
Context {DC : DiscoCrate} {DS : DiscoSession DC}.
Context {S P C : Type} {BP : BasePacket P} {AC : AsyncChannel S P} {CK : Clock C}.

#[local] Abbreviation clear := (DtcpChannel S C).
#[local] Abbreviation sealed := (DtcpChannel (DiscoChannel S) C).

(** Up to the await of a send, and from the await of a receive on. *)
Definition write_clear (msg : HandshakePacket) (session : Session)
    : M HandshakeError clear (DtcpPacket P * Session) :=
  bytes ← io (try (to_bytes msg));
  let '(ct, session) := session_write bytes session in
  packet ← unwrap (from_slice (Q:=DtcpPacket P) ct);
  mret (packet, session).

Definition read_clear (session : Session) (packet : DtcpPacket P)
    : M HandshakeError clear (HandshakePacket * Session) :=
  ct ← unwrap (payload packet);
  let '(r, session) := session_read ct session in
  match r with
  | Err e => throw (Disco e)
  | Ok pt => msg ← parse_handshake pt; mret (msg, session)
  end.

Definition write_sealed (msg : HandshakePacket) : M HandshakeError sealed (DtcpPacket (DiscoPacket P)) :=
  bytes ← io (try (to_bytes msg));
  unwrap (from_slice (Q:=DtcpPacket (DiscoPacket P)) bytes).

Definition read_sealed (packet : DtcpPacket (DiscoPacket P)) : M HandshakeError sealed HandshakePacket :=
  bytes ← unwrap (payload packet);
  parse_handshake bytes.

Definition t_send_clear (msg : HandshakePacket) (session : Session) : thread HandshakeError clear Session :=
  '(packet, session) ← atomically (write_clear msg session);
  t_map_err Io (t_send packet);;
  mret session.

Definition t_recv_clear (session : Session) : thread HandshakeError clear (HandshakePacket * Session) :=
  packet ← t_map_err Io (t_recv (P:=DtcpPacket P));
  atomically (read_clear session packet).

Definition t_send_sealed (msg : HandshakePacket) : thread HandshakeError sealed () :=
  packet ← atomically (write_sealed msg);
  t_map_err Io (t_send packet).

Definition t_recv_sealed : thread HandshakeError sealed HandshakePacket :=
  packet ← t_map_err Io (t_recv (P:=DtcpPacket (DiscoPacket P)));
  atomically (read_sealed packet).

Fixpoint t_initiator_loop (fuel : nat) (session : Session) (negotiate : Negotiation)
    (external_addr : option Addr) (next_neg : option Message)
    : thread HandshakeError clear (Session * Negotiation * option Addr) :=
  match fuel with
  | O => atomically diverge
  | Datatypes.S fuel =>
    session ← t_send_clear (MkHandshakePacket next_neg None) session;
    if is_handshake_finished session then mret (session, negotiate, external_addr)
    else
      '(msg, session) ← t_recv_clear session;
      let external_addr :=
        match external_addr_ msg with Some addr => Some addr | None => external_addr end in
      '(next_neg, negotiate) ← atomically (answer (negotiate_ msg) negotiate);
      t_initiator_loop fuel session negotiate external_addr next_neg
  end.

Fixpoint t_initiator_negotiate (fuel : nat) (negotiate : Negotiation)
    : thread HandshakeError sealed Negotiation :=
  match fuel with
  | O => atomically diverge
  | Datatypes.S fuel =>
    if is_finished negotiate then mret negotiate
    else
      msg ← t_recv_sealed;
      '(next_neg, negotiate) ← atomically (answer (negotiate_ msg) negotiate);
      match next_neg with
      | None => mret negotiate
      | Some _ =>
        t_send_sealed (MkHandshakePacket next_neg None);;
        t_initiator_negotiate fuel negotiate
      end
  end.

Fixpoint t_responder_loop (fuel : nat) (session : Session) (negotiate : Negotiation)
    (external_addr : option Addr)
    : thread HandshakeError clear (Session * Negotiation * option Addr * option Message) :=
  match fuel with
  | O => atomically diverge
  | Datatypes.S fuel =>
    '(msg, session) ← t_recv_clear session;
    '(next_neg, negotiate) ← atomically (answer (negotiate_ msg) negotiate);
    if is_handshake_finished session then mret (session, negotiate, external_addr, next_neg)
    else
      session ← t_send_clear (MkHandshakePacket next_neg external_addr) session;
      t_responder_loop fuel session negotiate None
  end.

Fixpoint t_responder_negotiate (fuel : nat) (negotiate : Negotiation) (external_addr : option Addr)
    (next_neg : option Message) : thread HandshakeError sealed (Negotiation * option Addr) :=
  match fuel with
  | O => atomically diverge
  | Datatypes.S fuel =>
    match next_neg with
    | None => mret (negotiate, external_addr)
    | Some msg =>
      t_send_sealed (MkHandshakePacket (Some msg) external_addr);;
      if is_finished negotiate then mret (negotiate, None)
      else
        msg ← t_recv_sealed;
        '(next_neg, negotiate) ← atomically (answer (negotiate_ msg) negotiate);
        t_responder_negotiate fuel negotiate None next_neg
    end
  end.

(** The cells of the two channels of the handshake, without the inner one. *)
Definition plug_clear (x : DtcpChannel () ()) (s : S * C) : clear :=
  MkDtcpChannel s.1 (set_drf x) (next_seq_num x) (sit x) (rit x) s.2.
Definition cells_clear (l : clear) : DtcpChannel () () :=
  MkDtcpChannel () (set_drf l) (next_seq_num l) (sit l) (rit l) ().

Definition plug_sealed (x : DtcpChannel (DiscoChannel ()) ()) (s : S * C) : sealed :=
  MkDtcpChannel (put_disco_cells s.1 (dtcp_channel x)) (set_drf x) (next_seq_num x) (sit x) (rit x) s.2.
Definition cells_sealed (l : sealed) : DtcpChannel (DiscoChannel ()) () :=
  MkDtcpChannel (put_disco_cells () (dtcp_channel l)) (set_drf l) (next_seq_num l) (sit l) (rit l) ().

Definition t_in_clear {A} (t : thread HandshakeError clear A) : thread HandshakeError (S * C) A :=
  t_scoped plug_clear cells_clear (λ l, (dtcp_unwrap l, clk l))
    (λ '(s, k), build_channel DtcpBuilder_new s k) t.

Definition t_in_sealed {A} (session : Session) (t : thread HandshakeError sealed A)
    : thread HandshakeError (S * C) A :=
  t_scoped plug_sealed cells_sealed (λ l, (disco_deref (dtcp_deref l), clk l))
    (λ '(s, k), build_channel DtcpBuilder_new
       (DiscoChannel_new s (into_stateless_transport_mode session)) k) t.

Definition t_initiator (fuel : nat) (identity : Keypair) (protocols : list Protocol)
    (remote_public : PublicKey) : thread HandshakeError (S * C) (EfcpChannel (S:=S) (C:=C)) :=
  let session := build_initiator identity remote_public in
  match initiate (Negotiation_new protocols) with
  | Return next_neg negotiate =>
    '(session, negotiate, external_addr) ←
      t_in_clear (t_initiator_loop fuel session negotiate None (Some next_neg));
    remote ← atomically (unwrap (remote_static session));
    t_in_sealed session (
      match external_addr with
      | None => atomically (throw ExternalAddr)
      | Some _ =>
        negotiate ← t_initiator_negotiate fuel negotiate;
        protocol ← atomically (settle negotiate);
        channel ← atomically get_state;
        mret (MkEfcpChannel channel remote protocol external_addr)
      end)
  | _ => atomically panic
  end.

Definition t_responder (fuel : nat) (identity : Keypair) (protocols : list Protocol)
    (remote_addr : Addr) : thread HandshakeError (S * C) (EfcpChannel (S:=S) (C:=C)) :=
  let session := build_responder identity in
  '(session, negotiate, external_addr, next_neg) ←
    t_in_clear (t_responder_loop fuel session (Negotiation_new protocols) (Some remote_addr));
  remote ← atomically (unwrap (remote_static session));
  t_in_sealed session (
    '(negotiate, external_addr) ← t_responder_negotiate fuel negotiate external_addr next_neg;
    protocol ← atomically (settle negotiate);
    channel ← atomically get_state;
    mret (MkEfcpChannel channel remote protocol external_addr)).
End handshake.

(** ** Polled once, a task is the call *)

Section runs.
Context {BC : BytesCrate} {BO : ByteOrderCrate} {PR : Profile}.
Context {DC : DiscoCrate} {DS : DiscoSession DC}.
Context {S P C : Type} {BP : BasePacket P} {CH : Channel S P} {CK : Clock C}.
Context {AC : AsyncChannel S P} {AL : AsyncLaws S P}.

#[local] Abbreviation clear := (DtcpChannel S C).
#[local] Abbreviation sealed := (DtcpChannel (DiscoChannel S) C).

(** Runs of a thread to those of its parts. *)
Local Ltac run_parts :=
  repeat (run; rewrite ?run_then, ?run_atomically, ?run_t_map_err, ?run_t_send, ?run_t_recv).

Lemma run_t_send_clear msg session (c : clear) :
  run_thread (t_send_clear msg session) c = send_clear msg session c.
Proof using AL.
  unfold t_send_clear, send_clear, write_clear, io. run_parts. unfold map_err.
  destruct (to_bytes msg) as [bytes|e]; cbn -[from_slice t_send send]; [|done].
  destruct (session_write bytes session) as [ct session'].
  destruct (from_slice ct) as [packet|]; cbn -[t_send send]; [|done].
  rewrite run_then, run_t_map_err. unfold map_err. rewrite run_t_send.
  change (send packet) with (dtcp_send packet). by destruct (dtcp_send packet c).
Qed.

Lemma run_t_recv_clear session (c : clear) :
  run_thread (t_recv_clear (P:=P) session) c = recv_clear session c.
Proof using AL.
  unfold t_recv_clear, recv_clear, io. run_parts. unfold map_err. rewrite run_t_recv.
  change (recv c) with (dtcp_recv (P:=P) c).
  destruct (dtcp_recv c) as [packet c'| | | |]; try done. by rewrite run_atomically.
Qed.

Lemma run_t_send_sealed msg (c : sealed) : run_thread (t_send_sealed (P:=P) msg) c = send_sealed msg c.
Proof using AL.
  unfold t_send_sealed, send_sealed, write_sealed, io. run_parts. unfold map_err.
  destruct (to_bytes msg) as [bytes|e]; cbn -[from_slice t_send send]; [|done].
  destruct (from_slice bytes) as [packet|]; cbn -[t_send send]; [|done].
  rewrite run_t_map_err. unfold map_err. by rewrite run_t_send.
Qed.

Lemma run_t_recv_sealed (c : sealed) : run_thread (t_recv_sealed (P:=P)) c = recv_sealed c.
Proof using AL.
  unfold t_recv_sealed, recv_sealed, io. run_parts. unfold map_err. rewrite run_t_recv.
  change (recv c) with (dtcp_recv (P:=DiscoPacket P) c).
  destruct (dtcp_recv c) as [packet c'| | | |]; try done. by rewrite run_atomically.
Qed.

Lemma run_t_initiator_loop fuel session n ext next (c : clear) :
  run_thread (t_initiator_loop fuel session n ext next) c = initiator_loop fuel session n ext next c.
Proof using AL.
  revert session n ext next c. induction fuel as [|fuel IH]; intros session n ext next c; [done|].
  cbn [t_initiator_loop initiator_loop]. run. rewrite run_then, run_t_send_clear.
  destruct (send_clear _ _ c) as [session1 c1| | | |]; try done.
  destruct (is_handshake_finished session1); [done|]. rewrite run_then, run_t_recv_clear.
  destruct (recv_clear session1 c1) as [[msg session2] c2| | | |]; try done.
  rewrite run_then, run_atomically. destruct (answer _ n c2) as [[next' n'] c3| | | |]; done.
Qed.

Lemma run_t_initiator_negotiate fuel n (c : sealed) :
  run_thread (t_initiator_negotiate (P:=P) fuel n) c = initiator_negotiate fuel n c.
Proof using AL.
  revert n c. induction fuel as [|fuel IH]; intros n c; [done|].
  cbn [t_initiator_negotiate initiator_negotiate]. run. destruct (is_finished n); [done|].
  rewrite run_then, run_t_recv_sealed. destruct (recv_sealed c) as [msg c1| | | |]; try done.
  rewrite run_then, run_atomically. destruct (answer _ n c1) as [[[m|] n'] c2| | | |]; try done.
  rewrite run_then, run_t_send_sealed. destruct (send_sealed _ c2) as [[] c3| | | |]; done.
Qed.

Lemma run_t_responder_loop fuel session n ext (c : clear) :
  run_thread (t_responder_loop fuel session n ext) c = responder_loop fuel session n ext c.
Proof using AL.
  revert session n ext c. induction fuel as [|fuel IH]; intros session n ext c; [done|].
  cbn [t_responder_loop responder_loop]. run. rewrite run_then, run_t_recv_clear.
  destruct (recv_clear session c) as [[msg session1] c1| | | |]; try done.
  rewrite run_then, run_atomically. destruct (answer _ n c1) as [[next' n'] c2| | | |]; try done.
  destruct (is_handshake_finished session1); [done|]. rewrite run_then, run_t_send_clear.
  destruct (send_clear _ session1 c2) as [session2 c3| | | |]; done.
Qed.

Lemma run_t_responder_negotiate fuel n ext next (c : sealed) :
  run_thread (t_responder_negotiate (P:=P) fuel n ext next) c = responder_negotiate fuel n ext next c.
Proof using AL.
  revert n ext next c. induction fuel as [|fuel IH]; intros n ext next c; [done|].
  cbn [t_responder_negotiate responder_negotiate]. destruct next as [m|]; [|done]. run.
  rewrite run_then, run_t_send_sealed. destruct (send_sealed _ c) as [[] c1| | | |]; try done.
  destruct (is_finished n); [done|]. rewrite run_then, run_t_recv_sealed.
  destruct (recv_sealed c1) as [msg c2| | | |]; try done. rewrite run_then, run_atomically.
  destruct (answer _ n c2) as [[next' n'] c3| | | |]; done.
Qed.

Lemma run_t_in_clear {A} (t : thread HandshakeError clear A) (m : M HandshakeError clear A) st :
  (∀ c, run_thread t c = m c) → run_thread (t_in_clear t) st = in_clear m st.
Proof.
  intros Ht. unfold t_in_clear, in_clear, scoped; run. rewrite run_t_scoped; [|by intros []|by intros ? []].
  destruct st as [s k]. destruct (build_channel DtcpBuilder_new s k) as [c|]; [|done].
  cbn. unfold zoom. rewrite Ht. by destruct (m c).
Qed.

Lemma run_t_in_sealed {A} session (t : thread HandshakeError sealed A) (m : M HandshakeError sealed A) st :
  (∀ c, run_thread t c = m c) → run_thread (t_in_sealed session t) st = in_sealed session m st.
Proof.
  intros Ht. unfold t_in_sealed, in_sealed, scoped; run. rewrite run_t_scoped; [|by intros [[]]|by intros ? []].
  destruct st as [s k]. destruct (build_channel _ _ k) as [c|]; [|done].
  cbn. unfold zoom. rewrite Ht. by destruct (m c).
Qed.

Lemma run_t_initiator fuel identity protocols remote_public (st : S * C) :
  run_thread (t_initiator fuel identity protocols remote_public) st =
    initiator fuel identity protocols remote_public st.
Proof using AL.
  unfold t_initiator, initiator. destruct (initiate _) as [next n| | | |]; try done. run.
  rewrite run_then. erewrite run_t_in_clear by apply run_t_initiator_loop.
  destruct (in_clear _ st) as [[[session n'] ext] st1| | | |]; try done.
  rewrite run_then, run_atomically. destruct (remote_static session) as [r|]; [|done]. cbn [unwrap mret M_ret].
  apply run_t_in_sealed. intros c. destruct ext as [a|]; [|done]. rewrite run_then, run_t_initiator_negotiate.
  destruct (initiator_negotiate fuel n' c) as [n2 c1| | | |]; try done.
  rewrite run_then, run_atomically. by destruct (settle n2 c1).
Qed.

Lemma run_t_responder fuel identity protocols remote_addr (st : S * C) :
  run_thread (t_responder fuel identity protocols remote_addr) st =
    responder fuel identity protocols remote_addr st.
Proof using AL.
  unfold t_responder, responder. run.
  rewrite run_then. erewrite run_t_in_clear by apply run_t_responder_loop.
  destruct (in_clear _ st) as [[[[session n] ext] next] st1| | | |]; try done.
  rewrite run_then, run_atomically. destruct (remote_static session) as [r|]; [|done]. cbn [unwrap mret M_ret].
  apply run_t_in_sealed. intros c. rewrite run_then, run_t_responder_negotiate.
  destruct (responder_negotiate fuel n ext next c) as [[n2 ext'] c1| | | |]; try done.
  rewrite run_then, run_atomically. by destruct (settle n2 c1).
Qed.
End runs.

(** ** The socket's calls

    The multiplexing socket may be one of several in a state [S]: [call] makes
    a call on it, [next] is the stream of its channels, and [chan] the channel
    of a handle. *)

Section EfcpSocket.
Context {BC : BytesCrate} {BO : ByteOrderCrate} {SQ : SegQueueCrate} {SL : SlabCrate} {PR : Profile}.
Context {DC : DiscoCrate} {DS : DiscoSession DC}.
Context {K : Type} `{!UdpExt K} `{!UdpSocket K} {C : Type} `{!Clock C}.

#[local] Abbreviation inner := (Dtp.InnerDtpSocket (K:=K)).

Section in_state.
Context {S : Type} (call : ∀ A, M io_error inner A → M io_error S A).
Context (next : M io_error inner Dtp.DtpChannel) (chan : Dtp.DtpChannel → Channel S DtpPacket).

#[local] Abbreviation connected := (Dtp.DtpChannel * EfcpChannel (S:=S) (C:=C))%type.

Definition t_on_dtp {E A} (f : io_error → E) (m : M io_error inner A) : M E (S * C) A :=
  map_err f (zoom fst (λ s st, (s, st.2)) (call _ m)).

Definition t_owning {A} (ch : Dtp.DtpChannel) (t : thread HandshakeError (S * C) A)
    : thread HandshakeError (S * C) A :=
  t_catch (λ e, t_on_dtp Io (Dtp.DtpChannel_drop ch);; throw e) t.

Definition t_incoming (fuel : nat) (self : EfcpSocket) : thread HandshakeError (S * C) connected :=
  channel ← atomically (t_on_dtp Io next);
  let peer_addr := Dtp.DtpChannel_peer_addr channel in
  efcp ← t_owning channel
    (t_responder (AC:=one_section (Channel0:=chan channel)) fuel
       (identity self) (socket_protocols self) peer_addr);
  mret (channel, efcp).

Definition t_dial (fuel : nat) (self : EfcpSocket) (d : Dial) : thread HandshakeError (S * C) connected :=
  channel ← atomically (t_on_dtp Io (Dtp.DtpSocket_outgoing (dial_peer_addr d) (dial_channel d)));
  efcp ← t_owning channel
    (t_initiator (AC:=one_section (Channel0:=chan channel)) fuel
       (identity self) (socket_protocols self) (remote_public d));
  mret (channel, efcp).
End in_state.

(** On a socket of their own. *)
Lemma run_t_owning {A} ch (t : thread HandshakeError (inner * C) A) m st :
  run_thread t st = m st → run_thread (t_owning (λ _ m, m) ch t) st = owning ch m st.
Proof. intros Ht. unfold t_owning, owning. rewrite run_t_catch, Ht. by destruct (m st). Qed.

(** What awaits split, polling puts together.  The tasks of [dial] and
    [incoming], cut into sections at every await of the channel below, make up
    the calls that the handshake theorems are about: with everything they need
    at hand, they return, fail, wait and panic as those do, in the same state,
    through all the layers of the stack. *)
Theorem tasks_compose fuel (self : EfcpSocket) (d : Dial) (st : inner * C) :
  run_thread (t_dial (λ _ m, m) (λ ch, Dtp.DtpChannel_Channel fuel ch) fuel self d) st = dial fuel self d st ∧
  run_thread (t_incoming (λ _ m, m) (Dtp.Incoming_poll_next fuel) (λ ch, Dtp.DtpChannel_Channel fuel ch)
    fuel self) st = efcp_incoming fuel self st.
Proof.
  split.
  - unfold t_dial, dial. run. rewrite run_then, run_atomically. unfold t_on_dtp, on_dtp.
    destruct (map_err _ _ st) as [ch st1| | | |]; try done. rewrite run_then.
    erewrite run_t_owning by apply (run_t_initiator (AL:=one_section_laws)). by destruct (owning ch _ st1).
  - unfold t_incoming, efcp_incoming. run. rewrite run_then, run_atomically. unfold t_on_dtp, on_dtp.
    destruct (map_err _ _ st) as [ch st1| | | |]; try done. rewrite run_then.
    erewrite run_t_owning by apply (run_t_responder (AL:=one_section_laws)). by destruct (owning ch _ st1).
Qed.
End EfcpSocket.
