(* ===== verification/Shared.v ===== *)
(** * One EFCP channel, used by many tasks (src/efcp/src/lib.rs and below)

    [send] and [recv] take [&self], so tasks may share a channel.  Here their
    calls are cut at every access to a cell that they share: each lock, each
    atomic operation, each await of the channel below. *)

From S2P Require Export Tickets EfcpTasks EfcpReliable.

(** ** The layers *)

Section dtcp.
Context {BC : BytesCrate} {BO : ByteOrderCrate} {PR : Profile}.
Context {S P C : Type} {BP : BasePacket P} {AC : AsyncChannel S P} {CK : Clock C}.
#[local] Abbreviation chan := (DtcpChannel S C).

(** The fields that [send] writes into the packet, which it owns. *)
Definition write_header (drf : bool) (n : Z) (packet : DtcpPacket P) : M io_error chan (DtcpPacket P) :=
  packet ← unwrap (set_ty (Transfer drf) packet);
  unwrap (set_seq_num n packet).

Definition Dtcp_Shared : AsyncChannel chan (DtcpPacket P) := {|
  t_send packet :=
    expired ← atomically stop_sit;
    old ← atomically (swap_drf false);
    seq_num ← atomically fetch_add_seq_num;
    packet ← atomically (write_header (old || expired) seq_num packet);
    t_zoom dtcp_channel put_channel (t_send (into_packet packet));;
    atomically start_sit;
  t_recv :=
    expired ← atomically stop_rit;
    atomically (store_drf expired);;
    packet ← t_zoom dtcp_channel put_channel t_recv;
    packet ← atomically (r ← unwrap (parse packet); try r);
    atomically start_rit;;
    mret packet
|}.

Lemma Dtcp_SharedLaws {CH : Channel S P} {AL : AsyncLaws S P} :
  AsyncLaws chan (DtcpPacket P) (AsyncChannel0:=Dtcp_Shared).
Proof.
  split; [intros packet s|intros s]; cbn [t_send t_recv send recv Dtcp_Shared Dtcp_Channel]; run.
  - rewrite run_then, run_atomically. unfold dtcp_send; run.
    destruct (stop_sit s) as [e s1| | | |]; try done. rewrite run_then, run_atomically.
    destruct (swap_drf false s1) as [o s2| | | |]; try done. rewrite run_then, run_atomically.
    destruct (fetch_add_seq_num s2) as [n s3| | | |]; try done. rewrite run_then, run_atomically.
    unfold write_header; run.
    destruct (set_ty _ packet) as [q|]; cbn [unwrap mret M_ret]; [|done].
    destruct (set_seq_num n q) as [q'|]; cbn [unwrap mret M_ret]; [|done].
    rewrite run_then, (run_t_zoom dtcp_channel put_channel). unfold zoom; run. rewrite run_t_send.
    destruct (send _ _); try done. by rewrite run_atomically.
  - rewrite run_then, run_atomically. unfold dtcp_recv; run.
    destruct (stop_rit s) as [e s1| | | |]; try done. rewrite run_then, run_atomically.
    destruct (store_drf e s1) as [o s2| | | |]; try done.
    rewrite run_then, (run_t_zoom dtcp_channel put_channel). unfold zoom; run. rewrite run_t_recv.
    destruct (recv _) as [p s3| | | |]; try done. rewrite run_then, run_atomically. run.
    destruct (parse p) as [[q|]|]; try done. cbn [unwrap try mret M_ret].
    rewrite run_then, run_atomically. by destruct (start_rit _).
Qed.
End dtcp.

Section disco.
Context {BC : BytesCrate} {BO : ByteOrderCrate} {DC : DiscoCrate}.
Context {S P : Type} {BP : BasePacket P} {AC : AsyncChannel S P}.
#[local] Abbreviation chan := (DiscoChannel S).

(** The packet under its nonce; the cipher is not changed by it. *)
Definition seal_with (nonce : Z) (packet : DiscoPacket P) : M io_error chan (DiscoPacket P) :=
  packet ← unwrap (set_nonce nonce packet);
  t ← gets transport;
  '(packet, tag) ← unwrap (encrypt t nonce packet);
  unwrap (set_tag tag packet).

Definition Disco_Shared : AsyncChannel chan (DiscoPacket P) := {|
  t_send packet :=
    nonce ← atomically fetch_add_nonce;
    packet ← atomically (seal_with nonce packet);
    t_zoom disco_channel put_disco (t_send (into_packet packet));
  t_recv :=
    p ← t_zoom disco_channel put_disco t_recv;
    atomically (unseal_packet p)
|}.

Lemma Disco_SharedLaws {CH : Channel S P} {AL : AsyncLaws S P} :
  AsyncLaws chan (DiscoPacket P) (AsyncChannel0:=Disco_Shared).
Proof.
  split; [intros packet s|intros s]; cbn [t_send t_recv send recv Disco_Shared Disco_Channel]; run.
  - rewrite run_then, run_atomically. unfold disco_send; run.
    destruct (fetch_add_nonce s) as [n s1| | | |]; try done. rewrite run_then, run_atomically.
    unfold seal_with; run.
    destruct (set_nonce n packet) as [q|]; cbn [unwrap mret M_ret]; [|done].
    destruct (encrypt _ n q) as [[q1 tag]|]; cbn [unwrap mret M_ret]; [|done].
    destruct (set_tag tag q1) as [q2|]; cbn [unwrap mret M_ret]; [|done].
    rewrite (run_t_zoom disco_channel put_disco). unfold zoom. by rewrite run_t_send.
  - rewrite run_then, (run_t_zoom disco_channel put_disco). unfold disco_recv, zoom; run. rewrite run_t_recv.
    destruct (recv _); try done. by rewrite run_atomically.
Qed.
End disco.

Section efcp.
Context {BC : BytesCrate} {BO : ByteOrderCrate} {PR : Profile} {DC : DiscoCrate} {DS : DiscoSession DC}.
Context {S P C : Type} {BP : BasePacket P} {AC : AsyncChannel S P} {CK : Clock C}.

#[local] Abbreviation efcp := (EfcpChannel (S:=S) (C:=C)).
#[local] Abbreviation Q := (DtcpPacket (DiscoPacket P)).

#[local] Existing Instances Dtcp_Shared Disco_Shared.

Definition Efcp_Shared : AsyncChannel efcp Q := {|
  t_send packet := t_zoom efcp_channel put_sealed (t_send packet);
  t_recv := t_zoom efcp_channel put_sealed t_recv
|}.

#[export] Instance Efcp_Lens : Lens (S:=efcp) efcp_channel put_sealed.
Proof. split; by intros; try destruct s. Qed.

(** The sections of a call, run one after the other, are the call. *)
Lemma Efcp_SharedLaws {CH : Channel S P} {AL : AsyncLaws S P} : AsyncLaws efcp Q (AsyncChannel0:=Efcp_Shared).
Proof.
  pose proof (Dtcp_SharedLaws (S:=DiscoChannel S) (P:=DiscoPacket P) (C:=C) (AL:=Disco_SharedLaws)) as H.
  split; [intros packet s|intros s]; cbn [t_send t_recv send recv Efcp_Shared Efcp_Channel];
    rewrite (run_t_zoom efcp_channel put_sealed); unfold zoom; by rewrite ?run_t_send, ?run_t_recv.
Qed.
End efcp.

(** ** What is handed to the channel below

    An auxiliary variable records the packets that the encrypted channel hands
    to the channel below, in order. *)

Record tapped (S : Type) : Type := MkTapped { handed : list (list byte); below : S }.
Arguments MkTapped {S} _ _.
Arguments handed {S} _.
Arguments below {S} _.

Definition put_below {S} (s : S) (l : tapped S) : tapped S := MkTapped (handed l) s.

Section tapped.
Context {S P : Type} {BP : BasePacket P} {AC : AsyncChannel S P}.

Definition hand_over (packet : P) : M io_error (tapped S) () :=
  w ← unwrap (payload packet);
  modify (λ l, MkTapped (handed l ++ [w]) (below l)).

#[export] Instance Tapped_Async : AsyncChannel (tapped S) P := {|
  t_send packet := atomically (hand_over packet);; t_zoom below put_below (t_send packet);
  t_recv := t_zoom below put_below t_recv
|}.

(** A channel whose calls keep a fact about its state, and whose sends do not
    panic. *)
Class CalmChannel (ok : S → Prop) : Prop := {
  calm_send p w : payload p = Some w → calm ok False (t_send p);
  calm_recv : calm ok True t_recv
}.
End tapped.
Arguments CalmChannel S P {_ _} ok.

(** ** Tickets for numbers and nonces *)

(** What a task that sends has of its call: the payload, and from the
    counters how many calls were there before it. *)
Inductive ticket : Type :=
| Started (call : nat) (text : list byte)
| Numbered (call : nat) (text : list byte) (number : nat)
| Sealed (call : nat) (text : list byte) (number nonce : nat).

Definition t_call (t : ticket) : nat :=
  match t with Started j _ | Numbered j _ _ | Sealed j _ _ _ => j end.
Definition t_text (t : ticket) : list byte :=
  match t with Started _ s | Numbered _ s _ | Sealed _ s _ _ => s end.
Definition t_number (t : ticket) : option nat :=
  match t with Started _ _ => None | Numbered _ _ k | Sealed _ _ k _ => Some k end.
Definition t_nonce (t : ticket) : option nat :=
  match t with Sealed _ _ _ i => Some i | _ => None end.

(** A counter that started at [start] has given out each of [0], [1], ... to
    one of the tickets. *)
Definition counted (w start next : Z) (f : ticket → option nat) (l : list ticket) : Prop :=
  next = wrap w (start + Z.of_nat (length (omap f l))) ∧ omap f l ≡ₚ seq 0 (length (omap f l)).

Lemma counted_perm w start next f l l' : l ≡ₚ l' → counted w start next f l → counted w start next f l'.
Proof. intros Hl [Hn Hs]. unfold counted. by rewrite <-Hl. Qed.

Lemma counted_same w start next f t t' l : f t' = f t →
  counted w start next f (t :: l) → counted w start next f (t' :: l).
Proof. intros Ht. unfold counted. cbn. by rewrite Ht. Qed.

Lemma wrap_add w a b : wrap w (wrap w a + b) = wrap w (a + b).
Proof. apply Zplus_mod_idemp_l. Qed.

(** The counter is read and goes on. *)
Lemma counted_next w start next f t t' l : counted w start next f (t :: l) → f t = None →
  f t' = Some (length (omap f l)) →
  next = wrap w (start + Z.of_nat (length (omap f l))) ∧
  counted w start (wrap w (next + 1)) f (t' :: l).
Proof.
  unfold counted. cbn. intros [-> Hs] Ht Ht'. rewrite Ht, Ht' in *. split; [done|]. split.
  - rewrite wrap_add. f_equal. cbn. lia.
  - cbn [length]. rewrite seq_S, Nat.add_0_l. rewrite <-Permutation_cons_append. by constructor.
Qed.

Lemma counted_NoDup w start next f l : counted w start next f l →
  NoDup (omap f l) ∧ Forall (λ i, (i < length l)%nat) (omap f l).
Proof.
  intros [_ Hs]. split; [by rewrite Hs; apply NoDup_ListNoDup, seq_NoDup|].
  assert (length (omap f l) ≤ length l)%nat as Hl.
  { clear. induction l as [|t l IH]; [done|]. cbn. destruct (f t); cbn; lia. }
  apply Forall_forall. intros i Hi. rewrite Hs in Hi. apply elem_of_seq in Hi. lia.
Qed.

(** ** The invariant of a shared channel *)

Section shared.
Context {BC : BytesCrate} {BL : BytesLaws BC} {BO : ByteOrderCrate} {BOL : ByteOrderLaws BO}.
Context {PR : Profile} {DC : DiscoCrate} {DL : DiscoLaws DC} {DS : DiscoSession DC}.
Context {S P C : Type} {BP : BasePacket P} {max : Z} {PL : PacketLaws P max}.
Context {AC : AsyncChannel S P} {CK : Clock C} (ok : S → Prop) {CC : CalmChannel S P ok}.

#[local] Abbreviation chan := (EfcpChannel (S:=tapped S) (C:=C)).
#[local] Abbreviation Q := (DtcpPacket (DiscoPacket P)).
#[local] Abbreviation call := (channel_call Q).

#[local] Existing Instances Dtcp_Shared Disco_Shared.
#[local] Instance shared_channel : AsyncChannel chan Q := Efcp_Shared.

#[local] Arguments disco_wire : simpl never.

(** A call on the shared channel, as a task. *)
Definition call_task (x : call) : thread io_error chan (option Q) :=
  match x with
  | CallSend q => t_send q;; mret None
  | CallRecv => q ← t_recv; mret (Some q)
  end.

Definition tap (c : chan) : tapped S := disco_channel (dtcp_channel (efcp_channel c)).
Definition number_of (c : chan) : Z := next_seq_num (efcp_channel c).

(** What goes on below: the state of the channel below changes. *)
Definition put_inner_below (s : S) (c : chan) : chan := put_inner (put_below s (tap c)) c.
Definition below_changes (c c' : chan) : Prop := ∃ s, ok s ∧ c' = put_inner_below s c.

(** A packet that was handed over: for which call, with which payload and
    flag, and how many numbers and nonces were given out before its own. *)
Record handed_packet : Type := MkHanded {
  h_call : nat;
  h_text : list byte;
  h_flag : bool;
  h_number : nat;
  h_nonce : nat
}.

(** The channel at the start. *)
Context (c0 : chan).

Definition number_on_wire (e : handed_packet) : Z := wrap 16 (number_of c0 + Z.of_nat (h_number e)).
Definition nonce_on_wire (e : handed_packet) : Z := wrap 64 (nonce_of c0 + Z.of_nat (h_nonce e)).
Definition packet_wire (e : handed_packet) : list byte :=
  disco_wire (cipher c0) (nonce_on_wire e)
    (dtcp_header (Transfer (h_flag e)) (number_on_wire e) ++ h_text e).

Definition sealed_ticket (e : handed_packet) : ticket := Sealed (h_call e) (h_text e) (h_number e) (h_nonce e).

(** The payload is that of the call. *)
Definition started (xs : list call) (t : ticket) : Prop :=
  ∃ q, xs !! t_call t = Some (CallSend q) ∧ payload q = Some (t_text t).

(** [l]: every ticket so far, of packets handed over, of tasks, and lost. *)
Record ledger (xs : list call) (c : chan) (es : list handed_packet) (l : list ticket) : Prop := {
  l_handed : handed (tap c) = packet_wire <$> es;
  l_below : ok (below (tap c));
  l_cipher : cipher c = cipher c0;
  l_calls : NoDup (t_call <$> l);
  l_started : Forall (started xs) l;
  l_sent : (length l ≤ length (sent xs))%nat;
  l_numbers : counted 16 (number_of c0) (number_of c) t_number l;
  l_nonces : counted 64 (nonce_of c0) (nonce_of c) t_nonce l
}.

Definition ledger_inv (xs : list call) (c : chan) (own : list ticket) : Prop :=
  ∃ es lost, ledger xs c es ((sealed_ticket <$> es) ++ own ++ lost).

Lemma ledger_perm xs c es l l' : l ≡ₚ l' → ledger xs c es l → ledger xs c es l'.
Proof using Type.
  intros Hl [? ? ? ? ? ? ? ?]. split; [done..|by rewrite <-Hl|by rewrite <-Hl|by rewrite <-Hl| |]; by eapply counted_perm.
Qed.

Lemma ledger_inv_perm xs c own own' : own ≡ₚ own' → ledger_inv xs c own → ledger_inv xs c own'.
Proof using Type.
  intros Ho (es & lost & H). exists es, lost. eapply ledger_perm, H. by rewrite Ho.
Qed.

Lemma ledger_inv_lost xs c own l : ledger_inv xs c (own ++ l) → ledger_inv xs c l.
Proof using Type.
  intros (es & lost & H). exists es, (own ++ lost). eapply ledger_perm, H.
  apply Permutation_app_head. rewrite !(assoc_L (++)). apply Permutation_app_tail, Permutation_app_comm.
Qed.

(** A section that changes none of what the invariant looks at. *)
Definition quiet (c c' : chan) : Prop :=
  tap c' = tap c ∧ cipher c' = cipher c ∧ number_of c' = number_of c ∧ nonce_of c' = nonce_of c.

Lemma ledger_inv_quiet xs c c' own : quiet c c' → ledger_inv xs c own → ledger_inv xs c' own.
Proof using Type.
  intros (Hi & Hc & Hn & Hk) (es & lost & [? ? ? ? ? ? ? ?]). exists es, lost.
  split; try done; by rewrite ?Hi, ?Hc, ?Hn, ?Hk.
Qed.

Lemma ledger_inv_below xs c own s : ok s → ledger_inv xs c own → ledger_inv xs (put_inner_below s c) own.
Proof using Type. intros Hs (es & lost & [? ? ? ? ? ? ? ?]). exists es, lost. by split. Qed.

#[local] Abbreviation tracks g p may := (holds (S:=chan) ledger_inv g p may).

Lemma tracks_quiet {T A} g (p : T → chan → chan) (may : Prop) own (m : M io_error T A) :
  (∀ c, match m (g c) with
        | Return _ s | Throw _ s | Suspend s => quiet c (p s c)
        | Panic | Diverge => may
        end) →
  tracks g p may (λ _ own', own' = own) own (atomically m).
Proof using Type.
  intros Hm. apply holds_atomically. intros xs c F Hi. specialize (Hm c).
  destruct (m (g c)); try done; try by eapply ledger_inv_quiet.
  exists own. split; [|done]. by eapply ledger_inv_quiet.
Qed.

(** The views of the layers. *)
#[local] Abbreviation at_disco := (λ c : chan, dtcp_channel (efcp_channel c)).
#[local] Abbreviation put_at_disco := (λ u (c : chan), put_sealed (put_channel u (efcp_channel c)) c).
#[local] Abbreviation at_inner := (λ c : chan, disco_channel (dtcp_channel (efcp_channel c))).
#[local] Abbreviation put_at_inner := (λ u (c : chan),
  put_sealed (put_channel (put_disco u (dtcp_channel (efcp_channel c))) (efcp_channel c)) c).

Lemma ledger_inv_cons xs c t F : ledger_inv xs c ([t] ++ F) ↔
  ∃ es lost, ledger xs c es (t :: (sealed_ticket <$> es) ++ F ++ lost).
Proof using Type.
  split; intros (es & lost & H); exists es, lost; (eapply ledger_perm, H); cbn.
  - symmetry. apply Permutation_middle.
  - apply Permutation_middle.
Qed.

(** A number is given out. *)
Lemma tracks_number may j s :
  tracks efcp_channel put_sealed may
    (λ n own, ∃ k, own = [Numbered j s k] ∧ n = wrap 16 (number_of c0 + Z.of_nat k))
    [Started j s] (atomically fetch_add_seq_num).
Proof using Type.
  apply holds_atomically. intros xs c F (es & lost & [? ? ? ? [? ?]%Forall_cons ? Hn Hk])%ledger_inv_cons.
  cbn [fetch_add_seq_num]. set (l := _ ++ _ ++ _) in *. set (k := length (omap t_number l)).
  destruct (counted_next _ _ _ _ _ (Numbered j s k) l Hn eq_refl eq_refl) as [Heq Hn'].
  exists [Numbered j s k]. split; [|by exists k]. apply ledger_inv_cons. exists es, lost.
  split; try done. by constructor.
Qed.

(** A nonce is given out. *)
Lemma tracks_nonce may j s k :
  tracks at_disco put_at_disco may
    (λ n own, ∃ i, own = [Sealed j s k i] ∧ n = wrap 64 (nonce_of c0 + Z.of_nat i))
    [Numbered j s k] (atomically fetch_add_nonce).
Proof using Type.
  apply holds_atomically. intros xs c F (es & lost & [? ? ? ? [? ?]%Forall_cons ? Hn Hk])%ledger_inv_cons.
  cbn [fetch_add_nonce]. set (l := _ ++ _ ++ _) in *. set (i := length (omap t_nonce l)).
  destruct (counted_next _ _ _ _ _ (Sealed j s k i) l Hk eq_refl eq_refl) as [Heq Hk'].
  exists [Sealed j s k i]. split; [|by exists i]. apply ledger_inv_cons. exists es, lost.
  split; try done. by constructor.
Qed.

(** A packet is handed over. *)
Lemma tracks_hand_over may p e :
  payload p = Some (packet_wire e) →
  tracks at_inner put_at_inner may (λ _ own, own = []) [sealed_ticket e] (atomically (hand_over p)).
Proof using Type.
  intros Hp. apply holds_atomically. intros xs c F (es & lost & [Hh ? ? ? ? ? ? ?])%ledger_inv_cons.
  unfold hand_over; run. rewrite Hp. cbn [unwrap mret M_ret]. exists []. split; [|done].
  exists (es ++ [e]), lost. eapply (ledger_perm _ _ _ (sealed_ticket e :: (sealed_ticket <$> es) ++ F ++ lost)).
  - rewrite fmap_app, <-(assoc_L (++)). apply Permutation_middle.
  - split; try done. rewrite fmap_app, <-Hh. done.
Qed.

(** The header, and the packet under its nonce. *)
Lemma tracks_header may own f n (q : Q) s : payload q = Some s →
  tracks efcp_channel put_sealed may
    (λ q' own', own' = own ∧ payload (into_packet (P:=DiscoPacket P) q') = Some (dtcp_header (Transfer f) n ++ s))
    own (atomically (write_header f n q)).
Proof using PL BOL BL.
  intros Hs. apply holds_atomically. intros xs c F Hi.
  destruct (dtcp_packet_payload f n q s Hs) as (p & Hp & Hpay). revert Hp.
  unfold write_header, dtcp_packet; run. destruct (set_ty _ q) as [q1|]; [|done]. cbn [unwrap mret M_ret mbind option_bind].
  destruct (set_seq_num n q1) as [q2|]; [|done]. intros [= <-]. cbn [unwrap mret M_ret].
  exists own. by destruct c.
Qed.

Lemma tracks_seal may own n (q : DiscoPacket P) w : payload q = Some w →
  tracks at_disco put_at_disco may
    (λ q' own', own' = own ∧ payload (into_packet (P:=P) q') = Some (disco_wire (cipher c0) n w))
    own (atomically (seal_with n q)).
Proof using PL BOL DL BL.
  intros Hs. apply holds_atomically. intros xs c F Hi.
  assert (transport (dtcp_channel (efcp_channel c)) = cipher c0) as Ht by (destruct Hi as (? & ? & H); exact (l_cipher _ _ _ _ H)).
  destruct (disco_packet_payload (cipher c0) n q w Hs) as (p & Hp & Hpay). revert Hp.
  unfold seal_with, disco_packet; run. destruct (set_nonce n q) as [q1|]; [|done].
  cbn [unwrap mret M_ret mbind option_bind]. rewrite Ht.
  destruct (encrypt _ n q1) as [[q2 tg]|]; [|done]. cbn [unwrap mret M_ret mbind option_bind].
  destruct (set_tag tg q2) as [q3|]; [|done]. intros [= <-]. cbn [unwrap mret M_ret].
  exists own. split; [|done]. by eapply ledger_inv_quiet, Hi.
Qed.

(** The channel below does what it does. *)
Lemma tracks_below {A} may own (t : thread io_error S A) : calm ok may t →
  tracks at_inner put_at_inner may (λ _ own', own' = own) own (t_zoom below put_below t).
Proof using Type.
  intros Ht. apply holds_zoom, holds_calm with ok; [| |done].
  - intros xs c l (es & lost & []). done.
  - intros xs c l u Hi Hu. exact (ledger_inv_below xs c l u Hu Hi).
Qed.

(** ** The calls *)

Lemma tracks_send_disco j s k f (q : DiscoPacket P) :
  payload q = Some (dtcp_header (Transfer f) (wrap 16 (number_of c0 + Z.of_nat k)) ++ s) →
  tracks at_disco put_at_disco False (λ _ own, own = []) [Numbered j s k] (t_send q).
Proof using PL BOL DL BL CC.
  intros Hq. cbn [t_send Disco_Shared].
  eapply holds_bind; [apply tracks_nonce|]. intros n own (i & -> & ->).
  eapply holds_bind; [by apply tracks_seal|]. intros q' own [-> Hq']. apply holds_zoom.
  cbn [t_send Tapped_Async].
  eapply holds_bind; [by apply (tracks_hand_over _ _ (MkHanded j s f k i))|]. intros [] own ->.
  apply tracks_below. by eapply calm_send.
Qed.

Lemma tracks_send j (q : Q) s : payload q = Some s →
  tracks (λ c, c) (λ c _, c) False (λ _ _, True) [Started j s] (t_send q).
Proof using PL BOL DL BL CC.
  intros Hs. apply holds_zoom. cbn [t_send Dtcp_Shared].
  eapply holds_bind; [by apply tracks_quiet; intros c; unfold stop_sit; destruct (Timer_stop _ _) as [[]]|].
  intros expired own ->.
  eapply holds_bind; [by apply tracks_quiet|]. intros old own ->.
  eapply holds_bind; [apply tracks_number|]. intros n own (k & -> & ->).
  eapply holds_bind; [by apply tracks_header|]. intros q' own [-> Hq'].
  eapply holds_bind; [by apply holds_zoom; eapply tracks_send_disco|]. intros [] own ->.
  eapply holds_mono; [by apply tracks_quiet; intros c; unfold start_sit; destruct (Timer_start _ _)|done].
Qed.

Lemma tracks_recv :
  tracks (λ c, c) (λ c _, c) True (λ _ _, True) [] (t_recv (P:=Q)).
Proof using CC.
  apply holds_zoom. cbn [t_recv Dtcp_Shared].
  eapply holds_bind; [by apply tracks_quiet; intros c; unfold stop_rit; destruct (Timer_stop _ _) as [[]]|].
  intros expired own ->.
  eapply holds_bind; [by apply tracks_quiet|]. intros [] own ->.
  eapply (holds_bind _ _ _ _ (λ _ own, own = [])); [apply holds_zoom; cbn [t_recv Disco_Shared]|].
  { eapply holds_bind; [by apply holds_zoom, tracks_below, calm_recv|]. intros p own ->.
    apply tracks_quiet. intros c. unfold unseal_packet; run.
    destruct (parse p) as [[q|]|]; cbn [unwrap try mret M_ret throw]; try done.
    destruct (nonce q); cbn [unwrap mret M_ret]; [|done]. destruct (tag q); cbn [unwrap mret M_ret]; [|done].
    destruct (decrypt _ _ _ q) as [[? []]|]; done. }
  intros p own ->.
  eapply holds_bind; [by apply tracks_quiet; intros c; run; destruct (parse p) as [[]|]|]. intros q own ->.
  eapply holds_bind; [by apply tracks_quiet; intros c; unfold start_rit; destruct (Timer_start _ _)|].
  by intros [] own ->.
Qed.

(** A packet that can be sent. *)
Definition sendable (x : call) : Prop := match x with CallSend q => is_Some (payload q) | CallRecv => True end.

(** What the run of a task may end in: a receive panics on some packets. *)
Definition may_panic (x : call) : Prop := match x with CallSend _ => False | CallRecv => True end.

Lemma started_app xs ys t : started xs t → started (xs ++ ys) t.
Proof using Type. intros (q & Hq & Hs). exists q. split; [|done]. by apply lookup_app_l_Some. Qed.

Lemma ledger_start xs c own x : sendable x → ledger_inv xs c own →
  ∃ own', ledger_inv (xs ++ [x]) c (own' ++ own) ∧ holds_all ledger_inv may_panic x own' (call_task x).
Proof using PL BOL DL BL CC.
  intros Hx (es & lost & [? ? ? ? Hst Hlen ? ?]). destruct x as [q|].
  - destruct Hx as [s Hs]. exists [Started (length xs) s]. split.
    + apply ledger_inv_cons. exists es, lost. split; try done.
      * cbn [fmap list_fmap t_call]. constructor; [|done]. intros (t & Ht & Hin)%list_elem_of_fmap.
        rewrite Forall_forall in Hst. destruct (Hst t Hin) as (q' & Hq' & _).
        apply lookup_lt_Some in Hq'. lia.
      * constructor; [|by eapply Forall_impl; [exact Hst|intros t; apply started_app]].
        exists q. cbn. by rewrite list_lookup_middle.
      * unfold sent in *. rewrite omap_app, length_app. cbn in *. lia.
    + unfold holds_all, call_task. eapply holds_bind; [by apply tracks_send|done].
  - exists []. split.
    + exists es, lost. split; try done.
      * eapply Forall_impl; [exact Hst|]. intros t. apply started_app.
      * etrans; [exact Hlen|]. unfold sent. rewrite omap_app, length_app. lia.
    + unfold holds_all, call_task. eapply holds_bind; [apply tracks_recv|done].
Qed.

Lemma ledger_run xs c ts : handed (tap c0) = [] → ok (below (tap c0)) →
  fits 16 (number_of c0) → fits 64 (nonce_of c0) →
  shared_run call_task sendable below_changes xs (c0, []) (c, ts) →
  (∃ own, ledger_inv xs c own) ∧ ∀ x, panicking x (c, ts) → may_panic x.
Proof using PL BOL DL BL CC.
  intros Hh Hok Hn Hk Hr.
  assert (∀ xs c1 c2 l, below_changes c1 c2 → ledger_inv xs c1 l → ledger_inv xs c2 l) as Henv.
  { intros xs' c1 c2 l (s & Hs & ->). by apply ledger_inv_below. }
  assert (ledger_inv [] c0 []) as Hi.
  { exists [], []. split; try done; try constructor; try done; cbn; rewrite Z.add_0_r;
      symmetry; by apply Z.mod_small. }
  destruct (shared_run_holds ledger_inv call_task sendable below_changes may_panic
    ledger_inv_perm ledger_inv_lost ledger_start Henv xs c0 (c, ts) Hi Hr) as [(owns & Hi' & _) Hp].
  split; [by exists (mjoin owns)|done].
Qed.

(** Different counts below [2 ^ w] are different on the wire. *)
Lemma wrap_NoDup w start (l : list nat) : 0 ≤ w → NoDup l → Forall (λ i, Z.of_nat i < 2 ^ w) l →
  NoDup ((λ i, wrap w (start + Z.of_nat i)) <$> l).
Proof using Type.
  intros Hw Hl Hb. rewrite Forall_forall in Hb. apply NoDup_fmap_2_strong; [|done].
  intros i j Hi Hj Hij. specialize (Hb i Hi) as Hi'. specialize (Hb j Hj). unfold wrap in Hij.
  assert (0 < 2 ^ w) by (apply Z.pow_pos_nonneg; lia).
  pose proof (Z.div_mod (start + Z.of_nat i) (2 ^ w) ltac:(lia)) as Ei.
  pose proof (Z.div_mod (start + Z.of_nat j) (2 ^ w) ltac:(lia)) as Ej. rewrite Hij in Ei.
  set (qi := (start + Z.of_nat i) / 2 ^ w) in *. set (qj := (start + Z.of_nat j) / 2 ^ w) in *.
  assert (Z.of_nat i - Z.of_nat j = 2 ^ w * (qi - qj)) as E by lia.
  assert (qi - qj = 0) by nia. nia.
Qed.

Lemma counted_on_wire w start next f (h : handed_packet → nat) es l N :
  0 ≤ w → counted w start next f ((sealed_ticket <$> es) ++ l) →
  (∀ e, f (sealed_ticket e) = Some (h e)) →
  (length ((sealed_ticket <$> es) ++ l) ≤ N)%nat → Z.of_nat N ≤ 2 ^ w →
  NoDup ((λ e, wrap w (start + Z.of_nat (h e))) <$> es).
Proof using Type.
  intros Hw [Hd Hb]%counted_NoDup Hf Hl HN.
  assert (omap f (sealed_ticket <$> es) = h <$> es) as E.
  { clear -Hf. induction es as [|e es IH]; [done|]. cbn. rewrite Hf. by f_equal. }
  rewrite omap_app, E in Hd, Hb. apply NoDup_app in Hd as (Hd & _). apply Forall_app in Hb as [Hb _].
  rewrite (list_fmap_compose h (λ i, wrap w (start + Z.of_nat i))). apply wrap_NoDup; [done|done|].
  eapply Forall_impl; [exact Hb|]. intros k Hk. cbn in Hk. lia.
Qed.

(** C26: One channel, any number of tasks.  Tasks send and receive on one EFCP
    channel at the same time; they are cut at every shared cell, interleave in
    any order, wait, fail, and are dropped at any point, over a channel that
    does whatever it does.  What the encrypted channel has handed to the
    channel below is then, packet by packet, the payload of a call of its own,
    under a nonce and a sequence number; up to 2^64 sends no two packets have
    the same nonce, up to 2^16 no two have the same number; and no send is
    about to panic. *)
Theorem shared_nonces (xs : list call) (c : chan) ts :
  handed (tap c0) = [] → ok (below (tap c0)) → fits 16 (number_of c0) → fits 64 (nonce_of c0) →
  shared_run call_task sendable below_changes xs (c0, []) (c, ts) →
  (∃ es, handed (tap c) = packet_wire <$> es ∧ NoDup (h_call <$> es) ∧
     Forall (λ e, ∃ q, xs !! h_call e = Some (CallSend q) ∧ payload q = Some (h_text e)) es ∧
     (Z.of_nat (length (sent xs)) ≤ 2 ^ 64 → NoDup (nonce_on_wire <$> es)) ∧
     (Z.of_nat (length (sent xs)) ≤ 2 ^ 16 → NoDup (number_on_wire <$> es))) ∧
  ∀ q, ¬ panicking (CallSend q) (c, ts).
Proof using PL BOL DL BL CC.
  intros Hh Hok Hn Hk Hr. destruct (ledger_run xs c ts Hh Hok Hn Hk Hr) as [(own & es & lost & H) Hp].
  split; [|intros q; exact (Hp (CallSend q))]. destruct H as [Hes _ _ Hc Hst Hl Hnum Hnon].
  rewrite fmap_app in Hc. apply NoDup_app in Hc as (Hc & _). rewrite <-list_fmap_compose in Hc.
  apply Forall_app in Hst as [Hst _].
  rewrite Forall_fmap in Hst. exists es. split_and!; [done|exact Hc|exact Hst| |]; intros HN.
  - by eapply (counted_on_wire 64 _ _ _ h_nonce es _ _ ltac:(done) Hnon).
  - by eapply (counted_on_wire 16 _ _ _ h_number es _ _ ltac:(done) Hnum).
Qed.
End shared.
