(* ===== verification/SharedExamples.v ===== *)
(** * Shared channels: what may be below them, and runs on concrete inputs *)

From S2P Require Export Shared Unreliable EfcpSocketProps DtpConcurrent.

(** ** Channels below *)

(** A channel that makes each call in one section. *)
Lemma one_section_calm {S P} {BP : BasePacket P} {CH : Channel S P} (ok : S → Prop) :
  (∀ p w s, payload p = Some w → ok s → no_panic (send p s)) → (∀ s, ok s → no_panic (recv (P:=P) s)) →
  channel_yields ok False P → CalmChannel S P ok (AC:=one_section).
Proof.
  intros Hs Hr [Hys Hyr]. split.
  - intros p w Hp s Hi. specialize (Hs p w s Hp Hi). specialize (Hys p s Hi).
    cbn. destruct (send p s); [by destruct Hys|done..].
  - intros s Hi. specialize (Hr s Hi). specialize (Hyr s Hi). cbn. destruct (recv s); [by destruct Hyr|done..].
Qed.

(** The lossy channel. *)
#[export] Instance Lossy_Calm {BC : BytesCrate} {R : Type} `{!Rng R} :
  CalmChannel (lossy (R:=R)) BytesMut (λ _, True) (AC:=one_section).
Proof.
  apply one_section_calm.
  - intros p w s _ _. change (send p s) with (lossy_send p s).
    by destruct (lossy_send_eq p s) as (s' & -> & _).
  - intros s _. change (recv s) with (lossy_recv s). pose proof (lossy_recv_spec s) as H.
    by destruct (LoopbackChannel.packets _); rewrite H.
  - split.
    + intros p s _. change (send p s) with (lossy_send p s). by destruct (lossy_send_eq p s) as (s' & -> & _).
    + intros s _. change (recv s) with (lossy_recv s). pose proof (lossy_recv_spec s) as H.
      by destruct (LoopbackChannel.packets _); rewrite H.
Qed.

(** A channel of the multiplexing socket, with its tables in order: the part
    of it that many sockets and channels share. *)
Section socket.
Import Dtp.
Context {BC : BytesCrate} {BL : BytesLaws BC} {BO : ByteOrderCrate}.
Context {SQ : SegQueueCrate} {SQL : SegQueueLaws SQ} {SL : SlabCrate} {SLL : SlabLaws SL}.
Context {PR : Profile}.
Context {K : Type} `{!UdpExt K} {UL : UdpExtLaws K} {UQ : UdpQuiet K} `{!UdpSocket K}.

Lemma DtpChannel_Calm X n fuel ch : (n < fuel)%nat →
  CalmChannel (Dtp.InnerDtpSocket (K:=K)) DtpPacket (EfcpSocketProps.keeps X n)
    (AC:=one_section (Channel0:=DtpChannel_Channel fuel ch)).
Proof.
  intros Hf. apply (@one_section_calm _ _ _ (DtpChannel_Channel fuel ch)); [| |by apply dtp_channel_yields].
  - intros p w s Hp (Hi & _). cbn [send DtpChannel_Channel].
    assert (valid_op (OpSend (handle ch) p)) as Ho by (by exists w).
    pose proof (proj1 (op_inv _ s Ho Hi)) as H. unfold run_op in H; revert H; run.
    by destruct (poll_send _ p s).
  - intros s (Hi & _). cbn [recv DtpChannel_Channel].
    pose proof (proj1 (op_inv (OpRecv fuel (handle ch)) s I Hi)) as H. unfold run_op in H; revert H; run.
    by destruct (poll_channel _ _ s).
Qed.

(** The same channel with the calls of the socket cut at their locks, as the
    critical sections of DtpConcurrent.v.  A poll that finds nothing is made
    again from its start when the task is woken, [n] times at most. *)
Fixpoint t_or {E S A} (r t : thread E S A) : thread E S A :=
  match t with
  | Finished a => Finished a
  | Atomic m => Atomic (λ s,
      match m s with
      | Return t s' => Return (t_or r t) s'
      | Suspend s' => Return r s'
      | Throw e s' => Throw e s'
      | Panic => Panic
      | Diverge => Diverge
      end)
  end.

Fixpoint repoll {E S A} (n : nat) (t : thread E S A) : thread E S A :=
  match n with
  | O => t
  | Datatypes.S n => t_or (repoll n t) t
  end.

Definition DtpChannel_Sections (n fuel : nat) (ch : DtpChannel)
    : AsyncChannel (Dtp.InnerDtpSocket (K:=K)) DtpPacket := {|
  t_send := t_poll_send (handle ch);
  t_recv := repoll n (t_poll_channel fuel (handle ch))
|}.

Lemma calm_any {E T A} (t : thread E T A) : calm (λ _, True) True t.
Proof.
  induction t as [a|m IH] using thread_ind_run; [done|]. intros s _. specialize (IH s).
  destruct (m s) as [t s'| | | |]; try done. split; [done|]. by apply (IH t s').
Qed.

(** A send is calm in any state of the socket, tables in order or not. *)
#[local] Instance DtpChannel_Sections_Calm n fuel ch :
  CalmChannel (Dtp.InnerDtpSocket (K:=K)) DtpPacket (λ _, True) (AC:=DtpChannel_Sections n fuel ch).
Proof.
  split; [|apply calm_any]. intros p w Hp s _. cbn. unfold poll_send; run.
  destruct (set_channel_wire p w (channel_id (handle ch)) Hp) as (p' & -> & _). cbn.
  unfold zoom, udp_poll_send. destruct (send_ext _ _ _ _) as [k' [m|e]]; [done|]. by case_decide.
Qed.
End socket.

(** ** Concrete inputs *)

Module SharedExample.
Import Reference.

#[local] Existing Instance TestChannelExample.constant.
#[local] Instance example_profile : Profile := dev.
#[local] Instance small : PacketLaws BytesMut 1000 := BytesMut_laws 1000.
#[local] Instance clock : Clock Z := {| now t := (t, t + 1) |}.
#[local] Instance below_channel : AsyncChannel (lossy (R:=())) BytesMut := one_section.

Abbreviation chan := (EfcpChannel (S:=tapped (lossy (R:=()))) (C:=Z)).
Abbreviation packet := (DtcpPacket (DiscoPacket BytesMut)).

(** A new channel of a session, over a lossy channel that loses nothing. *)
Definition start : chan :=
  MkEfcpChannel (MkDtcpChannel
    (DiscoChannel_new (MkTapped [] (LossyLoopback_new f64_one f64_zero, ())) (7 : Z)) true 0
    (MkTimer false 0 0) (MkTimer false 0 0) 0) Byte.x62 (lit "/ping/1.0") None.

Definition hello : list byte := [Byte.x68; Byte.x69].
Definition world : list byte := [Byte.x79; Byte.x6f; Byte.x75].

Definition packet_of (s : list byte) : packet :=
  default (MkDtcpPacket (MkDiscoPacket (RawBuf 0 [] []))) (from_slice (Q:=packet) s).

(** Two sends: the first takes its number, the second overtakes it, and the
    first goes on.  A receive is cancelled in between, and a third send is
    cancelled after it has taken the number 2 and the nonce 1. *)
Definition script : list (action (X:=channel_call packet)) :=
  [Start (CallSend (packet_of hello)); Start (CallSend (packet_of world)); Poll 0%nat; Poll 0%nat; Poll 0%nat] ++
  replicate 7 (Poll 1%nat) ++
  [Start CallRecv; Poll 2%nat; Poll 2%nat; Abandon 2%nat; Start (CallSend (packet_of hello))] ++
  replicate 5 (Poll 2%nat) ++ [Abandon 2%nat] ++ replicate 6 (Poll 0%nat).

Abbreviation shared_end := (shared_script call_task script (start, [])).

(** On the wire, the number 1 comes before the number 0, and the nonce 1 is
    not used. *)
Example overtaken : (handed ∘ tap ∘ fst) <$> shared_end =
  Some [disco_wire (7 : StatelessTransportState) 0 (dtcp_header (Transfer false) 1 ++ world);
        disco_wire (7 : StatelessTransportState) 2 (dtcp_header (Transfer true) 0 ++ hello)].
Proof. vm_compute. reflexivity. Qed.

Lemma script_sendable : Forall sendable (omap begun script).
Proof. repeat apply Forall_cons_2; try exact I; try apply Forall_nil_2; by eexists. Qed.

Lemma shared_nonces_witness :
  match shared_end with
  | Some (c, ts) => ∃ es, handed (tap c) = packet_wire start <$> es ∧ NoDup (nonce_on_wire start <$> es)
  | None => False
  end.
Proof.
  assert (match shared_end with Some _ => True | None => False end) as Hsome by (vm_compute; exact I).
  destruct shared_end as [[c ts]|] eqn:E; [|exact Hsome].
  destruct (shared_nonces (max:=1000) (λ _, True) start (omap begun script) c ts)
    as [(es & Hes & _ & _ & Hn & _) _].
  - reflexivity.
  - exact I.
  - unfold fits. cbn. lia.
  - unfold fits. cbn. lia.
  - exact (shared_script_run _ _ _ script (start, []) (c, ts) script_sendable E).
  - exists es. split; [exact Hes|]. apply Hn. vm_compute. discriminate.
Defined.
End SharedExample.
