(* ===== verification/Cancel.v ===== *)
(** * Futures that are polled and dropped (src/efcp/src/lib.rs)

    The futures of [dial] and [incoming] own the channel of the multiplexing
    socket that the handshake runs on, from the moment they have it: whether
    they fail or are dropped between two polls, the channel is dropped too. *)

From S2P Require Export EfcpTasks EfcpSocketProps.

(** ** Tasks that keep an invariant between their sections *)

(** [t_yields I Q t]: each section of [t] that starts with [I] ends with [I],
    whatever happens in between as long as [I] holds then; what [t] returns
    has [Q]. *)
Fixpoint t_yields {E S A} (I : S → Prop) (Q : A → Prop) (t : thread E S A) : Prop :=
  match t with
  | Finished a => Q a
  | Atomic m => ∀ s, I s →
    match m s with
    | Return t s' => I s' ∧ t_yields I Q t
    | Throw _ s' | Suspend s' => I s'
    | Panic => True
    | Diverge => False
    end
  end.

Section t_yields.
Context {E S : Type} (I : S → Prop).

Lemma t_yields_mono {A} (Q R : A → Prop) (t : thread E S A) :
  t_yields I Q t → (∀ a, Q a → R a) → t_yields I R t.
Proof.
  intros Ht HQ. induction t as [a|m IH] using thread_ind_run; [by apply HQ|].
  intros s Hs. specialize (Ht s Hs). specialize (IH s). destruct (m s) as [t s'| | | |]; try done.
  destruct Ht. split; [done|]. by apply (IH t s').
Qed.

Lemma t_yields_bind {A B} (Q : A → Prop) (R : B → Prop) (t : thread E S A) f :
  t_yields I Q t → (∀ a, Q a → t_yields I R (f a)) → t_yields I R (t ≫= f).
Proof.
  intros Ht Hf. induction t as [a|m IH] using thread_ind_run; [by apply Hf|].
  intros s Hs. specialize (Ht s Hs). specialize (IH s). destruct (m s) as [t s'| | | |]; try done.
  destruct Ht. split; [done|]. by apply (IH t s').
Qed.

Lemma t_yields_atomically {A} (Q : A → Prop) (m : M E S A) :
  yields I False Q m → t_yields I Q (atomically m).
Proof. intros Hm s Hs. specialize (Hm s Hs). cbn. by destruct (m s); [destruct Hm|..]. Qed.

Lemma t_yields_map_err {E' A} (Q : A → Prop) (f : E' → E) (t : thread E' S A) :
  t_yields I Q t → t_yields I Q (t_map_err f t).
Proof.
  intros Ht. induction t as [a|m IH] using thread_ind_run; [done|].
  intros s Hs. specialize (Ht s Hs). specialize (IH s). cbn [t_map_err].
  destruct (m s) as [t s'| | | |]; try done. destruct Ht. split; [done|]. by apply (IH t s').
Qed.

Lemma t_yields_zoom {T A} (J : T → Prop) (Q : A → Prop) (g : S → T) p (t : thread E T A) :
  (∀ s, I s → J (g s)) → (∀ s u, I s → J u → I (p u s)) → t_yields J Q t → t_yields I Q (t_zoom g p t).
Proof.
  intros Hg Hp Ht. induction t as [a|m IH] using thread_ind_run; [done|].
  intros s Hs. specialize (Ht (g s) (Hg s Hs)). specialize (IH (g s)). specialize (Hp s). cbn [t_zoom].
  destruct (m (g s)) as [t s'| | | |]; [|auto|auto|done..]. destruct Ht. split; [auto|]. by apply (IH t s').
Qed.

(** A poll: what it leaves keeps on. *)
Lemma poll_yields {A} (Q : A → Prop) (t : thread E S A) s : t_yields I Q t → I s →
  match poll_task t s with
  | Done (Return a s') => Q a ∧ I s'
  | Done (Throw _ s') => I s'
  | Done (Suspend _) => False
  | Done Panic => True
  | Done Diverge => False
  | Waits t' s' => t_yields I Q t' ∧ I s'
  end.
Proof.
  revert s. induction t as [a|m IH] using thread_ind_run; intros s Ht Hs; [done|].
  pose proof (Ht s Hs) as H. specialize (IH s). cbn [poll_task].
  destruct (m s) as [t s'| | | |]; try done. destruct H. by apply (IH t s').
Qed.
End t_yields.

(** The calls of a channel. *)
Definition async_yields {S : Type} (I : S → Prop) (P : Type) `{!AsyncChannel S P} : Prop :=
  (∀ p, t_yields I (λ _, True) (t_send p)) ∧ t_yields I (λ _, True) (t_recv (S:=S) (P:=P)).

Lemma one_section_yields {S P : Type} {CH : Channel S P} (I : S → Prop) :
  channel_yields I False P → async_yields I P (AsyncChannel0:=one_section).
Proof. intros [Hs Hr]. split; [intros p|]; by apply t_yields_atomically. Qed.

(** One step of a task. *)
Ltac t_yields_then tac :=
  eapply (t_yields_bind _ (λ _, True)); [solve [tac]|intros ? _];
  repeat match goal with |- t_yields _ _ (match ?x with pair _ _ => _ end) => is_var x; destruct x end.

(** ** The layers *)

Section layers.
Context {BC : BytesCrate} {BO : ByteOrderCrate} {PR : Profile} {DC : DiscoCrate}.
Context {S P C : Type} {BP : BasePacket P} {AC : AsyncChannel S P} {CK : Clock C}.
Context (I : S → Prop).
Hypothesis Hch : async_yields I P.

#[local] Abbreviation dtcp_inv := (λ c : DtcpChannel S C, I (dtcp_channel c)).
#[local] Abbreviation disco_inv := (λ c : DiscoChannel S, I (disco_channel c)).

Lemma dtcp_async_yields : async_yields dtcp_inv (DtcpPacket P).
Proof using Hch.
  destruct Hch as [Hs Hr]. split; [intros p|]; cbn [t_send t_recv Dtcp_Async].
  - t_yields_then ltac:(apply t_yields_atomically; unfold number_packet;
      yields_then ltac:(apply stop_sit_yields); yields_then ltac:(apply swap_drf_yields);
      yields_then ltac:(apply fetch_add_yields); yields_steps; by apply yields_unwrap).
    t_yields_then ltac:(by eapply t_yields_zoom; [| |apply Hs]).
    apply t_yields_atomically, start_sit_yields.
  - t_yields_then ltac:(apply t_yields_atomically; yields_then ltac:(apply stop_rit_yields);
      apply store_drf_yields).
    t_yields_then ltac:(by eapply t_yields_zoom; [| |apply Hr]).
    apply t_yields_atomically. unfold open_packet. yields_steps.
    yields_then ltac:(apply start_rit_yields). by apply yields_ret.
Qed.

Lemma disco_async_yields : async_yields disco_inv (DiscoPacket P).
Proof using Hch.
  destruct Hch as [Hs Hr]. split; [intros p|]; cbn [t_send t_recv Disco_Async].
  - t_yields_then ltac:(apply t_yields_atomically; unfold seal_packet;
      yields_then ltac:(apply fetch_nonce_yields); yields_steps; by apply yields_unwrap).
    by eapply t_yields_zoom; [| |apply Hs].
  - t_yields_then ltac:(by eapply t_yields_zoom; [| |apply Hr]).
    apply t_yields_atomically. unfold unseal_packet. yields_steps. case_match; by intros s Hs'.
Qed.
End layers.

(** ** The handshake *)

Section handshake.
Context {BC : BytesCrate} {BO : ByteOrderCrate} {PR : Profile}.
Context {DC : DiscoCrate} {DL : DiscoLaws DC} {DS : DiscoSession DC} {DSL : DiscoSessionLaws DS}.
Context {S P C : Type} {BP : BasePacket P} {AC : AsyncChannel S P} {CK : Clock C}.
Context (I : S → Prop).
Hypothesis Hch : async_yields I P.

#[local] Abbreviation clear := (DtcpChannel S C).
#[local] Abbreviation sealed := (DtcpChannel (DiscoChannel S) C).
#[local] Abbreviation clear_inv := (λ c : clear, I (dtcp_channel c)).
#[local] Abbreviation sealed_inv := (λ c : sealed, I (disco_channel (dtcp_channel c))).
#[local] Abbreviation whole_inv := (λ st : S * C, I st.1).

Lemma t_clear_yields : async_yields clear_inv (DtcpPacket P).
Proof using Hch. exact (dtcp_async_yields I Hch). Qed.

Lemma t_sealed_yields : async_yields sealed_inv (DtcpPacket (DiscoPacket P)).
Proof using Hch. exact (dtcp_async_yields _ (disco_async_yields I Hch)). Qed.

Lemma t_send_clear_yields msg session :
  t_yields clear_inv (λ session', messages_left session' = pred (messages_left session))
    (t_send_clear (S:=S) (C:=C) msg session).
Proof using Hch DSL.
  unfold t_send_clear.
  eapply (t_yields_bind _ (λ '(_, session'), messages_left session' = pred (messages_left session))).
  { apply t_yields_atomically. unfold write_clear. yields_then ltac:(by apply yields_map_err, yields_try).
    pose proof (left_write a session). destruct (session_write a session) as [ct session'].
    yields_steps. by apply yields_ret. }
  intros [packet session'] Hl. t_yields_then ltac:(apply t_yields_map_err, t_clear_yields). exact Hl.
Qed.

Lemma t_recv_clear_yields session :
  t_yields clear_inv (λ '(_, session'), messages_left session' = pred (messages_left session))
    (t_recv_clear (S:=S) (C:=C) session).
Proof using Hch DSL.
  unfold t_recv_clear. t_yields_then ltac:(apply t_yields_map_err, t_clear_yields).
  apply t_yields_atomically. unfold read_clear. yields_steps.
  destruct (session_read _ session) as [[pt|e] session'] eqn:E; [|by apply yields_throw].
  yields_then ltac:(apply parse_handshake_yields). apply yields_ret. by eapply left_read.
Qed.

Lemma t_send_sealed_yields msg : t_yields sealed_inv (λ _, True) (t_send_sealed (S:=S) (C:=C) msg).
Proof using Hch.
  unfold t_send_sealed.
  t_yields_then ltac:(apply t_yields_atomically; unfold write_sealed;
    yields_then ltac:(by apply yields_map_err, yields_try); by apply yields_unwrap).
  apply t_yields_map_err, t_sealed_yields.
Qed.

Lemma t_recv_sealed_yields : t_yields sealed_inv (λ _, True) (t_recv_sealed (S:=S) (C:=C)).
Proof using Hch.
  unfold t_recv_sealed. t_yields_then ltac:(apply t_yields_map_err, t_sealed_yields).
  apply t_yields_atomically. unfold read_sealed. yields_steps. apply parse_handshake_yields.
Qed.

Lemma t_initiator_loop_yields fuel session ps n ext next :
  own ps n → (messages_left session < fuel)%nat →
  t_yields clear_inv (λ '(_, n', _), own ps n')
    (t_initiator_loop (S:=S) (C:=C) fuel session n ext next).
Proof using Hch DSL.
  revert session n ext next. induction fuel as [|fuel IH]; intros session n ext next Ho Hl; [lia|].
  cbn [t_initiator_loop]. eapply t_yields_bind; [apply t_send_clear_yields|]. intros session1 Hl1.
  cbn in Hl1. rewrite left_finished. case_bool_decide; [done|].
  eapply t_yields_bind; [apply t_recv_clear_yields|]. intros [msg session2] Hl2.
  eapply t_yields_bind; [by apply t_yields_atomically, answer_yields|]. intros [next' n'] [Ho' _].
  apply IH; [done|lia].
Qed.

Lemma t_initiator_negotiate_yields fuel ps n : own ps n → (rounds n < fuel)%nat →
  t_yields sealed_inv (own ps) (t_initiator_negotiate (S:=S) (C:=C) fuel n).
Proof using Hch.
  revert n. induction fuel as [|fuel IH]; intros n Ho Hl; [lia|].
  cbn [t_initiator_negotiate]. unfold is_finished. destruct (finished n) eqn:Ef; [done|].
  t_yields_then ltac:(apply t_recv_sealed_yields).
  eapply t_yields_bind; [by apply t_yields_atomically, answer_yields|]. intros [[m|] n'] [Ho' Hr]; [|done].
  t_yields_then ltac:(apply t_send_sealed_yields). specialize (Hr ltac:(eauto) Ef). apply IH; [done|lia].
Qed.

Lemma t_responder_loop_yields fuel session ps n ext :
  own ps n → (messages_left session < fuel)%nat →
  t_yields clear_inv (λ '(_, n', _, _), own ps n')
    (t_responder_loop (S:=S) (C:=C) fuel session n ext).
Proof using Hch DSL.
  revert session n ext. induction fuel as [|fuel IH]; intros session n ext Ho Hl; [lia|].
  cbn [t_responder_loop]. eapply t_yields_bind; [apply t_recv_clear_yields|]. intros [msg session1] Hl1.
  eapply t_yields_bind; [by apply t_yields_atomically, answer_yields|]. intros [next n'] [Ho' _].
  rewrite left_finished. case_bool_decide; [done|].
  eapply t_yields_bind; [apply t_send_clear_yields|]. intros session2 Hl2. cbn in Hl2.
  apply IH; [done|lia].
Qed.

Lemma t_responder_negotiate_yields fuel ps n ext next : own ps n → (0 < fuel)%nat →
  (is_Some next → (rounds n + 1 < fuel)%nat) →
  t_yields sealed_inv (λ '(n', _), own ps n')
    (t_responder_negotiate (S:=S) (C:=C) fuel n ext next).
Proof using Hch.
  revert n ext next. induction fuel as [|fuel IH]; intros n ext next Ho H0 Hl; [lia|].
  cbn [t_responder_negotiate]. destruct next as [m|]; [|done].
  specialize (Hl ltac:(eauto)).
  t_yields_then ltac:(apply t_send_sealed_yields). unfold is_finished.
  destruct (finished n) eqn:Ef; [done|].
  t_yields_then ltac:(apply t_recv_sealed_yields).
  eapply t_yields_bind; [by apply t_yields_atomically, answer_yields|]. intros [next' n'] [Ho' Hr].
  apply IH; [done|lia|]. intros Hn. specialize (Hr Hn Ef). lia.
Qed.

(** Inside a channel that is built over the inner channel. *)
Lemma t_yields_scoped {E L X T A} (I0 : T → Prop) (J : L → Prop) (Q : A → Prop) (plug : X → T → L) cells leave
    enter (t : thread E L A) :
  (∀ x s, I0 s → J (plug x s)) → (∀ l, J l → I0 (leave l)) → (∀ s l, I0 s → enter s = Some l → J l) →
  t_yields J Q t → t_yields I0 Q (t_scoped plug cells leave enter t).
Proof using Type.
  intros Hp Hl He Ht s Hs. specialize (He s). destruct (enter s) as [l|]; [|done].
  split; [by apply Hl, He|]. generalize (cells l). clear l He s Hs. intros x. revert x.
  induction t as [a|m IH] using thread_ind_run; intros x; [done|].
  intros s Hs. specialize (Ht (plug x s) (Hp x s Hs)). specialize (IH (plug x s)). cbn [t_inside].
  destruct (m (plug x s)) as [t l|e l|l| |]; [|auto|auto|done..].
  destruct Ht. split; [auto|]. by apply (IH t l).
Qed.

Lemma t_in_clear_yields {A} (Q : A → Prop) (t : thread HandshakeError clear A) :
  t_yields clear_inv Q t → t_yields whole_inv Q (t_in_clear t).
Proof using Type.
  apply t_yields_scoped; [done|done|]. intros [s k] l Hs Hl. cbn in *. by rewrite (build_inv _ _ _ _ Hl).
Qed.

Lemma t_in_sealed_yields {A} session (Q : A → Prop) (t : thread HandshakeError sealed A) :
  t_yields sealed_inv Q t → t_yields whole_inv Q (t_in_sealed session t).
Proof using Type.
  apply t_yields_scoped; [done|done|]. intros [s k] l Hs Hl. cbn in *. by rewrite (build_inv _ _ _ _ Hl).
Qed.

(** Whole tasks. *)
Lemma t_initiator_yields fuel identity ps remote_public : (length ps + 3 < fuel)%nat →
  t_yields whole_inv (λ c, protocol c ∈ ps ∧ is_Some (efcp_external_addr c))
    (t_initiator fuel identity ps remote_public).
Proof using Hch DSL.
  intros Hfuel. pose proof (initiate_own ps) as Hi. unfold t_initiator.
  destruct (initiate _) as [m n| | | |]; try done. specialize (Hi m n eq_refl).
  eapply t_yields_bind.
  { apply t_in_clear_yields, t_initiator_loop_yields; [done|]. rewrite left_initiator. lia. }
  intros [[session n'] ext] Ho. t_yields_then ltac:(by apply t_yields_atomically, yields_unwrap).
  apply t_in_sealed_yields. destruct ext as [a'|]; [|by apply t_yields_atomically, yields_throw].
  eapply t_yields_bind; [apply t_initiator_negotiate_yields; [done|]; pose proof (rounds_own _ _ Ho); lia|].
  intros n'' Ho'. eapply t_yields_bind; [by apply t_yields_atomically, settle_yields|]. intros p Hp.
  t_yields_then ltac:(by apply t_yields_atomically, yields_get). by split; [|eexists].
Qed.

Lemma t_responder_yields fuel identity ps remote_addr : (length ps + 3 < fuel)%nat →
  t_yields whole_inv (λ c, protocol c ∈ ps) (t_responder fuel identity ps remote_addr).
Proof using Hch DSL.
  intros Hfuel. unfold t_responder. eapply t_yields_bind.
  { apply t_in_clear_yields, t_responder_loop_yields; [apply own_new|]. rewrite left_responder. lia. }
  intros [[[session n] ext] next] Ho. t_yields_then ltac:(by apply t_yields_atomically, yields_unwrap).
  apply t_in_sealed_yields. eapply t_yields_bind.
  { apply t_responder_negotiate_yields; [done|lia|]. pose proof (rounds_own _ _ Ho). lia. }
  intros [n' ext'] Ho'. eapply t_yields_bind; [by apply t_yields_atomically, settle_yields|]. intros p Hp.
  t_yields_then ltac:(by apply t_yields_atomically, yields_get). exact Hp.
Qed.
End handshake.

(** ** The futures of a socket *)

Import Dtp.

Lemma poll_catch {E S A} (h : E → M E S A) (t : thread E S A) s : (∀ e s s', h e s ≠ Suspend s') →
  poll_task (t_catch h t) s =
    match poll_task t s with
    | Done (Throw e s') => Done (h e s')
    | Waits t' s' => Waits (t_catch h t') s'
    | Done o => Done o
    end.
Proof.
  intros Hh. revert s. induction t as [a|m IH] using thread_ind_run; intros s; [done|]. specialize (IH s). cbn.
  destruct (m s) as [t s'|e s'|s'| |]; try done; [by apply (IH t s')|].
  specialize (Hh e s'). destruct (h e s'); try done. exfalso. by eapply Hh.
Qed.

Section futures.
Context {BC : BytesCrate} {BL : BytesLaws BC} {BO : ByteOrderCrate}.
Context {SQ : SegQueueCrate} {SQL : SegQueueLaws SQ} {SL : SlabCrate} {SLL : SlabLaws SL}.
Context {PR : Profile} {DC : DiscoCrate} {DL : DiscoLaws DC} {DS : DiscoSession DC} {DSL : DiscoSessionLaws DS}.
Context {K : Type} `{!UdpExt K} {UL : UdpExtLaws K} {UQ : UdpQuiet K} `{!UdpSocket K}.
Context {C : Type} {CK : Clock C}.

#[local] Abbreviation isock := (InnerDtpSocket (K:=K)).
#[local] Abbreviation state := (isock * C)%type.
#[local] Abbreviation efcp := (EfcpChannel (S:=isock) (C:=C)).
#[local] Abbreviation connected := (DtpChannel * efcp)%type.

Section future.
(** How the future gets a channel, and what it does with it. *)
Context (acquire : M io_error isock DtpChannel) (body : DtpChannel → thread HandshakeError state efcp).

(** A future that has no channel yet, one that owns a channel, and one that
    has given its result. *)
Inductive future : Type :=
| Unpolled
| Holding (ch : DtpChannel) (t : thread HandshakeError state efcp)
| Resolved.

(** The future, its result when it is ready, and the state; [None] is a
    panic, as when a future is polled after its end. *)
Definition poll_result : Type := option (future * option (result connected HandshakeError) * state).

(** The channel is dropped. *)
Definition give_back (ch : DtpChannel) : M HandshakeError state () := t_on_dtp (λ _ m, m) Io (DtpChannel_drop ch).

Definition poll_running (ch : DtpChannel) (t : thread HandshakeError state efcp) (st : state) : poll_result :=
  match poll_task t st with
  | Done (Return c st) => Some (Resolved, Some (Ok (ch, c)), st)
  | Done (Throw e st) =>
    match give_back ch st with
    | Return _ st => Some (Resolved, Some (Err e), st)
    | _ => None
    end
  | Waits t st => Some (Holding ch t, None, st)
  | Done _ => None
  end.

Definition poll_future (f : future) (st : state) : poll_result :=
  match f with
  | Unpolled =>
    match t_on_dtp (λ _ m, m) Io acquire st with
    | Return ch st => poll_running ch (body ch) st
    | Throw e st => Some (Resolved, Some (Err e), st)
    | Suspend st => Some (Unpolled, None, st)
    | _ => None
    end
  | Holding ch t => poll_running ch t st
  | Resolved => None
  end.

(** Dropping the future. *)
Definition drop_future (f : future) : M HandshakeError state () :=
  match f with Holding ch _ => give_back ch | _ => mret () end.

(** The rest of the async function. *)
Definition future_task (f : future) : thread HandshakeError state connected :=
  match f with
  | Unpolled =>
    channel ← atomically (t_on_dtp (λ _ m, m) Io acquire);
    efcp ← t_owning (λ _ m, m) channel (body channel);
    mret (channel, efcp)
  | Holding ch t => efcp ← t_owning (λ _ m, m) ch t; mret (ch, efcp)
  | Resolved => atomically panic
  end.

Lemma give_back_eq ch (st : state) :
  match give_back ch st with Return _ _ | Panic => True | _ => False end.
Proof using Type.
  unfold give_back, t_on_dtp, map_err, zoom, DtpChannel_drop, close, connection_id; run. cbn.
  destruct (channel_lookup st.1 !! handle ch) as [n|]; [|destruct (slab_insert _ _) as [i conns]]; cbn;
    by destruct (slab_remove _ _) as [[]|].
Qed.

(** Polling the future polls the async function. *)
Lemma poll_future_task f (st : state) :
  match poll_future f st with
  | Some (f', None, st') => poll_task (future_task f) st = Waits (future_task f') st'
  | Some (_, Some (Ok a), st') => poll_task (future_task f) st = Done (Return a st')
  | Some (_, Some (Err e), st') => poll_task (future_task f) st = Done (Throw e st')
  | None => poll_task (future_task f) st = Done Panic ∨ poll_task (future_task f) st = Done Diverge
  end.
Proof using Type.
  assert (∀ ch t st, match poll_running ch t st with
    | Some (f', None, st') => poll_task (future_task (Holding ch t)) st = Waits (future_task f') st'
    | Some (_, Some (Ok a), st') => poll_task (future_task (Holding ch t)) st = Done (Return a st')
    | Some (_, Some (Err e), st') => poll_task (future_task (Holding ch t)) st = Done (Throw e st')
    | None => poll_task (future_task (Holding ch t)) st = Done Panic ∨
              poll_task (future_task (Holding ch t)) st = Done Diverge
    end) as Hrun.
  { clear st. intros ch t st. unfold poll_running, future_task, t_owning. rewrite poll_bind.
    rewrite poll_catch.
    - pose proof (poll_ends t st) as Hne.
      destruct (poll_task t st) as [[c st'|e st'|st'| |]|t' st'] eqn:Et; try (by auto); [|by destruct (Hne st')].
      pose proof (give_back_eq ch st') as Hg. unfold give_back in *; run.
      destruct (t_on_dtp _ _ _ st'); try done. by left.
    - intros e s s' H. pose proof (give_back_eq ch s) as Hg. unfold give_back in *. revert H; run.
      by destruct (t_on_dtp _ _ _ s). }
  destruct f as [|ch t|]; [|apply Hrun|by left].
  unfold poll_future, future_task. rewrite poll_bind. cbn [atomically poll_task].
  destruct (t_on_dtp _ _ _ st) as [ch st'|e st'|st'| |]; try (by auto). exact (Hrun ch (body ch) st').
Qed.

(** ** What a future owns

    The others use the socket too, and may do anything that keeps its tables
    in order; with [mine], none of them closes the future's channel. *)

Context (n : nat) (mine : Prop).

Definition orderly (s : isock) : Prop := Inv s ∧ (backlog (socket s) ≤ n)%nat.

Definition held (ch : DtpChannel) (s : isock) : Prop := orderly s ∧ (mine → handle ch ∈ channels s).

Inductive future_step : future * state → future * state → Prop :=
| future_poll f st f' r st' : poll_future f st = Some (f', r, st') → future_step (f, st) (f', st')
| future_others f st st' : orderly st'.1 →
    (∀ ch t, f = Holding ch t → mine → handle ch ∈ channels st'.1) → future_step (f, st) (f, st').

(** What is known of the channels it gets, and of the sessions it makes. *)
Context (Got : isock → DtpChannel → Prop) (Q : efcp → Prop).
Hypothesis acquire_ok : ∀ s, orderly s →
  match acquire s with
  | Return ch s' => Got s ch ∧ held ch s'
  | Throw _ s' | Suspend s' => orderly s'
  | Panic => True
  | Diverge => False
  end.
Hypothesis body_ok : ∀ s ch, Got s ch → t_yields (λ st : state, held ch st.1) Q (body ch).

Definition future_ok (f : future) (st : state) : Prop :=
  orderly st.1 ∧
  match f with
  | Holding ch t => held ch st.1 ∧ (∃ s, Got s ch) ∧ t_yields (λ st : state, held ch st.1) Q t
  | _ => True
  end.

(** The channel of a future that ends without a session is free. *)
Definition given_back (c : Channel) (s : isock) : Prop :=
  orderly s ∧ (c ∉ channels s) ∧ channel_lookup s !! c = None.

Lemma give_back_ok ch (s : isock) (k : C) : orderly s →
  ∃ s', give_back ch (s, k) = Return () (s', k) ∧ given_back (handle ch) s' ∧
    channels s' = channels s ∖ {[handle ch]}.
Proof using BL SQL SLL UL UQ.
  intros [Hi Hn]. destruct (close_keeps (channels s) n (handle ch) s) as (s' & Hc & (Hi' & HX & Hn') & Hl);
    [by split_and!|].
  exists s'. unfold give_back, t_on_dtp, map_err, zoom, DtpChannel_drop. cbn [fst snd]. rewrite Hc.
  split; [done|]. split; [|done]. split_and!; [done|rewrite HX; clear; set_solver|done].
Qed.

Lemma poll_running_ok ch t (st : state) : held ch st.1 → (∃ s, Got s ch) →
  t_yields (λ st : state, held ch st.1) Q t →
  match poll_running ch t st with
  | Some (f', None, st') => future_ok f' st' ∧ ∃ t', f' = Holding ch t'
  | Some (f', Some (Ok (ch', c)), st') => f' = Resolved ∧ ch' = ch ∧ held ch st'.1 ∧ Q c
  | Some (f', Some (Err _), st') => f' = Resolved ∧ given_back (handle ch) st'.1
  | None => True
  end.
Proof using BL SQL SLL UL UQ.
  intros Hh Hg Ht. unfold poll_running. pose proof (poll_yields _ Q t st Ht Hh) as H.
  destruct (poll_task t st) as [[c st'|e st'|st'| |]|t' st']; try done.
  - by destruct H.
  - destruct H as [Ho _]. destruct st' as [s k].
    destruct (give_back_ok ch s k Ho) as (s' & -> & Hb & _). done.
  - destruct H as [Ht' Hh']. split; [|by exists t']. split; [by destruct Hh'|done].
Qed.

Lemma poll_running_leaves ch t (st : state) f' r st' : held ch st.1 → (∃ s, Got s ch) →
  t_yields (λ st : state, held ch st.1) Q t → poll_running ch t st = Some (f', r, st') → future_ok f' st'.
Proof using BL SQL SLL UL UQ.
  intros Hh Hg Ht Hp. pose proof (poll_running_ok ch t st Hh Hg Ht) as H. rewrite Hp in H.
  destruct r as [[[ch' c]|e]|].
  - destruct H as (-> & _ & [Ho _] & _). by split.
  - destruct H as (-> & Ho & _). by split.
  - apply H.
Qed.

Lemma future_step_ok f st f' st' : future_step (f, st) (f', st') → future_ok f st → future_ok f' st'.
Proof using BL SQL SLL UL UQ acquire_ok body_ok.
  intros Hs [Ho Hf]. inversion Hs as [f1 st1 f2 r st2 Hp|f1 st1 st2 Ho' Hm]; subst.
  - destruct f as [|ch t|]; [|destruct Hf as (Hh & Hg & Ht); by eapply poll_running_leaves|done].
    cbn [poll_future] in Hp. unfold t_on_dtp, map_err, zoom in Hp. pose proof (acquire_ok st.1 Ho) as Ha.
    destruct (acquire st.1) as [ch s1|e s1|s1| |]; try done.
    + destruct Ha as [Hg Hh]. eapply poll_running_leaves, Hp; [done|by eexists|by eapply body_ok].
    + injection Hp as <- <- <-. by split.
    + injection Hp as <- <- <-. by split.
  - split; [done|]. destruct f' as [|ch t|]; try done. destruct Hf as (Hh & Hg & Ht).
    split_and!; [|done|done]. split; [done|]. by eapply Hm.
Qed.

Lemma future_reach p p' : rtc future_step p p' → future_ok p.1 p.2 → future_ok p'.1 p'.2.
Proof using BL SQL SLL UL UQ acquire_ok body_ok.
  induction 1 as [|[f st] [f1 st1] p' Hs _ IH]; [done|]. intros Hok. by eapply IH, future_step_ok.
Qed.
End future.

(** ** [dial] and [incoming] *)

Definition dial_acquire (d : Dial) : M io_error isock DtpChannel :=
  DtpSocket_outgoing (dial_peer_addr d) (dial_channel d).

Definition dial_body (fuel : nat) (self : EfcpSocket) (d : Dial) (ch : DtpChannel)
    : thread HandshakeError state efcp :=
  t_initiator (AC:=one_section (Channel0:=DtpChannel_Channel fuel ch)) fuel
    (identity self) (socket_protocols self) (remote_public d).

Definition incoming_body (fuel : nat) (self : EfcpSocket) (ch : DtpChannel)
    : thread HandshakeError state efcp :=
  t_responder (AC:=one_section (Channel0:=DtpChannel_Channel fuel ch)) fuel
    (identity self) (socket_protocols self) (DtpChannel_peer_addr ch).

(** They are the async functions of EfcpTasks.v. *)
Lemma dial_future_task fuel self d :
  future_task (dial_acquire d) (dial_body fuel self d) Unpolled =
    t_dial (λ _ m, m) (λ ch, DtpChannel_Channel fuel ch) fuel self d.
Proof using Type. done. Qed.

Lemma incoming_future_task fuel self :
  future_task (Incoming_poll_next fuel) (incoming_body fuel self) Unpolled =
    t_incoming (λ _ m, m) (Incoming_poll_next fuel) (λ ch, DtpChannel_Channel fuel ch) fuel self.
Proof using Type. done. Qed.

Lemma keeps_held X n (mine : Prop) ch (s : isock) :
  (mine → handle ch ∈ X) → keeps X n s → held n mine ch s.
Proof using Type. intros Hm (Hi & HX & Hb). split; [done|by rewrite HX]. Qed.

Lemma held_channel_yields n mine fuel ch : (n < fuel)%nat →
  channel_yields (Channel0:=DtpChannel_Channel fuel ch) (held n mine ch) False DtpPacket.
Proof using BL SQL SLL UL UQ.
  intros Hf. split; [intros p|]; intros s [[Hi Hb] Hm];
    pose proof (λ s', keeps_held (channels s) n mine ch s' Hm) as Hk;
    destruct (dtp_channel_yields (channels s) n fuel ch Hf) as [Hs Hr].
  - specialize (Hs p s ltac:(by split_and!)). destruct (send p s); try done; [|by apply Hk..].
    split; [done|by apply Hk, Hs].
  - specialize (Hr s ltac:(by split_and!)). destruct (recv s); try done; [|by apply Hk..].
    split; [done|by apply Hk, Hr].
Qed.

Lemma dial_acquire_ok n d (s : isock) : orderly n s →
  let c := MkChannel (dial_peer_addr d) (dial_channel d) in
  match dial_acquire d s with
  | Return ch s' => ch = MkDtpChannel c ∧ held n True ch s'
  | Throw _ s' => s' = s ∧ c ∈ channels s
  | _ => False
  end.
Proof using BL SQL SLL UL UQ.
  intros [Hi Hb] c. unfold dial_acquire. rewrite outgoing_eq. fold c. case_decide as Hc; [done|].
  split; [done|]. eapply keeps_held; [|destruct (keeps_take s c Hi) as (? & ? & ?); split_and!; [done..|lia]].
  intros _. set_solver.
Qed.

(** A poll of the handshake of a channel that is taken. *)
Lemma dial_running n (Q : efcp → Prop) (c : Channel) t (st : state) :
  held n True (MkDtpChannel c) st.1 → t_yields (λ st : state, held n True (MkDtpChannel c) st.1) Q t →
  match poll_running (MkDtpChannel c) t st with
  | Some (_, Some (Ok (ch, e)), st') => Inv st'.1 ∧ handle ch = c ∧ c ∈ channels st'.1 ∧ Q e
  | Some (_, Some (Err _), st') => Inv st'.1 ∧ (c ∉ channels st'.1) ∧ channel_lookup st'.1 !! c = None
  | Some (f', None, st') => Inv st'.1 ∧ c ∈ channels st'.1 ∧ ∃ t, f' = Holding (MkDtpChannel c) t
  | None => True
  end.
Proof using BL SQL SLL UL UQ.
  intros Hh Ht.
  pose proof (poll_running_ok n True (λ _ _, True) Q (MkDtpChannel c) t st Hh (ex_intro _ st.1 I) Ht) as H.
  destruct (poll_running _ t st) as [[[f' [[[ch e]|e]|]] st']|]; try done.
  - destruct H as (_ & -> & [[Hi _] Hm] & Hq). split_and!; [done|done|by apply Hm|done].
  - by destruct H as (_ & [Hi _] & ? & ?).
  - destruct H as [Hok (t' & ->)]. destruct Hok as (_ & [[Hi _] Hm] & _).
    split_and!; [done|by apply Hm|by exists t'].
Qed.

(** C16: A future of [dial] owns the channel it has taken, until its session
    does or it ends.  It is polled any number of times; between the polls
    datagrams arrive and the socket is used by others, who do not close this
    channel.  Then, at any time: the tables are in order; dropped before its
    first poll it does nothing; dropped later it frees its channel, with its
    queue, and no other.  A poll that returns a session leaves the channel
    taken, one that waits keeps it, one that fails frees it, unless the
    channel was taken by another from the start. *)
Theorem dial_cancel fuel n (self : EfcpSocket) (d : Dial) (st0 : state) f (st : state) :
  (length (socket_protocols self) + 3 < fuel)%nat → (n < fuel)%nat → orderly n st0.1 →
  rtc (future_step (dial_acquire d) (dial_body fuel self d) n True) (Unpolled, st0) (f, st) →
  let c := MkChannel (dial_peer_addr d) (dial_channel d) in
  Inv st.1 ∧
  (∃ s', drop_future f st = Return () (s', st.2) ∧ Inv s' ∧
     match f with
     | Holding ch _ => handle ch = c ∧ c ∈ channels st.1 ∧ channels s' = channels st.1 ∖ {[c]} ∧
         channel_lookup s' !! c = None
     | _ => s' = st.1
     end) ∧
  match poll_future (dial_acquire d) (dial_body fuel self d) f st with
  | Some (_, Some (Ok (ch, e)), st') => Inv st'.1 ∧ handle ch = c ∧ c ∈ channels st'.1 ∧
      protocol e ∈ socket_protocols self ∧ is_Some (efcp_external_addr e)
  | Some (_, Some (Err _), st') => Inv st'.1 ∧
      (st' = st ∧ c ∈ channels st.1 ∨ (c ∉ channels st'.1) ∧ channel_lookup st'.1 !! c = None)
  | Some (f', None, st') => Inv st'.1 ∧ c ∈ channels st'.1 ∧ ∃ t, f' = Holding (MkDtpChannel c) t
  | None => True
  end.
Proof.
  intros Hps Hf Ho Hr c.
  pose (Got := λ (_ : isock) ch, ch = MkDtpChannel c).
  pose (Q := λ e : efcp, protocol e ∈ socket_protocols self ∧ is_Some (efcp_external_addr e)).
  assert (∀ s ch, Got s ch → t_yields (λ st : state, held n True ch st.1) Q (dial_body fuel self d ch)) as Hbody.
  { intros _ ch _. unfold dial_body.
    exact (t_initiator_yields _ (one_section_yields _ (held_channel_yields n True fuel ch Hf)) fuel _ _ _ Hps). }
  assert (∀ s, orderly n s → match dial_acquire d s with
    | Return ch s' => Got s ch ∧ held n True ch s'
    | Throw _ s' | Suspend s' => orderly n s' | Panic => True | Diverge => False end) as Hacq.
  { intros s Hs. pose proof (dial_acquire_ok n d s Hs) as H. destruct (dial_acquire d s); try done.
    by destruct H as [-> _]. }
  pose proof (future_reach _ _ n True Got Q Hacq Hbody _ _ Hr) as Hok. cbn [fst snd] in Hok.
  specialize (Hok (conj Ho I)). destruct Hok as [Ho' Hok]. split_and!; [by destruct Ho'| |].
  - destruct st as [s k]. destruct f as [|ch t|]; [by exists s; destruct Ho'| |by exists s; destruct Ho'].
    destruct Hok as ([_ Hm] & (? & Hg) & _). unfold Got in Hg. subst ch.
    destruct (give_back_ok n (MkDtpChannel c) s k Ho') as (s' & Hs & ([Hi _] & _ & Hl) & HX).
    exists s'. split_and!; try done. by apply Hm.
  - destruct f as [|ch t|]; [| |done].
    + cbn [poll_future]. pose proof (dial_acquire_ok n d st.1 Ho') as Ha.
      unfold t_on_dtp, map_err, zoom. destruct (dial_acquire d st.1) as [ch s1|e s1|s1| |]; try done.
      * destruct Ha as [-> Hh]. pose proof (dial_running n Q c _ (s1, st.2) Hh (Hbody s1 _ eq_refl)) as H.
        destruct (poll_running _ _ _) as [[[? [[[]|]|]] ?]|]; naive_solver.
      * destruct Ha as [-> Hc]. cbn [fst]. destruct Ho'. split; [done|]. left. by destruct st.
    + destruct Hok as (Hh & (? & Hg) & Ht). unfold Got in Hg. subst ch. pose proof (dial_running n Q c t st Hh Ht) as H. cbn [poll_future].
      destruct (poll_running _ _ _) as [[[? [[[]|]|]] ?]|]; naive_solver.
Qed.

Lemma incoming_acquire_ok n fuel (s : isock) : (n < fuel)%nat → orderly n s →
  match Incoming_poll_next fuel s with
  | Return ch s' => True ∧ held n False ch s'
  | Throw _ s' | Suspend s' => orderly n s'
  | Panic => True
  | Diverge => False
  end.
Proof using BL SQL SLL UL UQ.
  intros Hf [Hi Hb]. unfold Incoming_poll_next; run.
  pose proof (poll_incoming_keeps fuel s Hi ltac:(lia)) as H.
  destruct (poll_incoming fuel s) as [c s'|e s'|s'| |]; try done.
  - destruct H as (_ & Hi' & _ & Hb'). split; [done|]. split; [split; [done|lia]|done].
  - destruct H as (Hi' & _ & Hb'). split; [done|lia].
  - destruct H as (Hi' & _ & Hb'). split; [done|lia].
Qed.

(** A poll of the handshake of an accepted channel. *)
Lemma incoming_running n (Got : isock → DtpChannel → Prop) (Q : efcp → Prop) ch t (st : state) :
  held n False ch st.1 → (∃ s, Got s ch) → t_yields (λ st : state, held n False ch st.1) Q t →
  match poll_running ch t st with
  | Some (_, Some (Ok (ch', e)), st') => Inv st'.1 ∧ ch' = ch ∧ Q e
  | Some (_, Some (Err _), st') => Inv st'.1 ∧ (handle ch ∉ channels st'.1) ∧ channel_lookup st'.1 !! handle ch = None
  | Some (f', None, st') => Inv st'.1 ∧ ∃ t', f' = Holding ch t'
  | None => True
  end.
Proof using BL SQL SLL UL UQ.
  intros Hh Hg Ht. pose proof (poll_running_ok n False Got Q ch t st Hh Hg Ht) as H.
  destruct (poll_running ch t st) as [[[f' [[[ch' e]|e]|]] st']|]; try done.
  - by destruct H as (_ & -> & [[Hi _] _] & Hq).
  - by destruct H as (_ & [Hi _] & ? & ?).
  - destruct H as [[[Hi _] _] Ht']. done.
Qed.

(** C17: A future of [incoming], polled any number of times while datagrams arrive
    and the socket is used by others, who may close channels, this one
    included.  At any time the tables are in order.  Dropped before it has
    accepted a channel, it leaves the socket as it is; dropped later it frees
    its channel, with its queue, and no other, whoever else has taken it from
    the backlog.  From then on it stays with its channel: a poll that waits
    keeps it, one that returns a session returns it with a protocol of the own
    list, and one that fails frees it. *)
Theorem incoming_cancel fuel n (self : EfcpSocket) (st0 : state) f (st : state) :
  (length (socket_protocols self) + 3 < fuel)%nat → (n < fuel)%nat → orderly n st0.1 →
  rtc (future_step (Incoming_poll_next fuel) (incoming_body fuel self) n False) (Unpolled, st0) (f, st) →
  Inv st.1 ∧
  (∃ s', drop_future f st = Return () (s', st.2) ∧ Inv s' ∧
     match f with
     | Holding ch _ => channels s' = channels st.1 ∖ {[handle ch]} ∧ channel_lookup s' !! handle ch = None
     | _ => s' = st.1
     end) ∧
  match poll_future (Incoming_poll_next fuel) (incoming_body fuel self) f st with
  | Some (_, Some (Ok (ch, e)), st') => Inv st'.1 ∧ protocol e ∈ socket_protocols self ∧
      (∀ ch' t, f = Holding ch' t → ch = ch')
  | Some (_, Some (Err _), st') => Inv st'.1 ∧
      (∀ ch t, f = Holding ch t → (handle ch ∉ channels st'.1) ∧ channel_lookup st'.1 !! handle ch = None)
  | Some (f', None, st') => Inv st'.1 ∧ (∀ ch t, f = Holding ch t → ∃ t', f' = Holding ch t')
  | None => True
  end.
Proof.
  intros Hps Hf Ho Hr. pose (Q := λ e : efcp, protocol e ∈ socket_protocols self).
  assert (∀ (s : isock) ch, True → t_yields (λ st : state, held n False ch st.1) Q (incoming_body fuel self ch)) as Hbody.
  { intros _ ch _. exact (t_responder_yields _ (one_section_yields _ (held_channel_yields n False fuel ch Hf)) fuel _ _ _ Hps). }
  pose proof (future_reach _ _ n False (λ _ _, True) Q (λ s, incoming_acquire_ok n fuel s Hf) Hbody
    _ _ Hr (conj Ho I)) as [Ho' Hok]. cbn [fst snd] in Ho', Hok. split_and!; [by destruct Ho'| |].
  - destruct st as [s k]. destruct f as [|ch t|]; [by exists s; destruct Ho'| |by exists s; destruct Ho'].
    destruct (give_back_ok n ch s k Ho') as (s' & Hs & ([Hi _] & _ & Hl) & HX).
    exists s'. by split_and!.
  - destruct f as [|ch t|]; [| |done].
    + cbn [poll_future]. pose proof (incoming_acquire_ok n fuel st.1 Hf Ho') as Ha.
      unfold t_on_dtp, map_err, zoom. destruct (Incoming_poll_next fuel st.1) as [ch s1|e s1|s1| |]; try done;
        [|by destruct Ha..].
      destruct Ha as [_ Hh].
      pose proof (incoming_running n (λ _ _, True) Q ch _ (s1, st.2) Hh (ex_intro _ s1 I) (Hbody s1 _ I)) as H.
      destruct (poll_running _ _ _) as [[[? [[[]|]|]] ?]|]; naive_solver.
    + destruct Hok as (Hh & Hg & Ht). cbn [poll_future].
      pose proof (incoming_running n (λ _ _, True) Q ch t st Hh Hg Ht) as H.
      destruct (poll_running _ _ _) as [[[? [[[]|]|]] ?]|]; naive_solver.
Qed.
End futures.
