(* ===== verification/CancelExamples.v ===== *)
(** * Dropped futures on concrete inputs *)

From S2P Require Export Cancel EfcpSocketExamples.

Import Reference NetReference EfcpSocketExample.

#[local] Instance example_profile : Profile := dev.

Module CancelExample.
Abbreviation polled_once :=
  (poll_future (dial_acquire (K:=node) to_there) (dial_body (C:=Z) 30 ours to_there) Unpolled (socket_with [], 0)).

(** Nobody answers: after one poll the future owns the channel. *)
Example waits_with_channel :
  match polled_once with
  | Some (Holding ch _, None, st) =>
      bool_decide (there7 ∈ Dtp.channels st.1) = true
  | _ => False
  end.
Proof. vm_compute. reflexivity. Qed.

(** Dropped then, it gives the channel back. *)
Lemma dial_cancel_witness :
  match polled_once with
  | Some (f, None, st) => ∃ s', drop_future f st = Return () (s', st.2) ∧ Inv s' ∧
      Dtp.channel_lookup s' !! there7 = None
  | _ => False
  end.
Proof.
  assert (match polled_once with Some (Holding _ _, None, _) => True | _ => False end) as Hw by (vm_compute; exact I).
  destruct polled_once as [[[f r] st]|] eqn:Hp; [|done]. destruct f as [|ch t|], r as [r|]; try (exfalso; exact Hw).
  destruct (dial_cancel 30 0 ours to_there (socket_with [], 0) (Holding ch t) st)
    as (_ & (s' & Hs & Hi & _ & _ & _ & Hl) & _).
  - cbn. lia.
  - lia.
  - split; [apply socket_with_Inv|cbn; lia].
  - eapply rtc_once, future_poll. exact Hp.
  - exact (ex_intro _ s' (conj Hs (conj Hi Hl))).
Defined.

(** The first message of that handshake reaches a listener, from an address of
    the dialler's. *)
Definition here : SocketAddr := SockV4 (MkSockV4 (MkV4 Byte.x0a Byte.x00 Byte.x00 Byte.x01) 4000).

Definition greeting : list arrival :=
  match polled_once with
  | Some (_, _, st) => (λ m, (m.2, here, false)) <$> outbox (Dtp.socket st.1)
  | None => []
  end.

Abbreviation accepted_once :=
  (poll_future (Dtp.Incoming_poll_next (K:=node) 30) (incoming_body (C:=Z) 30 ours) Unpolled (socket_with greeting, 0)).

Definition from_here : Dtp.Channel := Dtp.MkChannel (from_socket_addr here) Byte.x07.

(** It has answered, and owns the channel. *)
Example answers_with_channel :
  match accepted_once with
  | Some (Holding ch _, None, st) => bool_decide (from_here ∈ Dtp.channels st.1) = true
  | _ => False
  end.
Proof. vm_compute. reflexivity. Qed.

(** It waits for the third message, and is dropped. *)
Lemma incoming_cancel_witness :
  match accepted_once with
  | Some (Holding ch t, None, st) => ∃ s', drop_future (Holding ch t) st = Return () (s', st.2) ∧ Inv s' ∧
      Dtp.channels s' = Dtp.channels st.1 ∖ {[Dtp.handle ch]} ∧ Dtp.channel_lookup s' !! Dtp.handle ch = None
  | _ => False
  end.
Proof.
  assert (match accepted_once with Some (Holding _ _, None, _) => True | _ => False end) as Hw by (vm_compute; exact I).
  destruct accepted_once as [[[f r] st]|] eqn:Hp; [|exact Hw].
  destruct f as [|ch t|], r as [r|]; try (exfalso; exact Hw).
  destruct (incoming_cancel 30 1 ours (socket_with greeting, 0) (Holding ch t) st) as (_ & H & _).
  - cbn. lia.
  - lia.
  - split; [apply socket_with_Inv|]. vm_compute. lia.
  - eapply rtc_once, future_poll. exact Hp.
  - exact H.
Defined.
End CancelExample.
