(* ===== verification/Parties.v ===== *)
(** * Two tasks of the handshake between the ends of a link

    A task that runs on an end of a link makes the same steps as on a script
    that holds what the link delivers.  So two of them, polled in any fair
    order, end as their dialogue ends. *)

From S2P Require Export EfcpTasks.

(** ** Layers on two inner channels *)

(** Packets that no layer tells apart. *)
Definition alike {P} `{BasePacket P} (p q : P) : Prop := payload p = payload q.

Section async_sim.
Context {I S1 S2 : Type} (R : I → S1 → S2 → Prop) (idle : S2 → Prop) (ahead : I → Prop).

(** The calls of two channels make the same steps. *)
Record async_sim (P : Type) `{!BasePacket P} `{!AsyncChannel S1 P} `{!AsyncChannel S2 P}
    (fitting : nat → Prop) : Prop := {
  sim_send (p : P) s : payload p = Some s → fitting (length s) →
    task_sim R idle ahead eq (t_send (S:=S1) p) (t_send (S:=S2) p);
  sim_recv : task_sim R idle ahead alike (t_recv (S:=S1) (P:=P)) (t_recv (S:=S2))
}.
End async_sim.

Section dtcp_sim.
Context {BC : BytesCrate} {BL : BytesLaws BC} {BO : ByteOrderCrate} {BOL : ByteOrderLaws BO}.
Context {PR : Profile} {P : Type} `{!BasePacket P} {max : Z} `{!PacketLaws P max}.
Context {I S1 S2 C : Type} {CK : Clock C}.
Context {A1 : AsyncChannel S1 P} {A2 : AsyncChannel S2 P}.
Context (R : I → S1 → S2 → Prop) (idle : S2 → Prop) (ahead : I → Prop) (fitting : nat → Prop).

Definition dtcp_cells {S} (c : DtcpChannel S C) : DtcpChannel () C :=
  MkDtcpChannel () (set_drf c) (next_seq_num c) (sit c) (rit c) (clk c).

(** The same cells over related channels. *)
Definition over_dtcp (i : I) (c1 : DtcpChannel S1 C) (c2 : DtcpChannel S2 C) : Prop :=
  R i (dtcp_channel c1) (dtcp_channel c2) ∧ dtcp_cells c1 = dtcp_cells c2.

Local Ltac cell := intros i [] [] [? [= ]]; cbn in *; subst; cbn;
  repeat match goal with |- context [Timer_stop ?t ?k] => destruct (Timer_stop t k) as [[??]?]
         | |- context [Timer_start ?t ?k] => destruct (Timer_start t k) end; cbn; done.

Lemma stop_sit_sim : step_sim over_dtcp eq stop_sit stop_sit.
Proof. unfold stop_sit. cell. Qed.
Lemma start_sit_sim : step_sim over_dtcp eq start_sit start_sit.
Proof. unfold start_sit. cell. Qed.
Lemma stop_rit_sim : step_sim over_dtcp eq stop_rit stop_rit.
Proof. unfold stop_rit. cell. Qed.
Lemma start_rit_sim : step_sim over_dtcp eq start_rit start_rit.
Proof. unfold start_rit. cell. Qed.
Lemma swap_drf_sim b : step_sim over_dtcp eq (swap_drf b) (swap_drf b).
Proof. unfold swap_drf. cell. Qed.
Lemma store_drf_sim b : step_sim over_dtcp eq (store_drf b) (store_drf b).
Proof. unfold store_drf. cell. Qed.
Lemma fetch_add_seq_num_sim : step_sim over_dtcp eq fetch_add_seq_num fetch_add_seq_num.
Proof. unfold fetch_add_seq_num. cell. Qed.

Lemma over_dtcp_zoom {A} (Q : A → A → Prop) t1 t2 : task_sim R idle ahead Q t1 t2 →
  task_sim over_dtcp (idle ∘ dtcp_channel) ahead Q
    (t_zoom (E:=io_error) dtcp_channel put_channel t1) (t_zoom dtcp_channel put_channel t2).
Proof.
  apply task_sim_zoom.
  - by intros i ?? [? _].
  - by intros i ???? [_ ?] ?.
  - by intros [].
  - done.
Qed.

(** What is handed to the inner channel is the same packet. *)
Lemma number_packet_sim (q : DtcpPacket P) s : payload q = Some s →
  step_sim over_dtcp (λ a b, a = b ∧ ∃ w, payload (dtcp_inner a) = Some w ∧ length w = (3 + length s)%nat)
    (number_packet (S:=S1) q) (number_packet (S:=S2) q).
Proof using All.
  intros Hs. unfold number_packet.
  eapply step_sim_bind; [apply stop_sit_sim|intros e ? <-].
  eapply step_sim_bind; [apply swap_drf_sim|intros o ? <-].
  eapply step_sim_bind; [apply fetch_add_seq_num_sim|intros n ? <-].
  destruct (set_header q s (Transfer (o || e)) n Hs) as (q1 & q2 & H1 & H2 & Hp & _).
  intros i c1 c2 Hc. run. rewrite H1. cbn [unwrap mret M_ret]. rewrite H2. split; [|done]. split; [done|].
  eexists. split; [exact Hp|done].
Qed.

Lemma dtcp_check_alike (p1 p2 : P) : alike p1 p2 → check (MkDtcpPacket p1) = check (MkDtcpPacket p2).
Proof. intros Hp. cbn. unfold DtcpPacket_check, raw_type. cbn. by rewrite Hp. Qed.

Lemma open_packet_sim (p1 p2 : P) : alike p1 p2 →
  step_sim over_dtcp alike (open_packet (S:=S1) p1) (open_packet (S:=S2) p2).
Proof.
  intros Hp. unfold open_packet. cbn [parse DtcpPacket_Packet derive_Packet]. unfold derive_parse.
  cbn [Self DtcpPacket_Newtype]. rewrite <-(dtcp_check_alike p1 p2 Hp).
  destruct (check (MkDtcpPacket p1)) as [[[]|e]|]; intros i c1 c2 Hc; [|done..].
  run. cbn [unwrap option_bind try mret M_ret]. pose proof (start_rit_sim i c1 c2 Hc) as H.
  destruct (start_rit c1), (start_rit c2); try done. destruct H as [_ H]. split; [|done].
  unfold alike. cbn. unfold DtcpPacket_payload. cbn. by rewrite Hp.
Qed.

Lemma dtcp_sim : async_sim R idle ahead P fitting →
  async_sim over_dtcp (idle ∘ dtcp_channel) ahead (DtcpPacket P) (λ n, fitting (3 + n)).
Proof using All.
  intros [Hsend Hrecv]. split; cbn [t_send t_recv Dtcp_Async].
  - intros q s Hs Hf. eapply task_sim_bind; [by apply task_sim_step, number_packet_sim|].
    intros q1 ? [<- (w & Hw & Hl)]. eapply task_sim_bind.
    { apply over_dtcp_zoom. eapply Hsend; [exact Hw|]. by rewrite Hl. }
    intros _ _ _. by apply task_sim_step, start_sit_sim.
  - eapply task_sim_bind.
    { apply task_sim_step. eapply step_sim_bind; [apply stop_rit_sim|intros e ? <-]. apply store_drf_sim. }
    intros _ _ _. eapply task_sim_bind; [by apply over_dtcp_zoom|].
    intros p1 p2 Hp. by apply task_sim_step, open_packet_sim.
Qed.
End dtcp_sim.

Section disco_sim.
Context {BC : BytesCrate} {BL : BytesLaws BC} {BO : ByteOrderCrate} {BOL : ByteOrderLaws BO}.
Context {DC : DiscoCrate} {DL : DiscoLaws DC} {P : Type} `{!BasePacket P} {max : Z} `{!PacketLaws P max}.
Context {I S1 S2 : Type} {A1 : AsyncChannel S1 P} {A2 : AsyncChannel S2 P}.
Context (R : I → S1 → S2 → Prop) (idle : S2 → Prop) (ahead : I → Prop) (fitting : nat → Prop).

Definition over_disco (i : I) (c1 : DiscoChannel S1) (c2 : DiscoChannel S2) : Prop :=
  R i (disco_channel c1) (disco_channel c2) ∧ put_disco_cells () c1 = put_disco_cells () c2.

Lemma over_disco_zoom {A} (Q : A → A → Prop) t1 t2 : task_sim R idle ahead Q t1 t2 →
  task_sim over_disco (idle ∘ disco_channel) ahead Q
    (t_zoom (E:=io_error) disco_channel put_disco t1) (t_zoom disco_channel put_disco t2).
Proof.
  apply task_sim_zoom.
  - by intros i ?? [? _].
  - by intros i ???? [_ ?] ?.
  - by intros [].
  - done.
Qed.

Lemma seal_packet_sim (q : DiscoPacket P) s : payload q = Some s →
  step_sim over_disco
    (λ a b, a = b ∧ ∃ w, payload (disco_inner a) = Some w ∧ length w = (HEADER + length s)%nat)
    (seal_packet (S:=S1) q) (seal_packet (S:=S2) q).
Proof using All.
  intros Hs i [t1 s1 n1] [t2 s2 n2] [Hc [= <- <-]]. cbn in Hc.
  destruct (disco_packet_payload t1 n1 q s Hs) as (p & Hp & Hw). revert Hp.
  unfold seal_packet, fetch_add_nonce, disco_packet; run. cbn [next_nonce transport disco_channel].
  destruct (set_nonce n1 q) as [q1|]; [|done]. cbn [unwrap mret M_ret mbind option_bind transport].
  destruct (encrypt t1 n1 q1) as [[q2 tg]|]; [|done]. cbn [unwrap mret M_ret mbind option_bind].
  destruct (set_tag tg q2) as [q3|]; [|done]. cbn [unwrap mret M_ret fmap option_fmap option_map].
  intros [= ->]. split; [|done]. split; [done|]. eexists. split; [exact Hw|]. apply length_disco_wire.
Qed.

Lemma decrypt_alike t n tg (q1 q2 : DiscoPacket P) : alike q1 q2 →
  match decrypt t n tg q1, decrypt t n tg q2 with
  | Some (q1, r1), Some (q2, r2) => alike q1 q2 ∧ r1 = r2
  | None, None => True
  | _, _ => False
  end.
Proof using All.
  intros Hq. destruct (payload q1) as [s|] eqn:Es.
  - destruct (decrypt_eq t n tg q1 s Es) as (q1' & -> & H1).
    destruct (decrypt_eq t n tg q2 s) as (q2' & -> & H2); [by rewrite <-Hq|].
    split; [|done]. unfold alike. by rewrite H1, H2.
  - unfold decrypt. pose proof (view_payload_mut q1) as H1. pose proof (view_payload_mut q2) as H2.
    rewrite <-Hq in H2. rewrite Es in H1, H2.
    destruct (payload_mut q1); [done|]. by destruct (payload_mut q2).
Qed.

Lemma unseal_packet_sim (p1 p2 : P) : alike p1 p2 →
  step_sim over_disco alike (unseal_packet (S:=S1) p1) (unseal_packet (S:=S2) p2).
Proof using All.
  intros Hp i [t1 s1 n1] [t2 s2 n2] [Hc [= <- <-]]. cbn in Hc.
  set (q1 := MkDiscoPacket p1). set (q2 := MkDiscoPacket p2).
  assert (alike q1 q2) as Hq. { unfold alike. cbn. unfold DiscoPacket_payload. cbn. by rewrite Hp. }
  assert (check q1 = check q2) as Hchk. { cbn. unfold DiscoPacket_check. cbn. by rewrite Hp. }
  assert (nonce q1 = nonce q2) as Hn. { unfold nonce. cbn. by rewrite Hp. }
  assert (tag q1 = tag q2) as Ht. { unfold tag. cbn. by rewrite Hp. }
  unfold unseal_packet. run. cbn [parse DiscoPacket_Packet derive_Packet]. unfold derive_parse.
  change (Self p1) with q1. change (Self p2) with q2. rewrite <-Hchk.
  destruct (check q1) as [[[]|e]|]; [|done..]. cbn [unwrap option_bind mbind try mret M_ret].
  rewrite <-Hn. destruct (nonce q1) as [n|]; [|done]. cbn [unwrap mret M_ret].
  rewrite <-Ht. destruct (tag q1) as [tg|]; [|done]. cbn [unwrap mret M_ret transport].
  pose proof (decrypt_alike t1 n tg q1 q2 Hq) as H.
  destruct (decrypt t1 n tg q1) as [[q1' r1]|], (decrypt t1 n tg q2) as [[q2' r2]|]; try done.
  destruct H as [H <-]. cbn [unwrap mret M_ret]. by destruct r1.
Qed.

Lemma disco_sim : async_sim R idle ahead P fitting →
  async_sim over_disco (idle ∘ disco_channel) ahead (DiscoPacket P) (λ n, fitting (HEADER + n)%nat).
Proof using All.
  intros [Hsend Hrecv]. split; cbn [t_send t_recv Disco_Async].
  - intros q s Hs Hf. eapply task_sim_bind; [by apply task_sim_step, seal_packet_sim|].
    intros q1 ? [<- (w & Hw & Hl)]. apply over_disco_zoom. eapply Hsend; [exact Hw|]. by rewrite Hl.
  - eapply task_sim_bind; [by apply over_disco_zoom|].
    intros p1 p2 Hp. by apply task_sim_step, unseal_packet_sim.
Qed.
End disco_sim.

(** ** The handshake on two inner channels *)

Section handshake_sim.
Context {BC : BytesCrate} {BL : BytesLaws BC} {BO : ByteOrderCrate} {BOL : ByteOrderLaws BO}.
Context {PR : Profile} {DC : DiscoCrate} {DL : DiscoLaws DC}.
Context {DS : DiscoSession DC} {DSL : DiscoSessionLaws DS}.
Context {P : Type} {BP : BasePacket P} {max : Z} {PL : PacketLaws P max}.
Hypothesis Hmax : 524 + Z.of_nat TAG_LEN + Z.of_nat OVERHEAD ≤ max.
Context {I S1 S2 C : Type} {CK : Clock C} {A1 : AsyncChannel S1 P} {A2 : AsyncChannel S2 P}.
Context (R : I → S1 → S2 → Prop) (idle : S2 → Prop) (ahead : I → Prop) (fitting : nat → Prop).
Hypothesis Hfit : ∀ n, (n ≤ 524 + TAG_LEN + OVERHEAD)%nat → fitting n.
Hypothesis Hinner : async_sim R idle ahead P fitting.

#[local] Abbreviation clear S := (DtcpChannel S C).
#[local] Abbreviation sealed S := (DtcpChannel (DiscoChannel S) C).

(** The states of the tasks, of the channel before and after the session has
    keys. *)
Definition with_clock (i : I) (s1 : S1 * C) (s2 : S2 * C) : Prop := R i s1.1 s2.1 ∧ s1.2 = s2.2.
Definition over_clear : I → clear S1 → clear S2 → Prop := over_dtcp R.
Definition over_sealed : I → sealed S1 → sealed S2 → Prop := over_dtcp (over_disco R).

#[local] Abbreviation idle_clear := (idle ∘ dtcp_channel).
#[local] Abbreviation idle_sealed := (idle ∘ disco_channel ∘ dtcp_channel).
#[local] Abbreviation sim_clear := (task_sim (E:=HandshakeError) over_clear idle_clear ahead).
#[local] Abbreviation sim_sealed := (task_sim (E:=HandshakeError) over_sealed idle_sealed ahead).

Lemma clear_sim : async_sim over_clear idle_clear ahead (DtcpPacket P) (λ n, fitting (3 + n)).
Proof using All. by apply dtcp_sim. Qed.

Lemma sealed_sim : async_sim over_sealed idle_sealed ahead (DtcpPacket (DiscoPacket P))
  (λ n, fitting (HEADER + (3 + n))%nat).
Proof using All.
  pose proof (disco_sim R idle ahead fitting Hinner) as H.
  exact (dtcp_sim (max:=max - Z.of_nat HEADER) (over_disco R) (idle ∘ disco_channel) ahead _ H).
Qed.

Lemma message_no_suspend m n : match message m n with Suspend _ => False | _ => True end.
Proof.
  destruct m as [p| |]; try done. destruct (accepted n) as [a|] eqn:Ea.
  - unfold message; run. cbn. by rewrite Ea.
  - rewrite message_propose by done. case_decide; [done|]. by destruct (protocols n !! tried n).
Qed.

(** Computations that do not look at the state. *)
Lemma parse_handshake_sim {T1 T2} (RT : I → T1 → T2 → Prop) bytes :
  step_sim RT eq (parse_handshake bytes) (parse_handshake bytes).
Proof.
  intros i s1 s2 Hs. unfold parse_handshake, io, map_err; run.
  destruct (from_bytes bytes) as [[msg|e]|]; done.
Qed.

Lemma answer_sim {T1 T2} (RT : I → T1 → T2 → Prop) msg n :
  step_sim RT eq (answer msg n) (answer msg n).
Proof.
  intros i s1 s2 Hs. destruct msg as [m|]; [|done]. cbn.
  pose proof (message_no_suspend m n). by destruct (message m n).
Qed.

Lemma settle_sim {T1 T2} (RT : I → T1 → T2 → Prop) n : step_sim RT eq (settle n) (settle n).
Proof. intros i s1 s2 Hs. unfold settle; run. by destruct (into_protocol n) as [[p|]|]. Qed.

Lemma write_clear_sim msg session :
  step_sim over_clear (λ a b, a = b ∧ ∃ s, payload a.1 = Some s ∧ fitting (3 + length s))
    (write_clear (S:=S1) (P:=P) msg session) (write_clear (S:=S2) msg session).
Proof using All.
  intros i c1 c2 Hc. unfold write_clear, io, map_err; run.
  destruct (to_bytes msg) as [bytes|e] eqn:Et; cbn [try mret M_ret throw]; [|done].
  apply to_bytes_length in Et. pose proof (session_write_length bytes session) as Hw.
  destruct (session_write bytes session) as [ct session']. cbn [fst] in Hw.
  destruct (from_slice_Some (Q:=DtcpPacket P) ct) as (q & -> & Hq & _); [lia|].
  cbn [unwrap mret M_ret]. split; [|done]. split; [done|]. exists ct. split; [done|]. apply Hfit. lia.
Qed.

Lemma write_sealed_sim msg :
  step_sim over_sealed (λ a b, a = b ∧ ∃ s, payload a = Some s ∧ fitting (HEADER + (3 + length s))%nat)
    (write_sealed (S:=S1) (P:=P) msg) (write_sealed (S:=S2) msg).
Proof using All.
  intros i c1 c2 Hc. unfold write_sealed, io, map_err; run.
  destruct (to_bytes msg) as [bytes|e] eqn:Et; cbn [try mret M_ret throw]; [|done].
  apply to_bytes_length in Et.
  destruct (from_slice_Some (Q:=DtcpPacket (DiscoPacket P)) bytes) as (q & -> & Hq & _); [unfold HEADER; lia|].
  cbn [unwrap mret M_ret]. split; [|done]. split; [done|]. exists bytes. split; [done|]. apply Hfit.
  unfold HEADER. lia.
Qed.

Lemma read_clear_sim session q1 q2 : alike q1 q2 →
  step_sim over_clear eq (read_clear (P:=P) session q1) (read_clear session q2).
Proof.
  intros Hq i c1 c2 Hc. unfold read_clear; run. rewrite Hq.
  destruct (payload q2) as [ct|]; cbn [unwrap mret M_ret]; [|done].
  destruct (session_read ct session) as [[pt|e] session']; [|done].
  pose proof (parse_handshake_sim over_clear pt i c1 c2 Hc) as H.
  destruct (parse_handshake pt c1), (parse_handshake pt c2); try done. by destruct H as [<- H].
Qed.

Lemma read_sealed_sim q1 q2 : alike q1 q2 →
  step_sim over_sealed eq (read_sealed (P:=P) q1) (read_sealed q2).
Proof.
  intros Hq i c1 c2 Hc. unfold read_sealed; run. rewrite Hq.
  destruct (payload q2) as [bytes|]; cbn [unwrap mret M_ret]; [|done]. by apply parse_handshake_sim.
Qed.

Lemma send_clear_sim msg session :
  sim_clear eq (t_send_clear (P:=P) msg session) (t_send_clear (P:=P) msg session).
Proof using All.
  unfold t_send_clear. eapply task_sim_bind; [by apply task_sim_step, write_clear_sim|].
  intros [q session'] ? [<- (s & Hs & Hf)]. eapply task_sim_bind.
  { apply task_sim_map_err. eapply (sim_send _ _ _ _ _ clear_sim); [exact Hs|exact Hf]. }
  by intros _ _ _.
Qed.

Lemma recv_clear_sim session :
  sim_clear eq (t_recv_clear (P:=P) session) (t_recv_clear (P:=P) session).
Proof using All.
  unfold t_recv_clear. eapply task_sim_bind; [apply task_sim_map_err, (sim_recv _ _ _ _ _ clear_sim)|].
  intros q1 q2 Hq. by apply task_sim_step, read_clear_sim.
Qed.

Lemma send_sealed_sim msg : sim_sealed eq (t_send_sealed (P:=P) msg) (t_send_sealed (P:=P) msg).
Proof using All.
  unfold t_send_sealed. eapply task_sim_bind; [by apply task_sim_step, write_sealed_sim|].
  intros q ? [<- (s & Hs & Hf)]. apply task_sim_map_err.
  eapply (sim_send _ _ _ _ _ sealed_sim); [exact Hs|exact Hf].
Qed.

Lemma recv_sealed_sim : sim_sealed eq (t_recv_sealed (P:=P)) (t_recv_sealed (P:=P)).
Proof using All.
  unfold t_recv_sealed. eapply task_sim_bind; [apply task_sim_map_err, (sim_recv _ _ _ _ _ sealed_sim)|].
  intros q1 q2 Hq. by apply task_sim_step, read_sealed_sim.
Qed.

Lemma answer_task_sim {T1 T2} (RT : I → T1 → T2 → Prop) idleT msg n :
  task_sim RT idleT ahead eq (atomically (answer msg n)) (atomically (answer msg n)).
Proof. apply task_sim_step, answer_sim. Qed.

(** The next call of both. *)
Local Tactic Notation "both" uconstr(l) :=
  eapply task_sim_bind; [eapply l|intros x_ ? <-; try destruct x_].

Lemma initiator_loop_sim fuel session n ext next :
  sim_clear eq (t_initiator_loop (P:=P) fuel session n ext next) (t_initiator_loop (P:=P) fuel session n ext next).
Proof using All.
  revert session n ext next. induction fuel as [|fuel IH]; intros session n ext next; [done|].
  cbn [t_initiator_loop]. eapply task_sim_bind; [apply send_clear_sim|intros session' ? <-].
  destruct (is_handshake_finished session'); [done|]. both recv_clear_sim. both answer_task_sim. apply IH.
Qed.

Lemma initiator_negotiate_sim fuel n :
  sim_sealed eq (t_initiator_negotiate (P:=P) fuel n) (t_initiator_negotiate (P:=P) fuel n).
Proof using All.
  revert n. induction fuel as [|fuel IH]; intros n; [done|].
  cbn [t_initiator_negotiate]. destruct (is_finished n); [done|].
  eapply task_sim_bind; [apply recv_sealed_sim|intros msg ? <-].
  eapply task_sim_bind; [apply answer_task_sim|intros [[m|] n'] ? <-; [|done]].
  both send_sealed_sim. apply IH.
Qed.

Lemma responder_loop_sim fuel session n ext :
  sim_clear eq (t_responder_loop (P:=P) fuel session n ext) (t_responder_loop (P:=P) fuel session n ext).
Proof using All.
  revert session n ext. induction fuel as [|fuel IH]; intros session n ext; [done|].
  cbn [t_responder_loop]. both recv_clear_sim. both answer_task_sim.
  destruct (is_handshake_finished _); [done|].
  eapply task_sim_bind; [apply send_clear_sim|intros session' ? <-]. apply IH.
Qed.

Lemma responder_negotiate_sim fuel n ext next :
  sim_sealed eq (t_responder_negotiate (P:=P) fuel n ext next) (t_responder_negotiate (P:=P) fuel n ext next).
Proof using All.
  revert n ext next. induction fuel as [|fuel IH]; intros n ext next; [done|].
  cbn [t_responder_negotiate]. destruct next as [m|]; [|done]. both send_sealed_sim.
  destruct (is_finished n); [done|].
  eapply task_sim_bind; [apply recv_sealed_sim|intros msg ? <-]. both answer_task_sim. apply IH.
Qed.

(** Entering and leaving. *)
Lemma build_channel_sim {T1 T2} (RT : I → T1 → T2 → Prop) b i s1 s2 (k : C) : RT i s1 s2 →
  match build_channel b s1 k, build_channel b s2 k with
  | Some c1, Some c2 => over_dtcp RT i c1 c2
  | None, None => True
  | _, _ => False
  end.
Proof.
  intros Hs. unfold build_channel. destruct (dur_mul 2 (mpl b)) as [m|]; [|done]. cbn [mbind option_bind].
  destruct (dur_add m _) as [dx|]; [|done]. cbn [mbind option_bind].
  destruct (u8_add _ 1) as [r|]; [|done]. cbn [mbind option_bind].
  destruct (dur_mul r dx) as [dt|]; [|done]. cbn [mbind option_bind].
  destruct (dur_mul 2 dt) as [si|]; [|done]. cbn [mbind option_bind].
  destruct (dur_mul 3 dt) as [ri|]; [|done]. cbn [mbind option_bind].
  destruct (Timer_new si k) as [t1 k1]. by destruct (Timer_new ri k1) as [t2 k2].
Qed.

#[local] Abbreviation sim_inner := (task_sim (E:=HandshakeError) with_clock (idle ∘ fst) ahead).

Lemma in_clear_sim {A B} (Q : A → B → Prop) t1 t2 :
  sim_clear Q t1 t2 → sim_inner Q (t_in_clear t1) (t_in_clear t2).
Proof using Type.
  apply task_sim_scoped.
  - intros i x [s1 k1] [s2 k2] [? Hk]. cbn in *. by subst.
  - intros i [] [] [? [= ]]. cbn in *. by subst.
  - by intros x [].
  - done.
  - intros i [s1 k1] [s2 k2] [Hs Hk]. cbn in *. subst. by apply build_channel_sim.
Qed.

Lemma in_sealed_sim {A B} session (Q : A → B → Prop) t1 t2 :
  sim_sealed Q t1 t2 → sim_inner Q (t_in_sealed session t1) (t_in_sealed session t2).
Proof using Type.
  apply task_sim_scoped.
  - intros i x [s1 k1] [s2 k2] [? Hk]. cbn in *. by subst.
  - intros i [[] ] [[] ] [[? [= ]] [= ]]. cbn in *. by subst.
  - by intros x [].
  - done.
  - intros i [s1 k1] [s2 k2] [Hs Hk]. cbn in *. subst. by apply build_channel_sim.
Qed.

(** Channels of sessions with the same keys and cells. *)
Definition same_session (c1 : EfcpChannel (S:=S1) (C:=C)) (c2 : EfcpChannel (S:=S2) (C:=C)) : Prop :=
  remote c1 = remote c2 ∧ protocol c1 = protocol c2 ∧ efcp_external_addr c1 = efcp_external_addr c2 ∧
  put_disco_cells () (dtcp_channel (efcp_channel c1)) = put_disco_cells () (dtcp_channel (efcp_channel c2)) ∧
  dtcp_cells (efcp_channel c1) = dtcp_cells (efcp_channel c2).

(** The end of both parties. *)
Lemma conclude_sim n ext remote :
  sim_sealed same_session
    (protocol ← atomically (settle n); channel ← atomically get_state;
     mret (MkEfcpChannel channel remote protocol ext))
    (protocol ← atomically (settle n); channel ← atomically get_state;
     mret (MkEfcpChannel channel remote protocol ext)).
Proof using Type.
  eapply task_sim_bind; [apply task_sim_step, settle_sim|intros p ? <-].
  eapply (task_sim_bind _ _ _ (λ c1 c2, put_disco_cells () (dtcp_channel c1) = put_disco_cells () (dtcp_channel c2) ∧
    dtcp_cells c1 = dtcp_cells c2)).
  - intros i c1 c2 Hc. cbn. destruct Hc as [[? Hd] He]. by split_and!.
  - intros c1 c2 [Hd He]. by split_and!.
Qed.

Lemma initiator_sim fuel identity protocols remote_public :
  sim_inner same_session (t_initiator (P:=P) fuel identity protocols remote_public)
    (t_initiator (P:=P) fuel identity protocols remote_public).
Proof using All.
  unfold t_initiator. destruct (initiate _) as [next n| | | |]; try (by intros i s1 s2 Hs).
  eapply task_sim_bind; [apply in_clear_sim, initiator_loop_sim|intros [[session n'] ext] ? <-].
  eapply task_sim_bind; [apply task_sim_step, step_sim_unwrap|intros r ? <-].
  apply in_sealed_sim. destruct ext as [a|]; [|by intros i s1 s2 Hs].
  eapply task_sim_bind; [apply initiator_negotiate_sim|intros n2 ? <-]. apply conclude_sim.
Qed.

Lemma responder_sim fuel identity protocols remote_addr :
  sim_inner same_session (t_responder (P:=P) fuel identity protocols remote_addr)
    (t_responder (P:=P) fuel identity protocols remote_addr).
Proof using All.
  unfold t_responder.
  eapply task_sim_bind; [apply in_clear_sim, responder_loop_sim|intros [[[session n] ext] next] ? <-].
  eapply task_sim_bind; [apply task_sim_step, step_sim_unwrap|intros r ? <-].
  apply in_sealed_sim. eapply task_sim_bind; [apply responder_negotiate_sim|intros [n2 ext'] ? <-].
  apply conclude_sim.
Qed.
End handshake_sim.

(** ** The end of a link, and the script of what the link delivers *)

(** The payloads of packets. *)
Definition hold {P} `{BasePacket P} : list P → list (list byte) → Prop :=
  Forall2 (λ p w, payload p = Some w).

(** What the channel [CH] of one end of a link promises: the payloads that wait
    for this end arrive in order, those it sends wait for the other end, and
    its calls leave alone what is [apart]. *)
Class EndLaws {S P Y : Type} `{!BasePacket P} (CH : Channel S P) (ok : S → Prop)
    (arriving departed : S → list (list byte)) (apart : S → Y) (fitting : nat → Prop) : Prop := {
  end_send p w s : ok s → payload p = Some w → fitting (length w) →
    ∃ s', send p s = Return () s' ∧ ok s' ∧ arriving s' = arriving s ∧ departed s' = departed s ++ [w] ∧
      apart s' = apart s;
  end_recv w l s : ok s → arriving s = w :: l →
    ∃ p s', recv s = Return p s' ∧ payload p = Some w ∧ ok s' ∧ arriving s' = l ∧ departed s' = departed s ∧
      apart s' = apart s;
  end_wait s : ok s → arriving s = [] →
    ∃ s', recv s = Suspend s' ∧ ok s' ∧ arriving s' = [] ∧ departed s' = departed s ∧ apart s' = apart s
}.

(** A poll: the payloads sent that the other end had received before it, the
    state it starts in, and the script beyond what arrives in it. *)
Record moment (S P : Type) : Type := Moment {
  gone : list (list byte);
  origin : S;
  more : list P
}.
Arguments Moment {S P} _ _ _.
Arguments gone {S P} _.
Arguments origin {S P} _.
Arguments more {S P} _.

Section endpoint.
Context {S P Y : Type} {BP : BasePacket P} {CH : Channel S P}.
Context {ok : S → Prop} {arriving departed : S → list (list byte)} {apart : S → Y} {fitting : nat → Prop}.
Context {EL : EndLaws CH ok arriving departed apart fitting}.

(** What a poll that started in [s0] has done by [s]. *)
Definition since (s0 s : S) : Prop :=
  departed s0 `prefix_of` departed s ∧ arriving s `suffix_of` arriving s0 ∧ apart s = apart s0.

Definition scripted (i : moment S P) (sc : script P) (s : S) : Prop :=
  ok s ∧ hold (outbox sc) (gone i ++ departed s) ∧ (∃ ib, inbox sc = ib ++ more i ∧ hold ib (arriving s)) ∧
  since (origin i) s.

Definition nothing_arriving (s : S) : Prop := arriving s = [].
Definition script_ahead (i : moment S P) : Prop := more i ≠ [].

Lemma endpoint_sim :
  async_sim scripted nothing_arriving script_ahead P (AsyncChannel0:=one_section) (AsyncChannel1:=one_section) fitting.
Proof using All.
  split; cbn [t_send t_recv one_section].
  - intros p w Hp Hf. apply task_sim_step. intros i sc s (Hok & Hout & (ib & Hib & Hin) & Hk & Hsuf & Hap).
    destruct (end_send p w s Hok Hp Hf) as (s' & -> & Hok' & Ha & Hd & Hap'). cbn. split; [done|].
    unfold scripted, since. cbn. rewrite Ha, Hd, Hap', (assoc_L (++)). split_and!; try done; [|by exists ib|].
    + apply Forall2_app; [done|]. by constructor.
    + by apply prefix_app_r.
  - apply task_sim_atomically. intros i [inb ob] s (Hok & Hout & (ib & Hib & Hin) & Hk & Hsuf & Hap). cbn in *. subst inb.
    destruct (arriving s) as [|w l] eqn:Ea.
    + destruct (end_wait s Hok Ea) as (s' & -> & Hok' & Ha & Hd & Hap'). inversion Hin; subst. cbn [app].
      assert (scripted i (MkScript (more i) ob) s') as Hs.
      { unfold scripted, since. rewrite Ha, Hd, Hap'. split_and!; try done. by exists []. }
      destruct (more i) as [|p ps] eqn:Em; cbn; [done|]. split_and!; [done|done|].
      unfold script_ahead. by rewrite Em.
    + destruct (end_recv w l s Hok Ea) as (p' & s' & -> & Hp' & Hok' & Ha & Hd & Hap').
      apply Forall2_cons_inv_r in Hin as (p & ib' & Hp & Hin' & ->). cbn. split; [by unfold alike; rewrite Hp, Hp'|].
      unfold scripted, since. cbn. rewrite Ha, Hd, Hap'. split_and!; try done; [by exists ib'|].
      etrans; [|exact Hsuf]. by exists [w].
Qed.
End endpoint.
Arguments since {S Y} arriving departed apart s0 s /.
Arguments scripted {S P Y BP} ok arriving departed apart i sc s /.

(** A script is itself an end. *)
Section script_end.
Context {P : Type} {BP : BasePacket P}.

Definition readable (l : list P) : Prop := Forall (λ p, is_Some (payload p)) l.
Definition script_ok (s : script P) : Prop := readable (inbox s) ∧ readable (outbox s).
Definition script_in (s : script P) : list (list byte) := omap payload (inbox s).
Definition script_out (s : script P) : list (list byte) := omap payload (outbox s).

#[export] Instance script_end : EndLaws script_Channel script_ok script_in script_out (λ _, ()) (λ _, True).
Proof.
  split.
  - intros p w [ib ob] [Hi Ho] Hp _. eexists. split; [done|]. unfold script_in, script_out. cbn. split_and!; [|done| |done].
    + split; [done|]. apply Forall_app. split; [done|]. by apply Forall_singleton; exists w.
    + rewrite omap_app. cbn. by rewrite Hp.
  - intros w l [ib ob] [Hi Ho] Hl. unfold script_in, script_out in *. cbn in *. destruct ib as [|p ib]; [done|].
    apply Forall_cons in Hi as [[w' Hp] Hi]. cbn in Hl. rewrite Hp in Hl. injection Hl as <- <-.
    by eexists p, _.
  - intros [ib ob] [Hi Ho] Hl. destruct ib as [|p ib]; [|exfalso].
    + by eexists.
    + unfold script_in in Hl. cbn in *. apply Forall_cons in Hi as [[w' Hp] Hi]. by rewrite Hp in Hl.
Qed.

(** The relation of a script to another. *)
Definition between_scripts {C} : moment (script P) P → script P * C → script P * C → Prop :=
  with_clock (scripted script_ok script_in script_out (λ _, ())).
End script_end.

(** A party that makes the same steps as itself on a longer script. *)
Definition self_sim {P C A : Type} {BP : BasePacket P} {DC : DiscoCrate} (U : A → A → Prop)
    (t : thread HandshakeError (script P * C) A) : Prop :=
  task_sim between_scripts (nothing_arriving (arriving:=script_in) ∘ fst) script_ahead U t t.
