(* ===== verification/Rounds.v ===== *)
(** * Tasks of two parties, polled in any order

    What a party has received determines what it sends and how it ends,
    however often it is polled in between.  So two parties on the ends of a
    link go through their dialogue under every schedule, and under a fair one
    to its end. *)

From S2P Require Export Parties.

(** ** Payloads *)

Section hold.
Context {P : Type} {BP : BasePacket P}.

Lemma hold_readable (l : list P) : readable l → hold l (omap payload l).
Proof.
  intros Hl. induction Hl as [|p l [w Hp] Hl IH]; [constructor|].
  cbn. rewrite Hp. by constructor.
Qed.

Lemma readable_hold (l : list P) w : hold l w → readable l ∧ omap payload l = w.
Proof.
  intros Hl. induction Hl as [|p w l ws Hp Hl [IH1 IH2]]; [by split; [constructor|]|].
  cbn. rewrite Hp, IH2. split; [|done]. constructor; [by eexists|done].
Qed.

(** Packets for the first of some payloads. *)
Lemma hold_prefix (l : list P) w w' : hold l w → w' `prefix_of` w → ∃ l' l'', l = l' ++ l'' ∧ hold l' w'.
Proof. intros Hl [v ->]. apply Forall2_app_inv_r in Hl as (l1 & l2 & H1 & _ & ->). by exists l1, l2. Qed.

Lemma hold_length (l : list P) w w' : hold l w → hold l w' → w = w'.
Proof. intros [_ <-]%readable_hold [_ <-]%readable_hold. done. Qed.
End hold.

(** ** Two tasks that answer each other *)

Definition has_ended {E T A} (x : task E T A) : Prop := ∃ r, x = Ended r.

(** An answer of each. *)
Definition turns {P : Type} (f1 f2 : list P → list P) (x : list P) : list P := f2 (f1 x).

(** [D x y]: the packets [x] have reached the first, and [y] the second.  A
    poll of the first makes [f1 x] reach the second, one of the second [f2 y]
    the first; with [X] the first ends, and says what the second ends with. *)
Section fair_turns.
Context {E T B1 B2 P : Type} (D : list P → list P → task E T B1 * task E T B2 * T → Prop).
Context (f1 f2 : list P → list P) (X Y : list P).
Hypothesis step_first : ∀ x y a b st, D x y (a, b, st) →
  let '(a', st') := wake a st in D x y (a', b, st') ∧ D x (f1 x) (a', b, st') ∧ (X = x → has_ended a').
Hypothesis step_second : ∀ x y a b st, D x y (a, b, st) →
  let '(b', st') := wake b st in D x y (a, b', st') ∧ D (f2 y) y (a, b', st') ∧ (Y = y → has_ended b').
Hypothesis fixed1 : f1 X = Y.
Hypothesis fixed2 : f2 Y = X.

Lemma turn_schedule sch : ∀ x y a b st, D x y (a, b, st) → D x y (schedule sch a b st).
Proof using step_first step_second.
  induction sch as [|[] sch IH]; intros x y a b st H; [done|..]; cbn.
  - pose proof (step_first x y a b st H) as H'. destruct (wake a st). by apply IH, H'.
  - pose proof (step_second x y a b st H) as H'. destruct (wake b st). by apply IH, H'.
Qed.

Lemma turn_round s1 s2 x y a b st : D x y (a, b, st) →
  let c := schedule (s1 ++ First :: s2 ++ [Second]) a b st in
  D (turns f1 f2 x) (f1 x) c ∧ (X = x → has_ended c.1.1 ∧ has_ended c.1.2).
Proof using step_first step_second fixed1.
  intros H. cbn zeta. rewrite schedule_app. apply (turn_schedule s1) in H.
  destruct (schedule s1 a b st) as [[a1 b1] st1]. cbn [schedule].
  pose proof (step_first x y a1 b1 st1 H) as H1. destruct (wake a1 st1) as [a2 st2].
  destruct H1 as (_ & H1 & He1). rewrite schedule_app. pose proof (turn_schedule s2 _ _ _ _ _ H1) as H2.
  assert (Hkeep : X = x → has_ended (schedule s2 a2 b1 st2).1.1).
  { intros Hx. destruct (He1 Hx) as [r ->]. exists r. apply schedule_ended_first. }
  destruct (schedule s2 a2 b1 st2) as [[a3 b3] st3]. cbn [schedule].
  pose proof (step_second _ _ a3 b3 st3 H2) as H3. destruct (wake b3 st3) as [b4 st4]. cbn [fst snd] in *.
  destruct H3 as (_ & H3 & He3). split; [done|]. intros <-. split; [by apply Hkeep|by apply He3].
Qed.

Lemma fair_ends n : ∀ sch x y a b st, fair (Datatypes.S n) sch → Nat.iter n (turns f1 f2) x = X →
  D x y (a, b, st) →
  let c := schedule sch a b st in D X Y c ∧ has_ended c.1.1 ∧ has_ended c.1.2.
Proof using All.
  induction n as [|n IH]; intros sch x y a b st Hfair Hx H; cbn zeta; inversion Hfair as [|? s1 s2 s3 Hs3]; subst sch.
  all: replace (s1 ++ First :: s2 ++ Second :: s3) with ((s1 ++ First :: s2 ++ [Second]) ++ s3)
    by (by rewrite <-!(assoc_L (++)); cbn; rewrite <-(assoc_L (++))).
  all: rewrite schedule_app; destruct (turn_round s1 s2 x y a b st H) as [H1 He].
  all: destruct (schedule (s1 ++ First :: s2 ++ [Second]) a b st) as [[a1 b1] st1]; cbn [fst snd] in *.
  - cbn in Hx. subst x. destruct (He eq_refl) as [[r1 ->] [r2 ->]].
    unfold turns in H1. rewrite fixed1, fixed2 in H1. split; [by apply turn_schedule|].
    split; [exists r1; apply schedule_ended_first|exists r2; apply schedule_ended_second].
  - eapply (IH s3); [done| |exact H1]. by rewrite <-Nat.iter_succ_r.
Qed.
End fair_turns.

(** ** One party *)

Section party.
Context {P C A : Type} {BP : BasePacket P} {DC : DiscoCrate}.

(** The party, and its run on what it has received. *)
Context (t0 : thread HandshakeError (script P * C) A) (k0 : C).

Definition run_on (ib : list P) : outcome HandshakeError (script P * C) A := run_thread t0 (MkScript ib [], k0).

Context (Q0 : A → A → Prop).
Hypothesis Hself : self_sim Q0 t0.

Lemma scripts_related gn (inb ob : list P) w v rest (k : C) ib0 :
  hold inb w → hold ob (gn ++ v) → readable ib0 → omap payload ib0 = w →
  ∀ ob0, readable ob0 → omap payload ob0 = v →
  between_scripts (Moment gn (MkScript ib0 ob0) rest) (MkScript (inb ++ rest) ob, k) (MkScript ib0 ob0, k).
Proof using Type.
  intros Hi Ho Hr <- ob0 Hr' <-. split; [|done]. cbn. split_and!; try done. by exists inb.
Qed.

(** With more received, a party has sent at least as much. *)
Lemma run_mono x y w v st : hold x w → hold y (w ++ v) → final (run_on y) = Some st →
  ∃ a b, hold (said (run_on x)) a ∧ hold (said (run_on y)) (a ++ b).
Proof using Hself.
  intros Hx Hy Hfin. apply Forall2_app_inv_r in Hy as (x1 & rest & Hx1 & Hrest & ->).
  destruct (readable_hold _ _ Hx) as [Hrx Hox].
  assert (H0 : hold [] ([] ++ @nil (list byte))) by constructor.
  pose proof (poll_sim _ _ _ _ _ _ _ _ _ Hself
    (scripts_related [] x1 [] w [] rest k0 x Hx1 H0 Hrx Hox [] (Forall_nil_2 _) eq_refl)) as H.
  unfold run_on in *. rewrite (run_poll t0 (MkScript x [], k0)).
  destruct (poll_task t0 (MkScript x [], k0)) as [[a [s2 k2]|e [s2 k2]|s2| |]|t2 [s2 k2]]; cbn [final said] in *.
  - destruct H as (a1 & [s1 k1] & -> & _ & [((_ & Hok) & Ho & _) _]). cbn in *.
    exists (omap payload (outbox s2)), []. rewrite app_nil_r. split; [by apply hold_readable|done].
  - destruct H as ([s1 k1] & -> & [((_ & Hok) & Ho & _) _]). cbn in *.
    exists (omap payload (outbox s2)), []. rewrite app_nil_r. split; [by apply hold_readable|done].
  - done.
  - by rewrite H in Hfin.
  - by rewrite H in Hfin.
  - destruct H as (Hidle & t1 & [[ib1 ob1] k1] & Hsim & [((_ & Hok) & Ho & (ib' & Hib & Hin) & _) Hk] & Hrun & _).
    cbn in *. unfold nothing_arriving in Hidle. cbn in Hidle. rewrite Hidle in Hin. inversion Hin; subst.
    cbn [app] in *. rewrite Hrun in *. clear Hrun.
    destruct (readable_hold _ _ Hrest) as [Hrr Hor].
    pose proof (scripts_related (omap payload (outbox s2)) rest ob1 v [] [] k2 rest Hrest) as HR.
    rewrite (app_nil_r (omap _ _)), app_nil_r in HR.
    pose proof (poll_sim _ _ _ _ _ _ _ _ _ Hsim (HR Ho Hrr Hor [] (Forall_nil_2 _) eq_refl)) as H.
    exists (omap payload (outbox s2)).
    assert (hold (outbox s2) (omap payload (outbox s2))) by by apply hold_readable.
    destruct (poll_task t2 (MkScript rest [], k2)) as [[a [s3 k3]|e [s3 k3]|s3| |]|t3 [s3 k3]].
    + destruct H as (a1 & [s1 k1] & -> & _ & [(_ & Ho' & _) _]). by eexists.
    + destruct H as ([s1 k1] & -> & [(_ & Ho' & _) _]). by eexists.
    + done.
    + by rewrite H in Hfin.
    + by rewrite H in Hfin.
    + destruct H as (_ & t1' & [s1 k1] & _ & [(_ & Ho' & _) _] & _ & [Hah| ->]); [done|]. by eexists.
Qed.
End party.

(** ** A party on an end of a link *)

Section on_link.
Context {S P Y C A B : Type} {BP : BasePacket P} {DC : DiscoCrate} {CH : Channel S P}.
Context {ok : S → Prop} {arriving departed : S → list (list byte)} {apart : S → Y} {fitting : nat → Prop}.
Context {EL : EndLaws CH ok arriving departed apart fitting}.
Context (F : list P → outcome HandshakeError (script P * C) A) (Q : A → B → Prop).

#[local] Abbreviation related := (with_clock (C:=C) (scripted ok arriving departed apart)).
#[local] Abbreviation sim := (task_sim related (nothing_arriving (arriving:=arriving) ∘ fst) script_ahead Q).

(** A party that has received [h] and sent [o], with [a] arriving: what the
    run on a script that begins with [h] still has to do, or did. *)
Definition party (h o a : list (list byte)) (x : task HandshakeError (S * C) B) (k : C) : Prop :=
  match x with
  | Running t => ∀ ib rest, hold ib h →
      ∃ t1 ob, hold ob o ∧ F (ib ++ rest) = run_thread t1 (MkScript rest ob, k) ∧ sim t1 t
  | Ended r => ∃ u, u `prefix_of` a ∧ ∀ ib rest l, hold ib h → hold rest u →
      match r with
      | Some (Ok b) => ∃ c r ob k', hold ob o ∧ hold r u ∧ Q c b ∧
          F (ib ++ rest ++ l) = Return c (MkScript (r ++ l) ob, k')
      | Some (Err e) => ∃ r ob k', hold ob o ∧ hold r u ∧
          F (ib ++ rest ++ l) = Throw e (MkScript (r ++ l) ob, k')
      | None => F (ib ++ rest ++ l) = Panic ∨ F (ib ++ rest ++ l) = Diverge
      end
  end.

(** It has been polled, and waits or has ended. *)
Definition rests (h o : list (list byte)) (x : task HandshakeError (S * C) B) : Prop :=
  match x with
  | Running _ => ∀ ib, hold ib h → ∃ ob k', hold ob o ∧ F ib = Suspend (MkScript [] ob, k')
  | Ended _ => True
  end.

Lemma related_poll h g ib rest l ob k s : ok s → hold ib h → hold rest (arriving s) → hold ob (g ++ departed s) →
  related (Moment g s l) (MkScript (rest ++ l) ob, k) (s, k).
Proof using Type. intros Hok Hib Hrest Hob. split; [|done]. cbn. split_and!; try done. by exists rest. Qed.

(** The run on a script, when the task is polled. *)
Lemma run_polled h g t s k ib rest l : ok s → party h (g ++ departed s) (arriving s) (Running t) k →
  hold ib h → hold rest (arriving s) →
  let o := F (ib ++ rest ++ l) in
  let after s' r ob := ok s' ∧ hold ob (g ++ departed s') ∧ hold r (arriving s') ∧
    since arriving departed apart s s' in
  match poll_task t (s, k) with
  | Waits t2 (s', k') => arriving s' = [] ∧ ∃ t1 ob, o = run_thread t1 (MkScript l ob, k') ∧ sim t1 t2 ∧
      after s' [] ob ∧ (l = [] → o = Suspend (MkScript l ob, k'))
  | Done (Return b (s', k')) => ∃ c r ob, o = Return c (MkScript (r ++ l) ob, k') ∧ Q c b ∧ after s' r ob
  | Done (Throw e (s', k')) => ∃ r ob, o = Throw e (MkScript (r ++ l) ob, k') ∧ after s' r ob
  | Done (Suspend _) => False
  | Done Panic => o = Panic
  | Done Diverge => o = Diverge
  end.
Proof using Type.
  intros Hok Hp Hib Hrest. cbn zeta. destruct (Hp ib (rest ++ l) Hib) as (t1 & ob & Hob & -> & Hsim).
  pose proof (poll_sim _ _ _ _ _ _ _ _ _ Hsim (related_poll h g ib rest l ob k s Hok Hib Hrest Hob)) as H.
  destruct (poll_task t (s, k)) as [[b [s' k']|e [s' k']|s'| |]|t2 [s' k']]; try done.
  - destruct H as (c & [[i1 o1] k1] & -> & HQ & [(Ho & Hout & (r & Hr & Hin) & Hs) Hk1]). cbn in *. subst.
    by exists c, r, o1.
  - destruct H as ([[i1 o1] k1] & -> & [(Ho & Hout & (r & Hr & Hin) & Hs) Hk1]). cbn in *. subst.
    by exists r, o1.
  - destruct H as (Hidle & t1' & [[i1 o1] k1] & Hsim' & [(Ho & Hout & (r & Hr & Hin) & Hs) Hk1] & -> & Hah).
    cbn in *. unfold nothing_arriving in Hidle. cbn in Hidle. split; [done|].
    rewrite Hidle in Hin. inversion Hin; subst. cbn [app] in *. exists t1', o1.
    destruct Hs as (? & ? & ?). split_and!; try done; [by rewrite Hidle|].
    intros ->. by destruct Hah as [Hah|?].
Qed.

(** What a poll makes of what has arrived. *)
Lemma party_poll h g t s k X w : ok s → party h (g ++ departed s) (arriving s) (Running t) k →
  hold X w → h ++ arriving s `prefix_of` w → ∃ c x' s' k',
    wake (Running t) (s, k) = (x', (s', k')) ∧ arriving s = c ++ arriving s' ∧ ok s' ∧
    departed s `prefix_of` departed s' ∧ apart s' = apart s ∧
    party (h ++ c) (g ++ departed s') (arriving s') x' k' ∧ rests (h ++ c) (g ++ departed s') x' ∧ (∀ t, x' = Running t → arriving s' = []).
Proof using Type.
  intros Hok Hp HX Hw. destruct (hold_prefix X w _ HX Hw) as (X1 & _ & _ & HX1).
  apply Forall2_app_inv_r in HX1 as (ib0 & rest0 & Hib0 & Hrest0 & ->). clear X HX Hw.
  pose proof (λ ib rest l, run_polled h g t s k ib rest l Hok Hp) as H. cbn zeta in H.
  pose proof (H ib0 rest0 [] Hib0 Hrest0) as H0. unfold wake.
  destruct (poll_task t (s, k)) as [[b [s' k']|e [s' k']|s'| |]|t2 [s' k']]; try done.
  - destruct H0 as (c0 & r0 & ob0 & _ & _ & Hok' & _ & _ & Hk & [c Hc] & Hap).
    exists c. eexists _, _, _. split; [done|]. split_and!; try done.
    exists (arriving s'). split; [done|]. intros ib rest l Hib Hrest.
    apply Forall2_app_inv_r in Hib as (ib1 & ib2 & H1 & H2 & ->).
    destruct (H ib1 (ib2 ++ rest) l H1) as (c1 & r & ob & Hr & HQ & _ & Hob & Hin & _).
    { rewrite Hc. by apply Forall2_app. }
    exists c1, r, ob, k'. split_and!; try done. by rewrite <-!(assoc_L (++)) in *.
  - destruct H0 as (r0 & ob0 & _ & Hok' & _ & _ & Hk & [c Hc] & Hap).
    exists c. eexists _, _, _. split; [done|]. split_and!; try done.
    exists (arriving s'). split; [done|]. intros ib rest l Hib Hrest.
    apply Forall2_app_inv_r in Hib as (ib1 & ib2 & H1 & H2 & ->).
    destruct (H ib1 (ib2 ++ rest) l H1) as (r & ob & Hr & _ & Hob & Hin & _).
    { rewrite Hc. by apply Forall2_app. }
    exists r, ob, k'. split_and!; try done. by rewrite <-!(assoc_L (++)) in *.
  - exists []. eexists _, _, _. split; [done|]. rewrite app_nil_r. split_and!; try done.
    exists (arriving s). split; [done|]. intros ib rest l Hib Hrest. left. by apply H.
  - exists []. eexists _, _, _. split; [done|]. rewrite app_nil_r. split_and!; try done.
    exists (arriving s). split; [done|]. intros ib rest l Hib Hrest. right. by apply H.
  - destruct H0 as (Hidle & t1 & ob0 & _ & _ & (Hok' & _ & _ & Hk & _ & Hap) & _).
    exists (arriving s). eexists _, _, _. split; [done|]. rewrite Hidle, app_nil_r.
    assert (∀ ib, hold ib (h ++ arriving s) → ∃ ib1 ib2, ib = ib1 ++ ib2 ∧ hold ib1 h ∧ hold ib2 (arriving s)) as Hsplit.
    { intros ib Hib. apply Forall2_app_inv_r in Hib as (ib1 & ib2 & H1 & H2 & ->). by exists ib1, ib2. }
    split_and!; try done.
    + intros ib rest (ib1 & ib2 & -> & H1 & H2)%Hsplit.
      destruct (H ib1 ib2 rest H1 H2) as (_ & t1' & ob & Hr & Hsim & (_ & Hob & _) & _).
      exists t1', ob. split_and!; try done. by rewrite <-(assoc_L (++)).
    + intros ib (ib1 & ib2 & -> & H1 & H2)%Hsplit.
      destruct (H ib1 ib2 [] H1 H2) as (_ & t1' & ob & _ & _ & (_ & Hob & _) & Hr).
      exists ob, k'. split; [done|]. rewrite app_nil_r in Hr. by apply Hr.
Qed.

(** More may arrive. *)
Lemma party_more h o a a' x k : party h o a x k → a `prefix_of` a' → party h o a' x k.
Proof using Type. destruct x as [t|r]; [done|]. intros (u & Hu & Hp) Ha. exists u. split; [by etrans|done]. Qed.
End on_link.

(** ** A party, where its run on all the other says ends *)

Section ends.
Context {S P Y C A B : Type} {BP : BasePacket P} {DC : DiscoCrate} {CH : Channel S P}.
Context {ok : S → Prop} {arriving departed : S → list (list byte)} {apart : S → Y} {fitting : nat → Prop}.
Context {EL : EndLaws CH ok arriving departed apart fitting}.
Context (t0 : thread HandshakeError (script P * C) A) (k0 : C) (Q : A → B → Prop) (Q0 : A → A → Prop).

#[local] Abbreviation F := (run_on t0 k0).
#[local] Abbreviation party_ := (party (ok:=ok) (arriving:=arriving) (departed:=departed) (apart:=apart) F Q).
#[local] Abbreviation rests_ := (rests (S:=S) (B:=B) F).

Hypothesis Hself : self_sim Q0 t0.

(** All it will receive, and all it will have said. *)
Context (X Z : list P) (w v : list (list byte)) (kX : C).
Hypothesis HX : hold X w.
Hypothesis HY : hold Z v.
Hypothesis Hfin : final (F X) = Some (MkScript [] Z, kX).

(** Its state after a poll. *)
Definition polled_party h o a x k : Prop :=
  party_ h o a x k ∧ rests_ h o x ∧ (∀ t, x = Running t → a = []).

Lemma said_X : said (F X) = Z.
Proof using Hfin. unfold said. by rewrite Hfin. Qed.

(** The script beyond what an ended party has read. *)
Lemma ended_run h o a r k : party_ h o a (Ended r) k → h ++ a `prefix_of` w →
  h = w ∧ hold Z o ∧
  match r with
  | Some (Ok b) => ∃ c st, F X = Return c st ∧ Q c b
  | Some (Err e) => ∃ st, F X = Throw e st
  | None => False
  end.
Proof using HX HY Hfin.
  intros (u & [a' ->] & Hp) Hw. rewrite (assoc_L (++)) in Hw.
  assert (h ++ u `prefix_of` w) as Hu by (etrans; [|exact Hw]; by apply prefix_app_r).
  destruct (hold_prefix X w _ HX Hu) as (X1 & l & EX & H1).
  apply Forall2_app_inv_r in H1 as (ib & rest & Hib & Hrest & ->). rewrite <-(assoc_L (++)) in EX.
  specialize (Hp ib rest l Hib Hrest). rewrite <-EX in Hp.
  assert (∀ r' ob, r' ++ l = [] → hold r' u → Z = ob → hold ob o → h = w ∧ hold Z o) as Hend.
  { intros r' ob [-> ->]%app_nil Hr -> Hob. split; [|done]. inversion Hr; subst u.
    inversion Hrest; subst rest. rewrite !app_nil_r in EX. subst ib. exact (hold_length _ _ _ Hib HX). }
  destruct r as [[b|e]|].
  - destruct Hp as (c & r' & ob & k' & Hob & Hr & HQ & HF). rewrite HF in Hfin. cbn in Hfin.
    injection Hfin as Hn <- _. destruct (Hend r' ob Hn Hr eq_refl Hob). split_and!; [done..|]. by eexists _, _.
  - destruct Hp as (r' & ob & k' & Hob & Hr & HF). rewrite HF in Hfin. cbn in Hfin.
    injection Hfin as Hn <- _. destruct (Hend r' ob Hn Hr eq_refl Hob). split_and!; [done..|]. by eexists.
  - destruct Hp as [HF|HF]; by rewrite HF in Hfin.
Qed.

(** It has said what its run on any part of what has reached it says. *)
Lemma party_told h o a x k y u : polled_party h o a x k → h ++ a `prefix_of` w →
  hold y u → u `prefix_of` h ++ a → ∃ u', hold (said (F y)) u' ∧ u' `prefix_of` o.
Proof using Hself HX HY Hfin.
  intros (Hp & Hr & Ha) Hw Hy Hu. destruct x as [t|r].
  - rewrite (Ha t eq_refl), app_nil_r in *. destruct Hu as [u1 ->].
    destruct (hold_prefix X w _ HX Hw) as (ib & _ & _ & Hib).
    destruct (Hr ib Hib) as (ob & k' & Hob & HF).
    destruct (run_mono t0 k0 Q0 Hself y ib u u1 (MkScript [] ob, k') Hy Hib) as (a1 & b1 & H1 & H2).
    { by rewrite HF. }
    exists a1. split; [done|]. rewrite HF in H2. cbn in H2. exists b1. by eapply hold_length.
  - destruct (ended_run h o a r k Hp Hw) as (_ & Ho & _). destruct (transitivity Hu Hw) as [u1 Ew].
    pose proof HX as HX'. rewrite Ew in HX'.
    destruct (run_mono t0 k0 Q0 Hself y X u u1 _ Hy HX' Hfin) as (a1 & b1 & H1 & H2).
    exists a1. split; [done|]. rewrite said_X in H2. exists b1. by eapply hold_length.
Qed.

(** It never says more than its run does. *)
Lemma party_sound h o a x k : polled_party h o a x k → h ++ a `prefix_of` w → o `prefix_of` v.
Proof using Hself HX HY Hfin.
  intros (Hp & Hr & Ha) Hw. destruct x as [t|r].
  - rewrite (Ha t eq_refl), app_nil_r in *. destruct (hold_prefix X w _ HX Hw) as (ib & _ & _ & Hib).
    destruct (Hr ib Hib) as (ob & k' & Hob & HF). destruct Hw as [u1 Ew]. pose proof HX as HX'. rewrite Ew in HX'.
    destruct (run_mono t0 k0 Q0 Hself ib X h u1 _ Hib HX' Hfin) as (a1 & b1 & H1 & H2).
    rewrite HF in H1. cbn in H1. rewrite said_X in H2.
    rewrite (hold_length _ _ _ Hob H1), (hold_length _ _ _ HY H2). by exists b1.
  - destruct (ended_run h o a r k Hp Hw) as (_ & Ho & _). by rewrite (hold_length _ _ _ HY Ho).
Qed.

(** When all has reached it, it ends as its run does. *)
Lemma party_done h o a x k : polled_party h o a x k → h ++ a = w → (∀ st, F X ≠ Suspend st) →
  a = [] ∧ o = v ∧
  match x with
  | Ended (Some (Ok b)) => ∃ c st, F X = Return c st ∧ Q c b
  | Ended (Some (Err e)) => ∃ st, F X = Throw e st
  | _ => False
  end.
Proof using HX HY Hfin.
  intros (Hp & Hr & Ha) Hw Hns. destruct x as [t|r].
  - rewrite (Ha t eq_refl), app_nil_r in *. subst h. destruct (Hr X HX) as (ob & k' & Hob & HF).
    by destruct (Hns _ HF).
  - destruct (ended_run h o a r k Hp) as (-> & Ho & Hres); [by rewrite Hw|].
      split; [|split; [exact (hold_length _ _ _ Ho HY)|by destruct r as [[]|]]].
    rewrite <-(app_nil_r w) in Hw at 2. by apply app_inv_head in Hw.
Qed.

(** One poll. *)
Lemma party_wake h g x s k : ok s → party_ h (g ++ departed s) (arriving s) x k →
  h ++ arriving s `prefix_of` w → ∃ c x' s' k',
    wake x (s, k) = (x', (s', k')) ∧ arriving s = c ++ arriving s' ∧ ok s' ∧
    departed s `prefix_of` departed s' ∧ apart s' = apart s ∧
    polled_party (h ++ c) (g ++ departed s') (arriving s') x' k'.
Proof using EL HX.
  intros Hok Hp Hw. destruct x as [t|r].
  - destruct (party_poll F Q h g t s k X w Hok Hp HX Hw) as (c & x' & s' & k' & H1 & H2 & H3 & H4 & Hap & H5 & H6 & H7).
    by exists c, x', s', k'.
  - exists [], (Ended r), s, k. by rewrite app_nil_r.
Qed.

End ends.

(** ** Two parties *)

(** A link with two ends. *)
Class Duplex (S P : Type) {BP : BasePacket P} : Type := {
  first_end : Channel S P;
  second_end : Channel S P;
  dx_ok : S → Prop;
  to_first : S → list (list byte);
  to_second : S → list (list byte);
  dx_state : Type;
  of_first : S → dx_state;
  of_second : S → dx_state;
  dx_fits : nat → Prop;
  dx_first :: EndLaws first_end dx_ok to_first to_second of_second dx_fits;
  dx_second :: EndLaws second_end dx_ok to_second to_first of_first dx_fits
}.

(** The tasks share the link; each has the clock of its host. *)
Definition on_first {S C C'} (st : S * (C * C')) : S * C := (st.1, st.2.1).
Definition put_first {S C C'} (t : S * C) (st : S * (C * C')) : S * (C * C') := (t.1, (t.2, st.2.2)).
Definition on_second {S C C'} (st : S * (C * C')) : S * C' := (st.1, st.2.2).
Definition put_second {S C C'} (t : S * C') (st : S * (C * C')) : S * (C * C') := (t.1, (st.2.1, t.2)).

#[export] Instance first_Lens {S C C'} : Lens (S:=S * (C * C')) on_first put_first.
Proof. split; [by intros [] [? []]|by intros [? []]|by intros [] [] [? []]]. Qed.
#[export] Instance second_Lens {S C C'} : Lens (S:=S * (C * C')) on_second put_second.
Proof. split; [by intros [] [? []]|by intros [? []]|by intros [] [] [? []]]. Qed.

(** The same link from the other side. *)
Definition flipped {S P : Type} {BP : BasePacket P} (DX : Duplex S P) : Duplex S P := {|
  first_end := second_end; second_end := first_end; dx_ok := dx_ok;
  to_first := to_second; to_second := to_first; of_first := of_second; of_second := of_first; dx_fits := dx_fits;
  dx_first := dx_second; dx_second := dx_first
|}.

(** Packets whose payloads are among the first of [h]. *)
Definition has_reached {P : Type} {BP : BasePacket P} (x : list P) (h : list (list byte)) : Prop :=
  ∃ u, hold x u ∧ u `prefix_of` h.

Lemma has_reached_more {P : Type} {BP : BasePacket P} (x : list P) h h' :
  has_reached x h → h `prefix_of` h' → has_reached x h'.
Proof. intros (u & ? & ?) ?. exists u. split; [done|by etrans]. Qed.

Section dialogue.
Context {S P C C' A1 B1 A2 B2 : Type} {BP : BasePacket P} {DC : DiscoCrate} {DX : Duplex S P}.
Context (F1 : list P → outcome HandshakeError (script P * C) A1) (Q1 : A1 → B1 → Prop).
Context (F2 : list P → outcome HandshakeError (script P * C') A2) (Q2 : A2 → B2 → Prop).
Context (w v : list (list byte)).

(** The tasks [a] and [b] are in the dialogue in which [w] is said to the first
    and [v] to the second; the first has received [h1], and the packets [x]
    have reached it; the second [h2], and [y]. *)
Definition in_dialogue h1 h2 (x y : list P) (a : task HandshakeError (S * C) B1) (b : task HandshakeError (S * C') B2)
    (s : S) (ka : C) (kb : C') : Prop :=
  dx_ok s ∧
  party (ok:=dx_ok) (arriving:=to_first) (departed:=to_second) (apart:=of_second)
    F1 Q1 h1 (h2 ++ to_second s) (to_first s) a ka ∧
  party (ok:=dx_ok) (arriving:=to_second) (departed:=to_first) (apart:=of_first)
    F2 Q2 h2 (h1 ++ to_first s) (to_second s) b kb ∧
  h1 ++ to_first s `prefix_of` w ∧ h2 ++ to_second s `prefix_of` v ∧
  has_reached x (h1 ++ to_first s) ∧ has_reached y (h2 ++ to_second s).
End dialogue.

Lemma in_dialogue_flipped {S P C C' A1 B1 A2 B2 : Type} {BP : BasePacket P} {DC : DiscoCrate} {DX : Duplex S P}
    F1 (Q1 : A1 → B1 → Prop) F2 (Q2 : A2 → B2 → Prop) w v h1 h2 x y a b s (ka : C) (kb : C') :
  in_dialogue (DX:=DX) F1 Q1 F2 Q2 w v h1 h2 x y a b s ka kb →
  in_dialogue (DX:=flipped DX) F2 Q2 F1 Q1 v w h2 h1 y x b a s kb ka.
Proof. by intros (? & ? & ? & ? & ? & ? & ?). Qed.

(** What the dialogue does not look at may change. *)
Lemma in_dialogue_moved {S P C C' A1 B1 A2 B2 : Type} {BP : BasePacket P} {DC : DiscoCrate} {DX : Duplex S P}
    F1 (Q1 : A1 → B1 → Prop) F2 (Q2 : A2 → B2 → Prop) w v h1 h2 x y a b s s' (ka : C) (kb : C') :
  dx_ok s' → to_first s' = to_first s → to_second s' = to_second s →
  in_dialogue F1 Q1 F2 Q2 w v h1 h2 x y a b s ka kb → in_dialogue F1 Q1 F2 Q2 w v h1 h2 x y a b s' ka kb.
Proof. intros ? H1 H2 (? & ? & ? & ? & ? & ? & ?). unfold in_dialogue. by rewrite H1, H2. Qed.

(** A poll of the first. *)
Lemma wake_first {S P C C' A1 B1 A2 B2 : Type} {BP : BasePacket P} {DC : DiscoCrate} {DX : Duplex S P}
    (t1 : thread HandshakeError (script P * C) A1) (k1 : C) (Q1 : A1 → B1 → Prop) (U1 : A1 → A1 → Prop)
    F2 (Q2 : A2 → B2 → Prop) (X Y : list P) w v (kX : C) h1 h2 x y a b s ka (kb : C') :
  self_sim U1 t1 → hold X w → hold Y v → final (run_on t1 k1 X) = Some (MkScript [] Y, kX) →
  in_dialogue (run_on t1 k1) Q1 F2 Q2 w v h1 h2 x y a b s ka kb → ∃ h1' a' s' ka',
  wake a (s, ka) = (a', (s', ka')) ∧ of_second s' = of_second s ∧
  in_dialogue (run_on t1 k1) Q1 F2 Q2 w v h1' h2 x y a' b s' ka' kb ∧
  in_dialogue (run_on t1 k1) Q1 F2 Q2 w v h1' h2 x (said (run_on t1 k1 x)) a' b s' ka' kb ∧
  (X = x → (∀ st, run_on t1 k1 X ≠ Suspend st) → has_ended a').
Proof.
  intros Hself HX HY Hfin (Hok & Hp1 & Hp2 & Hw & Hv & Hx & Hy).
  destruct (party_wake (EL:=dx_first) t1 k1 Q1 X w HX h1 h2 a s ka Hok Hp1 Hw)
    as (c & a' & s' & k' & Hwake & Harr & Hok' & Hdep & Hap & Hpol).
  assert (Hsame : (h1 ++ c) ++ to_first s' = h1 ++ to_first s) by by rewrite Harr, (assoc_L (++)).
  assert (Hmore : h2 ++ to_second s `prefix_of` h2 ++ to_second s') by by apply prefix_app.
  pose proof Hw as Hw'. rewrite <-Hsame in Hw'.
  pose proof (party_sound t1 k1 Q1 U1 Hself X Y w v kX HX HY Hfin _ _ _ _ _ Hpol Hw') as Hv'.
  pose proof (λ y u, party_told t1 k1 Q1 U1 Hself X Y w v kX HX HY Hfin _ _ _ _ _ y u Hpol Hw') as Htold.
  pose proof (party_done t1 k1 Q1 X Y w v kX HX HY Hfin _ _ _ _ _ Hpol) as Hdone.
  exists (h1 ++ c), a', s', k'. split; [done|]. split; [done|]. destruct Hpol as (Hp1' & Hpol).
  assert (Hkeep : ∀ z, has_reached z (h2 ++ to_second s') →
    in_dialogue (run_on t1 k1) Q1 F2 Q2 w v (h1 ++ c) h2 x z a' b s' k' kb).
  { intros z Hz. unfold in_dialogue. rewrite Hsame. split_and!; try done. by eapply party_more. }
  split; [apply Hkeep; by eapply has_reached_more|]. destruct Hx as (u & Hu & Hux). split.
  - apply Hkeep. destruct (Htold x u Hu) as (u' & ? & ?); [by rewrite Hsame|]. by exists u'.
  - intros <- Hns. rewrite (hold_length _ _ _ Hu HX) in Hux.
    destruct Hdone as (_ & _ & Hres); [rewrite Hsame; by apply (anti_symm prefix)|done|].
    destruct a' as [|r]; [done|]. by exists r.
Qed.

(** How a task ends whose run ends with [o]. *)
Definition ends_as {E T A B} (Q : A → B → Prop) (o : outcome E T A) (r : option (result B E)) : Prop :=
  match o with
  | Return a _ => ∃ b, r = Some (Ok b) ∧ Q a b
  | Throw e _ => r = Some (Err e)
  | _ => False
  end.

(** Once the first has ended, nothing is on its way to it. *)
Lemma first_ended {S P C C' A1 B1 A2 B2 : Type} {BP : BasePacket P} {DC : DiscoCrate} {DX : Duplex S P}
    (t1 : thread HandshakeError (script P * C) A1) (k1 : C) (Q1 : A1 → B1 → Prop)
    F2 (Q2 : A2 → B2 → Prop) (X Y : list P) w v (kX : C) h1 h2 x y r b s ka (kb : C') :
  hold X w → hold Y v → final (run_on t1 k1 X) = Some (MkScript [] Y, kX) →
  in_dialogue (run_on t1 k1) Q1 F2 Q2 w v h1 h2 x y (Ended r) b s ka kb →
  ends_as Q1 (run_on t1 k1 X) r ∧ to_first s = [].
Proof.
  intros HX HY Hfin (_ & Hp & _ & Hw & _).
  destruct (ended_run t1 k1 Q1 X Y w v kX HX HY Hfin _ _ _ _ _ Hp Hw) as (-> & _ & H). split.
  - destruct r as [[b1|e]|]; [|by destruct H as [st ->]|done]. destruct H as (c & st & -> & HQ). by exists b1.
  - destruct Hw as [z Hz]. rewrite <-(assoc_L (++)) in Hz. rewrite <-(app_nil_r w) in Hz at 1.
    by apply app_inv_head, eq_sym, app_nil in Hz as [? _].
Qed.

Section two_parties.
Context {S P C C' A1 B1 A2 B2 : Type} {BP : BasePacket P} {DC : DiscoCrate} {DX : Duplex S P}.
Context (t1 : thread HandshakeError (script P * C) A1) (k1 : C) (Q1 : A1 → B1 → Prop) (U1 : A1 → A1 → Prop).
Context (t2 : thread HandshakeError (script P * C') A2) (k2 : C') (Q2 : A2 → B2 → Prop) (U2 : A2 → A2 → Prop).
Hypothesis Hself1 : self_sim U1 t1.
Hypothesis Hself2 : self_sim U2 t2.

#[local] Abbreviation F1 := (run_on t1 k1).
#[local] Abbreviation F2 := (run_on t2 k2).

(** What the two say to each other in all: each of the runs ends. *)
Context (X Y : list P) (w v : list (list byte)) (kX : C) (kY : C').
Hypothesis HX : hold X w.
Hypothesis HY : hold Y v.
Hypothesis Hfin1 : final (F1 X) = Some (MkScript [] Y, kX).
Hypothesis Hfin2 : final (F2 Y) = Some (MkScript [] X, kY).
Hypothesis Hend1 : ∀ st, F1 X ≠ Suspend st.
Hypothesis Hend2 : ∀ st, F2 Y ≠ Suspend st.

#[local] Abbreviation task1 := (task HandshakeError (S * (C * C')) B1).
#[local] Abbreviation task2 := (task HandshakeError (S * (C * C')) B2).

(** The two tasks and the state they share. *)
Definition in_turn (x y : list P) (c : task1 * task2 * (S * (C * C'))) : Prop :=
  ∃ h1 h2 a b s ka kb, c = (task_zoom on_first put_first a, task_zoom on_second put_second b, (s, (ka, kb))) ∧
    in_dialogue F1 Q1 F2 Q2 w v h1 h2 x y a b s ka kb.

Lemma in_turn_first x y a b st : in_turn x y (a, b, st) →
  let '(a', st') := wake a st in
  in_turn x y (a', b, st') ∧ in_turn x (said (F1 x)) (a', b, st') ∧ (X = x → has_ended a').
Proof using Hself1 HX HY Hfin1 Hend1.
  intros (h1 & h2 & a0 & b0 & s & ka & kb & [= -> -> ->] & H).
  destruct (wake_first t1 k1 Q1 U1 F2 Q2 X Y w v kX h1 h2 x y a0 b0 s ka kb Hself1 HX HY Hfin1 H)
    as (h1' & a' & s' & ka' & Hw & _ & H1 & H2 & H3).
  rewrite wake_zoom by apply _. change (on_first (s, (ka, kb))) with (s, ka). rewrite Hw. cbn.
  split_and!; [by exists h1', h2, a', b0, s', ka', kb..|]. intros Hx. destruct (H3 Hx Hend1) as [r ->]. by exists r.
Qed.

Lemma in_turn_second x y a b st : in_turn x y (a, b, st) →
  let '(b', st') := wake b st in
  in_turn x y (a, b', st') ∧ in_turn (said (F2 y)) y (a, b', st') ∧ (Y = y → has_ended b').
Proof using Hself2 HX HY Hfin2 Hend2.
  intros (h1 & h2 & a0 & b0 & s & ka & kb & [= -> -> ->] & H%in_dialogue_flipped).
  destruct (wake_first (DX:=flipped DX) t2 k2 Q2 U2 F1 Q1 Y X v w kY h2 h1 y x b0 a0 s kb ka Hself2 HY HX Hfin2 H)
    as (h2' & b' & s' & kb' & Hw & _ & H1%in_dialogue_flipped & H2%in_dialogue_flipped & H3).
  rewrite wake_zoom by apply _. change (on_second (s, (ka, kb))) with (s, kb). rewrite Hw. cbn.
  split_and!; [exists h1, h2', a0, b', s', ka, kb'; by destruct DX..|]. intros Hy. destruct (H3 Hy Hend2) as [r ->]. by exists r.
Qed.

#[local] Abbreviation exchange_turn := (turns (λ x, said (F1 x)) (λ y, said (F2 y))).

(** ** Every fair schedule ends the dialogue *)

Context (u1 : thread HandshakeError (S * C) B1) (u2 : thread HandshakeError (S * C') B2).
Hypothesis Hsim1 : task_sim (with_clock (scripted dx_ok to_first to_second of_second))
  (nothing_arriving (arriving:=to_first) ∘ fst) script_ahead Q1 t1 u1.
Hypothesis Hsim2 : task_sim (with_clock (scripted dx_ok to_second to_first of_first))
  (nothing_arriving (arriving:=to_second) ∘ fst) script_ahead Q2 t2 u2.

(** Nothing has been said. *)
Lemma dialogue_starts s : dx_ok s → to_first s = [] → to_second s = [] →
  in_dialogue F1 Q1 F2 Q2 w v [] [] [] [] (Running u1) (Running u2) s k1 k2.
Proof using Hsim1 Hsim2.
  intros Hok Ha Hb. unfold in_dialogue. rewrite Ha, Hb. cbn [app]. assert (hold (P:=P) [] []) by constructor.
  split_and!; try done; try apply prefix_nil; try (by exists []).
  - intros ib rest Hib. inversion Hib; subst. by exists t1, [].
  - intros ib rest Hib. inversion Hib; subst. by exists t2, [].
Qed.

(** Both have ended. *)
Lemma dialogue_over h1 h2 x y r1 r2 s ka kb :
  in_dialogue F1 Q1 F2 Q2 w v h1 h2 x y (Ended r1) (Ended r2) s ka kb →
  ends_as Q1 (F1 X) r1 ∧ ends_as Q2 (F2 Y) r2 ∧
  dx_ok s ∧ to_first s = [] ∧ to_second s = [].
Proof using HX HY Hfin1 Hfin2.
  intros H. pose proof (in_dialogue_flipped _ _ _ _ _ _ _ _ _ _ _ _ _ _ _ H) as H'.
  destruct (first_ended _ _ _ _ _ X Y w v kX _ _ _ _ _ _ _ _ _ HX HY Hfin1 H) as [? ?].
  destruct (first_ended (DX:=flipped DX) _ _ _ _ _ Y X v w kY _ _ _ _ _ _ _ _ _ HY HX Hfin2 H') as [? ?].
  by split_and!; [| |exact (proj1 H)|..].
Qed.

Lemma tasks_end n sch s : dx_ok s → to_first s = [] → to_second s = [] →
  Nat.iter n exchange_turn [] = X → fair (Datatypes.S n) sch →
  ∃ r1 r2 s' ka kb,
    schedule sch (Running (t_zoom on_first put_first u1)) (Running (t_zoom on_second put_second u2)) (s, (k1, k2)) =
      (Ended r1, Ended r2, (s', (ka, kb))) ∧
    ends_as Q1 (F1 X) r1 ∧ ends_as Q2 (F2 Y) r2 ∧ dx_ok s' ∧ to_first s' = [] ∧ to_second s' = [].
Proof using All.
  intros Hok Ha Hb Hn Hfair.
  assert (H0 : in_turn [] [] (Running (t_zoom on_first put_first u1), Running (t_zoom on_second put_second u2),
    (s, (k1, k2)))).
  { exists [], [], (Running u1), (Running u2), s, k1, k2. split; [done|by apply dialogue_starts]. }
  assert (HsX : said (F1 X) = Y) by (unfold said; by rewrite Hfin1).
  assert (HsY : said (F2 Y) = X) by (unfold said; by rewrite Hfin2).
  destruct (fair_ends in_turn _ _ X Y in_turn_first in_turn_second HsX HsY n sch [] [] _ _ _ Hfair Hn H0)
    as ((h1 & h2 & a & b & s' & ka & kb & Hsch & H) & [r1 He1] & [r2 He2]).
  rewrite Hsch in *. cbn [fst snd] in *.
  destruct a as [|r1']; [done|]. destruct b as [|r2']; [done|]. cbn in Hsch.
  apply dialogue_over in H as (? & ? & ? & ? & ?). by exists r1', r2', s', ka, kb.
Qed.
End two_parties.
