(* ===== verification/Conversation.v ===== *)
(** * Two channels of a session, used at both ends

    The two sides of a link each hold an EFCP channel of one session.  Polled
    in any order, they refine a pair of queues. *)

From S2P Require Export EfcpReliable Rounds.

(** ** Calls at two ends, and the queues they stand for *)

Inductive end_call (P : Type) : Type :=
| Says (w : who) (p : P)
| Hears (w : who).
Arguments Says {P} w p.
Arguments Hears {P} w.

(** A queue to each end; the payload that a receive gets, or [None]. *)
Definition two_queues_call {B} (x : end_call B) (q : list B * list B) : option B * (list B * list B) :=
  match x, q with
  | Says First w, (to1, to2) => (None, (to1, to2 ++ [w]))
  | Says Second w, (to1, to2) => (None, (to1 ++ [w], to2))
  | Hears First, (w :: to1, to2) => (Some w, (to1, to2))
  | Hears Second, (to1, w :: to2) => (Some w, (to1, to2))
  | Hears _, q => (None, q)
  end.

Fixpoint two_queues {B} (xs : list (end_call B)) (q : list B * list B) : list (option B) * (list B * list B) :=
  match xs with
  | [] => ([], q)
  | x :: xs =>
    let '(r, q) := two_queues_call x q in
    let '(rs, q) := two_queues xs q in (r :: rs, q)
  end.

(** What is said is heard, in order. *)
Definition said_by {B} (w : who) (xs : list (end_call B)) : list B :=
  omap (λ x, match x, w with Says First b, First | Says Second b, Second => Some b | _, _ => None end) xs.
Definition heard_by {B} (w : who) (xs : list (end_call B)) (rs : list (option B)) : list B :=
  omap (λ xr, match xr.1, w with Hears First, First | Hears Second, Second => xr.2 | _, _ => None end) (zip xs rs).

Lemma two_queues_fifo {B} (xs : list (end_call B)) to1 to2 :
  let '(rs, (to1', to2')) := two_queues xs (to1, to2) in
  to1 ++ said_by Second xs = heard_by First xs rs ++ to1' ∧ to2 ++ said_by First xs = heard_by Second xs rs ++ to2'.
Proof.
  revert to1 to2. induction xs as [|x xs IH]; intros to1 to2; cbn [two_queues].
  { cbn. by rewrite !app_nil_r. }
  destruct x as [[] b|[]], to1 as [|w1 to1], to2 as [|w2 to2]; cbn [two_queues_call].
  all: match goal with |- context [two_queues _ (?a, ?b)] => specialize (IH a b); destruct (two_queues _ (a, b)) as [rs [to1' to2']] end.
  all: unfold said_by, heard_by in *; cbn in IH |- *; destruct IH as [IH1 IH2].
  all: rewrite <-?(assoc_L (++)) in IH1; rewrite <-?(assoc_L (++)) in IH2; cbn in IH1, IH2.
  all: split; congruence.
Qed.

(** A poll: what it gives, or nothing. *)
Definition poll_once {E S A} (m : M E S A) : M E S (option A) := λ s,
  match m s with
  | Return a s => Return (Some a) s
  | Throw e s => Throw e s
  | Suspend s => Return None s
  | Panic => Panic
  | Diverge => Diverge
  end.

(** ** One direction of a link is a reliable channel *)

Section one_way.
Context {S P : Type} {BP : BasePacket P} {DX : Duplex S P}.

(** The first end sends, the second receives; what the other way holds. *)
Definition one_way : Channel S P := {|
  send := send (Channel:=first_end);
  recv := recv (Channel:=second_end)
|}.

Definition one_way_Reliable (back : list (list byte)) : ReliableChannel (Channel0:=one_way) S P.
Proof.
  refine (@Build_ReliableChannel _ _ _ one_way (λ s, dx_ok s ∧ to_first s = back) to_second dx_fits _ _ _).
  - intros p s l [Hok Hb] Hs Hfits.
    destruct (end_send (EndLaws:=dx_first) p s l Hok Hs Hfits) as (l' & ? & ? & Hb' & ? & _).
    exists l'. by rewrite Hb'.
  - intros l s rest [Hok Hb] Hl. destruct (end_recv (EndLaws:=dx_second) s rest l Hok Hl) as (p & l' & ? & ? & ? & ? & Hb' & _).
    exists p, l'. by rewrite Hb'.
  - intros l [Hok Hb] Hl. destruct (end_wait (EndLaws:=dx_second) l Hok Hl) as (l' & ? & ? & ? & Hb' & _).
    exists l'. by rewrite Hb'.
Defined.
End one_way.

(** ** The channels *)

Section conversation.
Context {BC : BytesCrate} {BL : BytesLaws BC} {BO : ByteOrderCrate} {BOL : ByteOrderLaws BO}.
Context {PR : Profile} {DC : DiscoCrate} {DL : DiscoLaws DC} {DS : DiscoSession DC}.
Context {S P C : Type} {BP : BasePacket P} {max : Z} {PL : PacketLaws P max} {CK : Clock C}.

#[local] Abbreviation efcp := (EfcpChannel (S:=S) (C:=C)).
#[local] Abbreviation Q := (DtcpPacket (DiscoPacket P)).
#[local] Abbreviation efcp_on CH := (Efcp_Channel (CH:=CH) (C:=C)).

(** The session's two channels from the other side. *)
Definition turned (e : ends efcp S) : ends efcp S := MkEnds (medium e) (far e) (near e).

Lemma at_far_turned {A} (m : M io_error efcp A) e :
  at_far m e =
    match at_near m (turned e) with
    | Return a e' => Return a (turned e')
    | Throw x e' => Throw x (turned e')
    | Suspend e' => Suspend (turned e')
    | Panic => Panic
    | Diverge => Diverge
    end.
Proof. unfold at_far, at_near, zoom. by destruct e, (m _). Qed.

Lemma at_near_turned {A} (m : M io_error efcp A) e :
  at_near m e =
    match at_far m (turned e) with
    | Return a e' => Return a (turned e')
    | Throw x e' => Throw x (turned e')
    | Suspend e' => Suspend (turned e')
    | Panic => Panic
    | Diverge => Diverge
    end.
Proof. unfold at_far, at_near, zoom. by destruct e, (m _). Qed.

(** Channels of one session on the two ends, with [to1] and [to2] still to be
    heard. *)
Definition in_session (DX : Duplex S P) (to1 to2 : list (list byte)) (e : ends efcp S) : Prop :=
  dx_ok (medium e) ∧ paired (cipher (near e)) (cipher (far e)) ∧ paired (cipher (far e)) (cipher (near e)) ∧
  fits 64 (nonce_of (near e)) ∧ fits 64 (nonce_of (far e)) ∧
  Forall (efcp_wire (cipher (near e))) (to_second (medium e)) ∧
  Forall (efcp_wire (cipher (far e))) (to_first (medium e)) ∧
  to2 = (λ w, drop 3 (disco_plain (cipher (far e)) w)) <$> to_second (medium e) ∧
  to1 = (λ w, drop 3 (disco_plain (cipher (near e)) w)) <$> to_first (medium e).

Lemma in_session_turned (DX : Duplex S P) to1 to2 e :
  in_session DX to1 to2 e → in_session (flipped DX) to2 to1 (turned e).
Proof. by intros (? & ? & ? & ? & ? & ? & ? & ? & ?). Qed.

Lemma says_first (DX : Duplex S P) (q : Q) w to1 to2 e : in_session DX to1 to2 e →
  payload q = Some w → dx_fits (HEADER + (3 + length w))%nat →
  ∃ e', at_near (send (Channel:=efcp_on first_end) q) e = Return () e' ∧ in_session DX to1 (to2 ++ [w]) e'.
Proof using BL BOL DL PL.
  intros (Hok & Hp & Hp' & Hn & Hn' & Hw & Hw' & -> & ->) Hq Hf.
  destruct (efcp_send_eq (RC:=one_way_Reliable (to_first (medium e))) q w (near e) (medium e) Hq Hf (conj Hok eq_refl) Hn)
    as (wire & c' & Hwire & Hread & Hsend & [Hok' Hb] & Hpend & Hc & Hn1).
  exists (MkEnds (get_inner c') c' (far e)). split.
  { unfold at_near, zoom. change (send (Channel:=efcp_on first_end)) with (send (Channel:=efcp_on one_way)). by rewrite Hsend. }
  cbn [rc_pending one_way_Reliable] in Hpend. unfold in_session. cbn [medium near far]. rewrite Hpend, Hb, Hc, fmap_app.
  split_and!; try done; [by apply Forall_app; split; [|apply Forall_singleton]|]. cbn. by rewrite Hread.
Qed.

Lemma hears_second (DX : Duplex S P) to1 to2 e : in_session DX to1 to2 e →
  match to2 with
  | [] => ∃ e', at_far (recv (Channel:=efcp_on second_end)) e = Suspend e' ∧ in_session DX to1 [] e'
  | w :: to2 => ∃ (q : Q) e', at_far (recv (Channel:=efcp_on second_end)) e = Return q e' ∧ payload q = Some w ∧
      in_session DX to1 to2 e'
  end.
Proof using BL BOL DL PL.
  intros (Hok & Hp & Hp' & Hn & Hn' & Hw & Hw' & -> & ->).
  set (RC := one_way_Reliable (to_first (medium e))). unfold at_far, zoom.
  change (recv (Channel:=efcp_on second_end)) with (recv (Channel:=efcp_on one_way)).
  destruct (to_second (medium e)) as [|wire ws] eqn:Ew; cbn [fmap list_fmap].
  - destruct (efcp_recv_waits (RC:=RC) (medium e) (far e) (conj Hok eq_refl) Ew)
      as (c' & -> & [Hok' Hb] & Hpend & Hc & Hn1).
    eexists. split; [done|]. cbn [rc_pending one_way_Reliable RC] in Hpend. unfold in_session. cbn [medium near far]. by rewrite Hpend, Hb, Hc, Hn1.
  - apply Forall_cons in Hw as [(n & f & k & s & Hf & ->) Hw].
    destruct (efcp_recv_eq (RC:=RC) (cipher (near e)) n f k s _ ws (medium e) (far e) Hp Hf eq_refl (conj Hok eq_refl) Ew)
      as (q & c' & -> & Hq & [Hok' Hb] & Hpend & Hc & Hn1).
    rewrite disco_plain_wire by done. eexists q, _. split; [done|]. split; [done|].
    cbn [rc_pending one_way_Reliable RC] in Hpend. unfold in_session. cbn [medium near far]. by rewrite Hpend, Hb, Hc, Hn1.
Qed.

(** ** Any order of calls *)

Definition talk_call (DX : Duplex S P) (x : end_call Q) : M io_error (ends efcp S) (option Q) :=
  match x with
  | Says First q => at_near (send (Channel:=efcp_on first_end) q);; mret None
  | Says Second q => at_far (send (Channel:=efcp_on second_end) q);; mret None
  | Hears First => poll_once (at_near (recv (Channel:=efcp_on first_end)))
  | Hears Second => poll_once (at_far (recv (Channel:=efcp_on second_end)))
  end.

Fixpoint talk (DX : Duplex S P) (xs : list (end_call Q)) : M io_error (ends efcp S) (list (option Q)) :=
  match xs with
  | [] => mret []
  | x :: xs => r ← talk_call DX x; rs ← talk DX xs; mret (r :: rs)
  end.

(** The payload that a call is about. *)
Definition worded (DX : Duplex S P) (x : end_call Q) (y : end_call (list byte)) : Prop :=
  match x, y with
  | Says First q, Says First w | Says Second q, Says Second w =>
      payload q = Some w ∧ dx_fits (HEADER + (3 + length w))%nat
  | Hears First, Hears First | Hears Second, Hears Second => True
  | _, _ => False
  end.

Lemma talk_call_eq (DX : Duplex S P) x y to1 to2 e : in_session DX to1 to2 e → worded DX x y →
  let '(w, (to1', to2')) := two_queues_call y (to1, to2) in
  ∃ r e', talk_call DX x e = Return r e' ∧ r ≫= payload = w ∧ in_session DX to1' to2' e'.
Proof using BL BOL DL PL.
  intros He Hxy. pose proof (in_session_turned _ _ _ _ He) as Ht.
  destruct x as [[] q|[]], y as [[] w|[]]; try done; cbn [two_queues_call talk_call].
  - destruct Hxy as [Hq Hf]. destruct (says_first DX q w to1 to2 e He Hq Hf) as (e' & Hs & He').
    eexists None, e'. run. by rewrite Hs.
  - destruct Hxy as [Hq Hf]. destruct (says_first (flipped DX) q w to2 to1 _ Ht Hq Hf) as (e' & Hs & He').
    eexists None, (turned e'). run. rewrite at_far_turned. cbn [first_end flipped] in Hs. rewrite Hs.
    split_and!; [done|done|]. apply in_session_turned in He'. by destruct DX.
  - pose proof (hears_second (flipped DX) to2 to1 _ Ht) as H. cbn [second_end flipped] in H. unfold poll_once.
    rewrite at_near_turned. destruct to1 as [|w to1].
    + destruct H as (e' & -> & He'). eexists None, _. split_and!; [done|done|].
      apply in_session_turned in He'. by destruct DX.
    + destruct H as (q & e' & -> & Hq & He'). eexists (Some q), _. split_and!; [done|done|].
      apply in_session_turned in He'. by destruct DX.
  - pose proof (hears_second DX to1 to2 _ He) as H. unfold poll_once. destruct to2 as [|w to2].
    + destruct H as (e' & -> & He'). by eexists None, _.
    + destruct H as (q & e' & -> & Hq & He'). by eexists (Some q), _.
Qed.

(** The two channels are a pair of queues. *)
Lemma talk_eq (DX : Duplex S P) xs ys to1 to2 e : in_session DX to1 to2 e → Forall2 (worded DX) xs ys →
  let '(ws, (to1', to2')) := two_queues ys (to1, to2) in
  ∃ rs e', talk DX xs e = Return rs e' ∧ (λ r : option Q, r ≫= payload) <$> rs = ws ∧ in_session DX to1' to2' e'.
Proof using BL BOL DL PL.
  intros He Hxs. revert to1 to2 e He. induction Hxs as [|x y xs ys Hxy Hxs IH]; intros to1 to2 e He; cbn [two_queues talk].
  { by exists [], e. }
  pose proof (talk_call_eq DX x y to1 to2 e He Hxy) as H.
  destruct (two_queues_call y (to1, to2)) as [w [to1' to2']]. destruct H as (r & e' & Hr & Hw & He').
  specialize (IH to1' to2' e' He'). destruct (two_queues ys (to1', to2')) as [ws [to1'' to2'']].
  destruct IH as (rs & e'' & Hrs & Hws & He''). exists (r :: rs), e''.
  split_and!; [run; by rewrite Hr, Hrs|by rewrite fmap_cons, Hw, Hws|done].
Qed.

Definition converse (DX : Duplex S P) (s : S) (c1 c2 : efcp) : Prop :=
  ∀ xs ys, Forall2 (worded DX) xs ys → ∃ rs e',
    talk DX xs (MkEnds s c1 c2) = Return rs e' ∧ (λ r : option Q, r ≫= payload) <$> rs = (two_queues ys ([], [])).1.

Lemma session_converse (DX : Duplex S P) s c1 c2 :
  dx_ok s → to_first s = [] → to_second s = [] →
  paired (cipher c1) (cipher c2) → paired (cipher c2) (cipher c1) → fits 64 (nonce_of c1) → fits 64 (nonce_of c2) →
  converse DX s c1 c2.
Proof using BL BOL DL PL.
  intros Hok H1 H2 Hp Hp' Hn Hn' xs ys Hxs.
  pose proof (talk_eq DX xs ys [] [] (MkEnds s c1 c2)) as H.
  destruct (two_queues ys ([], [])) as [ws [to1 to2]]. destruct H as (rs & e' & ? & ? & _).
  - unfold in_session. cbn [medium near far]. rewrite H1, H2. by split_and!.
  - done.
  - by exists rs, e'.
Qed.
End conversation.
