(* ===== verification/Connect.v ===== *)
(** * Two tasks complete the handshake (src/efcp/src/lib.rs)

    The initiator and the responder as tasks on the two ends of a link: under
    every fair schedule both end as handshake and negotiation demand, and the
    channels they get deliver. *)

From S2P Require Export EfcpAgreement Conversation.

(** A script holds packets whose payload can be read. *)
Lemma said_hold {P C A : Type} {BP : BasePacket P} {DC : DiscoCrate} (t0 : thread HandshakeError (script P * C) A) k0 U x w :
  self_sim U t0 → hold x w → ∃ v, hold (said (run_on t0 k0 x)) v.
Proof.
  intros Hself Hx. destruct (final (run_on t0 k0 x)) as [st|] eqn:Ef.
  - destruct (run_mono t0 k0 U Hself x x w [] st Hx) as (a & b & Ha & _); [by rewrite app_nil_r|done|]. by exists a.
  - exists []. unfold said. rewrite Ef. constructor.
Qed.

(** ** The handshake *)

Section connect.
Context {BC : BytesCrate} {BL : BytesLaws BC} {BO : ByteOrderCrate} {BOL : ByteOrderLaws BO}.
Context {PR : Profile} {DC : DiscoCrate} {DL : DiscoLaws DC}.
Context {DS : DiscoSession DC} {DSL : DiscoSessionLaws DS}.
Context {S P C : Type} {BP : BasePacket P} {max : Z} {PL : PacketLaws P max} {CK : Clock C}.
Context {DX : Duplex S P}.
Hypothesis Hmax : 524 + Z.of_nat TAG_LEN + Z.of_nat OVERHEAD ≤ max.
Hypothesis Hfits : ∀ n, (n ≤ 524 + TAG_LEN + OVERHEAD)%nat → dx_fits n.

Context (kp kp' : Keypair) (ps qs : list Protocol) (addr : Addr) (k k' : C) (fuel : nat).
Hypothesis Hps : Forall proto_ok ps.
Hypothesis Hqs : Forall proto_ok qs.
Hypothesis Haddr : addr_wf addr.
Hypothesis Hfuel : (length ps + length qs + 3 < fuel)%nat.

#[local] Abbreviation efcp := (EfcpChannel (S:=S) (C:=C)).
#[local] Abbreviation scripted_efcp := (EfcpChannel (S:=script P) (C:=C)).

(** The tasks, on any channel. *)
Definition initiator_task {T} (CH : Channel T P) : thread HandshakeError (T * C) (EfcpChannel (S:=T) (C:=C)) :=
  t_initiator (AC:=one_section) fuel kp ps (public kp').
Definition responder_task {T} (CH : Channel T P) : thread HandshakeError (T * C) (EfcpChannel (S:=T) (C:=C)) :=
  t_responder (AC:=one_section) fuel kp' qs addr.

Lemma the_initiator_run ib : the_initiator kp kp' ps k fuel ib = run_on (initiator_task script_Channel) k ib.
Proof using Type. symmetry. apply (run_t_initiator (AL:=one_section_laws)). Qed.
Lemma the_responder_run ib : the_responder kp' qs addr k' fuel ib = run_on (responder_task script_Channel) k' ib.
Proof using Type. symmetry. apply (run_t_responder (AL:=one_section_laws)). Qed.

(** On an end, a task makes the steps it makes on a script. *)
Lemma initiator_task_sim {T Y} {CH : Channel T P} {ok arriving departed} {apart : T → Y} {fitting : nat → Prop}
    {EL : EndLaws CH ok arriving departed apart fitting} :
  (∀ n, (n ≤ 524 + TAG_LEN + OVERHEAD)%nat → fitting n) →
  task_sim (with_clock (scripted ok arriving departed apart)) (nothing_arriving (arriving:=arriving) ∘ fst) script_ahead
    same_session (initiator_task script_Channel) (initiator_task CH).
Proof using Hmax DL DSL BL BOL PL.
  intros Hf. unfold initiator_task.
  apply (initiator_sim Hmax (A1:=one_section) (A2:=one_section) _ _ _ fitting Hf). apply endpoint_sim.
Qed.

Lemma responder_task_sim {T Y} {CH : Channel T P} {ok arriving departed} {apart : T → Y} {fitting : nat → Prop}
    {EL : EndLaws CH ok arriving departed apart fitting} :
  (∀ n, (n ≤ 524 + TAG_LEN + OVERHEAD)%nat → fitting n) →
  task_sim (with_clock (scripted ok arriving departed apart)) (nothing_arriving (arriving:=arriving) ∘ fst) script_ahead
    same_session (responder_task script_Channel) (responder_task CH).
Proof using Hmax DL DSL BL BOL PL.
  intros Hf. unfold responder_task.
  apply (responder_sim Hmax (A1:=one_section) (A2:=one_section) _ _ _ fitting Hf). apply endpoint_sim.
Qed.

#[local] Abbreviation F1 := (run_on (initiator_task script_Channel) k).
#[local] Abbreviation F2 := (run_on (responder_task script_Channel) k').

Lemma turns_hold n : ∃ w, hold (Nat.iter n (turns (λ x, said (F1 x)) (λ y, said (F2 y))) []) w.
Proof using Hmax DL DSL BL BOL PL.
  induction n as [|n [w IH]]; [exists []; constructor|]. rewrite Nat.iter_succ. unfold turns at 1.
  destruct (said_hold _ k _ _ w (initiator_task_sim (EL:=script_end) ltac:(done)) IH) as [v Hv].
  by eapply (said_hold _ k' _ _ v (responder_task_sim (EL:=script_end) ltac:(done))).
Qed.

Lemma turns_answered n : Nat.iter n (turns (λ x, said (F1 x)) (λ y, said (F2 y))) [] =
  Nat.iter n (answered (the_initiator kp kp' ps k fuel) (the_responder kp' qs addr k' fuel)) [].
Proof using Type.
  induction n as [|n IH]; [done|]. rewrite !Nat.iter_succ, IH. unfold turns, answered.
  by rewrite the_initiator_run, the_responder_run.
Qed.

(** Two tasks that have ended with what they negotiated. *)
Definition agreed (r : option Protocol) (t t' : StatelessTransportState)
    (a b : option (result efcp HandshakeError)) : Prop :=
  match r with
  | Some p => ∃ ci cr, a = Some (Ok ci) ∧ b = Some (Ok cr) ∧
      protocol ci = p ∧ protocol cr = p ∧
      efcp_peer_identity ci = public kp' ∧ efcp_peer_identity cr = public kp ∧
      efcp_external_addr ci = Some addr ∧ efcp_external_addr cr = None ∧
      cipher ci = t ∧ cipher cr = t' ∧ fits 64 (nonce_of ci) ∧ fits 64 (nonce_of cr)
  | None => a = Some (Err NegotiationError) ∧ b = Some (Err NegotiationError)
  end.

(** The result of a run, and of a task that ends as the run. *)
Lemma concluded_ends r ext remote t (o : outcome HandshakeError (script P * C) scripted_efcp) (x : option (result efcp HandshakeError)) :
  concluded r ext remote t o → ends_as same_session o x →
  match r with
  | Some p => ∃ c, x = Some (Ok c) ∧ protocol c = p ∧ efcp_peer_identity c = remote ∧
      efcp_external_addr c = ext ∧ cipher c = t ∧ fits 64 (nonce_of c)
  | None => x = Some (Err NegotiationError)
  end.
Proof.
  destruct r as [p|]; [|by intros (st & -> & _)].
  intros (c & st & -> & _ & Hp & Hr & He & Hk & Hn) (c' & -> & H1 & H2 & H3 & H4 & _).
  assert (H5 : cipher c' = key (efcp_channel c)) by exact (eq_sym (f_equal transport H4)).
  assert (H6 : nonce_of c' = counter (efcp_channel c)) by exact (eq_sym (f_equal next_nonce H4)).
  exists c'. rewrite H5, H6. unfold efcp_peer_identity. by rewrite <-H1, <-H2, <-H3.
Qed.

Lemma concluded_final r ext remote t (o : outcome HandshakeError (script P * C) scripted_efcp) :
  concluded r ext remote t o → (∃ k, final o = Some (MkScript [] (said o), k)) ∧ ∀ st, o ≠ Suspend st.
Proof using Type.
  destruct r as [p|]; intros H; [destruct H as (c & [[i ob] kX] & -> & Hi & _)|destruct H as ([[i ob] kX] & -> & Hi)].
  all: cbn in Hi; subst i; split; [by exists kX|done].
Qed.

(** All that the two say to each other: [X] to the initiator, [Y] to the
    responder; and how their runs end on it. *)
Definition whole (X Y : list P) (w v : list (list byte)) (kX kY : C) : Prop :=
  hold X w ∧ hold Y v ∧
  final (F1 X) = Some (MkScript [] Y, kX) ∧ final (F2 Y) = Some (MkScript [] X, kY) ∧
  (∀ st, F1 X ≠ Suspend st) ∧ (∀ st, F2 Y ≠ Suspend st).

Lemma whole_dialogue : ∃ n t t' X Y w v kX kY, paired t t' ∧ paired t' t ∧
  whole X Y w v kX kY ∧ Nat.iter n (turns (λ x, said (F1 x)) (λ y, said (F2 y))) [] = X ∧
  ∀ a b : option (result efcp HandshakeError),
    ends_as same_session (F1 X) a → ends_as same_session (F2 Y) b → agreed (first_common ps qs ps qs) t t' a b.
Proof using Hmax DL DSL BL BOL PL Hps Hqs Haddr Hfuel.
  destruct (handshake_settles Hmax kp kp' ps qs addr k k' fuel Hps Hqs Haddr Hfuel)
    as (n & t & t' & Hp & Hp' & Hci & Hcr & Hback).
  destruct (turns_hold n) as [w HX]. rewrite turns_answered in HX.
  set (X := Nat.iter n (answered _ _) []) in *. set (Y := said (the_initiator kp kp' ps k fuel X)) in *.
  destruct (said_hold _ k _ X w (initiator_task_sim (EL:=script_end) ltac:(done)) HX) as [v HY].
  rewrite <-the_initiator_run in HY. fold Y in HY.
  destruct (concluded_final _ _ _ _ _ Hci) as [[kX HfX] HeX].
  destruct (concluded_final _ _ _ _ _ Hcr) as [[kY HfY] HeY].
  fold Y in HfX. assert (HsX : said (the_responder kp' qs addr k' fuel Y) = X) by exact Hback.
  rewrite HsX in HfY. rewrite the_initiator_run in HfX, HeX, Hci. rewrite the_responder_run in HfY, HeY, Hcr.
  exists n, t, t', X, Y, w, v, kX, kY. split_and!; try done; [apply turns_answered|].
  intros a b Ha Hb. pose proof (concluded_ends _ _ _ _ _ _ Hci Ha) as Hi.
  pose proof (concluded_ends _ _ _ _ _ _ Hcr Hb) as Hr. unfold agreed.
  destruct (first_common ps qs ps qs) as [p|]; [|done].
  destruct Hi as (ci & -> & ? & ? & ? & ? & ?), Hr as (cr & -> & ? & ? & ? & ? & ?). by exists ci, cr.
Qed.

(** The responder says nothing before it hears something. *)
Lemma responder_silent : ∃ st, F2 [] = Suspend st ∧ said (F2 []) = [].
Proof using Hfuel DL DSL.
  rewrite <-the_responder_run. unfold the_responder, responder.
  destruct (in_clear_script (P:=P) k') as [cr Hcr]. run. rewrite Hcr.
  assert (∃ f, fuel = Datatypes.S f) as [f ->] by (exists (fuel - 1)%nat; lia).
  rewrite responder_loop_waits. by eexists.
Qed.

Lemma tasks_agree : ∃ n t t', paired t t' ∧ paired t' t ∧ ∀ sch s,
  dx_ok s → to_first s = [] → to_second s = [] → fair n sch →
  ∃ a b s' ka kb,
    schedule sch (Running (t_zoom on_first put_first (initiator_task first_end)))
      (Running (t_zoom on_second put_second (responder_task second_end))) (s, (k, k')) =
      (Ended a, Ended b, (s', (ka, kb))) ∧
    dx_ok s' ∧ to_first s' = [] ∧ to_second s' = [] ∧
    agreed (first_common ps qs ps qs) t t' a b.
Proof using All.
  destruct whole_dialogue as (n & t & t' & X & Y & w & v & kX & kY & Hp & Hp' & (HX & HY & HfX & HfY & HeX & HeY) & Hn & Hagree).
  exists (Datatypes.S n), t, t'. split_and!; [done..|]. intros sch s Hok Ha Hb Hfair.
  destruct (tasks_end _ k same_session _ _ k' same_session _
    (initiator_task_sim (EL:=script_end) ltac:(done)) (responder_task_sim (EL:=script_end) ltac:(done))
    X Y w v kX kY HX HY HfX HfY HeX HeY _ _ (initiator_task_sim (EL:=dx_first) Hfits) (responder_task_sim (EL:=dx_second) Hfits)
    n sch s Hok Ha Hb Hn Hfair) as (a & b & s' & ka & kb & Hsch & Hea & Heb & Hok' & Ha' & Hb').
  exists a, b, s', ka, kb. split_and!; try done. by apply Hagree.
Qed.

(** C5: Two tasks complete the handshake.  The initiator and the responder run as
    tasks on the two ends of a link that keeps order and loses nothing; a poll
    of a task does what it can and waits at the next await.  Under every
    schedule that polls each of them often enough, with any other polls in
    between, both end as the negotiation demands: with channels of the same
    protocol that know the other's public key and, at the initiator, its
    external address; or, when they have no protocol in common, both with the negotiation
    error.  They leave nothing in the link, and the two channels, used at both
    ends in any order, are a pair of queues. *)
Theorem tasks_connect : ∃ n, ∀ sch s,
  fair n sch → dx_ok s → to_first s = [] → to_second s = [] → ∃ a b s' ka kb,
    schedule sch (Running (t_zoom on_first put_first (initiator_task first_end)))
      (Running (t_zoom on_second put_second (responder_task second_end))) (s, (k, k')) =
      (Ended a, Ended b, (s', (ka, kb))) ∧
    dx_ok s' ∧ to_first s' = [] ∧ to_second s' = [] ∧
    match first_common ps qs ps qs with
    | Some p => p ∈ ps ∧ p ∈ qs ∧ ∃ ci cr : efcp, a = Some (Ok ci) ∧ b = Some (Ok cr) ∧
        protocol ci = p ∧ protocol cr = p ∧
        efcp_peer_identity ci = public kp' ∧ efcp_peer_identity cr = public kp ∧
        efcp_external_addr ci = Some addr ∧ efcp_external_addr cr = None ∧
        converse DX s' ci cr
    | None => (∀ p, p ∈ ps → p ∉ qs) ∧ a = Some (Err NegotiationError) ∧ b = Some (Err NegotiationError)
    end.
Proof using All.
  destruct tasks_agree as (n & t & t' & Ht & Ht' & H). exists n. intros sch s Hfair Hok H1 H2.
  destruct (H sch s Hok H1 H2 Hfair) as (a & b & s' & ka & kb & Hs & Hok' & H1' & H2' & Hab).
  exists a, b, s', ka, kb. split_and!; try done. pose proof (first_common_sound ps qs ps qs) as Hsound.
  destruct (first_common ps qs ps qs) as [p|]; [|by split; [apply Hsound; auto|]].
  destruct Hsound as [? ?]; [auto..|]. do 2 (split; [done|]).
  destruct Hab as (ci & cr & ? & ? & ? & ? & ? & ? & ? & ? & Ec & Er & ? & ?). exists ci, cr. split_and!; try done.
  by apply (session_converse (max:=max)); rewrite ?Ec, ?Er.
Qed.
End connect.
