(* ===== verification/DtpDuplex.v ===== *)
(** * A channel between two sockets, in both directions

    Over a network that delivers, the handles of the two sockets on one
    channel are the two ends of a link in the sense of Rounds.v. *)

From S2P Require Export DtpLink Rounds.

Import Dtp.

Section two_way.
Context {BC : BytesCrate} {BL : BytesLaws BC}.
Context {SQ : SegQueueCrate} {SQL : SegQueueLaws SQ}.
Context {SL : SlabCrate} {SLL : SlabLaws SL}.
Context {PR : Profile} {K : Type} `{!UdpExt K} `{!UdpExtLaws K} `{!UdpSocket K}.
Context {NW : Network K} {NL : NetworkLaws K}.

#[local] Abbreviation isock := (InnerDtpSocket (K:=K)).

(** A handle, its receive with fuel for what is on its way. *)
Definition DtpChannel_ready (ch : DtpChannel) : Channel.Channel isock DtpPacket := {|
  send := poll_send (handle ch);
  recv := λ s, poll_channel (S (length (coming (socket s)))) (handle ch) s
|}.

(** The handles of the two sockets. *)
Definition local_end (ch : DtpChannel) : Channel.Channel (link K) DtpPacket := {|
  send p := at_local (send (Channel:=DtpChannel_ready ch) p);
  recv := at_local (recv (Channel:=DtpChannel_ready ch))
|}.
Definition peer_end (ch : DtpChannel) : Channel.Channel (link K) DtpPacket := {|
  send p := at_peer (send (Channel:=DtpChannel_ready ch) p);
  recv := at_peer (recv (Channel:=DtpChannel_ready ch))
|}.

(** The link seen from the peer. *)
Definition flip (l : link K) : link K := MkLink (peer l) (local l).

Lemma at_peer_flip {A} (m : M io_error isock A) l :
  at_peer m l =
    match at_local m (flip l) with
    | Return a l' => Return a (flip l')
    | Throw e l' => Throw e (flip l')
    | Suspend l' => Suspend (flip l')
    | Panic => Panic
    | Diverge => Diverge
    end.
Proof.
  destruct l as [a b]. unfold at_peer, at_local, zoom; run. cbn.
  destruct (m b) as [x s| | | |]; try done. unfold carried_back, carried. cbn.
  by destruct (carry _ _).
Qed.

(** Both directions of the channel that the local socket calls [c] and the
    peer [d]. *)
Definition both_ok (c d : Channel) (l : link K) : Prop :=
  link_ok c l ∧ link_ok d (flip l) ∧ peer_channel c l = d ∧ peer_channel d (flip l) = c.

Lemma both_ok_flip c d l : both_ok c d l → both_ok d c (flip l).
Proof. destruct l. intros (? & ? & ? & ?). by split_and!. Qed.

(** What one direction leaves of the other. *)
Lemma other_way c d l l' : both_ok c d l → link_ok c l' →
  unmoved (local l) (local l') → steady (socket (peer l)) (socket (peer l')) →
  both_ok c d l' ∧ link_pending d (flip l') = link_pending d (flip l).
Proof.
  intros (_ & [Hl Hp Hi Ha Hc Hids] & Hd & Hcd) Hok' (Habs & Hcom & [Hh1 _]) [Hh2 Hi2].
  assert (Hc' : peer_channel d (flip l') = c) by (rewrite <-Hcd; unfold peer_channel; cbn; by rewrite Hh2).
  assert (Hf : in_flight (peer_channel d (flip l')) (abs (peer (flip l'))) =
    in_flight (peer_channel d (flip l)) (abs (peer (flip l)))).
  { rewrite Hc', Hcd. unfold in_flight. cbn [flip peer]. rewrite Habs. cbn [abs a_sock a_set_sock]. by rewrite Hcom. }
  destruct Hok' as [Hl' Hp' ? ? ? ?]. cbn [flip local peer] in Hl, Hp, Hi, Ha, Hc.
  split; [|unfold link_pending; by rewrite Hf].
  unfold both_ok. split_and!; [done| |by rewrite <-Hd; unfold peer_channel; cbn; rewrite Hh1|done].
  split; [exact Hp'|exact Hl'|auto|cbn; by rewrite Hh1|cbn; by rewrite Hcom|]. by rewrite Hf.
Qed.

(** A send of the local socket, and a receive of the peer. *)
Lemma two_send c d (p : DtpPacket) w l : both_ok c d l → payload p = Some w → fits_datagram (length w) →
  ∃ l', at_local (poll_send c p) l = Return () l' ∧ both_ok c d l' ∧
    link_pending d (flip l') = link_pending d (flip l) ∧ link_pending c l' = link_pending c l ++ [w] ∧
    reached d (peer l) (peer l').
Proof.
  intros Hb Hp Hf. destruct (poll_send_link c p w l (proj1 Hb) Hp Hf) as (l' & Hs & Hok & Hpend & Hun & Hst).
  exists l'. pose proof Hst as (_ & Hst' & _). pose proof Hb as (_ & _ & Hd & _). rewrite Hd in Hst.
  destruct (other_way c d l l' Hb Hok Hun Hst') as [? ?].
  split_and!; try done. revert Hs. unfold link_send, at_local; run. unfold zoom. cbn [send DtpChannel_Channel handle].
  destruct (poll_send c p (local l)) as [[]| | | |]; try done.
Qed.

Lemma recv_steady (s' : isock) l : idle (socket (peer l)) → steady (socket (peer l)) (socket s') →
  carried_back (set_peer s' l) = set_peer s' l.
Proof.
  intros Hi [_ Hst]. unfold carried_back. cbn. rewrite carry_idle by auto.
  destruct l as [[] b], s'. done.
Qed.

Lemma two_recv c d l : both_ok c d l →
  match link_pending c l with
  | [] => ∃ l', at_peer (recv (Channel:=DtpChannel_ready (MkDtpChannel d))) l = Suspend l' ∧
      both_ok c d l' ∧ link_pending d (flip l') = link_pending d (flip l) ∧ link_pending c l' = [] ∧
      local l' = local l
  | w :: rest => ∃ p l', at_peer (recv (Channel:=DtpChannel_ready (MkDtpChannel d))) l = Return p l' ∧
      payload p = Some w ∧ both_ok c d l' ∧
      link_pending d (flip l') = link_pending d (flip l) ∧ link_pending c l' = rest ∧ local l' = local l
  end.
Proof.
  intros Hb. pose proof Hb as (Hok & [_ _ Hi _ _ _] & Hd & _). cbn [flip local] in Hi.
  pose proof (link_recv_link c l Hok) as H. unfold link_pending at 1.
  assert (Hsame : ∀ s' : isock, unmoved (local l) (local (set_peer s' l))) by done.
  unfold link_recv, zoom in H; run in H. cbn [recv DtpChannel_Channel handle] in H. rewrite Hd in H.
  unfold at_peer, zoom; run. cbn [recv DtpChannel_ready handle]. rewrite Hd.
  destruct (in_flight d (abs (peer l))) as [|x rest]; cbn [fmap list_fmap].
  - destruct H as (s' & Hr & Hok' & Hpend & Hst).
    destruct (other_way c d l (set_peer s' l) Hb Hok' (Hsame s') Hst) as [? ?].
    exists (set_peer s' l). split_and!; try done.
    destruct (poll_channel _ d (peer l)); try done.
  - destruct H as (p & s' & Hr & <- & Hid & Hok' & Hpend & Hst).
    destruct (other_way c d l (set_peer s' l) Hb Hok' (Hsame s') Hst) as [? ?].
    exists p, (set_peer s' l). split_and!; try done; [|by apply payload_of_datagram].
    destruct (poll_channel _ d (peer l)) as [p' s1| | | |]; try done.
    assert (p' = p ∧ s1 = s') as [-> ->] by (by injection Hr). cbn. by rewrite recv_steady.
Qed.

(** ** The two ends *)

(** What the other end's calls leave of a socket: its tables, and the
    datagrams for other channels. *)
Definition aside (c : Channel) (s : isock) : gmap Channel (list datagram) * gset Channel * list Channel * list arrival :=
  (a_conns (abs s), a_taken (abs s), a_incoming (abs s), foreign c (coming (socket s))).

Lemma reached_aside c s s' : reached c s s' → aside c s' = aside c s.
Proof. intros (-> & _ & Hf). unfold aside. cbn in *. by rewrite Hf. Qed.

Lemma peer_end_laws c d :
  EndLaws (peer_end (MkDtpChannel d)) (both_ok c d) (link_pending c) (λ l, link_pending d (flip l))
    (λ l, aside c (local l)) fits_datagram.
Proof.
  split.
  - intros p w l Hb%both_ok_flip Hp Hf. destruct (two_send d c p w (flip l) Hb Hp Hf) as (l' & Hs & Hb' & H1 & H2 & H3%reached_aside).
    exists (flip l'). cbn [send peer_end DtpChannel_ready handle]. rewrite at_peer_flip, Hs.
    destruct l, l'. split_and!; try done. by apply both_ok_flip in Hb'.
  - intros w rest l Hb Hl. pose proof (two_recv c d l Hb) as H. rewrite Hl in H.
    destruct H as (p & l' & ? & ? & ? & ? & ? & H'). exists p, l'. by rewrite H'.
  - intros l Hb Hl. pose proof (two_recv c d l Hb) as H. rewrite Hl in H.
    destruct H as (l' & ? & ? & ? & ? & H'). exists l'. by rewrite H'.
Qed.

Lemma local_end_laws c d :
  EndLaws (local_end (MkDtpChannel c)) (both_ok c d) (λ l, link_pending d (flip l)) (link_pending c)
    (λ l, aside d (peer l)) fits_datagram.
Proof.
  split.
  - intros p w l Hb Hp Hf. destruct (two_send c d p w l Hb Hp Hf) as (l' & ? & ? & ? & ? & ?%reached_aside). by exists l'.
  - intros w rest l Hb%both_ok_flip Hl. pose proof (two_recv d c (flip l) Hb) as H. rewrite Hl in H.
    rewrite at_peer_flip in H. cbn [recv local_end]. destruct l as [a b]. unfold flip in H at 1. cbn in H.
    destruct H as (p & l' & Hr & ? & Hb' & ? & ? & Hb2).
    destruct (at_local _ (MkLink a b)) as [p' l1| | | |]; try done. injection Hr as -> <-.
    exists p, l1. apply both_ok_flip in Hb'. destruct l1. cbn in Hb2. by subst.
  - intros l Hb%both_ok_flip Hl. pose proof (two_recv d c (flip l) Hb) as H. rewrite Hl in H.
    rewrite at_peer_flip in H. cbn [recv local_end]. destruct l as [a b]. unfold flip in H at 1. cbn in H.
    destruct H as (l' & Hr & Hb' & ? & ? & Hb2).
    destruct (at_local _ (MkLink a b)) as [p' l1| |l1| |]; try done. injection Hr as <-.
    exists l1. apply both_ok_flip in Hb'. destruct l1. cbn in Hb2. by subst.
Qed.

#[export] Instance socket_Duplex (c d : Channel) : Duplex (link K) DtpPacket := {|
  first_end := local_end (MkDtpChannel c); second_end := peer_end (MkDtpChannel d);
  dx_ok := both_ok c d; to_first l := link_pending d (flip l); to_second := link_pending c;
  of_first l := aside c (local l); of_second l := aside d (peer l);
  dx_fits := fits_datagram; dx_first := local_end_laws c d; dx_second := peer_end_laws c d
|}.

(** ** Taking the channel *)

(** The next channel of the socket, with fuel for what is on its way. *)
Definition Incoming_ready : M io_error isock DtpChannel :=
  λ s, Incoming_poll_next (S (length (coming (socket s)))) s.

(** Nothing has been received on the channel, which nobody has taken, and
    nothing has been announced or comes on others. *)
Definition unopened (c : Channel) (s : isock) : Prop :=
  queue (abs s) c = [] ∧ (c ∉ a_taken (abs s)) ∧ a_incoming (abs s) = [] ∧ foreign c (coming (socket s)) = [].

Lemma aside_untaken c s s' : aside c s' = aside c s → c ∉ channels s → c ∉ channels s'.
Proof.
  intros H Hc. assert (channels s' = channels s) as -> by exact (f_equal (λ x, x.1.1.2) H). done.
Qed.

Lemma aside_unopened c s s' : aside c s' = aside c s → unopened c s → unopened c s'.
Proof.
  intros H. pose proof (f_equal (λ x, x.1.1.1) H) as H1. pose proof (f_equal (λ x, x.1.1.2) H) as H2.
  pose proof (f_equal (λ x, x.1.2) H) as H3. pose proof (f_equal snd H) as H4. unfold unopened, queue.
  cbn -[a_conns a_taken a_incoming] in *. by rewrite H1, H2, H3, H4.
Qed.

Lemma not_foreign c x ds : foreign c (x :: ds) = [] → arrivals_for c [x] ≠ [].
Proof.
  unfold foreign. intros H He. rewrite filter_cons_True in H by (by rewrite He). done.
Qed.

Lemma a_incoming_ready d (a : ASock K) fuel :
  queue a d = [] → d ∉ a_taken a → a_incoming a = [] → foreign d (coming (a_sock a)) = [] →
  Forall (receivable buffer_len) (coming (a_sock a)) →
  match coming (a_sock a) with
  | [] => ∃ k', a_poll_incoming buffer_len (S fuel) a = Suspend (a_set_sock k' a) ∧ coming k' = [] ∧ steady (a_sock a) k'
  | _ :: _ => ∃ a', a_poll_incoming buffer_len (S fuel) a = Return d a' ∧ left_with buffer_len d a a' (in_flight d a)
  end.
Proof.
  intros Hq Ht Hinc Hf Hr. unfold a_poll_incoming. cbn [a_incoming_loop].
  destruct (coming (a_sock a)) as [|[[msg peer] mark] ds] eqn:Ec.
  - destruct (poll_recv_nothing buffer_len (a_sock a) Ec) as (k' & Hk & ? & ?). exists k'. split; [|done].
    unfold a_pop_incoming; run. rewrite Hinc. cbn [mret M_ret]. unfold a_poll_recv at 1, zoom; run. by rewrite Hk.
  - apply Forall_cons in Hr as [[Hne Hlen] Hr]. cbn in Hne, Hlen. destruct msg as [|id msg]; [done|].
    destruct (poll_recv_coming buffer_len (a_sock a) _ _ _ _ Ec Hlen) as (k' & Hk & Hc' & Hst).
    destruct (a_poll_recv_arrival buffer_len a id msg peer _ mark k' Hk) as (a1 & Ha1 & Hs1 & Ht1 & Hq1 & Hi1).
    assert (Hd : MkChannel (from_socket_addr peer) id = d).
    { apply not_foreign in Hf as Hn. cbn in Hn. destruct (decide (MkChannel (from_socket_addr peer) id = d)); [done|]. by destruct Hn. }
    rewrite Hd, Hinc, decide_False in Hi1 by done. cbn [app] in Hi1.
    unfold a_pop_incoming; run. rewrite Hinc. cbn [mret M_ret]. rewrite Ha1, Hi1. cbn [mret M_ret a_set_incoming a_taken].
    rewrite Ht1, decide_False by done. cbn. eexists. split; [done|].
    unfold left_with, in_flight. cbn [a_sock a_set_incoming a_set_taken]. rewrite Hs1, Hc', Ec.
    split_and!; [|done|done].
    change (queue a1 d ++ arrivals_for d ds = queue a d ++ arrivals_for d ((id :: msg, peer, mark) :: ds)).
    rewrite Hq1, (arrivals_for_cons _ _ ds). by rewrite (assoc_L (++)).
Qed.

Lemma at_peer_unready s' l :
  poll_incoming (S (length (coming (socket (peer l))))) (peer l) = Suspend s' →
  at_peer Incoming_ready l = Suspend (set_peer s' l).
Proof. intros Hs. unfold at_peer, zoom; run. unfold Incoming_ready, Incoming_poll_next; run. by rewrite Hs. Qed.

Lemma at_peer_ready d s' l :
  poll_incoming (S (length (coming (socket (peer l))))) (peer l) = Return d s' →
  idle (socket (peer l)) → steady (socket (peer l)) (socket s') →
  at_peer Incoming_ready l = Return (MkDtpChannel d) (set_peer s' l).
Proof.
  intros Hs Hi Hst. unfold at_peer, zoom; run. unfold Incoming_ready, Incoming_poll_next; run. rewrite Hs. cbn.
  by rewrite recv_steady.
Qed.

(** The peer asks for a channel. *)
Lemma two_next c d l : both_ok c d l → unopened d (peer l) →
  match link_pending c l with
  | [] => ∃ l', at_peer Incoming_ready l = Suspend l' ∧ both_ok c d l' ∧ local l' = local l ∧
      link_pending d (flip l') = link_pending d (flip l) ∧ link_pending c l' = [] ∧ unopened d (peer l')
  | _ => ∃ l', at_peer Incoming_ready l = Return (MkDtpChannel d) l' ∧ both_ok c d l' ∧ local l' = local l ∧
      link_pending d (flip l') = link_pending d (flip l) ∧ link_pending c l' = link_pending c l
  end.
Proof.
  intros Hb (Hq & Ht & Hinc & Hf). pose proof Hb as (Hok & [_ _ Hi _ _ _] & Hd & _). cbn [flip local] in Hi.
  assert (∃ fuel, fuel = length (coming (socket (peer l)))) as [fuel Hfuel] by (by eexists).
  pose proof (a_incoming_ready d (abs (peer l)) fuel Hq Ht Hinc Hf (ok_coming _ _ Hok)) as H.
  pose proof (transfer _ _ _ (peer l) (poll_incoming_refines (S fuel)) (ok_peer _ _ Hok)) as T.
  pose proof (ok_ids _ _ Hok) as Hids. rewrite Hd in Hids.
  assert (Hsame : ∀ s' : isock, unmoved (local l) (local (set_peer s' l))) by done.
  assert (Hpend : link_pending c l = (tail ∘ d_bytes) <$> in_flight d (abs (peer l))).
  { unfold link_pending. by rewrite Hd. }
  assert (Hin : in_flight d (abs (peer l)) = arrivals_for d (coming (socket (peer l)))).
  { unfold in_flight. by rewrite Hq. }
  assert (Hempty : coming (socket (peer l)) = [] ↔ link_pending c l = []).
  { rewrite Hpend, Hin. split; [by intros ->|]. intros He%fmap_nil_inv.
    destruct (coming (socket (peer l))) as [|x ds] eqn:Ec; [done|exfalso].
    rewrite arrivals_for_cons in He. apply app_nil in He as [He _].
    by apply not_foreign in Hf. }
  cbn [abs a_sock] in H. destruct (coming (socket (peer l))) as [|x ds] eqn:Ec.
  - rewrite (proj1 Hempty eq_refl). destruct H as (k' & Ha & Hc & Hst). rewrite Ha in T.
    destruct T as (s' & Hs & Hi' & Habs).
    assert (Hk : socket s' = k') by exact (f_equal a_sock Habs).
    destruct (left_with_link c l s' (in_flight (peer_channel c l) (abs (peer l))) Hok Hi') as (Hok' & Hp' & Hst').
    { by rewrite Hd. }
    { unfold left_with, in_flight. rewrite Habs. cbn [a_sock a_set_sock abs]. rewrite Hc, Ec. by split_and!. }
    destruct (other_way c d l (set_peer s' l) Hb Hok' (Hsame s') Hst') as [? ?].
    exists (set_peer s' l). split_and!; try done.
    + apply at_peer_unready. by rewrite Ec, <-Hfuel.
    + rewrite Hp', Hd, Hin. done.
    + cbn [set_peer peer]. unfold unopened. rewrite Habs. cbn. rewrite Hk, Hc. by split_and!.
  - destruct (link_pending c l) as [|w ws] eqn:El; [by apply proj2 in Hempty; specialize (Hempty eq_refl)|].
    destruct H as (a' & Ha & Hleft). rewrite Ha in T. destruct T as (c' & s' & Hs & -> & Hi' & <-).
    rewrite <-Hd in Hleft at 1.
    destruct (left_with_link c l s' _ Hok Hi' Hids Hleft) as (Hok' & Hp' & Hst').
    destruct (other_way c d l (set_peer s' l) Hb Hok' (Hsame s') Hst') as [? ?].
    exists (set_peer s' l). split_and!; try done; [apply at_peer_ready; [by rewrite Ec, <-Hfuel|done..]|by rewrite Hp', Hpend].
Qed.

(** The local socket takes its channel. *)
Lemma two_outgoing c d l : both_ok c d l → c ∉ channels (local l) →
  ∃ l', at_local (DtpSocket_outgoing (peer_addr c) (channel_id c)) l = Return (MkDtpChannel c) l' ∧
    both_ok c d l' ∧ peer l' = peer l ∧
    link_pending d (flip l') = link_pending d (flip l) ∧ link_pending c l' = link_pending c l.
Proof.
  intros Hb Hc. pose proof Hb as ([Hl Hp Hi Ha Hcom Hids] & [Hl2 Hp2 Hi2 Ha2 Hcom2 Hids2] & Hd & Hcd).
  set (s' := set_channels ({[c]} ∪ channels (local l)) (local l)).
  assert (Hs' : Inv s') by (destruct Hl; by split).
  exists (set_local s' l). split; [|split; [|done]].
  - unfold at_local, zoom; run. unfold DtpSocket_outgoing; run. cbn [to_addr Addr_ToAddr unwrap mret M_ret].
    unfold outgoing; run. destruct c as [pa ci]. cbn [peer_addr channel_id]. rewrite decide_False by done.
    cbn. fold s'. f_equal. unfold carried. cbn [local set_local peer].
    change (socket s') with (socket (local l)). rewrite carry_idle by done. by destruct l as [[] []].
  - split_and!; [by split|by split|done|done].
Qed.

(** ** Giving the channel back *)

(** The peer drops its handle when nothing is on its way to it. *)
Lemma two_drop c d l : both_ok c d l → link_pending c l = [] →
  ∃ l', at_peer (DtpChannel_drop (MkDtpChannel d)) l = Return () l' ∧ both_ok c d l' ∧ local l' = local l ∧
    link_pending d (flip l') = link_pending d (flip l) ∧ link_pending c l' = [] ∧ (d ∉ channels (peer l')).
Proof.
  intros Hb Hp. pose proof Hb as (Hok & [_ _ Hi _ _ _] & Hd & _). cbn [flip local] in Hi.
  pose proof (transfer _ _ _ (peer l) (close_refines d) (ok_peer _ _ Hok)) as T. cbn in T.
  destruct T as ([] & s' & Hs & _ & Hi' & Habs).
  assert (Hk : socket s' = socket (peer l)) by exact (f_equal a_sock Habs).
  assert (Hc : channels s' = channels (peer l) ∖ {[d]}) by exact (f_equal a_taken Habs).
  assert (Hin : in_flight d (abs (peer l)) = []).
  { unfold link_pending in Hp. rewrite Hd in Hp. by apply fmap_nil_inv in Hp. }
  assert (Hin' : in_flight d (abs s') = []).
  { rewrite Habs. unfold in_flight, queue in *. cbn. rewrite lookup_delete_eq.
    by apply app_nil in Hin as [_ ?]. }
  destruct (left_with_link c l s' (in_flight d (abs s')) Hok Hi') as (Hok' & Hp' & Hst').
  { rewrite Hin'. constructor. }
  { rewrite Hd. unfold left_with. cbn [abs a_sock]. rewrite Hk. split_and!; [done|done|exact (ok_coming _ _ Hok)]. }
  destruct (other_way c d l (set_peer s' l) Hb Hok' ltac:(done) Hst') as [? ?].
  exists (set_peer s' l). split_and!; try done.
  - unfold at_peer, zoom; run. unfold DtpChannel_drop. cbn [handle]. rewrite Hs. cbn. by rewrite recv_steady.
  - by rewrite Hp', Hin'.
  - cbn [set_peer peer]. rewrite Hc. set_solver.
Qed.

(** And the local socket. *)
Lemma two_drop_local c d l : both_ok c d l → link_pending d (flip l) = [] →
  ∃ l', at_local (DtpChannel_drop (MkDtpChannel c)) l = Return () l' ∧ both_ok c d l' ∧ peer l' = peer l ∧
    link_pending d (flip l') = [] ∧ link_pending c l' = link_pending c l ∧ (c ∉ channels (local l')).
Proof.
  intros Hb%both_ok_flip Hp. destruct l as [a b].
  destruct (two_drop d c (flip (MkLink a b)) Hb Hp) as (l' & Hd & Hb' & H1 & H2 & H3 & H4).
  rewrite at_peer_flip in Hd. unfold flip in Hd at 1. cbn [local peer flip] in Hd.
  destruct (at_local _ (MkLink a b)) as [[] l1| | | |]; try done. injection Hd as <-.
  exists l1. apply both_ok_flip in Hb'. by destruct l1.
Qed.
End two_way.
