(* ===== verification/EfcpConnect.v ===== *)
(** * Two EFCP sockets connect (src/efcp/src/lib.rs)

    One socket dials, the other takes its next incoming channel; the tasks of
    the two calls run concurrently, over two multiplexing sockets on a network
    that delivers. *)

From S2P Require Export Connect DtpDuplex.

Import Dtp.

Section sockets.
Context {BC : BytesCrate} {BL : BytesLaws BC} {BO : ByteOrderCrate} {BOL : ByteOrderLaws BO}.
Context {SQ : SegQueueCrate} {SQL : SegQueueLaws SQ} {SL : SlabCrate} {SLL : SlabLaws SL}.
Context {PR : Profile} {DC : DiscoCrate} {DL : DiscoLaws DC}.
Context {DS : DiscoSession DC} {DSL : DiscoSessionLaws DS}.
Context {C : Type} {CK : Clock C}.
Context {K : Type} `{!UdpExt K} `{!UdpExtLaws K} `{!UdpSocket K} {NW : Network K} {NL : NetworkLaws K}.

#[local] Abbreviation shared := (link K).
#[local] Abbreviation efcp := (EfcpChannel (S:=shared) (C:=C)).
#[local] Abbreviation connected := (DtpChannel * efcp)%type.

(** ** A task that has its channel *)

Section handed.
Context (call : ∀ A, M io_error (InnerDtpSocket (K:=K)) A → M io_error shared A) (ch : DtpChannel).

Definition with_channel (t : thread HandshakeError (shared * C) efcp) : thread HandshakeError (shared * C) connected :=
  e ← t_owning call ch t; mret (ch, e).

(** The result of the call. *)
Definition with_handle (r : option (result efcp HandshakeError)) : option (result connected HandshakeError) :=
  match r with
  | Some (Ok e) => Some (Ok (ch, e))
  | Some (Err err) => Some (Err err)
  | None => None
  end.

(** The task [x] of the handshake, as a part of the call's. *)
Definition handed (x : task HandshakeError (shared * C) efcp) (x' : task HandshakeError (shared * C) connected) : Prop :=
  match x with
  | Running t => x' = Running (with_channel t)
  | Ended r => x' = Ended (with_handle r)
  end.

(** A poll of both: the same, except that a handshake that fails drops the
    channel. *)
Lemma wake_handed x x' st x1 st1 : handed x x' → wake x st = (x1, st1) → sound x1 →
  (∃ x1', wake x' st = (x1', st1) ∧ handed x1 x1' ∧ (failed x1 → x = x1 ∧ st = st1)) ∨
  failed x1 ∧ ∀ l2, call _ (DtpChannel_drop ch) st1.1 = Return () l2 →
    ∃ x1', wake x' st = (x1', (l2, st1.2)) ∧ handed x1 x1'.
Proof.
  destruct x as [t|r]; cbn [handed].
  2: { intros -> [= <- <-] _. left. by eexists. }
  intros -> Hw Hs. cbn [wake] in *. pose proof (poll_ends t st) as Hne.
  destruct (poll_task t st) as [[e s|err s|s| |]|t1 s] eqn:Ep; injection Hw as <- <-; try done; try (by destruct (Hne s)).
  - left. unfold with_channel, t_owning. rewrite poll_bind, (poll_t_catch _ t st) by (by rewrite Ep). rewrite Ep.
    eexists. split; [done|]. split; [done|]. by intros [? ?].
  - right. split; [by exists err|]. intros l2 Hd. unfold with_channel. rewrite poll_bind. unfold t_owning.
    erewrite (poll_t_catch_throw _ t st err s err (l2, s.2)); [by eexists|done|].
    run. unfold t_on_dtp, map_err, zoom. by rewrite Hd.
  - left. unfold with_channel, t_owning. rewrite poll_bind, (poll_t_catch _ t st) by (by rewrite Ep). rewrite Ep.
    eexists. split; [done|]. split; [done|]. by intros [? ?].
Qed.
End handed.

(** ** The two calls *)

Context (self self' : EfcpSocket) (d : Dial) (fuel : nat) (k k' : C) (peer_host : Addr).

(** The channel, as the two sockets name it. *)
#[local] Abbreviation here := (MkChannel (dial_peer_addr d) (dial_channel d)).
#[local] Abbreviation there := (MkChannel peer_host (dial_channel d)).

Definition dial_task : thread HandshakeError (shared * C) connected :=
  t_dial (λ A, at_local (A:=A)) local_end fuel self d.
Definition incoming_task : thread HandshakeError (shared * C) connected :=
  t_incoming (λ A, at_peer (A:=A)) Incoming_ready peer_end fuel self'.

#[local] Instance wires : Duplex shared DtpPacket := socket_Duplex here there.

(** The parts of the handshake. *)
#[local] Abbreviation first_task := (initiator_task (C:=C) (identity self) (identity self') (socket_protocols self) fuel).
#[local] Abbreviation second_task := (responder_task (C:=C) (identity self') (socket_protocols self') peer_host fuel).
#[local] Abbreviation dialled := (handed (λ A, at_local (A:=A)) (MkDtpChannel here)).
#[local] Abbreviation accepted := (handed (λ A, at_peer (A:=A)) (MkDtpChannel there)).

Hypothesis Hremote : remote_public d = public (identity self').
Hypothesis Hroom : 524 + Z.of_nat TAG_LEN + Z.of_nat OVERHEAD ≤ (MTU - 1) `min` MAX_PAYLOAD_LEN.

Lemma max_room : 524 + Z.of_nat TAG_LEN + Z.of_nat OVERHEAD ≤ MAX_PAYLOAD_LEN.
Proof using Hroom. lia. Qed.
Lemma all_fit n : (n ≤ 524 + TAG_LEN + OVERHEAD)%nat → fits_datagram n.
Proof using Hroom.
  intros Hn. assert (MAX_PAYLOAD_LEN < MAX_PACKET_LEN) by done. unfold fits_datagram. lia.
Qed.

Hypothesis Hfuel : (length (socket_protocols self) + length (socket_protocols self') + 3 < fuel)%nat.

Lemma poll_dial l l' kk :
  at_local (DtpSocket_outgoing (dial_peer_addr d) (dial_channel d)) l = Return (MkDtpChannel here) l' →
  poll_task dial_task (l, kk) =
    poll_task (with_channel (λ A, at_local (A:=A)) (MkDtpChannel here) (first_task first_end)) (l', kk).
Proof using Hremote.
  intros Hl. unfold dial_task, t_dial. rewrite poll_bind. cbn [atomically poll_task].
  unfold t_on_dtp, map_err, zoom. cbn [fst snd]. by rewrite Hl, Hremote.
Qed.

Lemma poll_incoming_task l l' kk : at_peer Incoming_ready l = Return (MkDtpChannel there) l' →
  poll_task incoming_task (l, kk) =
    poll_task (with_channel (λ A, at_peer (A:=A)) (MkDtpChannel there) (second_task second_end)) (l', kk).
Proof using Type.
  intros Hl. unfold incoming_task, t_incoming. rewrite poll_bind. cbn [atomically poll_task].
  unfold t_on_dtp, map_err, zoom. cbn [fst snd]. by rewrite Hl.
Qed.

Lemma wake_incoming_waits l l' kk : at_peer Incoming_ready l = Suspend l' →
  wake (Running incoming_task) (l, kk) = (Running incoming_task, (l', kk)).
Proof using Type.
  intros Hl. unfold incoming_task, t_incoming. unfold wake. rewrite poll_bind. cbn [atomically poll_task].
  unfold t_on_dtp, map_err, zoom. cbn [fst snd]. rewrite Hl. done.
Qed.

(** ** The two calls on the way *)

#[local] Abbreviation F1 := (run_on (first_task (script_Channel (P:=DtpPacket))) k).
#[local] Abbreviation F2 := (run_on (second_task (script_Channel (P:=DtpPacket))) k').

(** The caller has its channel, which it gives back when it fails, or will take
    it. *)
Definition dialing (a : task HandshakeError (shared * C) efcp) (a' : task HandshakeError (shared * C) connected)
    (l : shared) : Prop :=
  dialled a a' ∧ (failed a → here ∉ channels (local l)) ∨
  a = Running (first_task first_end) ∧ a' = Running dial_task ∧ here ∉ channels (local l).

(** The other has been given its channel, or nothing has come. *)
Definition listening (h : list (list byte)) (b : task HandshakeError (shared * C) efcp)
    (b' : task HandshakeError (shared * C) connected) (l : shared) : Prop :=
  accepted b b' ∧ (failed b → there ∉ channels (peer l)) ∨
  b = Running (second_task second_end) ∧ b' = Running incoming_task ∧ h = [] ∧ unopened there (peer l).

Lemma dialing_kept a a' l l' : of_first l' = of_first l → dialing a a' l → dialing a a' l'.
Proof using Type.
  intros Hl [[? Hf]|(? & ? & Hc)]; [left|right]; split_and!; try done.
  - intros Ha. exact (aside_untaken _ _ _ Hl (Hf Ha)).
  - exact (aside_untaken _ _ _ Hl Hc).
Qed.

Lemma listening_kept h b b' l l' : of_second l' = of_second l → listening h b b' l → listening h b b' l'.
Proof using Type.
  intros Hl [[? Hf]|(? & ? & ? & Hu)]; [left|right]; split_and!; try done.
  - intros Hb. exact (aside_untaken _ _ _ Hl (Hf Hb)).
  - exact (aside_unopened _ _ _ Hl Hu).
Qed.

Section said_in_all.

(** All that the two say. *)
Context (X Y : list DtpPacket) (w v : list (list byte)) (kX kY : C).
Context (Hwhole : whole (identity self) (identity self') (socket_protocols self) (socket_protocols self')
  peer_host k k' fuel X Y w v kX kY).

#[local] Abbreviation in_talk :=
  (in_dialogue (C:=C) (C':=C) F1 (same_session (S2:=shared)) F2 (same_session (S2:=shared)) w v).

Definition connecting (x y : list DtpPacket) (st : task HandshakeError (shared * (C * C)) connected *
    task HandshakeError (shared * (C * C)) connected * (shared * (C * C))) : Prop :=
  ∃ h1 h2 a b a' b' l ka kb,
    st = (task_zoom on_first put_first a', task_zoom on_second put_second b', (l, (ka, kb))) ∧
    in_talk h1 h2 x y a b l ka kb ∧ dialing a a' l ∧ listening h2 b b' l.


Lemma handed_ended {call ch} (a : task HandshakeError (shared * C) efcp) a' :
  handed call ch a a' → has_ended a → has_ended a'.
Proof. intros H [r ->]. by eexists. Qed.

Lemma handed_sound {call ch} (a : task HandshakeError (shared * C) efcp) a' : handed call ch a a' → sound a → sound a'.
Proof. unfold sound. destruct a as [t|[[e|e]|]]; cbn; by intros ->. Qed.

Lemma silent : ∃ st, F2 [] = Suspend st ∧ said (F2 []) = [].
Proof using Hfuel DL DSL.
  by eapply (responder_silent _ _ _ _ _ _ Hfuel).
Qed.

Lemma first_self : self_sim same_session (first_task (script_Channel (P:=DtpPacket))).
Proof using Hroom DL DSL BL BOL. by apply (initiator_task_sim max_room _ _ _ _ (EL:=script_end (P:=DtpPacket))). Qed.
Lemma second_self : self_sim same_session (second_task (script_Channel (P:=DtpPacket))).
Proof using Hroom DL DSL BL BOL. by apply (responder_task_sim max_room _ _ _ _ (EL:=script_end (P:=DtpPacket))). Qed.

(** A poll of the caller, once it has its channel. *)
Lemma wake_dialled h1 h2 x y a b a' l ka kb : in_talk h1 h2 x y a b l ka kb → dialled a a' →
  (failed a → here ∉ channels (local l)) →
  ∃ h1' a1 a1' l' ka', wake a' (l, ka) = (a1', (l', ka')) ∧ dialled a1 a1' ∧ sound a1 ∧
    (failed a1 → here ∉ channels (local l')) ∧ of_second l' = of_second l ∧
    in_talk h1' h2 x y a1 b l' ka' kb ∧ in_talk h1' h2 x (said (F1 x)) a1 b l' ka' kb ∧ (X = x → has_ended a1').
Proof using Hwhole Hroom DL DSL BL BOL.
  intros H Ha Hfree. destruct Hwhole as (HX & HY & HfX & _ & HeX & _).
  destruct (wake_first _ k same_session _ _ _ X Y w v kX h1 h2 x y a b l ka kb first_self HX HY HfX H)
    as (h1' & a1 & l' & ka' & Hwk & Hof & H1 & H2 & H3).
  pose proof (λ r (E : a1 = Ended r), first_ended _ k same_session _ _ X Y w v kX _ _ _ _ _ _ _ _ _ HX HY HfX
    (eq_ind a1 (λ a, in_talk h1' h2 x y a b l' ka' kb) H1 _ E)) as Hend.
  assert (Hs : sound a1) by (intros ->; destruct (Hend _ eq_refl) as [He _]; destruct (F1 X); naive_solver).
  exists h1', a1. destruct (wake_handed _ _ a a' _ _ _ Ha Hwk Hs) as [(a1' & Hwk' & Ha1 & Hst)|([e ->] & Hdrop)].
  - exists a1', l', ka'. split_and!; try done; [|by intros ?; eapply handed_ended; [exact Ha1|auto]].
    intros Hfl. destruct (Hst Hfl) as [-> [= <- <-]]. auto.
  - destruct (Hend _ eq_refl) as [_ Hto].
    destruct (two_drop_local here there l' (proj1 H1) Hto) as (l2 & Hd & Hb & Hpeer & Hp1 & Hp2 & Hfree2).
    destruct (Hdrop l2 Hd) as (a1' & Hwk' & Ha1). exists a1', l2, ka'. rewrite <-Hto in Hp1.
    split_and!; try done.
    + rewrite <-Hof. cbn. by rewrite Hpeer.
    + exact (in_dialogue_moved _ _ _ _ _ _ _ _ _ _ _ _ _ _ ka' kb Hb Hp1 Hp2 H1).
    + exact (in_dialogue_moved _ _ _ _ _ _ _ _ _ _ _ _ _ _ ka' kb Hb Hp1 Hp2 H2).
    + intros _. by eexists.
Qed.

(** A poll of the other, once it has its channel. *)
Lemma wake_accepted h1 h2 x y a b b' l ka kb : in_talk h1 h2 x y a b l ka kb → accepted b b' →
  (failed b → there ∉ channels (peer l)) →
  ∃ h2' b1 b1' l' kb', wake b' (l, kb) = (b1', (l', kb')) ∧ accepted b1 b1' ∧ sound b1 ∧
    (failed b1 → there ∉ channels (peer l')) ∧ of_first l' = of_first l ∧
    in_talk h1 h2' x y a b1 l' ka kb' ∧ in_talk h1 h2' (said (F2 y)) y a b1 l' ka kb' ∧ (Y = y → has_ended b1').
Proof using Hwhole Hroom DL DSL BL BOL.
  intros H%in_dialogue_flipped Hb Hfree. destruct Hwhole as (HX & HY & _ & HfY & _ & HeY).
  destruct (wake_first (DX:=flipped wires) _ k' same_session _ _ _ Y X v w kY h2 h1 y x b a l kb ka second_self HY HX HfY H)
    as (h2' & b1 & l' & kb' & Hwk & Hof & H1 & H2 & H3).
  pose proof (λ r (E : b1 = Ended r), first_ended (DX:=flipped wires) _ k' same_session _ _ Y X v w kY _ _ _ _ _ _ _ _ _ HY HX HfY
    (eq_ind b1 (λ b, in_dialogue (DX:=flipped wires) _ _ _ _ v w h2' h1 y x b a l' kb' ka) H1 _ E)) as Hend.
  assert (Hs : sound b1) by (intros ->; destruct (Hend _ eq_refl) as [He _]; destruct (F2 Y); naive_solver).
  apply in_dialogue_flipped in H1, H2.
  exists h2', b1. destruct (wake_handed _ _ b b' _ _ _ Hb Hwk Hs) as [(b1' & Hwk' & Hb1 & Hst)|([e ->] & Hdrop)].
  - exists b1', l', kb'. split_and!; try done; [|by intros ?; eapply handed_ended; [exact Hb1|auto]].
    intros Hfl. destruct (Hst Hfl) as [-> [= <- <-]]. auto.
  - destruct (Hend _ eq_refl) as [_ Hto].
    destruct (two_drop here there l' (proj1 H1) Hto) as (l2 & Hd & Hbk & Hl & Hp1 & Hp2 & Hfree2).
    destruct (Hdrop l2 Hd) as (b1' & Hwk' & Hb1). exists b1', l2, kb'. rewrite <-Hto in Hp2.
    split_and!; try done.
    + transitivity (of_first l'); [cbn; by rewrite Hl|exact Hof].
    + exact (in_dialogue_moved _ _ _ _ _ _ _ _ _ _ _ _ _ _ ka kb' Hbk Hp1 Hp2 H1).
    + exact (in_dialogue_moved _ _ _ _ _ _ _ _ _ _ _ _ _ _ ka kb' Hbk Hp1 Hp2 H2).
    + intros _. by eexists.
Qed.

(** Before: the caller's first poll takes the channel. *)
Lemma wake_dialing h1 h2 x y a b a' l ka kb : in_talk h1 h2 x y a b l ka kb → dialing a a' l →
  ∃ h1' a1 a1' l' ka', wake a' (l, ka) = (a1', (l', ka')) ∧ dialing a1 a1' l' ∧ of_second l' = of_second l ∧
    in_talk h1' h2 x y a1 b l' ka' kb ∧ in_talk h1' h2 x (said (F1 x)) a1 b l' ka' kb ∧ (X = x → has_ended a1').
Proof using All.
  intros H [[Ha Hfree]|(-> & -> & Hc)].
  { destruct (wake_dialled _ _ _ _ _ _ _ _ _ _ H Ha Hfree) as (h1' & a1 & a1' & l' & ka' & ? & ? & _ & ? & ?).
    exists h1', a1, a1', l', ka'. split; [done|]. split; [by left|done]. }
  destruct (two_outgoing here there l (proj1 H) Hc) as (l0 & Hout & Hb & Hpeer & Hp1 & Hp2).
  pose proof (in_dialogue_moved _ _ _ _ _ _ _ _ _ _ _ _ _ _ ka kb Hb Hp1 Hp2 H) as H0.
  destruct (wake_dialled _ _ _ _ _ _ _ _ _ _ H0 eq_refl) as (h1' & a1 & a1' & l' & ka' & Hwk & Ha & Hs & Hfree & Hof & Hrest);
    [by intros []|].
  exists h1', a1, a1', l', ka'. split.
  { rewrite (wake_same_poll _ _ _ _ (poll_dial l l0 ka Hout)); [done|]. rewrite Hwk. by eapply handed_sound. }
  split; [by left|]. split; [|done]. rewrite Hof. cbn. by rewrite Hpeer.
Qed.

(** The other's polls, until the call comes. *)
Lemma wake_listening h1 h2 x y a b b' l ka kb : in_talk h1 h2 x y a b l ka kb → listening h2 b b' l →
  ∃ h2' b1 b1' l' kb', wake b' (l, kb) = (b1', (l', kb')) ∧ listening h2' b1 b1' l' ∧ of_first l' = of_first l ∧
    in_talk h1 h2' x y a b1 l' ka kb' ∧ in_talk h1 h2' (said (F2 y)) y a b1 l' ka kb' ∧ (Y = y → has_ended b1').
Proof using All.
  intros H [[Hb Hfree]|(-> & -> & -> & Hu)].
  { destruct (wake_accepted _ _ _ _ _ _ _ _ _ _ H Hb Hfree) as (h2' & b1 & b1' & l' & kb' & ? & ? & _ & ? & ?).
    exists h2', b1, b1', l', kb'. split; [done|]. split; [by left|done]. }
  pose proof (two_next here there l (proj1 H) Hu) as Hnext. destruct (link_pending here l) as [|p ps] eqn:Ep.
  - destruct Hnext as (l0 & Hn & Hb & Hl & Hp1 & Hp2 & Hu').
    exists [], (Running (second_task second_end)), (Running incoming_task), l0, kb.
    rewrite <-Ep in Hp2. pose proof (in_dialogue_moved _ _ _ _ _ _ _ _ _ _ _ _ _ _ ka kb Hb Hp1 Hp2 H) as H0.
    assert (Hy : y = []).
    { destruct H as (_ & _ & _ & _ & _ & _ & (u & Hyu & Hpre)). change (to_second l) with (link_pending here l) in Hpre.
      rewrite Ep in Hpre. apply prefix_nil_inv in Hpre. subst u. by inversion Hyu. }
    split_and!; [by apply wake_incoming_waits|by right|cbn; by rewrite Hl|done| |].
    + subst y. destruct silent as (_ & _ & ->). destruct H0 as (? & ? & ? & ? & ? & _ & ?).
      unfold in_dialogue. split_and!; try done. exists []. split; [constructor|apply prefix_nil].
    + intros HY. destruct Hwhole as (_ & _ & _ & _ & _ & HeY), silent as (st' & Hs & _). rewrite HY, Hy in HeY.
      by destruct (HeY st').
  - destruct Hnext as (l0 & Hn & Hb & Hl & Hp1 & Hp2). rewrite <-Ep in Hp2.
    pose proof (in_dialogue_moved _ _ _ _ _ _ _ _ _ _ _ _ _ _ ka kb Hb Hp1 Hp2 H) as H0.
    destruct (wake_accepted _ _ _ _ _ _ _ _ _ _ H0 eq_refl) as (h2' & b1 & b1' & l' & kb' & Hwk & Hb' & Hs & Hfree & Hof & Hrest);
      [by intros []|].
    exists h2', b1, b1', l', kb'. split.
    { rewrite (wake_same_poll _ _ _ _ (poll_incoming_task l l0 kb Hn)); [done|]. rewrite Hwk. by eapply handed_sound. }
    split; [by left|]. split; [|done]. rewrite Hof. cbn. by rewrite Hl.
Qed.

Lemma connecting_first x y a b st : connecting x y (a, b, st) →
  let '(a', st') := wake a st in
  connecting x y (a', b, st') ∧ connecting x (said (F1 x)) (a', b, st') ∧ (X = x → has_ended a').
Proof using All.
  intros (h1 & h2 & a0 & b0 & a' & b' & l & ka & kb & [= -> -> ->] & H & Ha & Hb).
  destruct (wake_dialing _ _ _ _ _ _ _ _ _ _ H Ha) as (h1' & a1 & a1' & l' & ka' & Hwk & Ha1 & Hof & H1 & H2 & H3).
  rewrite wake_zoom by apply _. change (on_first (l, (ka, kb))) with (l, ka). rewrite Hwk. cbn.
  pose proof (listening_kept _ _ _ _ _ Hof Hb) as Hb'.
  split_and!; [by exists h1', h2, a1, b0, a1', b', l', ka', kb..|].
  intros Hx. destruct (H3 Hx) as [r ->]. by exists r.
Qed.

Lemma connecting_second x y a b st : connecting x y (a, b, st) →
  let '(b', st') := wake b st in
  connecting x y (a, b', st') ∧ connecting (said (F2 y)) y (a, b', st') ∧ (Y = y → has_ended b').
Proof using All.
  intros (h1 & h2 & a0 & b0 & a' & b' & l & ka & kb & [= -> -> ->] & H & Ha & Hb).
  destruct (wake_listening _ _ _ _ _ _ _ _ _ _ H Hb) as (h2' & b1 & b1' & l' & kb' & Hwk & Hb1 & Hof & H1 & H2 & H3).
  rewrite wake_zoom by apply _. change (on_second (l, (ka, kb))) with (l, kb). rewrite Hwk. cbn.
  pose proof (dialing_kept _ _ _ _ Hof Ha) as Ha'.
  split_and!; [by exists h1, h2', a0, b1, a', b1', l', ka, kb'..|].
  intros Hy. destruct (H3 Hy) as [r ->]. by exists r.
Qed.

(** Every fair schedule ends both calls. *)
Lemma calls_end n sch l : Nat.iter n (turns (λ x, said (F1 x)) (λ y, said (F2 y))) [] = X → fair (Datatypes.S n) sch →
  both_ok here there l → link_pending there (flip l) = [] → link_pending here l = [] →
  here ∉ channels (local l) → unopened there (peer l) →
  ∃ r1 r2 l' ka kb,
    schedule sch (Running (t_zoom on_first put_first dial_task)) (Running (t_zoom on_second put_second incoming_task))
      (l, (k, k')) =
      (Ended (with_handle (MkDtpChannel here) r1), Ended (with_handle (MkDtpChannel there) r2), (l', (ka, kb))) ∧
    both_ok here there l' ∧ link_pending there (flip l') = [] ∧ link_pending here l' = [] ∧
    ends_as same_session (F1 X) r1 ∧ ends_as same_session (F2 Y) r2 ∧
    (∀ e, r1 = Some (Err e) → here ∉ channels (local l')) ∧ (∀ e, r2 = Some (Err e) → there ∉ channels (peer l')).
Proof using All.
  intros Hn Hfair Hb Hp1 Hp2 Hc Hu. destruct Hwhole as (HX & HY & HfX & HfY & HeX & HeY).
  assert (HsX : said (F1 X) = Y) by (unfold said; by rewrite HfX).
  assert (HsY : said (F2 Y) = X) by (unfold said; by rewrite HfY).
  assert (H0 : connecting [] [] (Running (t_zoom on_first put_first dial_task),
    Running (t_zoom on_second put_second incoming_task), (l, (k, k')))).
  { exists [], [], (Running (first_task first_end)), (Running (second_task second_end)), (Running dial_task),
      (Running incoming_task), l, k, k'. split; [done|]. split; [|by split; right].
    apply (dialogue_starts _ k same_session _ k' same_session w v _ _
      (initiator_task_sim max_room _ _ _ _ (EL:=@dx_first _ _ _ wires) all_fit) (responder_task_sim max_room _ _ _ _ (EL:=@dx_second _ _ _ wires) all_fit)); done. }
  destruct (fair_ends connecting _ _ X Y connecting_first connecting_second HsX HsY n sch [] [] _ _ _ Hfair Hn H0)
    as ((h1 & h2 & a & b & a' & b' & l' & ka & kb & Hsch & H & Ha & Hb') & [r1 He1] & [r2 He2]).
  rewrite Hsch in *. cbn [fst snd] in *. destruct a' as [|r1']; [done|]. destruct b' as [|r2']; [done|].
  destruct Ha as [[Ha Hf1]|(_ & ? & _)]; [|done]. destruct Hb' as [[Hb' Hf2]|(_ & ? & _)]; [|done].
  destruct a as [|o1], b as [|o2]; try done. cbn [handed] in Ha, Hb'. injection Ha as ->. injection Hb' as ->.
  apply (dialogue_over _ k same_session _ k' same_session X Y w v kX kY HX HY HfX HfY) in H as (? & ? & ? & ? & ?).
  exists o1, o2, l', ka, kb. split_and!; try done; intros e ->; [apply Hf1|apply Hf2]; by exists e.
Qed.
End said_in_all.

(** ** The calls, from an empty channel *)

Hypothesis Hps : Forall proto_ok (socket_protocols self).
Hypothesis Hqs : Forall proto_ok (socket_protocols self').
Hypothesis Haddr : addr_wf peer_host.

(** Nothing is on the channel, which neither socket has taken. *)
Definition uncalled (l : shared) : Prop :=
  both_ok here there l ∧ link_pending there (flip l) = [] ∧ link_pending here l = [] ∧
  (here ∉ channels (local l)) ∧ unopened there (peer l).

Lemma calls_connect :
  ∃ n, ∀ sch l, fair n sch → uncalled l → ∃ a b l' ka kb,
    schedule sch (Running (t_zoom on_first put_first dial_task)) (Running (t_zoom on_second put_second incoming_task))
      (l, (k, k')) = (Ended a, Ended b, (l', (ka, kb))) ∧
    match first_common (socket_protocols self) (socket_protocols self') (socket_protocols self) (socket_protocols self') with
    | Some p => p ∈ socket_protocols self ∧ p ∈ socket_protocols self' ∧ ∃ ci cr,
        a = Some (Ok (MkDtpChannel here, ci)) ∧ b = Some (Ok (MkDtpChannel there, cr)) ∧
        protocol ci = p ∧ protocol cr = p ∧
        efcp_peer_identity ci = public (identity self') ∧ efcp_peer_identity cr = public (identity self) ∧
        efcp_external_addr ci = Some peer_host ∧ efcp_external_addr cr = None ∧
        converse wires l' ci cr
    | None => (∀ p, p ∈ socket_protocols self → p ∉ socket_protocols self') ∧
        a = Some (Err NegotiationError) ∧ b = Some (Err NegotiationError) ∧
        (here ∉ channels (local l')) ∧ (there ∉ channels (peer l'))
    end.
Proof using All.
  destruct (whole_dialogue (S:=shared) (P:=DtpPacket) max_room (identity self) (identity self') (socket_protocols self) (socket_protocols self')
    peer_host k k' fuel Hps Hqs Haddr Hfuel)
    as (n & t & t' & X & Y & w & v & kX & kY & Ht & Ht' & Hwhole & Hn & Hagree).
  exists (Datatypes.S n). intros sch l Hfair (Hb & Hp1 & Hp2 & Hc & Hu).
  destruct (calls_end X Y w v kX kY Hwhole n sch l Hn Hfair Hb Hp1 Hp2 Hc Hu)
    as (r1 & r2 & l' & ka & kb & Hsch & Hb' & Hp1' & Hp2' & He1 & He2 & Hf1 & Hf2).
  eexists _, _, l', ka, kb. split; [exact Hsch|]. specialize (Hagree _ _ He1 He2). unfold agreed in Hagree.
  pose proof (first_common_sound (socket_protocols self) (socket_protocols self') (socket_protocols self)
    (socket_protocols self')) as Hsound.
  destruct (first_common _ _ _ _) as [p|].
  - destruct Hsound as [? ?]; [auto..|]. do 2 (split; [done|]).
    destruct Hagree as (ci & cr & -> & -> & ? & ? & ? & ? & ? & ? & Ec & Er & ? & ?).
    exists ci, cr. split_and!; try done.
    apply (session_converse (max:=MAX_PAYLOAD_LEN)); by rewrite ?Ec, ?Er.
  - destruct Hagree as [-> ->]. split; [apply Hsound; auto|]. split_and!; try done; eauto.
Qed.

(** C2: Two EFCP sockets connect and talk.  One socket dials, the other takes its
    next incoming channel; the two calls are tasks that run concurrently, over
    the multiplexing sockets, on a network that delivers; each poll of a task
    does what it can and waits at the next await.  Under every schedule that
    polls each of them often enough, with any other polls in between, both
    calls end.  If the sockets have a protocol in common, both return
    channels: on the same DTP channel, with that protocol, each with the
    other's public key, the caller's with the address at which it was seen;
    and from then on the two channels, used at both ends in any order, are a
    pair of queues: what one end sends the other receives, unaltered and in
    order, a receive waits only when there is nothing to receive, and no call
    fails.  If they have none, both calls fail with the negotiation error, and
    the DTP channel is free again on both sockets. *)
Theorem sockets_connect :
  ∃ n, ∀ sch l, fair n sch → uncalled l → ∃ a b l' ka kb,
    schedule sch (Running (t_zoom on_first put_first dial_task)) (Running (t_zoom on_second put_second incoming_task))
      (l, (k, k')) = (Ended a, Ended b, (l', (ka, kb))) ∧
    match first_common (socket_protocols self) (socket_protocols self') (socket_protocols self) (socket_protocols self') with
    | Some p => p ∈ socket_protocols self ∧ p ∈ socket_protocols self' ∧ ∃ ci cr,
        a = Some (Ok (MkDtpChannel here, ci)) ∧ b = Some (Ok (MkDtpChannel there, cr)) ∧
        protocol ci = p ∧ protocol cr = p ∧
        efcp_peer_identity ci = public (identity self') ∧ efcp_peer_identity cr = public (identity self) ∧
        efcp_external_addr ci = Some peer_host ∧ efcp_external_addr cr = None ∧
        converse wires l' ci cr
    | None => (∀ p, p ∈ socket_protocols self → p ∉ socket_protocols self') ∧
        a = Some (Err NegotiationError) ∧ b = Some (Err NegotiationError) ∧
        (here ∉ channels (local l')) ∧ (there ∉ channels (peer l'))
    end.
Proof using All. exact calls_connect. Qed.
End sockets.
