(* ===== verification/Tests.v ===== *)
(** * Test modules of the repository that need no socket

    - [AddrTests] (src/addr/src/lib.rs), [PacketTests] (src/efcp/src/packet.rs),
      [NegotiationTests] (src/efcp/src/negotiation.rs): programs, evaluated;
    - [LossyTests] (src/test-channel/src/lib.rs): the tests of the lossy
      channels pass whatever the random numbers.

    [None], and [Panic], is a failed assertion. *)

From Stdlib Require Import Floats.SpecFloat.
From S2P Require Export ChannelTests TestChannel HandshakePacket.

(** [unwrap] of a result, of a computation that may panic. *)
Definition unwrap_ok {A E} (o : option (result A E)) : option A :=
  r ← o; match r with Ok a => Some a | Err _ => None end.

(** [block_on(..).unwrap()], and the end of a test. *)
Definition passes {E S A} (o : outcome E S A) : Prop := match o with Return _ _ => True | _ => False end.

Module AddrTests.
Definition rt (saddr : str) : option () :=
  addr ← unwrap_ok (from_str saddr);
  guard (saddr `prefix_of` display_addr addr);;
  addr2 ← unwrap_ok (to_addr saddr);
  guard (addr = addr2);;
  addr2 ← unwrap_ok (to_addr addr);
  guard (addr = addr2);;
  let addr2 := from_socket_addr (socket_addr addr) in
  guard (addr = addr2);;
  Some ().

Definition test_addr : option () :=
  rt (lit "/ip4/127.0.0.1/udp/0");;
  rt (lit "/ip6/::1/udp/0");;
  rt (lit "/ip4/0.0.0.0");;
  rt (lit "/ip6/::1").

Example test_addr_passes : test_addr = Some ().
Proof. vm_compute. reflexivity. Qed.
End AddrTests.

Module PacketTests.
Definition check_ (msg : option Message) (addr : option Addr) : option () :=
  let packet := HandshakePacket_new msg addr in
  bytes ← unwrap_ok (Some (to_bytes packet));
  p2 ← unwrap_ok (from_bytes bytes);
  guard (p2 = packet);;
  Some ().

Definition test_serde : option () :=
  addrv4 ← unwrap_ok (from_str (lit "/ip4/127.0.0.1"));
  addrv6 ← unwrap_ok (from_str (lit "/ip6/::1"));
  let protocol := lit "/ping/1.0" in
  check_ None None;;
  check_ (Some (Propose protocol)) None;;
  check_ (Some Accept) None;;
  check_ (Some Fail) None;;
  check_ None (Some addrv4);;
  check_ None (Some addrv6);;
  check_ (Some (Propose protocol)) (Some addrv4);;
  check_ (Some (Propose protocol)) (Some addrv4);;
  check_ (Some Accept) (Some addrv6);;
  check_ (Some Fail) (Some addrv4).

Example test_serde_passes : test_serde = Some ().
Proof. vm_compute. reflexivity. Qed.
End PacketTests.

(** Two negotiations, by turns. *)
Module NegotiationTests.
Section tests.
Context {DC : DiscoCrate}.
#[local] Abbreviation MT := (M HandshakeError (Negotiation * Negotiation)).

Definition n1 {A} (m : M HandshakeError Negotiation A) : MT A :=
  unwrapped (zoom fst (λ n s, (n, s.2)) m).
Definition n2 {A} (m : M HandshakeError Negotiation A) : MT A :=
  unwrapped (zoom snd (λ n s, (s.1, n)) m).

(** [n.message(&m).unwrap().unwrap()]. *)
Definition reply (m : Message) : M HandshakeError Negotiation Message :=
  o ← message m; unwrap o.

(** Both are finished, on the same protocol: the end of the tests. *)
Definition both_settle (p : option Protocol) : MT () :=
  f1 ← n1 (gets is_finished);
  assert f1;;
  f2 ← n2 (gets is_finished);
  assert f2;;
  n ← n1 get_state;
  p1 ← unwrap (into_protocol n);
  assert (bool_decide (p1 = p));;
  n ← n2 get_state;
  p2 ← unwrap (into_protocol n);
  assert (bool_decide (p1 = p2)).

Definition single_proto_common : MT () :=
  set_state (Negotiation_new [lit "/ping/1.0"], Negotiation_new [lit "/ping/1.0"]);;
  m1 ← n1 initiate;
  assert (bool_decide (m1 = Propose (lit "/ping/1.0")));;
  m2 ← n2 (reply m1);
  assert (bool_decide (m2 = Accept));;
  m3 ← n1 (message m2);
  assert (bool_decide (m3 = None));;
  both_settle (Some (lit "/ping/1.0")).

Definition no_proto_common : MT () :=
  set_state (Negotiation_new [lit "/ping/1.0"], Negotiation_new [lit "/ping/2.0"]);;
  m1 ← n1 initiate;
  assert (bool_decide (m1 = Propose (lit "/ping/1.0")));;
  m2 ← n2 (reply m1);
  assert (bool_decide (m2 = Propose (lit "/ping/2.0")));;
  m3 ← n1 (reply m2);
  assert (bool_decide (m3 = Fail));;
  m4 ← n2 (message m3);
  assert (bool_decide (m4 = None));;
  both_settle None.

Definition one_proto_common : MT () :=
  set_state (Negotiation_new [lit "/ping/2.0"; lit "/ping/1.0"], Negotiation_new [lit "/ping/1.0"]);;
  m1 ← n1 initiate;
  assert (bool_decide (m1 = Propose (lit "/ping/2.0")));;
  m2 ← n2 (reply m1);
  assert (bool_decide (m2 = Propose (lit "/ping/1.0")));;
  m3 ← n1 (reply m2);
  assert (bool_decide (m3 = Accept));;
  m4 ← n2 (message m3);
  assert (bool_decide (m4 = None));;
  both_settle (Some (lit "/ping/1.0")).

(** The tests start from nothing. *)
Definition nothing : Negotiation * Negotiation := (Negotiation_new [], Negotiation_new []).

Example test_negotiation_passes :
  passes (single_proto_common nothing) ∧ passes (no_proto_common nothing) ∧
  passes (one_proto_common nothing).
Proof. split_and!; vm_compute; exact I. Qed.
End tests.
End NegotiationTests.

Module LossyTests.
Import LoopbackChannel.

Section tests.
Context {BC : BytesCrate} {R : Type} `{!Rng R}.

(** [ch.send("ping".into()).await?]. *)
Definition send_ping {S} `{!Channel S BytesMut} : M io_error S () :=
  p ← unwrap (from_slice (lit "ping")); send p.

(** [assert_eq!(ch.recv().await?.payload(), b"ping")]. *)
Definition recv_ping {S} `{!Channel S BytesMut} : M io_error S () :=
  p ← recv; s ← unwrap (payload (P:=BytesMut) p); assert (bool_decide (s = lit "ping")).

(** [let ch = LossyLoopback::new(px, pq)], with the generator as it is. *)
Definition new_channel (px pq : f64) : M io_error (lossy (R:=R)) () :=
  modify (λ s, (LossyLoopback_new px pq, s.2)).

Definition lossy_loopback : M io_error (lossy (R:=R)) () :=
  new_channel f64_one f64_zero;;
  send_ping;;
  recv_ping;;
  new_channel f64_zero f64_zero;;
  send_ping;;
  new_channel f64_one f64_one;;
  send_ping;;
  recv_ping;;
  recv_ping.

Definition lossy_channel (r : R) : option (outcome io_error (duplex (R:=R)) ()) :=
  b ← LossyChannelBuilder_new f64_one f64_zero;
  Some ((send_ping (Channel0:=LossyChannel_first);;
         recv_ping (Channel0:=LossyChannel_second)) (TestChannel.split b r)).
End tests.

Section passes.
Context {BC : BytesCrate} {BL : BytesLaws BC} {R : Type} `{!Rng R} `{!RngLaws R}.
#[local] Abbreviation st := (lossy (R:=R)).

(** Whatever the random numbers. *)
Lemma ping_packet : ∃ p : BytesMut, from_slice (Q:=BytesMut) (lit "ping") = Some p ∧ payload p = Some (lit "ping").
Proof.
  pose proof (BytesMut_laws 4) as Hlaws.
  destruct (from_slice_Some (Q:=BytesMut) (max:=4) (lit "ping")) as (p & ? & ? & _); [cbn; lia|eauto].
Qed.

(** A packet in the loopback queue is received. *)
Lemma recv_ping_eq (p : BytesMut) q (s : st) : payload p = Some (lit "ping") →
  packets (loopback s.1) = p :: q →
  recv_ping s = Return () (MkLossyLoopback (px s.1) (pq s.1) [] (MkLoopback (q ++ delayed s.1)), s.2).
Proof.
  intros Hp Hq. pose proof (lossy_recv_spec s) as H. rewrite Hq in H.
  unfold recv_ping; run. change (recv s) with (lossy_recv s). rewrite H, Hp. cbn -[lit bool_decide].
  by rewrite bool_decide_true.
Qed.

Lemma send_ping_eq (s : st) : ∃ p s', payload p = Some (lit "ping") ∧ send_ping s = Return () s' ∧
  happened p s s' (fate_of s) ∧ px s'.1 = px s.1 ∧ pq s'.1 = pq s.1.
Proof.
  destruct ping_packet as (p & Hnew & Hp). destruct (lossy_send_eq p s) as (s' & Hs & Hh & Hx & Hy & _).
  exists p, s'. split_and!; try done. unfold send_ping; run. by rewrite Hnew.
Qed.

Lemma lossy_loopback_returns (s : st) : passes (lossy_loopback s).
Proof.
  assert (∀ (x y : f64) (f : st → outcome io_error st ()) (s : st),
    (∀ s' p, payload p = Some (lit "ping") →
       happened p (LossyLoopback_new x y, s.2) s' (fate_of (LossyLoopback_new x y, s.2)) →
       passes (f s')) →
    passes ((new_channel x y;; send_ping;; f) s)) as Hnew.
  { intros x y f s0 H. unfold new_channel; run.
    destruct (send_ping_eq (LossyLoopback_new x y, s0.2)) as (p & s1 & Hp & Hs & Hh & _ & _).
    rewrite Hs. by eapply H. }
  pose proof gen_range as Hr. unfold fate_of in Hnew. cbn [fst snd px pq LossyLoopback_new] in Hnew.
  apply Hnew. intros s1 p Hp. destruct (Hr s.2) as [Hge Hlt]. rewrite Hlt, (SFltb_zero _ Hge).
  intros [Hq Hd]. run. rewrite (recv_ping_eq p [] s1 Hp Hq).
  apply Hnew. intros s2 p2 _ _.
  apply Hnew. intros s3 p3 Hp3. destruct (Hr s2.2) as [_ Hlt2]. rewrite Hlt2.
  intros [Hq3 Hd3]. run. rewrite (recv_ping_eq p3 [] s3 Hp3 Hq3).
  by rewrite (recv_ping_eq p3 []) by (done || by cbn; rewrite Hd3).
Qed.

(** The first end sends on the loopback from which the second receives. *)
Lemma send_ping_first (d : duplex (R:=R)) :
  send_ping (Channel0:=LossyChannel_first) d = on_tx send_ping d.
Proof.
  destruct ping_packet as (p & Hnew & _). unfold send_ping, on_tx, zoom; run. rewrite Hnew. reflexivity.
Qed.

Lemma recv_ping_second (d : duplex (R:=R)) :
  recv_ping (Channel0:=LossyChannel_second) d = on_tx recv_ping d.
Proof.
  unfold recv_ping; run. cbn [recv LossyChannel_second]. unfold on_tx, zoom.
  destruct (recv _) as [p s'| | | |]; [|done..]. by destruct (payload p) as [x|]; [cbn; case_bool_decide|].
Qed.

Lemma lossy_channel_returns (r : R) :
  match lossy_channel r with Some o => passes o | None => False end.
Proof.
  unfold lossy_channel, LossyChannelBuilder_new.
  replace (SFleb f64_zero f64_one && SFleb f64_one f64_one) with true by (vm_compute; reflexivity).
  replace (SFleb f64_zero f64_zero && SFleb f64_zero f64_one) with true by (vm_compute; reflexivity).
  cbn [mbind option_bind]. run. rewrite send_ping_first. unfold on_tx, zoom, TestChannel.split. cbn [tx rng b_tx].
  destruct (send_ping_eq (LossyLoopback_new f64_one f64_zero, r)) as (p & s' & Hp & -> & [Hq Hd] & _ & _).
  destruct (gen_range r) as [Hge Hlt].
  unfold fate_of in Hq. cbn [fst snd px pq LossyLoopback_new] in Hq. rewrite Hlt, (SFltb_zero _ Hge) in Hq.
  rewrite recv_ping_second. unfold on_tx, zoom. cbn [tx rng].
  rewrite <-(surjective_pairing s'). by rewrite (recv_ping_eq p [] s' Hp Hq).
Qed.
End passes.
End LossyTests.
