(* ===== verification/SocketTests.v ===== *)
(** * Test modules of the repository with sockets

    The tests of crates dtp, dtcp and efcp's encrypted channel between two
    sockets (src/dtp/src/lib.rs, src/dtcp/src/lib.rs, src/efcp/src/secure.rs),
    as programs on any network, and evaluated on the reference network. *)

From S2P Require Export Tests DtpLink Secure Dtcp.

(** ** Two sockets of one test *)

Section two_sockets.
Context {BC : BytesCrate} {SQ : SegQueueCrate} {SL : SlabCrate} {PR : Profile}.
Context {K : Type} `{!UdpExt K} {US : UdpSocket K} {NW : Network K}.

(** The handles as channels on the state of both sockets. *)
Definition local_Channel (fuel : nat) (ch : Dtp.DtpChannel) : Channel (link K) DtpPacket := {|
  send p := at_local (send (Channel:=Dtp.DtpChannel_Channel fuel ch) p);
  recv := at_local (recv (Channel:=Dtp.DtpChannel_Channel fuel ch))
|}.
Definition peer_Channel (fuel : nat) (ch : Dtp.DtpChannel) : Channel (link K) DtpPacket := {|
  send p := at_peer (send (Channel:=Dtp.DtpChannel_Channel fuel ch) p);
  recv := at_peer (recv (Channel:=Dtp.DtpChannel_Channel fuel ch))
|}.

(** What [bind] does depends on when it is called. *)
Definition binding (b : SocketAddr → result K io_error) : UdpSocket K := {|
  os_bind := b;
  os_local_addr := os_local_addr;
  os_ttl := os_ttl;
  os_set_ttl := os_set_ttl
|}.

(** The two calls of [DtpSocket::bind(addr).await?]. *)
Definition bind_both (addr : str) (b1 b2 : SocketAddr → result K io_error) : option (link K) :=
  s1 ← unwrap_ok (Dtp.DtpSocket_bind (UdpSocket0:=binding b1) addr);
  s2 ← unwrap_ok (Dtp.DtpSocket_bind (UdpSocket0:=binding b2) addr);
  Some (MkLink s1 s2).
End two_sockets.

(** [ch.send(s.into()).await?]. *)
Definition send_str {BC : BytesCrate} {S P} `{!BasePacket P} (C : Channel S P) (s : str) : M io_error S () :=
  p ← unwrap (from_slice s); send p.

(** [let packet = ch.recv().await?; assert_eq!(packet.payload(), s)]. *)
Definition recv_str {S P} `{!BasePacket P} (C : Channel S P) (s : str) : M io_error S () :=
  packet ← recv; p ← unwrap (payload packet); assert (bool_decide (p = s)).

(** ** src/dtp/src/lib.rs *)

Section dtp_tests.
Context {BC : BytesCrate} {SQ : SegQueueCrate} {SL : SlabCrate} {PR : Profile}.
Context {K : Type} `{!UdpExt K} {US : UdpSocket K} {NW : Network K} (fuel : nat).
#[local] Abbreviation MT := (M io_error (link K)).

(** The channels are dropped at the end. *)
Definition outgoing_incoming : MT () :=
  addr_responder ← at_peer Dtp.DtpSocket_local_addr;
  addr_initiator ← at_local Dtp.DtpSocket_local_addr;
  channel_initiator ← at_local (Dtp.DtpSocket_outgoing addr_responder Byte.x00);
  send_str (local_Channel fuel channel_initiator) (lit "ping");;
  channel_responder ← at_peer (Dtp.Incoming_poll_next fuel);
  assert (bool_decide (Dtp.DtpChannel_peer_addr channel_responder = addr_initiator));;
  recv_str (peer_Channel fuel channel_responder) (lit "ping");;
  send_str (peer_Channel fuel channel_responder) (lit "pong");;
  recv_str (local_Channel fuel channel_initiator) (lit "pong");;
  at_peer (Dtp.DtpChannel_drop channel_responder);;
  at_local (Dtp.DtpChannel_drop channel_initiator).

Definition outgoing_outgoing : MT () :=
  addr1 ← at_local Dtp.DtpSocket_local_addr;
  addr2 ← at_peer Dtp.DtpSocket_local_addr;
  channel1 ← at_local (Dtp.DtpSocket_outgoing addr2 Byte.x03);
  send_str (local_Channel fuel channel1) (lit "ping");;
  channel2 ← at_peer (Dtp.DtpSocket_outgoing addr1 Byte.x03);
  recv_str (peer_Channel fuel channel2) (lit "ping");;
  at_peer (Dtp.DtpChannel_drop channel2);;
  at_local (Dtp.DtpChannel_drop channel1).

(** Boxed channels: the values of the trait. *)
Definition channel_test : MT () :=
  addr1 ← at_local Dtp.DtpSocket_local_addr;
  addr2 ← at_peer Dtp.DtpSocket_local_addr;
  h1 ← at_local (Dtp.DtpSocket_outgoing addr2 Byte.x03);
  let channel1 : Channel (link K) DtpPacket := local_Channel fuel h1 in
  send_str channel1 (lit "ping");;
  h2 ← at_peer (Dtp.DtpSocket_outgoing addr1 Byte.x03);
  let channel2 : Channel (link K) DtpPacket := peer_Channel fuel h2 in
  recv_str channel2 (lit "ping");;
  at_peer (Dtp.DtpChannel_drop h2);;
  at_local (Dtp.DtpChannel_drop h1).

Definition ipv6 : MT () :=
  addr2 ← at_peer Dtp.DtpSocket_local_addr;
  ch1 ← at_local (Dtp.DtpSocket_outgoing addr2 Byte.x00);
  addr1 ← at_local Dtp.DtpSocket_local_addr;
  ch2 ← at_peer (Dtp.DtpSocket_outgoing addr1 Byte.x00);
  send_str (local_Channel fuel ch1) (lit "ping");;
  recv_str (peer_Channel fuel ch2) (lit "ping");;
  at_peer (Dtp.DtpChannel_drop ch2);;
  at_local (Dtp.DtpChannel_drop ch1).

(** [ttl + 10] of type [u8]. *)
Definition ttl : M io_error (Dtp.InnerDtpSocket (K:=K)) () :=
  ttl ← Dtp.DtpSocket_ttl;
  sum ← unwrap (u8_add (b2z ttl) 10);
  Dtp.DtpSocket_set_ttl (z2b sum);;
  ttl' ← Dtp.DtpSocket_ttl;
  sum ← unwrap (u8_add (b2z ttl) 10);
  assert (bool_decide (b2z ttl' = sum)).
End dtp_tests.

(** ** src/dtcp/src/lib.rs *)

Section dtcp_tests.
Context {BC : BytesCrate} {BO : ByteOrderCrate} {SQ : SegQueueCrate} {SL : SlabCrate} {PR : Profile}.
Context {C : Type} {CK : Clock C}.

(** Two DTCP channels over one medium, each with its own channel of it. *)
Section single_packet.
Context {S P : Type} `{!BasePacket P} (CA CB : Channel S P).

Definition single_packet : M io_error (ends (DtcpChannel S C) S) () :=
  at_near (send_str (Dtcp_Channel (Channel0:=CA)) (lit "ping"));;
  at_far (recv_str (Dtcp_Channel (Channel0:=CB)) (lit "ping")).
End single_packet.

Definition setup_mock {R} `{!Rng R} (dtcp : DtcpBuilder) (px pq : f64) (r : R) (k : C)
    : option (ends (DtcpChannel (duplex (R:=R)) C) (duplex (R:=R))) :=
  b ← LossyChannelBuilder_new px pq;
  let d := TestChannel.split b r in
  a ← build_channel dtcp d k;
  b ← build_channel dtcp d k;
  Some (MkEnds d a b).

Definition test_mock_reliable {R} `{!Rng R} (r : R) (k : C)
    : option (outcome io_error (ends (DtcpChannel (duplex (R:=R)) C) (duplex (R:=R))) ()) :=
  e ← setup_mock DtcpBuilder_new f64_one f64_zero r k;
  Some (single_packet LossyChannel_first LossyChannel_second e).

Context {K : Type} `{!UdpExt K} {US : UdpSocket K} {NW : Network K} (fuel : nat).

(** The handles, and the DTCP channels on them. *)
Definition setup_dtp (dtcp : DtcpBuilder) (k : C)
    : M io_error (link K) (Dtp.DtpChannel * Dtp.DtpChannel * ends (DtcpChannel (link K) C) (link K)) :=
  addr2 ← unwrapped (at_peer Dtp.DtpSocket_local_addr);
  a ← unwrapped (at_local (Dtp.DtpSocket_outgoing addr2 Byte.x00));
  addr1 ← unwrapped (at_local Dtp.DtpSocket_local_addr);
  b ← unwrapped (at_peer (Dtp.DtpSocket_outgoing addr1 Byte.x00));
  l ← get_state;
  ca ← unwrap (build_channel dtcp l k);
  cb ← unwrap (build_channel dtcp l k);
  mret (a, b, MkEnds l ca cb).

Definition test_dtp (k : C) : M io_error (link K) () :=
  '(a, b, e) ← setup_dtp DtcpBuilder_new k;
  match single_packet (local_Channel fuel a) (peer_Channel fuel b) e with
  | Return x e => set_state (medium e)
  | _ => panic
  end.
End dtcp_tests.

(** ** src/efcp/src/secure.rs *)

Section secure_tests.
Context {BC : BytesCrate} {BO : ByteOrderCrate} {DC : DiscoCrate}.
Context {SQ : SegQueueCrate} {SL : SlabCrate} {PR : Profile}.
Context {K : Type} `{!UdpExt K} {US : UdpSocket K} {NW : Network K} (fuel : nat).

(** The test from the sockets on; [t1] and [t2] are the states of a session
    of the pattern NN. *)
Definition disco_channel_test (t1 t2 : StatelessTransportState) : M io_error (link K) () :=
  addr2 ← unwrapped (at_peer Dtp.DtpSocket_local_addr);
  h1 ← unwrapped (at_local (Dtp.DtpSocket_outgoing addr2 Byte.x00));
  addr1 ← unwrapped (at_local Dtp.DtpSocket_local_addr);
  h2 ← unwrapped (at_peer (Dtp.DtpSocket_outgoing addr1 Byte.x00));
  l ← get_state;
  let c1 := DiscoChannel_new l t1 in
  let c2 := DiscoChannel_new l t2 in
  let C1 := Disco_Channel (Channel0:=local_Channel fuel h1) in
  let C2 := Disco_Channel (Channel0:=peer_Channel fuel h2) in
  match (at_near (send_str C1 (lit "ping"));;
         at_far (recv_str C2 (lit "ping"));;
         at_far (send_str C2 (lit "pong"));;
         at_near (recv_str C1 (lit "pong"))) (MkEnds l c1 c2) with
  | Return _ e => set_state (medium e)
  | _ => panic
  end.
End secure_tests.

(** ** The tests on the reference network *)

Module Evaluated.
Import Reference NetReference UdpReference.

#[local] Instance test_profile : Profile := dev.
#[local] Instance test_clock : Clock Z := {| now t := (t, t + 1) |}.

(** The system gives a socket that asks for port 0 a free one. *)
Definition bind_free (n : Z) (addr : SocketAddr) : result node io_error :=
  Ok (MkNode (if decide (sock_port addr = 0) then SocketAddr_new (sock_ip addr) n else addr) [] []).

Definition on_two (addr : str) (m : M io_error (link node) ()) : Prop :=
  match bind_both addr (bind_free 40001) (bind_free 40002) with
  | Some l => passes (m l)
  | None => False
  end.

Definition ip4 : str := lit "/ip4/127.0.0.1".

Example dtp_tests_pass :
  on_two ip4 (outgoing_incoming 2) ∧ on_two ip4 (outgoing_outgoing 2) ∧
  on_two ip4 (channel_test 2) ∧ on_two (lit "/ip6/::1") (ipv6 2).
Proof. split_and!; vm_compute; exact I. Qed.

Example dtcp_test_passes : on_two ip4 (test_dtp 2 0).
Proof. vm_compute. exact I. Qed.

Example disco_test_passes : on_two ip4 (disco_channel_test 2 (5 : StatelessTransportState) (5 : StatelessTransportState)).
Proof. vm_compute. exact I. Qed.

Example mock_test_passes :
  match test_mock_reliable (Rng0:=TestChannelExample.constant) () 0 with Some o => passes o | None => False end.
Proof. vm_compute. exact I. Qed.

Example ttl_test_passes :
  match unwrap_ok (Dtp.DtpSocket_bind (K:=UdpReference.os) ip4) with
  | Some s => passes (ttl s)
  | None => False
  end.
Proof. vm_compute. exact I. Qed.

Example test_channels_ping :
  passes (test_channels (lit "ping")
    (DiscoLayer.MkDiscoChannel (DtpLayer.MkDtpChannel LoopbackChannel.Loopback_default))).
Proof. vm_compute. exact I. Qed.
End Evaluated.
