(* ===== verification/EfcpTests.v ===== *)
(** * The test of the EFCP socket (src/efcp/src/lib.rs)

    Two EFCP sockets that connect, concretely: the repository's test as a
    program on any network, evaluated on the reference network, and shown to
    pass under every fair schedule of its two tasks. *)

From S2P Require Export EfcpConnect SocketTests EfcpExamples StackExamples.

Import Dtp Reference NetReference.

#[local] Instance tests_profile : Profile := dev.

(** ** The test, on any network *)

Definition ping1 : Protocol := lit "/ping/1.0".

Section efcp_test.
Context {BC : BytesCrate} {BO : ByteOrderCrate} {SQ : SegQueueCrate} {SL : SlabCrate} {PR : Profile}.
Context {DC : DiscoCrate} {DS : DiscoSession DC} {C : Type} {CK : Clock C}.
Context {K : Type} `{!UdpExt K} {US : UdpSocket K} {NW : Network K}.

#[local] Abbreviation state := (link K * (C * C))%type.

(** The two sockets.  The one that dials is the second to be bound. *)
Definition efcp_sockets (addr : str) (identity1 identity2 : Keypair) (b1 b2 : SocketAddr → result K io_error)
    : option (EfcpSocket * EfcpSocket * link K) :=
  '(s1, socket1) ← unwrap_ok (EfcpSocket_bind (UdpSocket0:=binding b1) addr identity1 [ping1]);
  '(s2, socket2) ← unwrap_ok (EfcpSocket_bind (UdpSocket0:=binding b2) addr identity2 [ping1]);
  Some (socket1, socket2, MkLink s2 s1).

(** A call of a DTP socket, in the state of the test. *)
Definition on_link {A} (m : M io_error (link K) A) : M HandshakeError state A :=
  map_err Io (zoom fst (λ l st, (l, st.2)) m).

(** What the two say on their channels. *)
Definition ping_pong (h1 h2 : DtpChannel) : M io_error (ends (EfcpChannel (S:=link K) (C:=C)) (link K)) () :=
  let C1 := Efcp_Channel (CH:=peer_end h1) (C:=C) in
  let C2 := Efcp_Channel (CH:=local_end h2) (C:=C) in
  at_near (send_str C2 (lit "ping"));;
  at_far (recv_str C1 (lit "ping"));;
  at_far (send_str C1 (lit "pong"));;
  at_near (recv_str C2 (lit "pong")).

(** The test from the sockets on.  The two tasks are polled as [sch] says; a
    task that has not ended by then is not joined. *)
Definition efcp (fuel : nat) (sch : list who) (socket1 socket2 : EfcpSocket) : M HandshakeError state () :=
  external_addr ← on_link (at_local DtpSocket_local_addr);
  peer_addr ← on_link (at_peer DtpSocket_local_addr);
  let dial2 := MkDial _ _ peer_addr Byte.x00 (EfcpSocket_identity socket1) [ping1] in
  st ← get_state;
  match schedule sch (Running (t_zoom on_first put_first (dial_task socket2 dial2 fuel)))
          (Running (t_zoom on_second put_second (incoming_task socket1 fuel))) st with
  | (Ended (Some (Ok (h2, channel2))), Ended (Some (Ok (h1, channel1))), (l, clocks)) =>
    assert (bool_decide (protocol channel1 = ping1));;
    assert (bool_decide (protocol channel2 = ping1));;
    assert (bool_decide (efcp_external_addr channel2 = Some external_addr));;
    match ping_pong h1 h2 (MkEnds l channel2 channel1) with
    | Return _ e => set_state (medium e, clocks)
    | Throw err e => throw (Io err)
    | Suspend e => λ _, Suspend (medium e, clocks)
    | _ => panic
    end
  | _ => panic
  end.
End efcp_test.

(** A conversation of two words, by talk. *)
Section words.
Context {BC : BytesCrate} {BL : BytesLaws BC} {BO : ByteOrderCrate} {PR : Profile} {DC : DiscoCrate} {DS : DiscoSession DC}.
Context {S P C : Type} {BP : BasePacket P} {max : Z} {PL : PacketLaws P max} {CK : Clock C} {DX : Duplex S P}.
#[local] Abbreviation Q := (DtcpPacket (DiscoPacket P)).
#[local] Abbreviation efcp_on CH := (Efcp_Channel (CH:=CH) (C:=C)).

Lemma near_send_str (CH : Channel.Channel S P) w (q : Q) e : from_slice w = Some q →
  at_near (send_str (efcp_on CH) w) e = at_near (send (Channel:=efcp_on CH) q) e.
Proof. intros Hq. unfold at_near, zoom, send_str; run. by rewrite Hq. Qed.
Lemma far_send_str (CH : Channel.Channel S P) w (q : Q) e : from_slice w = Some q →
  at_far (send_str (efcp_on CH) w) e = at_far (send (Channel:=efcp_on CH) q) e.
Proof. intros Hq. unfold at_far, zoom, send_str; run. by rewrite Hq. Qed.

Lemma near_recv_str (CH : Channel.Channel S P) w (q : Q) e e' : at_near (recv (Channel:=efcp_on CH)) e = Return q e' →
  payload q = Some w → at_near (recv_str (efcp_on CH) w) e = Return () e'.
Proof.
  unfold at_near, zoom, recv_str; run. intros Hr Hq. destruct (recv _) as [q0 c| | | |]; try done.
  injection Hr as -> <-. rewrite Hq. cbn. by rewrite bool_decide_true.
Qed.
Lemma far_recv_str (CH : Channel.Channel S P) w (q : Q) e e' : at_far (recv (Channel:=efcp_on CH)) e = Return q e' →
  payload q = Some w → at_far (recv_str (efcp_on CH) w) e = Return () e'.
Proof.
  unfold at_far, zoom, recv_str; run. intros Hr Hq. destruct (recv _) as [q0 c| | | |]; try done.
  injection Hr as -> <-. rewrite Hq. cbn. by rewrite bool_decide_true.
Qed.

Lemma converse_words (w v : list byte) s (c1 c2 : EfcpChannel (S:=S) (C:=C)) : converse DX s c1 c2 →
  (∀ u, u = w ∨ u = v → dx_fits (HEADER + (3 + length u))%nat ∧ 3 + Z.of_nat (length u) + Z.of_nat HEADER ≤ max) →
  ∃ e, (at_near (send_str (efcp_on first_end) w);; at_far (recv_str (efcp_on second_end) w);;
        at_far (send_str (efcp_on second_end) v);; at_near (recv_str (efcp_on first_end) v)) (MkEnds s c1 c2) = Return () e.
Proof.
  intros Hc Hfit. destruct (Hfit w) as [Hf Hl]; [by left|]. destruct (Hfit v) as [Hf' Hl']; [by right|].
  destruct (from_slice_Some (Q:=Q) w) as (p & Hp & Hpw & _); [lia|].
  destruct (from_slice_Some (Q:=Q) v) as (q & Hq & Hqv & _); [lia|].
  destruct (Hc [Says First p; Hears Second; Says Second q; Hears First] [Says First w; Hears Second; Says Second v; Hears First])
    as (rs & e & Ht & Hrs); [by repeat constructor|].
  revert Ht Hrs. cbn [talk talk_call two_queues two_queues_call]. run. unfold poll_once.
  rewrite (near_send_str _ w p) by done. destruct (at_near _ _) as [[] e1| | | |]; try done. cbn [mret M_ret].
  destruct (at_far recv e1) as [p1 e2| |e2| |] eqn:E2; try done.
  - destruct (at_far (send q) e2) as [[] e3| | | |] eqn:E3; try done. cbn [mret M_ret].
    destruct (at_near recv e3) as [q1 e4| |e4| |] eqn:E4; try done.
    + intros [= <- <-] Hrs. cbn -[payload] in Hrs. injection Hrs as Hp1 Hq1. exists e4.
      rewrite (far_recv_str _ w p1 e1 e2) by done. rewrite (far_send_str _ v q) by done. rewrite E3.
      by apply (near_recv_str _ v q1).
    + by intros [= <- <-].
  - destruct (at_far (send q) e2) as [[] e3| | | |] eqn:E3; try done. cbn [mret M_ret].
    destruct (at_near recv e3) as [q1 e4| |e4| |] eqn:E4; try done; by intros [= <- <-].
Qed.
End words.

(** ** On the reference network *)

Module EfcpTest.
#[export] Instance clock : Clock Z := {| now t := (t, t + 1) |}.

Definition sockets (identity1 identity2 : @Keypair _ disco_session_ref) :=
  efcp_sockets Evaluated.ip4 identity1 identity2 (Evaluated.bind_free 40001) (Evaluated.bind_free 40002).

Definition test (sch : list who) (identity1 identity2 : @Keypair _ disco_session_ref) : Prop :=
  match sockets identity1 identity2 with
  | Some (socket1, socket2, l) => passes (efcp (C:=Z) 6 sch socket1 socket2 (l, (0, 0)))
  | None => False
  end.

(** The caller first, the callee first, and the callee polled twice before the
    caller and the caller thrice in a row. *)
Example test_efcp_passes :
  test [First; Second; First; Second] EfcpExample.alice EfcpExample.bob ∧
  test [Second; First; Second; First; Second] EfcpExample.alice EfcpExample.bob ∧
  test [Second; Second; First; First; First; Second; First; Second; Second] EfcpExample.alice EfcpExample.bob.
Proof. split_and!; vm_compute; exact I. Qed.

(** The two sockets of the test. *)
Definition addr1 : SocketAddr := SockV4 (MkSockV4 (MkV4 Byte.x7f Byte.x00 Byte.x00 Byte.x01) 40001).
Definition addr2 : SocketAddr := SockV4 (MkSockV4 (MkV4 Byte.x7f Byte.x00 Byte.x00 Byte.x01) 40002).
Definition start : link node := MkLink (StackExample.socket_at addr2) (StackExample.socket_at addr1).

Lemma sockets_eq identity1 identity2 :
  sockets identity1 identity2 = Some (MkEfcpSocket identity1 [ping1], MkEfcpSocket identity2 [ping1], start).
Proof. reflexivity. Qed.

Definition dial1 (identity1 : @Keypair _ disco_session_ref) : Dial :=
  MkDial _ _ (from_socket_addr addr1) Byte.x00 (public identity1) [ping1].

Lemma start_ok (c d : Channel) : socket_addr (peer_addr c) = addr1 → socket_addr (peer_addr d) = addr2 →
  channel_id c = channel_id d → c = MkChannel (from_socket_addr addr1) (channel_id c) →
  d = MkChannel (from_socket_addr addr2) (channel_id c) → both_ok c d start.
Proof.
  intros Hc Hd Hid Ec Ed. unfold both_ok. split_and!.
  - by split; try apply StackExample.socket_at_Inv; try constructor.
  - by split; try apply StackExample.socket_at_Inv; try constructor.
  - by rewrite Ed.
  - rewrite Ec. unfold peer_channel. by rewrite <-Hid.
Qed.

Lemma start_uncalled identity1 : uncalled (dial1 identity1) (from_socket_addr addr2) start.
Proof.
  unfold uncalled, unopened. split; [by apply start_ok|]. split_and!; reflexivity || apply not_elem_of_empty.
Qed.

Lemma node_room : 524 + Z.of_nat (@TAG_LEN disco_ref) + Z.of_nat (@OVERHEAD _ _ _ disco_session_ref_laws) ≤
  (@MTU node _ _ - 1) `min` MAX_PAYLOAD_LEN.
Proof. vm_compute. discriminate. Qed.

Lemma ping1_ok : Forall proto_ok [ping1].
Proof. repeat constructor; try (vm_compute; reflexivity); cbn; lia. Qed.

Lemma addr2_wf : addr_wf (from_socket_addr addr2).
Proof. split; [done|]. unfold fits. cbn. lia. Qed.

Lemma first_common_one : first_common [ping1] [ping1] [ping1] [ping1] = Some ping1.
Proof. vm_compute. reflexivity. Qed.

(** The repository's test of the EFCP socket passes, for any two key pairs,
    under every schedule that polls each of its two tasks often enough: both
    calls return, the channels have the protocol, the caller has been told
    its address, and ping and pong arrive. *)
Theorem efcp_test_passes (identity1 identity2 : @Keypair _ disco_session_ref) :
  ∃ n, ∀ sch, fair n sch → test sch identity1 identity2.
Proof.
  destruct (calls_connect (K:=node) (C:=Z) (MkEfcpSocket identity2 [ping1]) (MkEfcpSocket identity1 [ping1]) (dial1 identity1)
    6 0 0 (from_socket_addr addr2) eq_refl node_room ltac:(cbn; lia) ping1_ok ping1_ok addr2_wf) as [n H].
  exists n. intros sch Hf. unfold test. rewrite sockets_eq.
  destruct (H sch start Hf (start_uncalled _)) as (a & b & l' & ka & kb & Hs & Hab).
  cbn [socket_protocols] in Hab. rewrite first_common_one in Hab. destruct Hab as (_ & _ & ci & cr & -> & -> & Hp & Hp' & _ & _ & He & _ & Hc).
  unfold efcp; run.
  assert (Ha : on_link (C:=Z) (at_local (K:=node) DtpSocket_local_addr) (start, (0, 0)) =
    Return (from_socket_addr addr2) (start, (0, 0))) by reflexivity.
  assert (Ha' : on_link (C:=Z) (at_peer (K:=node) DtpSocket_local_addr) (start, (0, 0)) =
    Return (from_socket_addr addr1) (start, (0, 0))) by reflexivity.
  rewrite Ha, Ha'. cbn [get_state]. change (MkDial _ _ _ _ _ _) with (dial1 identity1). rewrite Hs.
  rewrite Hp, Hp', He,  !bool_decide_true by done. cbn [assert mret M_ret].
  destruct (converse_words (max:=MAX_PAYLOAD_LEN) (lit "ping") (lit "pong") l' ci cr Hc) as [e Hpp].
  { intros u [-> | ->]; split; vm_compute; by try split. }
  lazymatch goal with |- context [ping_pong ?h1 ?h2 ?x] => assert (ping_pong h1 h2 x = Return () e) as -> by exact Hpp end.
  done.
Qed.

(** Witnesses: Alice calls Bob, with two protocols, of which Bob has one. *)
#[local] Abbreviation alice := EfcpExample.alice.
#[local] Abbreviation bob := EfcpExample.bob.
#[local] Abbreviation ping2 := EfcpExample.ping2.
#[local] Abbreviation echo := EfcpExample.echo.

Definition caller (ps : list Protocol) : EfcpSocket := MkEfcpSocket alice ps.
Definition callee (qs : list Protocol) : EfcpSocket := MkEfcpSocket bob qs.

(** The two calls, by turns. *)
Definition calls n ps qs :=
  schedule (by_turns n) (Running (t_zoom on_first put_first (dial_task (caller ps) (dial1 bob) 30)))
    (Running (t_zoom on_second put_second (incoming_task (callee qs) 30))) (start, (0, 0)).

Lemma echo_ok : Forall proto_ok [echo].
Proof. repeat constructor; try (vm_compute; reflexivity); cbn; lia. Qed.

Lemma sockets_connect_witness :
  (∃ n ci cr l' ka kb, calls n [ping2; ping1] [echo; ping1] =
    (Ended (Some (Ok (MkDtpChannel (MkChannel (from_socket_addr addr1) Byte.x00), ci))),
     Ended (Some (Ok (MkDtpChannel (MkChannel (from_socket_addr addr2) Byte.x00), cr))), (l', (ka, kb))) ∧
    protocol ci = ping1 ∧ protocol cr = ping1) ∧
  ∃ n st, calls n [ping1] [echo] = (Ended (Some (Err NegotiationError)), Ended (Some (Err NegotiationError)), st).
Proof.
  split.
  - destruct (sockets_connect (K:=node) (C:=Z) (caller [ping2; ping1]) (callee [echo; ping1]) (dial1 bob) 30 0 0
      (from_socket_addr addr2) eq_refl node_room ltac:(cbn; lia) (proj1 EfcpExample.protocols_ok)
      (proj2 EfcpExample.protocols_ok) addr2_wf) as [n H].
    destruct (H (by_turns n) start (fair_by_turns n) (start_uncalled bob)) as (a & b & l' & ka & kb & Hs & Hab).
    assert (Hf : first_common [ping2; ping1] [echo; ping1] [ping2; ping1] [echo; ping1] = Some ping1) by (vm_compute; reflexivity).
    cbn [caller callee socket_protocols] in Hab. rewrite Hf in Hab.
    destruct Hab as (_ & _ & ci & cr & -> & -> & ? & ? & _). by exists n, ci, cr, l', ka, kb.
  - destruct (sockets_connect (K:=node) (C:=Z) (caller [ping1]) (callee [echo]) (dial1 bob) 30 0 0
      (from_socket_addr addr2) eq_refl node_room ltac:(cbn; lia) ping1_ok echo_ok addr2_wf) as [n H].
    destruct (H (by_turns n) start (fair_by_turns n) (start_uncalled bob)) as (a & b & l' & ka & kb & Hs & Hab).
    assert (Hf : first_common [ping1] [echo] [ping1] [echo] = None) by (vm_compute; reflexivity).
    cbn [caller callee socket_protocols] in Hab. rewrite Hf in Hab.
    destruct Hab as (_ & -> & -> & _). by eexists n, _.
Defined.

(** The link of the two sockets. *)
Definition wire : Duplex (link node) DtpPacket :=
  socket_Duplex (MkChannel (from_socket_addr addr1) Byte.x00) (MkChannel (from_socket_addr addr2) Byte.x00).

Lemma all_fit_there n : (n ≤ 524 + @TAG_LEN disco_ref + @OVERHEAD _ _ _ disco_session_ref_laws)%nat →
  dx_fits (Duplex:=wire) n.
Proof. apply (all_fit (K:=node) node_room). Qed.

Lemma tasks_connect_witness : ∃ n a b s' ka kb,
  schedule (by_turns n)
    (Running (t_zoom on_first put_first (initiator_task alice bob [ping2; ping1] 30 (first_end (Duplex:=wire)))))
    (Running (t_zoom on_second put_second (responder_task bob [echo; ping1] EfcpExample.home 30 (second_end (Duplex:=wire)))))
    (start, (0, 0)) = (Ended a, Ended b, (s', (ka, kb))) ∧
  ∃ ci cr : EfcpChannel (S:=link node) (C:=Z), a = Some (Ok ci) ∧ b = Some (Ok cr) ∧ protocol ci = ping1 ∧ protocol cr = ping1.
Proof.
  destruct (tasks_connect (DX:=wire) (max:=MAX_PAYLOAD_LEN) (max_room (K:=node) node_room) all_fit_there alice bob [ping2; ping1]
    [echo; ping1] EfcpExample.home 0 0 30 (proj1 EfcpExample.protocols_ok) (proj2 EfcpExample.protocols_ok) EfcpExample.home_wf
    ltac:(cbn; lia)) as [n H].
  destruct (H (by_turns n) start (fair_by_turns n)) as (a & b & s' & ka & kb & Hs & _ & _ & _ & Hab).
  - by apply start_ok.
  - reflexivity.
  - reflexivity.
  - exists n, a, b, s', ka, kb. split; [exact Hs|].
    assert (Hf : first_common [ping2; ping1] [echo; ping1] [ping2; ping1] [echo; ping1] = Some ping1) by (vm_compute; reflexivity).
    rewrite Hf in Hab. destruct Hab as (_ & _ & ci & cr & ? & ? & ? & ? & _). by exists ci, cr.
Defined.
End EfcpTest.
