(* ===== verification/Notes.v ===== *)
(** * The notes: a draft of EFCP over UDP (src/notes)

    A packet with a header of its own (packet.rs), the state of flow control
    (dtcp.rs) and the data transfer machine over both (dtp.rs).  Nothing is
    sent yet: where the code has a comment for it, the model has nothing
    either.  A [VecDeque] is a list, front first. *)

From S2P Require Import Dtcp.
From S2P Require Export Channel.

(** [SequenceNumber] is [u64], [Instant] a reading of the clock of Dtcp.v. *)
Abbreviation SequenceNumber := Z (only parsing).
Abbreviation Instant := Z (only parsing).

(** ** packet.rs *)

Module NotesPacket.
Section packet.
Context {BC : BytesCrate} {BS : BytesSplit BC} {BO : ByteOrderCrate}.

Record Packet : Type := MkPacket { data : BytesMut }.

Inductive PduType : Type :=
| Transfer
| Control.

Definition type_byte (t : PduType) : byte :=
  match t with Transfer => Byte.x00 | Control => Byte.x01 end.

Inductive PacketError : Type :=
| InvalidVersion
| InvalidType.

Definition IP_HEADER_LEN : Z := 20.
Definition UDP_HEADER_LEN : Z := 8.
Definition HEADER_LEN : nat := 12.
Definition MAX_PAYLOAD_LEN : Z := 65535 - IP_HEADER_LEN - UDP_HEADER_LEN - Z.of_nat HEADER_LEN.

Definition DEFAULT : list byte := Byte.x01 :: replicate 11 Byte.x00.

Definition DRF_MASK : Z := 128.

Definition version (p : Packet) : option Z := b2z <$> deref (data p) !! 0%nat.

Definition raw_type (p : Packet) : option Z := b2z <$> deref (data p) !! 1%nat.

Definition parse (bytes : BytesMut) : option (result Packet PacketError) :=
  let packet := MkPacket bytes in
  v ← version packet;
  if negb (v =? 1) then Some (Err InvalidVersion)
  else
    t ← raw_type packet;
    if 2 <=? t then Some (Err InvalidType) else Some (Ok packet).

(** [unreachable!] is a panic. *)
Definition ty (p : Packet) : option PduType :=
  t ← raw_type p;
  match t with 0 => Some Transfer | 1 => Some Control | _ => None end.

(** [self.data[i] = f(self.data[i])]. *)
Definition update_byte (i : nat) (f : byte → byte) (p : Packet) : option Packet :=
  MkPacket <$> update_borrow (λ l, b ← l !! i; set_index i (f b) l) (deref_mut (data p)).

Definition set_type (t : PduType) : Packet → option Packet := update_byte 1 (λ _, type_byte t).

Definition dtp (payload : list byte) : option Packet :=
  let bytes := with_capacity (Z.of_nat HEADER_LEN + Z.of_nat (length payload)) in
  bytes ← put_slice DEFAULT bytes;
  bytes ← put_slice payload bytes;
  set_type Transfer (MkPacket bytes).

Definition sequence_number (p : Packet) : option SequenceNumber :=
  s ← slice 4 12 (deref (data p)); read_u64 s.

Definition set_sequence_number (sn : SequenceNumber) (p : Packet) : option Packet :=
  MkPacket <$> update_borrow (λ l, s ← slice 4 12 l; s ← write_u64 sn s; Some (splice 4 s l))
    (deref_mut (data p)).

Definition payload (p : Packet) : option (list byte) := slice_from HEADER_LEN (deref (data p)).

Definition into_payload (p : Packet) : option BytesMut :=
  '(_, rest) ← split_to HEADER_LEN (data p); Some rest.

(** [self.data[2] & mask > 0]. *)
Definition flag (mask : Z) (p : Packet) : option bool :=
  b ← deref (data p) !! 2%nat; Some (0 <? Z.land (b2z b) mask).

Definition drf : Packet → option bool := flag DRF_MASK.
Definition ecn : Packet → option bool := flag 64.
Definition fci : Packet → option bool := flag 8.
Definition acki : Packet → option bool := flag 4.
Definition sel_ack : Packet → option bool := flag 2.
Definition ack : Packet → option bool := flag 1.

Definition set_drf (drf : bool) : Packet → option Packet :=
  update_byte 2 (λ b, z2b (if drf then Z.lor (b2z b) DRF_MASK
                           else Z.land (b2z b) (Z.lxor 255 DRF_MASK))).

Definition default : Packet := MkPacket (bytes_from DEFAULT).
End packet.
End NotesPacket.

(** ** dtcp.rs *)

Module NotesDtcp.
Import NotesPacket.

Section dtcp.
Context {BC : BytesCrate} {PR : Profile} {C : Type} `{!Clock C}.

Record RetransmissionControl : Type := MkRetransmissionControl {
  retransmission_queue : list (Packet * Instant);
  max_retransmission_attempts : Z;
  control_sequence_number : Z;
  max_received_control_sequence_number : Z
}.

Record WindowFlowControl : Type := MkWindowFlowControl {
  send_window_start : SequenceNumber;
  send_window_end : SequenceNumber;
  receive_window_start : SequenceNumber;
  receive_window_end : SequenceNumber
}.

Record RateFlowControl : Type := MkRateFlowControl {
  time_unit : Z;
  sending_rate : Z;
  pdus_sent_in_time_unit : Z
}.

Record Dtcp : Type := MkDtcp {
  set_drf_flag : bool;
  immediate : bool;
  rtt : Z;
  retx : option RetransmissionControl;
  window : option WindowFlowControl;
  rate : option RateFlowControl
}.

Definition take_drf (self : Dtcp) : bool * Dtcp :=
  (set_drf_flag self,
   MkDtcp false (immediate self) (rtt self) (retx self) (window self) (rate self)).

Definition window_open (self : WindowFlowControl) (sn : SequenceNumber) : bool :=
  sn <=? send_window_end self.

Definition rate_open (self : RateFlowControl) (sn : SequenceNumber) : bool :=
  pdus_sent_in_time_unit self <? sending_rate self.

Definition in_send_window (sn : SequenceNumber) (self : Dtcp) : bool :=
  if match window self with Some window => negb (window_open window sn) | None => false end
  then false
  else if match rate self with Some rate => negb (rate_open rate sn) | None => false end
  then false
  else true.

Definition in_recv_window (sn : SequenceNumber) (self : Dtcp) : bool :=
  match window self with
  | Some window =>
    if sn <? receive_window_start window then false
    else if receive_window_end window <? sn then false
    else true
  | None => true
  end.

Definition retx_register (packet : Packet) (self : RetransmissionControl) (clk : C)
    : RetransmissionControl * C :=
  let '(instant, clk) := now clk in
  (MkRetransmissionControl (retransmission_queue self ++ [(packet, instant)])
     (max_retransmission_attempts self) (control_sequence_number self)
     (max_received_control_sequence_number self), clk).

Definition window_register (packet : Packet) (self : WindowFlowControl) : WindowFlowControl := self.

(** The counter is a [u32]. *)
Definition rate_register (packet : Packet) (self : RateFlowControl) : option RateFlowControl :=
  n ← int_add 32 (pdus_sent_in_time_unit self) 1;
  Some (MkRateFlowControl (time_unit self) (sending_rate self) n).

Definition register_packet (packet : Packet) (self : Dtcp) (clk : C) : option (Dtcp * C) :=
  let '(retx, clk) :=
    match retx self with
    | Some retx => let '(retx, clk) := retx_register packet retx clk in (Some retx, clk)
    | None => (None, clk)
    end in
  let window := window_register packet <$> window self in
  rate ← match rate self with
         | Some rate => rate ← rate_register packet rate; Some (Some rate)
         | None => Some None
         end;
  Some (MkDtcp (set_drf_flag self) (immediate self) (rtt self) retx window rate, clk).
End dtcp.
End NotesDtcp.

(** ** dtp.rs *)

Module NotesDtp.
Import NotesPacket NotesDtcp.

Section dtp.
Context {BC : BytesCrate} {BS : BytesSplit BC} {BO : ByteOrderCrate} {PR : Profile}.
Context {C : Type} `{!Clock C}.

Inductive SendError : Type :=
| MaxClosedWindowQueue.

Inductive RecvError : Type :=
| RecvPacket (e : PacketError).

Record Dtp : Type := MkDtp {
  dtcp : option Dtcp;
  max_closed_window_queue_len : nat;
  closed_window_queue : list Packet;
  max_sequence_number_received : SequenceNumber;
  next_number : SequenceNumber;
  reassembly_queue : list Packet
}.

Definition new (max_closed_window_queue_len : nat) : Dtp :=
  MkDtp None max_closed_window_queue_len [] 0 0 [].

Definition put_dtcp (d : Dtcp) (s : Dtp) : Dtp :=
  MkDtp (Some d) (max_closed_window_queue_len s) (closed_window_queue s)
    (max_sequence_number_received s) (next_number s) (reassembly_queue s).
Definition put_closed (q : list Packet) (s : Dtp) : Dtp :=
  MkDtp (dtcp s) (max_closed_window_queue_len s) q
    (max_sequence_number_received s) (next_number s) (reassembly_queue s).
Definition put_max (n : SequenceNumber) (s : Dtp) : Dtp :=
  MkDtp (dtcp s) (max_closed_window_queue_len s) (closed_window_queue s)
    n (next_number s) (reassembly_queue s).
Definition put_number (n : SequenceNumber) (s : Dtp) : Dtp :=
  MkDtp (dtcp s) (max_closed_window_queue_len s) (closed_window_queue s)
    (max_sequence_number_received s) n (reassembly_queue s).
Definition put_reassembly (q : list Packet) (s : Dtp) : Dtp :=
  MkDtp (dtcp s) (max_closed_window_queue_len s) (closed_window_queue s)
    (max_sequence_number_received s) (next_number s) q.

(** The flow and the clock it reads. *)
Definition flow : Type := Dtp * C.
Definition on_dtp (f : Dtp → Dtp) (s : flow) : flow := (f s.1, s.2).

(** A packet with the next sequence number. *)
Definition number_packet (payload : list byte) : M SendError flow Packet :=
  packet ← unwrap (dtp payload);
  sn ← gets (λ s, next_number s.1);
  packet ← unwrap (set_sequence_number sn packet);
  next ← unwrap (int_add 64 sn 1);
  modify (on_dtp (put_number next));;
  mret packet.

Definition send_packet (payload : list byte) : M SendError flow () :=
  packet ← number_packet payload;
  '(self, clk) ← get_state;
  match dtcp self with
  | Some dtcp =>
    let '(drf, dtcp) := take_drf dtcp in
    modify (on_dtp (put_dtcp dtcp));;
    packet ← unwrap (set_drf drf packet);
    sn ← unwrap (sequence_number packet);
    if in_send_window sn dtcp then
      '(dtcp, clk) ← unwrap (register_packet packet dtcp clk);
      modify (λ s, (put_dtcp dtcp s.1, clk))
    else modify (on_dtp (λ s, put_closed (closed_window_queue s ++ [packet]) s))
  | None => mret ()
  end;;
  '(self, _) ← get_state;
  if (max_closed_window_queue_len self <? length (closed_window_queue self))%nat
  then throw MaxClosedWindowQueue
  else mret ().

Definition recv_packet (bytes : BytesMut) : M RecvError Dtp () :=
  r ← unwrap (parse bytes);
  packet ← match r with Ok packet => mret packet | Err e => throw (RecvPacket e) end;
  run ← unwrap (drf packet);
  if run : bool then
    sn ← unwrap (sequence_number packet);
    modify (put_max sn)
  else
    d ← gets dtcp;
    in_window ← match d with
                | Some dtcp => sn ← unwrap (sequence_number packet); mret (in_recv_window sn dtcp)
                | None => mret true
                end;
    if in_window : bool then
      sn ← unwrap (sequence_number packet);
      max ← gets max_sequence_number_received;
      if sn <=? max then mret ()
      else
        modify (put_max sn);;
        modify (λ s, put_reassembly (reassembly_queue s ++ [packet]) s)
    else mret ().
End dtp.
End NotesDtp.
