(* ===== verification/Debug.v ===== *)
(** * Debug output of the packets

    [BasePacket::debug] at every layer, [Debug] of a packet as
    [derive_packet!] derives it and as dtp and the notes write it:
    src/channel/src/lib.rs, src/dtp/src/packet.rs, src/dtcp/src/packet.rs,
    src/efcp/src/secure.rs, src/notes/packet.rs.  The text is that of
    [{:?}]. *)

From S2P Require Import ChannelTests DtpPacket DtcpPacket SecureProps Notes.

(** ** DebugStruct *)

(** The names and the printed values so far. *)
Definition fields : Type := list (str * str).

Definition field (name : string) (value : str) (ds : fields) : fields := ds ++ [(lit name, value)].

Fixpoint separated (ds : fields) : str :=
  match ds with
  | [] => []
  | [(name, value)] => name ++ lit ": " ++ value
  | (name, value) :: ds => name ++ lit ": " ++ value ++ lit ", " ++ separated ds
  end.

Definition finish (name : string) (ds : fields) : str :=
  match ds with [] => lit name | _ => lit name ++ lit " { " ++ separated ds ++ lit " }" end.

(** [Debug] of integers of up to 64 bits, and of booleans. *)
Definition debug_uint (n : Z) : str := digit_char <$> digits_of 64 10 n.
Definition debug_bool (b : bool) : str := lit (if b then "true" else "false").

Lemma digit_char_inj d d' : 0 ≤ d < 10 → 0 ≤ d' < 10 → digit_char d = digit_char d' → d = d'.
Proof.
  intros H H' E%(f_equal b2z). rewrite !b2z_digit_char in E by lia.
  destruct (d <? 10) eqn:?, (d' <? 10) eqn:?; lia.
Qed.

(** Different numbers have different texts. *)
Lemma debug_uint_inj n n' : fits 64 n → fits 64 n' → debug_uint n = debug_uint n' → n = n'.
Proof.
  intros Hn Hn' E. unfold fits in *.
  destruct (digits_of_spec 64 10 n) as (Hok & Hv & _); [lia..|].
  destruct (digits_of_spec 64 10 n') as (Hok' & Hv' & _); [lia..|].
  rewrite <-Hv, <-Hv'. f_equal. revert Hok Hok' E. unfold debug_uint.
  generalize (digits_of 64 10 n'). clear. induction (digits_of 64 10 n) as [|d ds IH]; intros [|d' ds']; try done.
  intros [Hd Hds]%Forall_cons [Hd' Hds']%Forall_cons [= E Es].
  f_equal; [by apply digit_char_inj|by apply IH].
Qed.

(** ** Packets *)

(** [BasePacket::debug]; an accessor may panic. *)
Class DebugPacket (P : Type) : Type := { debug : P → fields → option fields }.

(** [Debug] as [derive_packet!] makes it from [debug]. *)
Definition derive_fmt {P} `{!BasePacket P} `{!DebugPacket P} (q : P) : option str :=
  ds ← debug q [];
  p ← payload q;
  Some (finish "Packet" (field "payload" (debug_uint (Z.of_nat (length p))) ds)).

#[export] Instance BytesMut_Debug {BC : BytesCrate} : DebugPacket BytesMut := {| debug _ ds := Some ds |}.

#[export] Instance DtpPacket_Debug {BC : BytesCrate} : DebugPacket DtpPacket := {|
  debug p ds :=
    let ds := field "ecn" (debug_bool (DtpPacket.ecn p)) ds in
    c ← DtpPacket.channel p;
    Some (field "channel" (debug_uint (b2z c)) ds)
|}.

Definition DtpPacket_fmt {BC : BytesCrate} {PR : Profile} (p : DtpPacket) : option str :=
  ds ← debug p [];
  s ← payload p;
  Some (finish "Packet" (field "payload" (debug_uint (Z.of_nat (length s))) ds)).

(** [#[derive(Debug)]] of the type of a packet. *)
Definition DtcpType_fmt (t : DtcpType) : str :=
  match t with
  | DtcpPacket.Transfer drf => finish "Transfer" (field "drf" (debug_bool drf) [])
  | DtcpPacket.Control => lit "Control"
  end.

Section layers.
Context {BC : BytesCrate} {BO : ByteOrderCrate} {P : Type} `{!BasePacket P} `{!DebugPacket P}.

#[export] Instance DtcpPacket_Debug : DebugPacket (DtcpPacket P) := {|
  debug q ds :=
    ds ← debug (dtcp_inner q) ds;
    t ← DtcpPacket.ty q;
    let ds := field "type" (DtcpType_fmt t) ds in
    n ← DtcpPacket.seq_num q;
    Some (field "seq_num" (debug_uint n) ds)
|}.

#[export] Instance DiscoPacket_Debug : DebugPacket (DiscoPacket P) := {|
  debug q ds :=
    ds ← debug (disco_inner q) ds;
    n ← Secure.nonce q;
    Some (field "nonce" (debug_uint n) ds)
|}.

(** The layers of the test module of crate channel. *)
#[export] Instance DtpLayer_Debug : DebugPacket (DtpLayer.DtpPacket P) := {|
  debug q ds :=
    ds ← debug (DtpLayer.dtp_inner q) ds;
    p ← payload (DtpLayer.dtp_inner q);
    c ← p !! O;
    Some (field "channel" (debug_uint (b2z c)) ds)
|}.

#[export] Instance DiscoLayer_Debug : DebugPacket (DiscoLayer.DiscoPacket P) := {|
  debug q ds :=
    ds ← debug (DiscoLayer.disco_inner q) ds;
    n ← DiscoLayer.nonce q;
    Some (field "nonce" (debug_uint n) ds)
|}.
End layers.

(** ** The packet of the notes *)

Definition PduType_fmt (t : NotesPacket.PduType) : str :=
  match t with NotesPacket.Transfer => lit "Transfer" | NotesPacket.Control => lit "Control" end.

Definition Packet_fmt {BC : BytesCrate} {BO : ByteOrderCrate} (p : NotesPacket.Packet) : option str :=
  version ← NotesPacket.version p;
  let ds := field "version" (debug_uint version) [] in
  ty ← NotesPacket.ty p;
  let ds := field "type" (PduType_fmt ty) ds in
  drf ← NotesPacket.drf p;
  let ds := field "drf" (debug_bool drf) ds in
  ecn ← NotesPacket.ecn p;
  let ds := field "ecn" (debug_bool ecn) ds in
  fci ← NotesPacket.fci p;
  let ds := field "flow control information present" (debug_bool fci) ds in
  acki ← NotesPacket.acki p;
  let ds := field "ack/nack information present" (debug_bool acki) ds in
  sel_ack ← NotesPacket.sel_ack p;
  let ds := field "selective ack/nack" (debug_bool sel_ack) ds in
  ack ← NotesPacket.ack p;
  let ds := field "ack/nack" (debug_bool ack) ds in
  sn ← NotesPacket.sequence_number p;
  let ds := field "sequence number" (debug_uint sn) ds in
  s ← NotesPacket.payload p;
  Some (finish "Packet" (field "payload" (debug_uint (Z.of_nat (length s))) ds)).

(** It is defined when every accessor is. *)
Lemma Packet_fmt_defined {BC : BytesCrate} {BO : ByteOrderCrate} (p : NotesPacket.Packet) :
  is_Some (NotesPacket.version p) → is_Some (NotesPacket.ty p) → is_Some (NotesPacket.drf p) →
  is_Some (NotesPacket.ecn p) → is_Some (NotesPacket.fci p) → is_Some (NotesPacket.acki p) →
  is_Some (NotesPacket.sel_ack p) → is_Some (NotesPacket.ack p) →
  is_Some (NotesPacket.sequence_number p) → is_Some (NotesPacket.payload p) → is_Some (Packet_fmt p).
Proof.
  intros [? Hv] [? Ht] [? Hd] [? He] [? Hf] [? Ha] [? Hs] [? Hk] [? Hn] [? Hp]. unfold Packet_fmt.
  rewrite Hv, Ht, Hd, He, Hf, Ha, Hs, Hk, Hn, Hp. by eexists.
Qed.

(** ** Properties *)

Section properties.
Context {BC : BytesCrate} {BL : BytesLaws BC} {BO : ByteOrderCrate} {BOL : ByteOrderLaws BO}.
Context {PR : Profile} {DC : DiscoCrate}.

#[local] Abbreviation Q := (DtcpPacket (DiscoPacket DtpPacket)).

(** The text of a packet of the whole stack, from its bytes. *)
Theorem debug_stack (p : DtpPacket) c n tag t k s :
  fits 64 n → length tag = TAG_LEN → fits 16 k →
  DtpPacket.bytes p = c :: be_bytes 8 n ++ tag ++ dtcp_header t k ++ s →
  derive_fmt (MkDtcpPacket (MkDiscoPacket p) : Q) = Some (finish "Packet"
    [(lit "ecn", debug_bool (DtpPacket.ecn p)); (lit "channel", debug_uint (b2z c));
     (lit "nonce", debug_uint n); (lit "type", DtcpType_fmt t); (lit "seq_num", debug_uint k);
     (lit "payload", debug_uint (Z.of_nat (length s)))]).
Proof.
  intros Hn Ht Hk Hb.
  assert (Hp : payload p = Some (be_bytes 8 n ++ tag ++ dtcp_header t k ++ s))
    by (cbn; unfold DtpPacket.bytes in Hb; by rewrite Hb).
  assert (Hq : payload (MkDiscoPacket p) = Some (dtcp_header t k ++ s)).
  { change (payload (MkDiscoPacket p)) with (w ← payload p; slice_from HEADER w).
    rewrite Hp. apply slice_from_Some.
    rewrite (assoc_L (++)), drop_app_length' by (unfold HEADER; rewrite length_app, length_be_bytes; lia).
    split; [|done]. unfold HEADER. rewrite !length_app, length_be_bytes. lia. }
  assert (Hs : payload (MkDtcpPacket (MkDiscoPacket p)) = Some s).
  { change (payload (MkDtcpPacket (MkDiscoPacket p))) with (w ← payload (MkDiscoPacket p); slice_from 3 w). by rewrite Hq. }
  unfold derive_fmt. cbn [debug DtcpPacket_Debug DiscoPacket_Debug DtpPacket_Debug dtcp_inner disco_inner].
  unfold DtpPacket.channel. unfold DtpPacket.bytes in Hb. rewrite Hb. cbn [lookup list_lookup mbind option_bind].
  rewrite (nonce_eq (MkDiscoPacket p) n _ Hn Hp). cbn [mbind option_bind].
  rewrite (ty_type_byte (MkDtcpPacket (MkDiscoPacket p)) t _ Hq). cbn [mbind option_bind].
  rewrite (seq_num_be (MkDtcpPacket (MkDiscoPacket p)) _ k s Hk Hq). cbn [mbind option_bind].
  by rewrite Hs.
Qed.

(** The text of a packet of the stack is defined, where it panics otherwise,
    exactly when the packet has all its headers and one of the two types. *)
Theorem debug_defined (q : Q) : is_Some (derive_fmt q) ↔ is_Some (payload q) ∧ is_Some (DtcpPacket.ty q).
Proof.
  destruct q as [[p]]. unfold derive_fmt.
  cbn [debug DtcpPacket_Debug DiscoPacket_Debug DtpPacket_Debug dtcp_inner disco_inner]. split.
  - intros [x H]. destruct (DtpPacket.channel p); [|done]. destruct (Secure.nonce _); [|done].
    cbn [mbind option_bind] in H. destruct (DtcpPacket.ty _); [|done]. cbn [mbind option_bind] in H.
    destruct (DtcpPacket.seq_num _); [|done]. cbn [mbind option_bind] in H. by destruct (payload _).
  - intros [[s Hs] [t Ht]]. rewrite Ht, Hs.
    destruct (payload_header _ _ Hs) as (h0 & h1 & h2 & Hq). cbn [dtcp_inner] in Hq.
    pose proof Hq as Hw. change (payload (MkDiscoPacket p)) with (w ← payload p; slice_from HEADER w) in Hw.
    destruct (payload p) as [w|] eqn:Hp; [|done]. apply slice_from_Some in Hw as [Hl _].
    destruct (payload_bytes p w Hp) as (c & _ & ->). cbn [mbind option_bind].
    unfold Secure.nonce. cbn [disco_inner]. rewrite Hp. cbn [mbind option_bind].
    unfold slice_to. rewrite bool_decide_true by (unfold HEADER in Hl; lia). cbn [mbind option_bind].
    rewrite read_u64_spec. unfold be_read. rewrite bool_decide_true by (unfold HEADER in Hl; rewrite length_take; lia).
    cbn [mbind option_bind].
    unfold DtcpPacket.seq_num. cbn [dtcp_inner]. rewrite Hq. cbn [mbind option_bind].
    rewrite slice_1_3. cbn [mbind option_bind]. rewrite read_u16_spec. eauto.
Qed.
End properties.

(** ** Concrete inputs *)

Module DebugExample.
Import Reference.
#[local] Instance example_profile : Profile := dev.

(** A packet of channel 7 with the nonce 258. *)
Definition packet : DtpPacket :=
  MkDtpPacket true (bytes_from (Byte.x07 :: be_bytes 8 258 ++ replicate 16 Byte.xaa ++
    dtcp_header (DtcpPacket.Transfer true) 9 ++ [Byte.x68; Byte.x69])).

Example packet_text : derive_fmt (MkDtcpPacket (MkDiscoPacket packet)) =
  Some (lit "Packet { ecn: true, channel: 7, nonce: 258, type: Transfer { drf: true }, seq_num: 9, payload: 2 }").
Proof. vm_compute. reflexivity. Qed.

(** A type that [check] refuses: the text panics. *)
Example bad_type : derive_fmt (MkDtcpPacket (MkDiscoPacket
  (MkDtpPacket false (bytes_from (Byte.x07 :: replicate 24 Byte.x00 ++ [Byte.x20; Byte.x00; Byte.x00]))))) = None.
Proof. vm_compute. reflexivity. Qed.

Lemma debug_stack_witness : is_Some (derive_fmt (MkDtcpPacket (MkDiscoPacket packet))).
Proof.
  eexists. apply (debug_stack packet Byte.x07 258 (replicate 16 Byte.xaa) (DtcpPacket.Transfer true) 9
    [Byte.x68; Byte.x69]); [unfold fits; lia|reflexivity|unfold fits; lia|reflexivity].
Defined.

Example notes_text : Packet_fmt NotesPacket.default =
  Some (lit "Packet { version: 1, type: Transfer, drf: false, ecn: false, " ++
    lit "flow control information present: false, ack/nack information present: false, " ++
    lit "selective ack/nack: false, ack/nack: false, sequence number: 0, payload: 0 }").
Proof. vm_compute. reflexivity. Qed.
End DebugExample.
