(* ===== verification/NotesProps.v ===== *)
(** * The notes: the theorems (src/notes)

    - the packet: what the accessors read and the setters write;
    - receiving: [recv_packet] on every byte string, and what a run of
      receives queues;
    - sending: numbers, windows, the queue for the closed window. *)

From Stdlib Require Import Sorted.
From S2P Require Import Dtcp Debug.
From S2P Require Export Notes.

Import NotesPacket NotesDtcp NotesDtp.

(** ** The packet *)

(** A packet's bytes: version 1, type, flags, an unused byte, the number. *)
Definition wire (t f : byte) (sn : Z) (s : list byte) : list byte :=
  Byte.x01 :: t :: f :: Byte.x00 :: be_bytes 8 sn ++ s.

Definition drf_flag (drf : bool) : byte := if drf then z2b 128 else Byte.x00.

Lemma flag_testbit mask i b : In (mask, i) [(128, 7); (64, 6); (8, 3); (4, 2); (2, 1); (1, 0)] →
  (0 <? Z.land (b2z b) mask) = Z.testbit (b2z b) i.
Proof. intros H. repeat destruct H as [[= <- <-]|H]; [by destruct b..|destruct H]. Qed.

Lemma set_drf_byte (drf : bool) b : let b' := z2b (if drf then Z.lor (b2z b) 128
                                          else Z.land (b2z b) (Z.lxor 255 128)) in
  (∀ i, 0 ≤ i < 8 → Z.testbit (b2z b') i = if decide (i = 7) then drf else Z.testbit (b2z b) i).
Proof.
  cbn zeta. intros i Hi.
  assert (i = 0 ∨ i = 1 ∨ i = 2 ∨ i = 3 ∨ i = 4 ∨ i = 5 ∨ i = 6 ∨ i = 7) as H by lia.
  destruct drf; repeat destruct H as [->|H]; try subst i; by destruct b.
Qed.

Section packet.
Context {BC : BytesCrate} {BL : BytesLaws BC} {BO : ByteOrderCrate} {BOL : ByteOrderLaws BO}.

Lemma update_data (p : Packet) l l' f : deref (data p) = l → f l = Some l' →
  length l' = length l →
  ∃ p', MkPacket <$> update_borrow f (deref_mut (data p)) = Some p' ∧ deref (data p') = l'.
Proof.
  intros <- Hf Hl. unfold update_borrow. rewrite view_deref_mut, Hf. cbn.
  eexists. split; [done|]. cbn. by apply deref_give_back.
Qed.

Lemma update_byte_spec (p : Packet) i g b l : deref (data p) = l → l !! i = Some b →
  ∃ p', update_byte i g p = Some p' ∧ deref (data p') = <[i := g b]> l.
Proof.
  intros Hl Hb. eapply update_data; [exact Hl| |by rewrite length_insert].
  rewrite Hb. cbn. unfold set_index. by rewrite bool_decide_true by (by eapply lookup_lt_Some).
Qed.

Lemma slice_4_12 (a b c d : byte) n s : length n = 8%nat →
  slice 4 12 (a :: b :: c :: d :: n ++ s) = Some n.
Proof.
  intros Hn. unfold slice. rewrite bool_decide_true by (cbn; rewrite length_app; lia).
  f_equal. by apply take_app_length'.
Qed.

Lemma set_sequence_number_spec (p : Packet) sn a b c d n s : length n = 8%nat →
  deref (data p) = a :: b :: c :: d :: n ++ s →
  ∃ p', set_sequence_number sn p = Some p' ∧ deref (data p') = a :: b :: c :: d :: be_bytes 8 sn ++ s.
Proof.
  intros Hn Hp. eapply update_data; [exact Hp| |].
  - rewrite slice_4_12 by done. cbn [mbind option_bind]. rewrite write_u64_spec. unfold be_write.
    rewrite bool_decide_true, (drop_ge n), app_nil_r by lia. cbn [mbind option_bind].
    unfold splice. rewrite length_be_bytes. f_equal. cbn [take app Nat.add drop].
    rewrite take_0, drop_app_length' by done. reflexivity.
  - cbn [length]. rewrite !length_app, length_be_bytes. lia.
Qed.

Lemma dtp_spec (s : list byte) :
  ∃ p, dtp s = Some p ∧ deref (data p) = wire Byte.x00 Byte.x00 0 s.
Proof.
  unfold dtp. set (n := Z.of_nat HEADER_LEN + _).
  assert (0 ≤ n) as H0 by (unfold n; lia).
  pose proof (remaining_with_capacity n H0) as Hn.
  rewrite put_slice_spec, bool_decide_true by (unfold n, HEADER_LEN in *; cbn; lia). cbn [mbind option_bind].
  assert (Z.of_nat (length DEFAULT) ≤ remaining_mut (with_capacity n)) as H1.
  { unfold n, HEADER_LEN in *. cbn. lia. }
  rewrite put_slice_spec, bool_decide_true.
  2: { rewrite remaining_append by done. unfold n, HEADER_LEN in *. cbn in *. lia. }
  cbn [mbind option_bind]. set (b := append s _).
  assert (deref b = DEFAULT ++ s) as Hb.
  { unfold b. rewrite deref_append, deref_append, deref_with_capacity by
      first [done | rewrite remaining_append by done; unfold n, HEADER_LEN in *; cbn in *; lia].
    done. }
  destruct (update_byte_spec (MkPacket b) 1 (λ _, type_byte Transfer) Byte.x00 _ Hb)
    as (p & ? & Hp); [done|].
  by exists p.
Qed.

Lemma sequence_number_spec (p : Packet) a b c d n s : length n = 8%nat →
  deref (data p) = a :: b :: c :: d :: n ++ s → sequence_number p = Some (be_value n).
Proof.
  intros Hn Hp. unfold sequence_number. rewrite Hp, slice_4_12 by done. cbn [mbind option_bind].
  rewrite read_u64_spec. unfold be_read. by rewrite bool_decide_true, take_ge by lia.
Qed.

Lemma split_header (l : list byte) : (12 ≤ length l)%nat →
  ∃ a b c d n s, l = a :: b :: c :: d :: n ++ s ∧ length n = 8%nat.
Proof.
  destruct l as [|a [|b [|c [|d l]]]]; cbn; try lia. intros Hl.
  exists a, b, c, d, (take 8 l), (drop 8 l). rewrite take_drop, length_take. split; [done|lia].
Qed.

Lemma flags_testbit (p : Packet) f mask i : deref (data p) !! 2%nat = Some f →
  In (mask, i) [(128, 7); (64, 6); (8, 3); (4, 2); (2, 1); (1, 0)] →
  flag mask p = Some (Z.testbit (b2z f) i).
Proof.
  intros Hf Hl. unfold flag. rewrite Hf. cbn. f_equal. by apply flag_testbit.
Qed.

(** The header of the notes' packet round-trips.  With twelve bytes of
    header, the three setters succeed, the type, the 64-bit sequence number and
    the data run flag read back, and everything else (version, the other five
    flags, the payload) reads as before. *)
Theorem notes_header_roundtrip (p : Packet) t n d : (12 ≤ length (deref (data p)))%nat → fits 64 n →
  ∃ p1 p2 q, set_type t p = Some p1 ∧ set_sequence_number n p1 = Some p2 ∧ set_drf d p2 = Some q ∧
    ty q = Some t ∧ sequence_number q = Some n ∧ drf q = Some d ∧
    version q = version p ∧ payload q = payload p ∧ ecn q = ecn p ∧ fci q = fci p ∧
    acki q = acki p ∧ sel_ack q = sel_ack p ∧ ack q = ack p.
Proof.
  intros (a & b & c & e & m & s & Hp & Hm)%split_header Hn.
  destruct (update_byte_spec p 1 (λ _, type_byte t) b _ Hp) as (p1 & H1 & D1); [done|].
  destruct (set_sequence_number_spec p1 n a (type_byte t) c e m s Hm D1) as (p2 & H2 & D2).
  set (g := λ b, z2b (if d then Z.lor (b2z b) DRF_MASK else Z.land (b2z b) (Z.lxor 255 DRF_MASK))).
  destruct (update_byte_spec p2 2 g c _ D2) as (q & H3 & D3); [done|]. cbn [insert list_insert] in D3.
  assert (∀ i, 0 ≤ i < 8 → Z.testbit (b2z (g c)) i = if decide (i = 7) then d else Z.testbit (b2z c) i)
    as Hg by apply (set_drf_byte d c).
  assert (∀ mask i, In (mask, i) [(128, 7); (64, 6); (8, 3); (4, 2); (2, 1); (1, 0)] → i ≠ 7 → 0 ≤ i < 8 →
    flag mask q = flag mask p) as Hflag.
  { intros mask i Hi H7 Hr. rewrite (flags_testbit q (g c) mask i), (flags_testbit p c mask i);
      [|by rewrite Hp|done|by rewrite D3|done]. by rewrite Hg, decide_False by done. }
  exists p1, p2, q. split_and!; try done.
  - unfold ty, raw_type. rewrite D3. by destruct t.
  - rewrite (sequence_number_spec q _ _ _ _ (be_bytes 8 n) s (length_be_bytes _ _) D3).
    by rewrite (be_value_bytes_small 8).
  - unfold drf. rewrite (flags_testbit q (g c) _ 7); [by rewrite Hg by lia|by rewrite D3|by left].
  - unfold version. by rewrite D3, Hp.
  - unfold payload, slice_from. rewrite D3, Hp. cbn [length]. rewrite !length_app, length_be_bytes, Hm.
    case_bool_decide; [|done]. f_equal. unfold HEADER_LEN. cbn [drop].
    by rewrite !drop_app_length' by (by rewrite ?length_be_bytes).
  - apply (Hflag 64 6); cbn; lia || tauto.
  - apply (Hflag 8 3); cbn; lia || tauto.
  - apply (Hflag 4 2); cbn; lia || tauto.
  - apply (Hflag 2 1); cbn; lia || tauto.
  - apply (Hflag 1 0); cbn; lia || tauto.
Qed.
End packet.

(** ** Receiving *)

(** What the header of a byte string says, if anything. *)
Inductive verdict : Type :=
| Short
| WrongVersion
| WrongType
| Pdu (drf : bool) (sn : Z).

Definition classify (l : list byte) : verdict :=
  match l with
  | [] => Short
  | v :: l =>
    if negb (b2z v =? 1) then WrongVersion
    else match l with
         | [] => Short
         | t :: l =>
           if 2 <=? b2z t then WrongType
           else match l with
                | f :: _ :: l =>
                  if bool_decide (8 ≤ length l)%nat
                  then Pdu (Z.testbit (b2z f) 7) (be_value (take 8 l))
                  else Short
                | _ => Short
                end
         end
  end.

Lemma classify_Pdu l drf sn : classify l = Pdu drf sn →
  ∃ t f d n s, l = Byte.x01 :: t :: f :: d :: n ++ s ∧ length n = 8%nat ∧ b2z t < 2 ∧
    drf = Z.testbit (b2z f) 7 ∧ sn = be_value n.
Proof.
  destruct l as [|v [|t [|f [|d l]]]]; cbn [classify];
    try (by case_match); try (by repeat case_match).
  destruct (b2z v =? 1) eqn:Ev; [|done]. cbn [negb].
  destruct (2 <=? b2z t) eqn:Et; [done|]. case_bool_decide; [|done]. intros [= <- <-].
  apply Z.eqb_eq in Ev. apply Z.leb_gt in Et.
  assert (v = Byte.x01) as -> by (by apply (inj b2z)).
  exists t, f, d, (take 8 l), (drop 8 l). rewrite take_drop, length_take. split_and!; try done; lia.
Qed.

Lemma classify_sn l drf sn : classify l = Pdu drf sn → fits 64 sn.
Proof.
  intros (t & f & d & n & s & _ & Hn & _ & _ & ->)%classify_Pdu.
  pose proof (be_value_bound n) as H. by rewrite Hn in H.
Qed.

Section receiving.
Context {BC : BytesCrate} {BL : BytesLaws BC} {BO : ByteOrderCrate} {BOL : ByteOrderLaws BO}.

(** [sn] lies in the receive window, if the flow has one. *)
Definition in_window (s : Dtp) (sn : Z) : bool :=
  match dtcp s ≫= window with
  | Some w => (receive_window_start w <=? sn) && (sn <=? receive_window_end w)
  | None => true
  end.

(** The packet is new: in the window, and beyond everything received. *)
Definition accept (b : BytesMut) (sn : Z) (s : Dtp) : Dtp :=
  if in_window s sn && (max_sequence_number_received s <? sn)
  then put_reassembly (reassembly_queue s ++ [MkPacket b]) (put_max sn s)
  else s.

Lemma in_window_eq s d sn : dtcp s = Some d → in_recv_window sn d = in_window s sn.
Proof.
  intros Hd. unfold in_recv_window, in_window. rewrite Hd. cbn. destruct (window d) as [w|]; [|done].
  rewrite !Z.leb_antisym. by destruct (sn <? receive_window_start w), (receive_window_end w <? sn).
Qed.

Lemma sequence_number_short (p : Packet) : (length (deref (data p)) < 12)%nat →
  sequence_number p = None.
Proof.
  intros Hp. unfold sequence_number, slice. by rewrite bool_decide_false by lia.
Qed.

(** Once the header is read as far as the flags. *)
Lemma recv_parsed b f s : parse b = Some (Ok (MkPacket b)) → drf (MkPacket b) = Some f →
  recv_packet b s =
  match sequence_number (MkPacket b) with
  | None => Panic
  | Some sn => Return () (if f then put_max sn s else accept b sn s)
  end.
Proof.
  intros Hp Hf. unfold recv_packet; run. rewrite Hp. cbn. rewrite Hf. cbn.
  destruct (sequence_number _) as [sn|]; [|by destruct f, (dtcp s)].
  destruct f; [done|]. unfold gets, accept. cbn.
  destruct (dtcp s) as [d|] eqn:Hd; cbn.
  - rewrite (in_window_eq s d sn Hd). destruct (in_window s sn); [|done].
    rewrite Z.leb_antisym. by destruct (_ <? sn).
  - unfold in_window. rewrite Hd. cbn. rewrite Z.leb_antisym. by destruct (_ <? sn).
Qed.

Lemma recv_packet_eq (b : BytesMut) (s : Dtp) :
  recv_packet b s =
  match classify (deref b) with
  | Short => Panic
  | WrongVersion => Throw (RecvPacket InvalidVersion) s
  | WrongType => Throw (RecvPacket InvalidType) s
  | Pdu true sn => Return () (put_max sn s)
  | Pdu false sn => Return () (accept b sn s)
  end.
Proof.
  destruct (deref b) as [|v [|t l]] eqn:Hb; cbn [classify].
  - unfold recv_packet, parse, version; run. cbn. by rewrite Hb.
  - unfold recv_packet, parse, version, raw_type; run. cbn. rewrite Hb. cbn. by destruct (b2z v =? 1).
  - assert (parse b = if negb (b2z v =? 1) then Some (Err InvalidVersion)
      else if 2 <=? b2z t then Some (Err InvalidType) else Some (Ok (MkPacket b))) as Hparse.
    { unfold parse, version, raw_type. cbn [data]. by rewrite Hb. }
    destruct (negb (b2z v =? 1)); [unfold recv_packet; run; by rewrite Hparse|].
    destruct (2 <=? b2z t); [unfold recv_packet; run; by rewrite Hparse|].
    destruct l as [|f l].
    + unfold recv_packet, drf, flag; run. rewrite Hparse. cbn. by rewrite Hb.
    + assert (drf (MkPacket b) = Some (Z.testbit (b2z f) 7)) as Hf.
      { unfold drf, flag. cbn [data]. rewrite Hb. cbn [lookup list_lookup mbind option_bind].
        f_equal. apply flag_testbit. by left. }
      rewrite (recv_parsed b _ s Hparse Hf). destruct l as [|d l].
      * by rewrite sequence_number_short by (cbn [data]; rewrite Hb; cbn; lia).
      * case_bool_decide as Hl.
        { rewrite (sequence_number_spec _ v t f d (take 8 l) (drop 8 l));
            [by destruct (Z.testbit _ 7)|rewrite length_take; lia|]. cbn [data].
          by rewrite take_drop, Hb. }
        rewrite sequence_number_short; [done|]. cbn [data]. rewrite Hb. cbn [length]. lia.
Qed.

(** C39: Receiving, on every byte string.  [recv_packet] panics exactly on what
    is too short for the field it looks at next (a wrong version or type is
    reported before); otherwise a wrong version or type is an error that
    changes nothing, a packet that starts a data run sets the number received
    last to its own, and any other packet is queued for reassembly exactly if
    its number is in the window and above every number received so far. *)
Theorem notes_recv_spec (b : BytesMut) (s : Dtp) :
  recv_packet b s =
  match classify (deref b) with
  | Short => Panic
  | WrongVersion => Throw (RecvPacket InvalidVersion) s
  | WrongType => Throw (RecvPacket InvalidType) s
  | Pdu true sn => Return () (put_max sn s)
  | Pdu false sn => Return () (accept b sn s)
  end.
Proof. apply recv_packet_eq. Qed.

(** *** A run of receives *)

Lemma last_cons_default {A} (l : list A) x d : List.last (x :: l) d = List.last l x.
Proof. revert x d. induction l as [|y l IH]; intros x d; [done|]. exact (eq_trans (IH y d) (eq_sym (IH y x))). Qed.

(** The packets of a run, one after the other; errors are ignored. *)
Fixpoint recv_all (bs : list BytesMut) (s : Dtp) : option Dtp :=
  match bs with
  | [] => Some s
  | b :: bs => s' ← final (recv_packet b s); recv_all bs s'
  end.

(** [b] is a packet of the run with number [n], in the window. *)
Definition pdu_in (s : Dtp) (b : BytesMut) (n : Z) : Prop :=
  classify (deref b) = Pdu false n ∧ in_window s n = true.

Definition starts_run (b : BytesMut) : Prop := ∃ sn, classify (deref b) = Pdu true sn.

Lemma recv_final b s : ¬ starts_run b → ∀ s', final (recv_packet b s) = Some s' →
  s' = s ∨ ∃ n, pdu_in s b n ∧ max_sequence_number_received s < n ∧
    s' = put_reassembly (reassembly_queue s ++ [MkPacket b]) (put_max n s).
Proof.
  intros Hb s'. rewrite recv_packet_eq. unfold accept.
  destruct (classify (deref b)) as [| | |[] sn] eqn:E; cbn; try (intros [= <-]; by left).
  - destruct Hb. by exists sn.
  - destruct (in_window s sn) eqn:Hw; cbn; [|intros [= <-]; by left].
    destruct (_ <? sn) eqn:Hm; cbn; intros [= <-]; [|by left].
    apply Z.ltb_lt in Hm. right. by exists sn.
Qed.

Lemma recv_new b n s : pdu_in s b n → max_sequence_number_received s < n →
  recv_packet b s = Return () (put_reassembly (reassembly_queue s ++ [MkPacket b]) (put_max n s)).
Proof.
  intros [Hc Hw] Hn. rewrite recv_packet_eq, Hc. unfold accept. rewrite Hw.
  by rewrite (proj2 (Z.ltb_lt _ _) Hn).
Qed.

Lemma pdu_in_same s s' b n : dtcp s' = dtcp s → pdu_in s' b n ↔ pdu_in s b n.
Proof. intros Hd. unfold pdu_in, in_window. by rewrite Hd. Qed.

Lemma recv_increasing (bs : list BytesMut) (s s' : Dtp) : Forall (λ b, ¬ starts_run b) bs →
  recv_all bs s = Some s' →
  ∃ qs ns, reassembly_queue s' = reassembly_queue s ++ (MkPacket <$> qs) ∧ qs `sublist_of` bs ∧
    Forall2 (pdu_in s) qs ns ∧ StronglySorted Z.lt (max_sequence_number_received s :: ns) ∧
    max_sequence_number_received s' = List.last ns (max_sequence_number_received s).
Proof.
  intros Hbs.
  revert s. induction Hbs as [|b bs Hb Hbs IH]; intros s; cbn [recv_all].
  { intros [= <-]. exists [], []. rewrite app_nil_r. repeat constructor. }
  destruct (final (recv_packet b s)) as [s1|] eqn:E; [cbn|done]. intros Hs'.
  destruct (IH s1 Hs') as (qs & ns & Hq & Hsub & Hin & Hsort & Hmax).
  destruct (recv_final b s Hb s1 E) as [->|(n & Hn & Hlt & ->)].
  { exists qs, ns. split_and!; try done. by apply sublist_cons. }
  exists (b :: qs), (n :: ns). cbn [fmap list_fmap].
  cbn in Hq, Hsort, Hmax. rewrite Hq, <-(assoc_L (++)). split_and!; try done.
  + by apply sublist_skip.
  + constructor; [done|]. eapply Forall2_impl; [exact Hin|]. intros ? ? H. by apply H.
  + constructor; [done|]. constructor; [done|].
    apply StronglySorted_inv in Hsort as [_ Hall].
    eapply Forall_impl; [exact Hall|]. intros; lia.
  + rewrite Hmax. symmetry. apply last_cons_default.
Qed.

Lemma recv_in_order (bs : list BytesMut) (ns : list Z) (s : Dtp) :
  Forall2 (pdu_in s) bs ns → StronglySorted Z.lt (max_sequence_number_received s :: ns) →
  ∃ s', recv_all bs s = Some s' ∧
    reassembly_queue s' = reassembly_queue s ++ (MkPacket <$> bs).
Proof.
  revert s ns. induction bs as [|b bs IH]; intros s ns Hin Hsort; cbn [recv_all].
  { exists s. by rewrite app_nil_r. }
  inversion Hin as [|? n ? ns' Hn Hin']; subst.
  apply StronglySorted_inv in Hsort as [Hsort Hall]. inversion Hall as [|? ? Hlt _]; subst.
  rewrite (recv_new b n s Hn Hlt). cbn [final mbind option_bind].
  set (s1 := put_reassembly _ _).
  destruct (IH s1 ns') as (s' & Hs' & Hq); [|done|].
  + eapply Forall2_impl; [exact Hin'|]. intros ? ? H. by apply H.
  + exists s'. split; [done|]. rewrite Hq. cbn. by rewrite <-(assoc_L (++)).
Qed.

(** C37: What is queued for reassembly within a data run.  Whatever byte strings
    arrive, in any order and any number of times, the packets queued are some
    of those that arrived, in the order of arrival, with numbers in the window
    that increase strictly from the number received last: nothing is queued
    twice, and no replayed or late packet is queued.  Packets that do arrive in
    increasing order are all queued. *)
Theorem notes_reassembly (bs : list BytesMut) (s : Dtp) : Forall (λ b, ¬ starts_run b) bs →
  (∀ s', recv_all bs s = Some s' →
     ∃ qs ns, reassembly_queue s' = reassembly_queue s ++ (MkPacket <$> qs) ∧ qs `sublist_of` bs ∧
       Forall2 (pdu_in s) qs ns ∧ StronglySorted Z.lt (max_sequence_number_received s :: ns) ∧
       max_sequence_number_received s' = List.last ns (max_sequence_number_received s)) ∧
  (∀ ns, Forall2 (pdu_in s) bs ns → StronglySorted Z.lt (max_sequence_number_received s :: ns) →
     ∃ s', recv_all bs s = Some s' ∧
       reassembly_queue s' = reassembly_queue s ++ (MkPacket <$> bs)).
Proof.
  intros Hbs. split; [intros s'; by apply recv_increasing|intros ns; apply recv_in_order].
Qed.
End receiving.

(** ** Sending *)

Section sending.
Context {BC : BytesCrate} {BL : BytesLaws BC} {BO : ByteOrderCrate} {BOL : ByteOrderLaws BO}.
Context {PR : Profile} {C : Type} `{!Clock C}.

#[local] Arguments set_sequence_number : simpl never.
#[local] Arguments sequence_number : simpl never.
#[local] Arguments set_drf : simpl never.
#[local] Arguments register_packet : simpl never.
#[local] Arguments Nat.ltb : simpl never.

#[local] Abbreviation flow := (flow (C:=C)).

Lemma int_add_small w a b : 0 ≤ a + b < 2 ^ w → int_add w a b = Some (a + b).
Proof.
  intros H. unfold int_add, wrap. rewrite Z.mod_small by done.
  rewrite (proj2 (Z.leb_gt _ _)) by lia. by rewrite andb_false_r.
Qed.

Lemma number_packet_eq pl (s : flow) : fits 64 (next_number s.1) → fits 64 (next_number s.1 + 1) →
  ∃ p, number_packet pl s = Return p (on_dtp (put_number (next_number s.1 + 1)) s) ∧
    deref (data p) = wire Byte.x00 Byte.x00 (next_number s.1) pl.
Proof.
  intros Hn Hn1. destruct (dtp_spec pl) as (p & Hp & Hd).
  destruct (set_sequence_number_spec p (next_number s.1) _ _ _ _ (be_bytes 8 0) pl eq_refl Hd)
    as (p' & Hp' & Hd').
  exists p'. split; [|done]. unfold number_packet; run. rewrite Hp. cbn. rewrite Hp'. cbn.
  by rewrite int_add_small.
Qed.

(** The data run flag of the next packet. *)
Definition drf_of (s : Dtp) : bool :=
  match dtcp s with Some d => set_drf_flag d | None => false end.

(** The last statement of [send_packet]. *)
Definition report (s : flow) : outcome SendError flow () :=
  if (max_closed_window_queue_len s.1 <? length (closed_window_queue s.1))%nat
  then Throw MaxClosedWindowQueue s else Return () s.

Lemma report_eq (s : flow) :
  (if (max_closed_window_queue_len s.1 <? length (closed_window_queue s.1))%nat
   then throw MaxClosedWindowQueue else mret ()) s = report s.
Proof. unfold report. by destruct (_ <? _)%nat. Qed.

Lemma send_packet_eq pl (s : Dtp) (clk : C) : fits 64 (next_number s) → fits 64 (next_number s + 1) →
  ∃ p, deref (data p) = wire Byte.x00 (drf_flag (drf_of s)) (next_number s) pl ∧
    send_packet pl (s, clk) =
    let s1 := put_number (next_number s + 1) s in
    match dtcp s with
    | None => report (s1, clk)
    | Some d =>
      let d := (take_drf d).2 in
      if in_send_window (next_number s) d then
        match register_packet p d clk with
        | Some (d', clk') => report (put_dtcp d' s1, clk')
        | None => Panic
        end
      else report (put_closed (closed_window_queue s ++ [p]) (put_dtcp d s1), clk)
    end.
Proof.
  intros Hn Hn1. destruct (number_packet_eq pl (s, clk) Hn Hn1) as (p & Hp & Hd). cbn in Hp, Hd.
  unfold send_packet; run. rewrite Hp. unfold drf_of. cbn.
  destruct (dtcp s) as [d|] eqn:E; cbn.
  2: { exists p. split; [done|]. by rewrite <-report_eq. }
  destruct (update_byte_spec p 2 (λ b, z2b (if set_drf_flag d then Z.lor (b2z b) DRF_MASK
    else Z.land (b2z b) (Z.lxor 255 DRF_MASK))) Byte.x00 _ Hd) as (p' & Hp' & Hd'); [done|].
  exists p'. split; [rewrite Hd'; by destruct (set_drf_flag d)|].
  unfold set_drf. rewrite Hp'. cbn.
  rewrite (sequence_number_spec p' Byte.x01 Byte.x00 (drf_flag (set_drf_flag d)) Byte.x00
    (be_bytes 8 (next_number s)) pl) by (try apply length_be_bytes; rewrite Hd'; by destruct (set_drf_flag d)).
  rewrite (be_value_bytes_small 8) by done. cbn.
  destruct (in_send_window _ _); cbn; [|by rewrite <-report_eq].
  destruct (register_packet _ _ _) as [[]|]; [|done]. cbn. by rewrite <-report_eq.
Qed.

(** *** A run of sends *)

Fixpoint send_all (pls : list (list byte)) (s : flow)
    : option (list (result () SendError) * flow) :=
  match pls with
  | [] => Some ([], s)
  | pl :: pls =>
    match send_packet pl s with
    | Return _ s' => '(rs, s'') ← send_all pls s'; Some (Ok () :: rs, s'')
    | Throw e s' => '(rs, s'') ← send_all pls s'; Some (Err e :: rs, s'')
    | _ => None
    end
  end.

(** What a send returns that leaves [n] packets in the queue. *)
Definition verdict_at (max n : nat) : result () SendError :=
  if (max <? n)%nat then Err MaxClosedWindowQueue else Ok ().

(** The packet that carries a payload under a number. *)
Definition carries (p : Packet) (x : Z * list byte) : Prop :=
  ∃ f, deref (data p) = wire Byte.x00 f x.1 x.2.

Lemma send_closed pl (s : Dtp) (clk : C) d w : dtcp s = Some d → window d = Some w →
  send_window_end w < next_number s → fits 64 (next_number s) → fits 64 (next_number s + 1) →
  ∃ p, carries p (next_number s, pl) ∧
    send_packet pl (s, clk) =
    report (put_closed (closed_window_queue s ++ [p])
              (put_dtcp (take_drf d).2 (put_number (next_number s + 1) s)), clk).
Proof.
  intros Hd Hw Hlt Hn Hn1. destruct (send_packet_eq pl s clk Hn Hn1) as (p & Hp & ->).
  exists p. split; [by eexists|]. rewrite Hd. cbn zeta.
  assert (in_send_window (next_number s) (take_drf d).2 = false) as ->; [|done].
  unfold in_send_window, take_drf. cbn [snd window]. rewrite Hw. unfold window_open.
  by rewrite (proj2 (Z.leb_gt _ _)).
Qed.

(** C40: Sending into a closed window.  Once the next number is beyond the send
    window, every further payload is put into the closed window queue, in
    order and under consecutive numbers, and none is dropped: the configured
    maximum does not bound the queue.  It decides what is reported: a send
    returns the error exactly when the queue is longer than the maximum after
    it, and the packet is queued nonetheless. *)
Theorem notes_closed_window (pls : list (list byte)) (s : Dtp) (clk : C) d w :
  dtcp s = Some d → window d = Some w → send_window_end w < next_number s →
  0 ≤ next_number s → next_number s + Z.of_nat (length pls) < 2 ^ 64 →
  ∃ s' ps,
    send_all pls (s, clk) =
      Some (verdict_at (max_closed_window_queue_len s) <$>
              seq (S (length (closed_window_queue s))) (length pls), (s', clk)) ∧
    closed_window_queue s' = closed_window_queue s ++ ps ∧
    Forall2 carries ps (zip (seqZ (next_number s) (Z.of_nat (length pls))) pls).
Proof.
  revert s d. induction pls as [|pl pls IH]; intros s d Hd Hw Hlt H0 Hn.
  { exists s, []. rewrite app_nil_r. split_and!; try done. }
  cbn [length] in Hn.
  destruct (send_closed pl s clk d w) as (p & Hp & Hs); try done; [unfold fits; lia..|].
  set (s1 := put_closed _ _) in Hs.
  destruct (IH s1 (take_drf d).2) as (s' & ps & Hs' & Hq & Hps); try done; [cbn; lia..|].
  exists s', (p :: ps). cbn [send_all]. rewrite Hs. split_and!.
  - assert (length (closed_window_queue s1) = S (length (closed_window_queue s))) as Hl.
    { cbn. rewrite length_app. cbn. lia. }
    rewrite Hl in Hs'. cbn [length seq fmap list_fmap]. unfold report. cbn [fst]. rewrite Hl.
    change (max_closed_window_queue_len s1) with (max_closed_window_queue_len s) in *.
    unfold verdict_at at 1. destruct (_ <? _)%nat; by rewrite Hs'.
  - rewrite Hq. cbn [closed_window_queue s1 put_closed]. by rewrite <-(assoc_L (++)).
  - rewrite seqZ_cons by (cbn; lia). cbn [zip zip_with]. constructor; [done|].
    replace (Z.pred (Z.of_nat (length (pl :: pls)))) with (Z.of_nat (length pls)) by (cbn; lia).
    exact Hps.
Qed.

(** ** What the queues hold *)

Definition well_formed (p : Packet) : Prop := ∃ drf sn, classify (deref (data p)) = Pdu drf sn.

Definition counters_fit (d : Dtcp) : Prop :=
  ∀ r, rate d = Some r → fits 32 (sending_rate r) ∧ fits 32 (pdus_sent_in_time_unit r).

Record typed (s : Dtp) : Prop := {
  typed_closed : Forall well_formed (closed_window_queue s);
  typed_reassembly : Forall well_formed (reassembly_queue s);
  typed_number : fits 64 (next_number s);
  typed_max : fits 64 (max_sequence_number_received s);
  typed_retx d r : dtcp s = Some d → retx d = Some r →
    Forall (λ x, well_formed x.1) (retransmission_queue r);
  typed_rate d : dtcp s = Some d → counters_fit d
}.

Lemma wire_well_formed (p : Packet) f n s : deref (data p) = wire Byte.x00 f n s → well_formed p.
Proof.
  intros Hp. unfold well_formed. rewrite Hp. unfold wire. cbn [classify].
  rewrite bool_decide_true by (rewrite length_app, length_be_bytes; lia). by eexists _, _.
Qed.

Lemma typed_recv b (s : Dtp) : typed s →
  match recv_packet b s with
  | Return _ s' | Throw _ s' => typed s'
  | Panic => classify (deref b) = Short
  | _ => False
  end.
Proof.
  intros Hs. rewrite recv_packet_eq. destruct (classify (deref b)) as [| | |drf sn] eqn:E; try done.
  pose proof (classify_sn _ _ _ E) as Hsn. destruct Hs. destruct drf; [by split|].
  unfold accept. destruct (_ && _); split; try done. cbn. apply Forall_app_2; [done|].
  constructor; [by exists false, sn|constructor].
Qed.

Lemma register_typed p d (clk : C) n : well_formed p → counters_fit d →
  (∀ r, retx d = Some r → Forall (λ x, well_formed x.1) (retransmission_queue r)) →
  in_send_window n d = true →
  ∃ d' clk', register_packet p d clk = Some (d', clk') ∧ counters_fit d' ∧
    ∀ r, retx d' = Some r → Forall (λ x, well_formed x.1) (retransmission_queue r).
Proof.
  intros Hp Hd Hq Hw.
  assert (∃ ra, (match rate d with
                 | Some rate => rate ← rate_register p rate; Some (Some rate)
                 | None => Some None
                 end) = Some ra ∧ ∀ r, ra = Some r → fits 32 (sending_rate r) ∧ fits 32 (pdus_sent_in_time_unit r))
    as (ra & Hra & Hfit).
  { unfold in_send_window, rate_open in Hw. destruct (rate d) as [r|] eqn:Er; [|by exists None].
    destruct (Hd r Er) as [H1 H2]. unfold rate_register.
    destruct (pdus_sent_in_time_unit r <? sending_rate r) eqn:Hlt; [|by repeat case_match].
    apply Z.ltb_lt in Hlt. rewrite int_add_small by (unfold fits in *; lia). cbn.
    eexists. split; [done|]. intros r' [= <-]. cbn. unfold fits in *. lia. }
  unfold register_packet, retx_register. destruct (retx d) as [re|] eqn:Ere.
  - destruct (now clk) as [t clk']. rewrite Hra. cbn. eexists _, _. split_and!; [done|exact Hfit|].
    intros r' [= <-]. cbn. apply Forall_app_2; [by apply Hq|]. by constructor.
  - rewrite Hra. cbn. eexists _, _. split_and!; [done|exact Hfit|done].
Qed.

Lemma typed_report (s : Dtp) (clk : C) : typed s →
  match report (s, clk) with Return _ s' | Throw _ s' => typed s'.1 | _ => False end.
Proof. intros Hs. unfold report. by destruct (_ <? _)%nat. Qed.

Lemma typed_send pl (s : Dtp) (clk : C) : typed s → fits 64 (next_number s + 1) →
  match send_packet pl (s, clk) with Return _ s' | Throw _ s' => typed s'.1 | _ => False end.
Proof.
  intros Hs Hn1. destruct (send_packet_eq pl s clk (typed_number _ Hs) Hn1) as (p & Hp & ->).
  apply wire_well_formed in Hp. cbn zeta. destruct Hs as [Hcl Hre Hnum Hmax Hrt Hra].
  destruct (dtcp s) as [d|] eqn:Hd; [|apply typed_report; split; try done; cbn; by rewrite Hd].
  destruct (in_send_window _ _) eqn:Hw.
  - destruct (register_typed p (take_drf d).2 clk _ Hp (Hra d eq_refl) (λ r, Hrt d r eq_refl) Hw)
      as (d' & clk' & -> & Hc & Hq).
    apply typed_report. split; try done; cbn; intros; simplify_eq; eauto.
  - apply typed_report. split; try done; cbn.
    + apply Forall_app_2; [done|]. by constructor.
    + intros ? r [= <-]. exact (Hrt d r eq_refl).
    + intros ? [= <-]. exact (Hra d eq_refl).
Qed.
(** ** From one flow to another *)

(** The packets a flow without flow control builds for a list of payloads. *)
Fixpoint number_all (pls : list (list byte)) : M SendError flow (list Packet) :=
  match pls with
  | [] => mret []
  | pl :: pls => p ← number_packet pl; ps ← number_all pls; mret (p :: ps)
  end.

Lemma number_all_eq pls (s : Dtp) (clk : C) : 0 ≤ next_number s →
  next_number s + Z.of_nat (length pls) < 2 ^ 64 →
  ∃ s' ps, number_all pls (s, clk) = Return ps (s', clk) ∧
    Forall2 (λ b n, classify (deref b) = Pdu false n) (data <$> ps)
      (seqZ (next_number s) (Z.of_nat (length pls))) ∧
    Forall2 (λ p pl, payload p = Some pl) ps pls.
Proof.
  revert s. induction pls as [|pl pls IH]; intros s H0 Hn; cbn [number_all].
  { exists s, []. split_and!; [done|constructor|constructor]. }
  cbn [length] in *.
  destruct (number_packet_eq pl (s, clk)) as (p & Hp & Hd); [unfold fits; cbn; lia..|].
  destruct (IH (put_number (next_number s + 1) s)) as (s' & ps & Hps & Hc & Hpl); [cbn; lia..|].
  exists s', (p :: ps). run. rewrite Hp.
  change (on_dtp _ (s, clk)) with (put_number (next_number s + 1) s, clk). rewrite Hps.
  cbn [fst] in *. split_and!; [done| |].
  - rewrite seqZ_cons by lia. constructor.
    + rewrite Hd. unfold wire. cbn [classify].
      rewrite bool_decide_true by (rewrite length_app, length_be_bytes; lia).
      rewrite take_app_length' by (by rewrite length_be_bytes).
      rewrite (be_value_bytes_small 8) by (unfold fits; lia). reflexivity.
    + by replace (Z.pred (Z.of_nat (S (length pls)))) with (Z.of_nat (length pls)) by lia.
  - constructor; [|done]. unfold payload. rewrite Hd. unfold wire, slice_from.
    rewrite bool_decide_true by (cbn [length]; rewrite length_app, length_be_bytes; unfold HEADER_LEN; lia).
    f_equal.
Qed.

Lemma StronglySorted_seqZ m n : StronglySorted Z.lt (seqZ m (Z.of_nat n)).
Proof.
  revert m. induction n as [|n IH]; intros m; [constructor|].
  rewrite seqZ_cons by lia. replace (Z.pred (Z.of_nat (S n))) with (Z.of_nat n) by lia.
  constructor; [apply IH|]. apply Forall_forall. intros x [H _]%elem_of_seqZ. lia.
Qed.

(** Two fresh flows without flow control, over a medium that delivers
    everything in order.  The payloads arrive for reassembly in order, except
    the first: the sender numbers it 0 and does not mark the start of a run,
    and the receiver takes 0 for a number it has received. *)
Theorem notes_first_packet_lost (pl : list byte) (pls : list (list byte)) max max' (clk : C) :
  Z.of_nat (length (pl :: pls)) < 2 ^ 64 →
  ∃ p ps s s', number_all (pl :: pls) (new max, clk) = Return (p :: ps) (s, clk) ∧
    recv_all (data <$> p :: ps) (new max') = Some s' ∧
    reassembly_queue s' = ps ∧ Forall2 (λ p pl, payload p = Some pl) (p :: ps) (pl :: pls).
Proof.
  intros Hl. destruct (number_all_eq (pl :: pls) (new max) clk) as (s & ps & Hps & Hc & Hpl); [done..|].
  destruct ps as [|p ps]; [inversion Hpl|]. exists p, ps, s.
  cbn [next_number new fmap list_fmap] in Hc. cbn [length] in Hc.
  rewrite seqZ_cons in Hc by lia. apply Forall2_cons in Hc as [Hc Hcs].
  replace (Z.pred (Z.of_nat (S (length pls)))) with (Z.of_nat (length pls)) in Hcs by lia.
  destruct (recv_in_order (data <$> ps) (seqZ 1 (Z.of_nat (length pls))) (new max')) as (s' & Hs' & Hq).
  - eapply Forall2_impl; [exact Hcs|]. by intros b n Hb.
  - pose proof (StronglySorted_seqZ 0 (S (length pls))) as H. rewrite seqZ_cons in H by lia.
    by replace (Z.pred (Z.of_nat (S (length pls)))) with (Z.of_nat (length pls)) in H by lia.
  - exists s'. split_and!; [done| |rewrite Hq; cbn|done].
    + cbn [fmap list_fmap recv_all]. rewrite recv_packet_eq, Hc. exact Hs'.
    + clear. induction ps as [|[] ps IH]; cbn; [done|]. by rewrite IH.
Qed.
End sending.

(** On a well-formed packet every accessor is defined. *)
Lemma accessors_defined {BC : BytesCrate} {BL : BytesLaws BC} {BO : ByteOrderCrate}
    {BOL : ByteOrderLaws BO} {BS : BytesSplit BC} {BSL : BytesSplitLaws BS} p : well_formed p →
  version p = Some 1 ∧ is_Some (ty p) ∧ (∃ sn, sequence_number p = Some sn ∧ fits 64 sn) ∧
  is_Some (drf p) ∧ is_Some (ecn p) ∧ is_Some (fci p) ∧ is_Some (acki p) ∧
  is_Some (sel_ack p) ∧ is_Some (ack p) ∧
  ∃ s b, payload p = Some s ∧ into_payload p = Some b ∧ deref b = s.
Proof.
  intros (dr & sn & (t & f & d & n & s & Hl & Hn & Ht & _ & ->)%classify_Pdu).
  pose proof (b2z_bound t). unfold version, ty, raw_type, drf, ecn, fci, acki, sel_ack, ack, flag, payload,
    into_payload. rewrite (sequence_number_spec p _ _ _ _ _ _ Hn Hl).
  destruct (split_to_spec HEADER_LEN (data p)) as (b1 & b2 & -> & _ & Hb2).
  { rewrite Hl. unfold HEADER_LEN. cbn. rewrite length_app. lia. }
  rewrite Hl in *. cbn. split_and!; try by eexists.
  + assert (b2z t = 0 ∨ b2z t = 1) as [-> | ->] by lia; by eexists.
  + eexists. split; [done|]. pose proof (be_value_bound n) as Hb. by rewrite Hn in Hb.
  + unfold slice_from. rewrite bool_decide_true by (unfold HEADER_LEN; cbn; rewrite length_app; lia). eauto.
Qed.

(** C38: Types of the stored data.  A new flow holds well-formed packets and
    numbers in range only, and sends and receives keep it so.  A receive
    panics on byte strings that are too short and on nothing else; a send
    panics never before the last sequence number is used up, the 32-bit
    counter of the rate control included.  On a well-formed packet every
    accessor is defined, and so is the text that [Debug] prints: the type is
    one of the two ([unreachable!] is not reached), no index is out of
    range. *)
Theorem notes_typed {BC : BytesCrate} {BL : BytesLaws BC} {BO : ByteOrderCrate}
    {BOL : ByteOrderLaws BO} {BS : BytesSplit BC} {BSL : BytesSplitLaws BS} {PR : Profile}
    {C : Type} `{!Clock C} :
  (∀ max, typed (new max)) ∧
  (∀ b (s : Dtp), typed s →
     match recv_packet b s with
     | Return _ s' | Throw _ s' => typed s'
     | Panic => classify (deref b) = Short
     | _ => False
     end) ∧
  (∀ pl (s : Dtp) (clk : C), typed s → next_number s + 1 < 2 ^ 64 →
     match send_packet pl (s, clk) with Return _ s' | Throw _ s' => typed s'.1 | _ => False end) ∧
  (∀ p, well_formed p →
     version p = Some 1 ∧ is_Some (ty p) ∧ (∃ sn, sequence_number p = Some sn ∧ fits 64 sn) ∧
     is_Some (drf p) ∧ is_Some (ecn p) ∧ is_Some (fci p) ∧ is_Some (acki p) ∧
     is_Some (sel_ack p) ∧ is_Some (ack p) ∧ is_Some (Packet_fmt p) ∧
     ∃ s b, payload p = Some s ∧ into_payload p = Some b ∧ deref b = s).
Proof.
  split_and!.
  - intros max. split; cbn; try done; constructor; done.
  - apply typed_recv.
  - intros pl s clk Hs Hn. apply typed_send; [done|]. pose proof (typed_number _ Hs). unfold fits in *. lia.
  - intros p (? & ? & (sn & ? & ?) & ? & ? & ? & ? & ? & ? & s & b & ? & ? & ?)%accessors_defined.
    split_and!; eauto. apply Packet_fmt_defined; eauto.
Qed.
