(* ===== verification/NotesExamples.v ===== *)
(** * The notes: runs over the reference crates

    The theorems of NotesProps.v at concrete inputs, and two byte strings on
    which a receive panics. *)

From Stdlib Require Import Sorted.
From S2P Require Import Dtcp.
From S2P Require Export NotesProps.

Import Reference NotesPacket NotesDtcp NotesDtp.

#[local] Instance example_profile : Profile := dev.

Module NotesExample.
(** A clock that advances with each reading. *)
#[local] Instance ticking : Clock Z := {| now t := (t, t + 1) |}.

(** A datagram with a number and one byte of payload. *)
Definition datagram (drf : bool) (sn : Z) (x : byte) : BytesMut :=
  bytes_from (wire Byte.x00 (drf_flag drf) sn [x]).

(** Number 2 comes twice, and 1 after it. *)
Definition arriving : list BytesMut :=
  [datagram false 2 Byte.xaa; datagram false 2 Byte.xaa; datagram false 1 Byte.xbb;
   datagram false 5 Byte.xcc].

Lemma arriving_no_run : Forall (λ b, ¬ starts_run b) arriving.
Proof. repeat constructor; intros [sn H]; discriminate H. Qed.

Lemma notes_recv_spec_witness :
  recv_packet (datagram true 7 Byte.xaa) (new 4) = Return () (put_max 7 (new 4)).
Proof. rewrite (notes_recv_spec (datagram true 7 Byte.xaa) (new 4)). reflexivity. Defined.

(** The second and third datagram are not queued. *)
Example arriving_queued :
  (reassembly_queue <$> recv_all arriving (new 4)) =
  Some [MkPacket (datagram false 2 Byte.xaa); MkPacket (datagram false 5 Byte.xcc)].
Proof. reflexivity. Qed.

(** Datagrams 1, 2, 3 are all queued. *)
Definition in_order : list BytesMut :=
  [datagram false 1 Byte.xaa; datagram false 2 Byte.xbb; datagram false 3 Byte.xcc].

Lemma notes_reassembly_witness :
  ∃ s', recv_all in_order (new 4) = Some s' ∧ reassembly_queue s' = MkPacket <$> in_order.
Proof.
  apply (notes_reassembly in_order (new 4)) with (ns := [1; 2; 3]).
  - repeat constructor; intros [sn H]; discriminate H.
  - repeat constructor.
  - repeat constructor.
Defined.

(** A flow whose send window ends at 9, with two packets of room. *)
Definition closed : Dtp :=
  MkDtp (Some (MkDtcp true true 0 None (Some (MkWindowFlowControl 0 9 0 100)) None))
    2 [] 0 10 [].

Lemma notes_closed_window_witness :
  ∃ s' ps, send_all [[Byte.xaa]; [Byte.xbb]; [Byte.xcc]] (closed, 0) =
      Some ([Ok (); Ok (); Err MaxClosedWindowQueue], (s', 0)) ∧
    closed_window_queue s' = ps ∧ length ps = 3%nat.
Proof.
  destruct (notes_closed_window [[Byte.xaa]; [Byte.xbb]; [Byte.xcc]] closed 0
    (MkDtcp true true 0 None (Some (MkWindowFlowControl 0 9 0 100)) None)
    (MkWindowFlowControl 0 9 0 100)) as (s' & ps & Hs & Hq & Hps);
    [reflexivity|reflexivity|cbn; lia|cbn; lia|cbn; lia|].
  exists s', ps. split_and!; [exact Hs|exact Hq|]. by apply Forall2_length in Hps.
Defined.

Lemma notes_typed_witness : typed (new 4) ∧ no_panic (send_packet [Byte.xaa] (new 4, 0)).
Proof.
  destruct (notes_typed (PR:=dev) (C:=Z)) as (Hnew & _ & Hsend & _). split; [apply Hnew|].
  specialize (Hsend [Byte.xaa] (new 4) 0 (Hnew 4%nat)). cbn [next_number new] in Hsend.
  specialize (Hsend ltac:(lia)). by destruct (send_packet [Byte.xaa] (new 4, 0)).
Defined.

Lemma notes_first_packet_lost_witness : ∃ p ps s s',
  number_all [[Byte.xaa]; [Byte.xbb]] (new 4, 0) = Return (p :: ps) (s, 0) ∧
  recv_all (data <$> p :: ps) (new 4) = Some s' ∧
  reassembly_queue s' = ps ∧
  Forall2 (λ p pl, payload p = Some pl) (p :: ps) [[Byte.xaa]; [Byte.xbb]].
Proof. apply (notes_first_packet_lost [Byte.xaa] [[Byte.xbb]] 4 4 0). cbn. lia. Defined.

Lemma notes_header_roundtrip_witness : ∃ p1 p2 q,
  set_type Control default = Some p1 ∧ set_sequence_number 4660 p1 = Some p2 ∧
  set_drf true p2 = Some q ∧ sequence_number q = Some 4660.
Proof.
  destruct (notes_header_roundtrip default Control 4660 true) as (p1 & p2 & q & ? & ? & ? & _ & ? & _);
    [cbn; lia|unfold fits; lia|]. by exists p1, p2, q.
Defined.

(** A datagram that ends before the flags, and one that ends before the
    number: [parse] accepts both. *)
Example short_panics :
  recv_packet (bytes_from [Byte.x01; Byte.x00]) (new 4) = Panic ∧
  recv_packet (bytes_from [Byte.x01; Byte.x00; Byte.x00; Byte.x00]) (new 4) = Panic ∧
  is_Some (parse (bytes_from [Byte.x01; Byte.x00])).
Proof. split_and!; [reflexivity..|by eexists]. Qed.
End NotesExample.
